(* ===== verification/_CoqProject ===== *)
-Q . S2P
Prelude.v
Schema.v
Value.v
Registry.v
RegistryThreads.v
Gate.v
Utf8.v
Binary.v
Native.v
Json.v
Base64.v
Compat.v
Serialize.v
SchemaCodec.v
Protocol.v
Channel.v
Grant.v
Bus.v
Switchboard.v
Enqueue.v
Invariant.v
Dispatch.v
Delivery.v
Loop.v
Lifecycle.v
Scenarios.v
Residents.v
Abi.v
Kernel.v
KernelSafety.v
Ownership.v
KernelScenarios.v
Posix.v
Sandbox.v
Confine.v
Host.v
HostSafety.v
SandboxSafety.v
ConfineSafety.v
Reaping.v
Detection.v
HostInvariant.v
HostRun.v
Supervision.v
HostScenarios.v
Child.v
ChildRun.v
ChildScenarios.v
Shape.v
Authored.v
Control.v
AuthorScenarios.v
ControlBus.v
ControlScenarios.v
Seed.v
SeedScenes.v
Likeness.v
Transparent.v
HotSwap.v
TransparentScenes.v
Quickstart.v
Heartbeat.v
HeartbeatAuthored.v
Elsewhere.v
