(* ===== verification/Prelude.v ===== *)
(** * Zen: a verification library for the zen-core repository

    Zen is a C++ library for values that describe themselves: immutable schemas
    with a content id, one structural gate through which every value enters, a
    binary and a JSON serialization, a message bus of isolated shards (the
    switchboard), a kernel that loads shards from shared libraries, and hosts that
    run them in sandboxed processes.  This library models the C++ sources function
    by function and proves what makes them correct.

    ** The parts, bottom up

    - [Prelude]: octets, machine words (a w-bit integer is a [Z] with its wrap
      around written out: [u8] .. [u64], [i64]), exceptions, the result type
      ([Ok], [Throw e], [UB] for undefined behaviour: an out-of-range index, a null
      dereference, a call into a closed library) and the state-and-exception monad
      [M], with Hoare triples for it.
    - [Schema] (kind.hpp, schema.hpp, schema.cpp, detail/hash.hpp), [Value]
      (value.hpp, value.cpp), [Registry] (registry.hpp, registry.cpp; under threads,
      [RegistryThreads]), [Gate] (admission.hpp, gate.hpp, gate.cpp, detail/gate_internal.hpp).
    - [Utf8], [Json] (detail/json.cpp), [Base64] (detail/base64.cpp), [Binary]
      (detail/binary.cpp), and on top of them the two codecs of serialize.cpp:
      [Native] (binary bodies), [Compat] (JSON bodies), [Serialize] (the envelopes,
      [parse], [admit]).
    - The bus: [Grant] (switchboard/grant.hpp), [Bus] (message.hpp, bus.hpp,
      shard.hpp), [Switchboard] (switchboard.cpp), and the files that prove its
      theorems: [Enqueue], [Invariant], [Dispatch], [Delivery], [Loop],
      [Lifecycle], [Residents]; [Scenarios] has the concrete runs.
    - The kernel: [SchemaCodec] (kernel/schema_codec.hpp), [Abi] (kernel/abi.h,
      kernel/export.hpp), [Kernel] (kernel.hpp, kernel.cpp), its invariant in
      [KernelSafety], the same for a host that takes loaded shards off the bus and
      keeps them in [Ownership], and concrete runs in [KernelScenarios].
    - Isolation: [Protocol] (isolation/protocol.hpp) and [Channel]
      (isolation/channel.hpp, channel.cpp).  The host: [Posix] (the
      system calls, as a trace of calls and answers), [Sandbox] (sandbox.hpp,
      sandbox.cpp: probing, namespaces, id maps, mount plans, control groups),
      [Confine] (host.cpp: the restricted view, a link, launching, the handshake,
      confirmation, teardown), [Host] (host.hpp, host.cpp: the proxy,
      [IsolationHost], its step).  [HostSafety], [SandboxSafety] and
      [ConfineSafety] prove what one call does, [Reaping] which processes a link
      starts and sees the end of, [Detection] what the report of the host's means
      says, [HostInvariant] the invariant of the host with its bus, [HostRun] the
      theorems over every reachable host and [Supervision] the turn that recovers a
      child or gives it up; [HostScenarios] has the concrete runs.
    - The other end of a link: [Child] (shard_host_main.cpp, the program a host
      launches), [ChildRun] (the conversation it refines, and its agreement with the
      host), [ChildScenarios].
    - Authoring: [Shape] (author/shape.hpp), [Authored] (author/shard.hpp),
      [AuthorScenarios].  [Control] (kernel/control.hpp) is a shard written with them
      that calls the kernel; its handlers change the bus that is running them, so
      [ControlBus] has the dispatch loop of a bus that holds it, over the kernel's
      world, and the invariant of the kernel through it; [ControlScenarios].
    - [Seed] and [SeedScenes] (nucleus.cpp): the stand-alone prototype, with a gate of
      its own; nothing else uses them.
    - Over the parts: [Likeness] compares two buses that differ in their shards only,
      under any relation the shard interface respects, order by order of a host;
      [Transparent] instantiates it with a shard and its own library, [HotSwap] with a
      library reloaded under a running shard ([TransparentScenes] has the runs).
    - The programs of examples/: [Quickstart], [Heartbeat], [HeartbeatAuthored].
      [Elsewhere] has the stubs of sandbox.cpp for platforms other than Linux.

    A C++ class is a [Record] with its members in order, a method a [Definition]
    taking the object (or a computation of [M]) under the method's own name, an
    exception a [Throw] with the constructor of [exn] for its class.  What a class
    takes from its clients is a Rocq class: [ShardOps] is the virtual interface
    [zen::sb::Shard], [ObserverOps] a [std::function] observer, [LibraryOps] the C
    ABI of a loaded library; their laws ([ShardLaws], [LibraryLaws]) say what C++
    typing gives (a schema object is a well-formed one) or that the code does not
    crash, and concrete instances discharge them.  A shard's [handle] is a
    [Handler], the tree of the calls it makes back to its bus.

    ** What is proved

    - Schemas and the registry: what the constructor accepts and refuses, that the
      id it computes is the FNV-1a hash of a stream that determines the schema, and
      that every change of a single octet of it changes the id, that publishing never changes what is published.  Under threads: whatever the
      interleaving, the registry's calls answer as if each ran by itself at a moment
      between its start and its return; no two threads race; every call returns.
    - The gate: it accepts exactly the conforming values and reports every offence
      in order; every entrance, binary, JSON or live, runs it.
    - The codecs: round trips for both formats, canonicity of accepted bytes (one
      byte string per value), totality on arbitrary input, the integer, text and
      base64 primitives as bijections on their domains.
    - The bus: an invariant of every reachable state, the verdict and the order of
      the checks on every delivery, finality of outcomes, confinement of a handler
      to its own identity, fan-out, termination of the dispatch loop for handlers
      that lose weight, revival, its budget, and state swaps as refinements of a
      contract; and what a throwing handler does to the loop.
    - The kernel: schemas cross the library boundary unchanged, reconstruction
      never crashes on hostile manifests and only ever extends the registry;
      as long as the host unloads no library whose adapter it holds or has registered
      again, no adapter points into a closed library, no instance
      is shared or left behind, and that condition is needed; destruction leaves
      nothing alive; what a throwing [reload_from] leaves open.
    - Isolation: two channels over a byte stream deliver the frames queued, in
      order, whatever the fragmentation; buffers are bounded on the receiving side
      and not on the sending one; hostile streams never cause an over-read.

    - The host: whatever the system answers and whatever the children send, every
      proxy on the bus is confined as its grant says, with the evidence the host
      saw for it; a mount succeeds with that or changes nothing; a child's frame
      acts as the child's own id and only through the gate; a child found down is
      torn down, put to the bus, and marked well exactly if the bus revives it and it
      came up, else given up; a launch and its teardown account for every descriptor
      and for the one process started; destruction leaves no proxy, and every process
      started for any link has been waited for; the report of what can be enforced
      says what the probes said; the mount plan is the view the level promises, the
      granted directories in it when their paths are absolute, and runs in order up to
      its first failure.

    - The child: over any fragmentation of its socket it answers whole frames by
      whole frames, as [conversation] says; what it says at the start and what it
      emits, the host reads back, and what the host ships, the child; a shard handed a
      message the host has shipped emits what it would have
      emitted in the host's process; every refusal to start has its exit code.
    - Authoring: a struct survives its conversion to a value and back, and the value
      conforms to the derived schema; a message reaches the handler of its own
      shape, read correctly, and no other; snapshot, revival and policy are those
      of the state struct.
    - The kernel driven by messages: an order to the control shard does to the kernel
      what the call it names does; only the host and the holders of the capability
      give orders; loading, swapping and unloading from inside the dispatch loop keep
      every promise of the kernel; the loop ends when the shards only listen.
    - Whether a shard is compiled in or loaded from its library cannot be seen: for a
      shard whose values cross the boundary of bytes, which neither looks at tickets
      nor throws, loading its library gives a bus that answers every order of the host
      as the bus with the shard itself does; and reloading the library under it does
      what [swap_state] from its own snapshot does to the shard.  A throw is what does
      show, and the runs of [TransparentScenes] show how.
    - The examples print what the README and their comments say; where nothing can be
      enforced the host mounts nothing it would have to confine.
    - The seed: its gate answers on every value that does not contain itself, and says
      yes exactly to the conforming ones, naming the first offence of the others; a
      revival does what the self declared, within its budget.

    ** Bounds and fuel

    Loops whose length the data decide are structural or run a number of rounds
    computed from the data ([frames_loop], the JSON reader, [r_uvarint]); the lemmas
    about them show the rounds suffice.  The dispatch loop and the channel's socket
    loops are the exceptions: handlers and the peer decide their length, so [drain]
    takes fuel and answers [None] without it, [flush] and [poll] read a list of
    system call results; [pump_terminates] gives a fuel that is always enough for
    weight-losing handlers, [crew_pump_ends] one for a bus with the control shard.  Sizes are 64-bit; a theorem about round trips of
    lengths stated for strings assumes them below [2^62], under
    [std::string::max_size].

    The operating system's side of a link is a list of answers, one per system
    call, and a log of what was called; past the list every call fails.  Each link has
    its own; [past], the one field of [IsolationHost] that host.hpp has no member for,
    keeps the logs of the links the host has dropped.  The theorems about the host quantify over the answers.  Those about descriptors
    assume [answered]: descriptors and pids are not negative, and the RAM that
    /proc/meminfo reports fits 64 bits ([modest]).  The child's socket blocks: what
    arrives is a list of chunks, a [recv] takes a part of the first, and past the
    list the peer has closed.

    ** Not modelled

    - Memory ordering: the threads of the registry interleave, which is what C++ gives
      once no two accesses race ([registry_race_free]); only the registry is shared by
      threads, the other classes are single-threaded.
    - The gate's call counter inside a [const] method of an adapter: the counter
      there is a global of the process nothing reads.
    - [dlopen], the file system, sockets, processes and the kernel's enforcement
      are the operating system: parameters or traces of results.  Handles are
      fresh at every open; a loader that counts references closes no earlier.
    - What a compiler checks about a struct (its fields' names, its accessors) is a
      hypothesis, [declared]; the tests are left out.
    - The interleaving, on the one console, of what the shards, the observer and [main]
      of an example write: each writer's lines are a list of their own.
    - [ControlBus] gives the loop of the bus with the control shard, not the proxies of
      [Host] beside it: a host of both is two worlds here. *)

From Stdlib Require Export ZArith Ascii String Lia.
From stdpp Require Export base gmap strings list sorting.
From Stdlib Require Export Btauto.

#[export] Set Default Goal Selector "!".
#[global] Open Scope string_scope.
#[global] Open Scope list_scope.
#[global] Open Scope Z_scope.

(** ** Octets, strings and machine words

    A C++ [std::string], [std::string_view] or [std::vector<std::uint8_t>] is
    a list of 8-bit characters.  String literals are coerced. *)

Abbreviation bytes := (list ascii).

Definition str (s : string) : bytes := list_ascii_of_string s.
Coercion str : string >-> list.

(** The octet of a character ([static_cast<unsigned char>(c)]) and the
    character of a word ([static_cast<char>(v)], which keeps the low 8 bits). *)
Definition octet (c : ascii) : Z := Z.of_N (N_of_ascii c).
Definition chr (v : Z) : ascii := ascii_of_N (Z.to_N (v mod 256)).

Definition u8 (z : Z) : Z := z mod 2 ^ 8.
Definition u16 (z : Z) : Z := z mod 2 ^ 16.
Definition u32 (z : Z) : Z := z mod 2 ^ 32.
Definition u64 (z : Z) : Z := z mod 2 ^ 64.
(** [static_cast<std::int64_t>]: two's complement. *)
Definition i64 (z : Z) : Z := (z + 2 ^ 63) mod 2 ^ 64 - 2 ^ 63.

Definition in_u32 (z : Z) : Prop := 0 <= z < 2 ^ 32.
Definition in_u64 (z : Z) : Prop := 0 <= z < 2 ^ 64.
Definition in_i64 (z : Z) : Prop := - 2 ^ 63 <= z < 2 ^ 63.

(** A container's [size()]. *)
Definition zlen {A} (l : list A) : Z := Z.of_nat (length l).

(** [std::to_string] of an unsigned 64-bit value: at most 20 digits. *)
Fixpoint dec_digits (fuel : nat) (n : Z) (acc : bytes) : bytes :=
  match fuel with
  | O => acc
  | S fuel =>
      let acc := chr (48 + n mod 10) :: acc in
      if n <? 10 then acc else dec_digits fuel (n / 10) acc
  end.
Definition to_string (n : Z) : bytes := dec_digits 20 n [].
(** [std::to_string] of a signed value. *)
Definition to_string_signed (n : Z) : bytes :=
  if n <? 0 then "-"%char :: to_string (- n) else to_string n.

(** [operator<=] of two strings: octets are compared unsigned. *)
Fixpoint string_leb (s t : bytes) : bool :=
  match s, t with
  | [], _ => true
  | _ :: _, [] => false
  | c :: s, d :: t => (octet c <? octet d) || ((octet c =? octet d) && string_leb s t)
  end.
Definition name_le {A} (x y : bytes * A) : Prop := Is_true (string_leb x.1 y.1).

#[export] Instance name_le_dec A : RelDecision (@name_le A).
Proof. intros x y. unfold name_le. apply _. Defined.

(** A [std::map] from names in iteration order. *)
Definition by_name {A} (m : gmap bytes A) : list (bytes * A) := merge_sort name_le (map_to_list m).

(** ** Exceptions and undefined behaviour

    A C++ computation returns a value, throws one of the exceptions the source
    throws, or performs an operation the language leaves undefined (the
    dereference of a null pointer). *)

Inductive exn : Type :=
| invalid_argument (what : bytes)
| out_of_range (what : bytes)
| logic_error (what : bytes)
| runtime_error (what : bytes)
| bad_variant_access
| SchemaConflict (name : bytes) (version existing incoming : Z)
| DllBoundaryError (what : bytes).

Inductive result (A : Type) : Type :=
| Ok (a : A)
| Throw (e : exn)
| UB.
Arguments Ok {A} a.
Arguments Throw {A} e.
Arguments UB {A}.

#[global] Instance result_ret : MRet result := fun A a => Ok a.
#[global] Instance result_bind : MBind result := fun A B f m =>
  match m with Ok a => f a | Throw e => Throw e | UB => UB end.

(** [*p] for a nullable pointer. *)
Definition deref {A} (p : option A) : result A :=
  match p with Some a => Ok a | None => UB end.

Definition is_ok {A} (r : result A) : bool :=
  match r with Ok _ => true | _ => false end.

(** ** Stateful computations

    A member function of an object with state [S]: it returns the new state and
    a result; what it changed before it threw stays changed. *)

Definition M (S A : Type) : Type := S -> S * result A.

#[global] Instance M_ret S : MRet (M S) := fun A a s => (s, Ok a).
#[global] Instance M_bind S : MBind (M S) := fun A B f m s =>
  match m s with
  | (s, Ok a) => f a s
  | (s, Throw e) => (s, Throw e)
  | (s, UB) => (s, UB)
  end.

(** [try { m } catch (const std::exception& e) { ... }]: what was changed before
    the throw stays changed. *)
Definition try {S A} (m : M S A) : M S (exn + A) := fun s =>
  match m s with
  | (s, Ok a) => (s, Ok (inr a))
  | (s, Throw e) => (s, Ok (inl e))
  | (s, UB) => (s, UB)
  end.

Definition gets {S A} (f : S -> A) : M S A := fun s => (s, Ok (f s)).
Definition modify {S} (f : S -> S) : M S unit := fun s => (f s, Ok tt).
Definition lift {S A} (r : result A) : M S A := fun s => (s, r).

Lemma M_bind_ok {S A B} (m : M S A) (f : A -> M S B) s s' a :
  m s = (s', Ok a) -> (m ≫= f) s = f a s'.
Proof. unfold mbind, M_bind. by intros ->. Qed.

Lemma M_bind_throw {S A B} (m : M S A) (f : A -> M S B) s s' e :
  m s = (s', Throw e) -> (m ≫= f) s = (s', Throw e).
Proof. unfold mbind, M_bind. by intros ->. Qed.

Lemma M_bind_UB {S A B} (m : M S A) (f : A -> M S B) s s' :
  m s = (s', UB) -> (m ≫= f) s = (s', UB).
Proof. unfold mbind, M_bind. by intros ->. Qed.

(** A relation on states kept by both halves of a sequence is kept by it. *)
Lemma M_bind_inv {S A B} (R : S -> S -> Prop) `{!Transitive R} (m : M S A) (f : A -> M S B) :
  (forall s, R s (m s).1) -> (forall a s, R s (f a s).1) -> forall s, R s ((m ≫= f) s).1.
Proof.
  intros Hm Hf s. unfold mbind, M_bind. specialize (Hm s).
  destruct (m s) as [s1 [a| |]]; simpl in *; try done. by etrans; [|apply Hf].
Qed.

(** Triples: from a state in [P], [m] returns in [Q], throws in [E], and performs
    no undefined operation. *)
Definition triple {S A} (P : S -> Prop) (m : M S A) (Q : A -> S -> Prop) (E : S -> Prop) : Prop :=
  forall s, P s ->
    match m s with
    | (s', Ok a) => Q a s'
    | (s', Throw _) => E s'
    | (_, UB) => False
    end.

Lemma triple_bind {S A B} (P : S -> Prop) (m : M S A) (Q : A -> S -> Prop) (E : S -> Prop)
    (f : A -> M S B) (R : B -> S -> Prop) :
  triple P m Q E -> (forall a, triple (Q a) (f a) R E) -> triple P (m ≫= f) R E.
Proof.
  intros Hm Hf s Hs. specialize (Hm s Hs). unfold mbind, M_bind.
  destruct (m s) as [s' [a|e|]]; [by apply Hf|done..].
Qed.

Lemma triple_ret {S A} (a : A) (P : S -> Prop) (Q : A -> S -> Prop) E :
  (forall s, P s -> Q a s) -> triple P (mret a) Q E.
Proof. intros H s Hs. by apply H. Qed.

Lemma triple_conseq {S A} (P P' : S -> Prop) (m : M S A) (Q Q' : A -> S -> Prop) (E E' : S -> Prop) :
  triple P' m Q' E' -> (forall s, P s -> P' s) -> (forall a s, Q' a s -> Q a s) ->
  (forall s, E' s -> E s) -> triple P m Q E.
Proof.
  intros Hm HP HQ HE s Hs. specialize (Hm s (HP s Hs)). destruct (m s) as [s' [a|e|]]; auto.
Qed.

Lemma triple_try {S A} (P : S -> Prop) (m : M S A) (Q : A -> S -> Prop) (E E' : S -> Prop) :
  triple P m Q E ->
  triple P (try m) (fun r s => match r with inr a => Q a s | inl _ => E s end) E'.
Proof.
  intros Hm s Hs. specialize (Hm s Hs). unfold try. destruct (m s) as [s' [a|e|]]; done.
Qed.

Lemma triple_lift {S A} (r : result A) (P : S -> Prop) (Q : A -> S -> Prop) (E : S -> Prop) :
  r <> UB -> (forall a s, r = Ok a -> P s -> Q a s) -> (forall e s, r = Throw e -> P s -> E s) ->
  triple P (lift r) Q E.
Proof. intros Hr HQ HE s Hs. unfold lift. destruct r; [by apply HQ|by eapply HE|done]. Qed.

Lemma triple_gets {S A} (f : S -> A) (P : S -> Prop) (Q : A -> S -> Prop) E :
  (forall s, P s -> Q (f s) s) -> triple P (gets f) Q E.
Proof. intros H s Hs. by apply H. Qed.

Lemma triple_pure {S A} (F : Prop) (P : S -> Prop) (m : M S A) Q E :
  (F -> triple P m Q E) -> triple (fun s => F /\ P s) m Q E.
Proof. intros H s [HF Hs]. by apply H. Qed.

Lemma triple_value {S A} (r : result A) (a : A) (P : S -> Prop) E :
  r = Ok a -> triple P (lift r) (fun x s => x = a /\ P s) E.
Proof. by intros -> s Hs. Qed.

Lemma triple_throw {S A} e (P : S -> Prop) (Q : A -> S -> Prop) (E : S -> Prop) :
  (forall s, P s -> E s) -> triple P (lift (Throw e)) Q E.
Proof. intros H s Hs. by apply H. Qed.

Lemma triple_from {S A} (P P' : S -> Prop) (m : M S A) Q E :
  (forall s, P s -> P' s) -> triple P' m Q E -> triple P m Q E.
Proof. intros HP Hm s Hs. by apply Hm, HP. Qed.

Lemma triple_to {S A} (P : S -> Prop) (m : M S A) (Q Q' : A -> S -> Prop) E :
  (forall a s, Q' a s -> Q a s) -> triple P m Q' E -> triple P m Q E.
Proof. intros HQ Hm s Hs. specialize (Hm s Hs). destruct (m s) as [s' [a|e|]]; auto. Qed.

(** A fact fixed by the state may be read off before the run. *)
Lemma triple_pre {S A} (P : S -> Prop) (m : M S A) Q E :
  (forall s, P s -> triple (fun s' => s' = s) m Q E) -> triple P m Q E.
Proof. intros H s Hs. by apply (H s Hs). Qed.

(** ** Automation *)

Create HintDb zen.

(** Split every match of the goal or a hypothesis, keeping equations. *)
Ltac split_match_in H :=
  match type of H with
  | context [match ?x with _ => _ end] => destruct x eqn:?
  end.
Ltac split_match :=
  match goal with
  | |- context [match ?x with _ => _ end] => destruct x eqn:?
  end.

(** Simplify equations between constructors, booleans and comparisons. *)
Ltac bool_to_prop :=
  repeat match goal with
  | H : (_ && _)%bool = true |- _ => apply andb_prop in H; destruct H
  | H : (_ || _)%bool = false |- _ => apply orb_false_elim in H; destruct H
  | H : negb _ = true |- _ => apply negb_true_iff in H
  | H : negb _ = false |- _ => apply negb_false_iff in H
  | H : (_ <? _) = true |- _ => apply Z.ltb_lt in H
  | H : (_ <? _) = false |- _ => apply Z.ltb_ge in H
  | H : (_ <=? _) = true |- _ => apply Z.leb_le in H
  | H : (_ <=? _) = false |- _ => apply Z.leb_gt in H
  | H : (_ =? _) = true |- _ => apply Z.eqb_eq in H
  | H : (_ =? _) = false |- _ => apply Z.eqb_neq in H
  | H : (_ >? _) = true |- _ => rewrite Z.gtb_ltb in H
  | H : (_ >? _) = false |- _ => rewrite Z.gtb_ltb in H
  | H : bool_decide _ = true |- _ => apply bool_decide_eq_true in H
  | H : bool_decide _ = false |- _ => apply bool_decide_eq_false in H
  end.

(** Decompose a successful run [x ← m; k = Ok v] into its two halves. *)
Lemma bind_ok {A B} (m : result A) (f : A -> result B) b :
  m ≫= f = Ok b -> exists a, m = Ok a /\ f a = Ok b.
Proof. destruct m as [a| |]; intros H; [exists a; done|done|done]. Qed.

Lemma bind_ok_l {A B} (m : result A) (f : A -> result B) a :
  m = Ok a -> m ≫= f = f a.
Proof. by intros ->. Qed.

(** Open every existential hypothesis. *)
Ltac destruct_ex := repeat match goal with H : exists _, _ |- _ => destruct H end.
Tactic Notation "destruct_ex?" := destruct_ex.

(** Equations between options and results only; byte lists are left alone. *)
Ltac inv_eqs :=
  repeat match goal with
  | H : Some _ = Some _ |- _ => apply (inj Some) in H
  | H : None = Some _ |- _ => discriminate H
  | H : Some _ = None |- _ => discriminate H
  | H : Ok _ = Ok _ |- _ => injection H as H
  | H : Ok _ = Throw _ |- _ => discriminate H
  | H : Throw _ = Ok _ |- _ => discriminate H
  | H : Ok _ = UB |- _ => discriminate H
  | H : UB = Ok _ |- _ => discriminate H
  end; subst.

Ltac inv_bind H :=
  let a := fresh "r" in
  let E := fresh "Er" in
  apply bind_ok in H; destruct H as (a & E & H).

(** ** Bytes *)

Lemma octet_range c : 0 <= octet c < 256.
Proof. unfold octet. pose proof (N_ascii_bounded c). lia. Qed.

Lemma octet_chr v : octet (chr v) = v mod 256.
Proof.
  unfold octet, chr. pose proof (Z.mod_pos_bound v 256).
  rewrite N_ascii_embedding; lia.
Qed.

Lemma chr_octet c : chr (octet c) = c.
Proof.
  unfold octet, chr. pose proof (N_ascii_bounded c).
  rewrite Z.mod_small by lia. by rewrite N2Z.id, ascii_N_embedding.
Qed.

Lemma octet_inj c c' : octet c = octet c' -> c = c'.
Proof. intros H. by rewrite <-(chr_octet c), H, chr_octet. Qed.

Lemma string_leb_total s : forall t, string_leb s t || string_leb t s = true.
Proof.
  induction s as [|c s IH]; intros [|d t]; try done. cbn. specialize (IH t).
  destruct (Z.lt_trichotomy (octet c) (octet d)) as [Hl|[He|Hl]].
  - apply Z.ltb_lt in Hl. by rewrite Hl.
  - by rewrite He, Z.eqb_refl, Z.ltb_irrefl.
  - apply Z.ltb_lt in Hl. rewrite Hl. apply orb_true_r.
Qed.

#[export] Instance name_le_total A : Total (@name_le A).
Proof. intros x y. unfold name_le. rewrite <-orb_True, string_leb_total. done. Qed.

Lemma by_name_sorted {A} (m : gmap bytes A) : Sorted name_le (by_name m).
Proof. apply Sorted_merge_sort, _. Qed.

Lemma by_name_elem {A} (m : gmap bytes A) n x : (n, x) ∈ by_name m <-> m !! n = Some x.
Proof. unfold by_name. by rewrite merge_sort_Permutation, elem_of_map_to_list. Qed.

Lemma by_name_names {A} (m : gmap bytes A) n : n ∈ (by_name m).*1 <-> is_Some (m !! n).
Proof.
  rewrite list_elem_of_fmap. split; [|intros [x Hx]; exists (n, x); by rewrite by_name_elem].
  intros ([n' x] & -> & Hx). exists x. by apply by_name_elem.
Qed.

Lemma chr_of_octet v c : v mod 256 = octet c -> chr v = c.
Proof. intros H. apply octet_inj. by rewrite octet_chr. Qed.

(** Two functions of an octet agree when they do on all 256. *)
Lemma forall_octets {A} `{EqDecision A} (f g : Z -> A) :
  forallb (fun c => bool_decide (f c = g c)) (seqZ 0 256) = true ->
  forall c, 0 <= c < 256 -> f c = g c.
Proof.
  intros H c Hc. rewrite forallb_forall in H.
  specialize (H c). rewrite bool_decide_eq_true in H. apply H.
  apply list_elem_of_In, elem_of_seqZ. lia.
Qed.

(** ** Words *)

Lemma u64_range z : in_u64 (u64 z).
Proof. apply Z.mod_pos_bound. lia. Qed.

Lemma u64_small z : in_u64 z -> u64 z = z.
Proof. intros. apply Z.mod_small. done. Qed.

Lemma i64_range z : in_i64 (i64 z).
Proof.
  unfold in_i64, i64. pose proof (Z.mod_pos_bound (z + 2 ^ 63) (2 ^ 64)). lia.
Qed.

Lemma i64_small z : in_i64 z -> i64 z = z.
Proof. unfold in_i64, i64. intros. rewrite Z.mod_small; lia. Qed.

#[export] Hint Resolve u64_range i64_range octet_range : zen.

(** A value below [2^n] has no bit at or above [n]; used to read a sum of
    disjoint bit fields off a [Z.lor]. *)
Lemma testbit_above v n i : 0 <= v < 2 ^ n -> n <= i -> Z.testbit v i = false.
Proof.
  intros Hv Hi. destruct (Z.eq_dec v 0) as [->|]; [apply Z.bits_0|].
  apply Z.bits_above_log2; [lia|].
  enough (Z.log2 v < n) by lia. apply Z.log2_lt_pow2; lia.
Qed.

Lemma lor_shiftl_add a b n :
  0 <= n -> 0 <= a < 2 ^ n -> Z.lor a (Z.shiftl b n) = a + b * 2 ^ n.
Proof.
  intros Hn Ha. rewrite <-Z.shiftl_mul_pow2 by lia.
  rewrite Z.add_nocarry_lxor; [symmetry|].
  - apply Z.bits_inj'; intros i Hi. rewrite Z.lxor_spec, Z.lor_spec.
    rewrite Z.shiftl_spec by lia. destruct (Z.ltb_spec i n).
    + rewrite (Z.testbit_neg_r b) by lia. btauto.
    + rewrite (testbit_above a n) by lia. btauto.
  - apply Z.bits_inj'; intros i Hi. rewrite Z.land_spec, Z.shiftl_spec, Z.bits_0 by lia.
    destruct (Z.ltb_spec i n).
    + rewrite (Z.testbit_neg_r b) by lia. btauto.
    + rewrite (testbit_above a n) by lia. btauto.
Qed.

Lemma gtb_false a b : a <= b -> (a >? b) = false.
Proof. rewrite Z.gtb_ltb. apply Z.ltb_ge. Qed.

(** ** Lists *)

Lemma zlen_app {A} (l k : list A) : zlen (l ++ k) = zlen l + zlen k.
Proof. unfold zlen. rewrite length_app. lia. Qed.

Lemma zlen_nonneg {A} (l : list A) : 0 <= zlen l.
Proof. unfold zlen. lia. Qed.

Lemma zlen_cons {A} (x : A) l : zlen (x :: l) = 1 + zlen l.
Proof. unfold zlen. simpl length. lia. Qed.

Lemma pow2_zlen_cons {A} (x : A) l : 2 ^ zlen (x :: l) = 2 * 2 ^ zlen l.
Proof. rewrite zlen_cons, Z.pow_add_r by (pose proof (zlen_nonneg l); lia). done. Qed.

Lemma take_drop_app {A} (n : nat) (l a b : list A) :
  drop n l = a ++ b -> drop (n + length a) l = b.
Proof. intros H. by rewrite <-drop_drop, H, drop_app_length. Qed.

Lemma drop_lookup_head {A} (n : nat) (l k : list A) x :
  drop n l = x :: k -> l !! n = Some x.
Proof.
  intros H. replace n with (n + 0)%nat by lia. by rewrite <-lookup_drop, H.
Qed.

Definition Some_inj {A} (x y : A) (E : Some x = Some y) : x = y :=
  eq_ind (Some x) (fun o => match o with Some z => x = z | None => False end) eq_refl (Some y) E.

Lemma cons_eq_inv {A} (x y : A) (l k : list A) : x :: l = y :: k -> x = y /\ l = k.
Proof. by intros [= -> ->]. Qed.

(** ** Little-endian words

    The reference form of every fixed-width field of the wire formats: the [n]
    low octets of [v], lowest first, and the value they spell. *)

Fixpoint le_bytes (n : nat) (v : Z) : bytes :=
  match n with
  | O => []
  | S n => chr v :: le_bytes n (Z.shiftr v 8)
  end.

Fixpoint le_value (l : bytes) : Z :=
  match l with
  | [] => 0
  | c :: l => octet c + 256 * le_value l
  end.

Lemma length_le_bytes n v : length (le_bytes n v) = n.
Proof. revert v. induction n; intros; simpl; auto. Qed.

Lemma le_value_range l : 0 <= le_value l < 2 ^ (8 * zlen l).
Proof.
  induction l as [|c l IH]; [done|]. pose proof (octet_range c).
  replace (8 * zlen (c :: l)) with (8 + 8 * zlen l) by (unfold zlen; simpl length; lia).
  rewrite Z.pow_add_r by (pose proof (zlen_nonneg l); lia). simpl le_value. nia.
Qed.

Lemma le_value_le_bytes n v : le_value (le_bytes n v) = v mod 2 ^ (8 * Z.of_nat n).
Proof.
  revert v. induction n as [|n IH]; intros v; [by rewrite Z.mod_1_r|].
  simpl le_bytes. simpl le_value. rewrite octet_chr, IH, Z.shiftr_div_pow2 by lia.
  replace (8 * Z.of_nat (S n)) with (8 + 8 * Z.of_nat n) by lia.
  rewrite Z.pow_add_r by lia. change (2 ^ 8) with 256.
  rewrite Z.rem_mul_r by lia. done.
Qed.

Lemma le_bytes_le_value l : le_bytes (length l) (le_value l) = l.
Proof.
  induction l as [|c l IH]; [done|]. simpl. pose proof (octet_range c). f_equal.
  - apply chr_of_octet.
    rewrite (Z.mul_comm 256), Z_mod_plus_full. by apply Z.mod_small.
  - rewrite Z.shiftr_div_pow2 by lia. change (2 ^ 8) with 256.
    rewrite Z.mul_comm, Z.div_add by lia.
    rewrite Z.div_small, Z.add_0_l by lia. exact IH.
Qed.

Lemma le_bytes_inj n v w :
  0 <= v < 2 ^ (8 * Z.of_nat n) -> 0 <= w < 2 ^ (8 * Z.of_nat n) ->
  le_bytes n v = le_bytes n w -> v = w.
Proof.
  intros Hv Hw H. apply (f_equal le_value) in H.
  rewrite !le_value_le_bytes, !Z.mod_small in H by done. done.
Qed.

(** Two fields of equal width at the head of equal buffers are equal. *)
Lemma app_eq_length {A} (a a' b b' : list A) :
  length a = length a' -> a ++ b = a' ++ b' -> a = a' /\ b = b'.
Proof. intros. by apply app_inj_1. Qed.

Lemma le_bytes_app_inj n v w (a b : bytes) :
  0 <= v < 2 ^ (8 * Z.of_nat n) -> 0 <= w < 2 ^ (8 * Z.of_nat n) ->
  le_bytes n v ++ a = le_bytes n w ++ b -> v = w /\ a = b.
Proof.
  intros Hv Hw H. apply app_eq_length in H as [H ->]; [|by rewrite !length_le_bytes].
  split; [|done]. by eapply le_bytes_inj.
Qed.

Lemma le_bytes_S n v : le_bytes (S n) v = chr v :: le_bytes n (Z.shiftr v 8).
Proof. done. Qed.

Lemma le_value_nil : le_value [] = 0.
Proof. done. Qed.

Lemma le_value_cons c l : le_value (c :: l) = octet c + 256 * le_value l.
Proof. done. Qed.

(** Tactics see the two functions only through these lemmas. *)
#[global] Opaque le_bytes le_value.
