(* ===== verification/Schema.v ===== *)
(** * Schemas and their content identity

    [include/zen/kind.hpp], [include/zen/schema.hpp], [src/schema.cpp] and
    [src/detail/hash.hpp].  A [TypeRef] is the raw struct with its two nullable
    pointers, so the checks of [validate_typeref] and of the [Schema]
    constructor have something to reject; [wf_type] and [wf_schema] are the
    invariant every constructed schema has. *)

From S2P Require Import Prelude.

(** ** The grammar *)

Inductive Kind : Set := KInt | KFloat | KText | KBool | KBytes | KMessage | KList.

#[export] Instance Kind_eq_dec : EqDecision Kind.
Proof. solve_decision. Defined.

(** The enumerators' values, as [static_cast<std::uint8_t>(kind)] gives them. *)
Definition kind_code (k : Kind) : Z :=
  match k with
  | KInt => 0 | KFloat => 1 | KText => 2 | KBool => 3
  | KBytes => 4 | KMessage => 5 | KList => 6
  end.

Definition Kind_name_of (k : Kind) : bytes :=
  match k with
  | KInt => "Int" | KFloat => "Float" | KText => "Text" | KBool => "Bool"
  | KBytes => "Bytes" | KMessage => "Message" | KList => "List"
  end.

Record FieldOf (T : Type) : Type :=
  mkField { fname : bytes; ftype : T; required : bool }.
Arguments mkField {T} _ _ _.
Arguments fname {T} _.
Arguments ftype {T} _.
Arguments required {T} _.

(** [struct TypeRef]: [message] and [element] are shared pointers, null as
    [None].  [class Schema]: immutable, its content id computed once. *)
Inductive TypeRef : Type :=
| mkTypeRef (kind : Kind) (message : option Schema) (element : option TypeRef)
with Schema : Type :=
| mkSchema (name : bytes) (version : Z) (fields : list (FieldOf TypeRef)) (content_id : Z).

Abbreviation Field := (FieldOf TypeRef).

Definition tr_kind (t : TypeRef) : Kind := match t with mkTypeRef k _ _ => k end.
Definition tr_message (t : TypeRef) : option Schema := match t with mkTypeRef _ m _ => m end.
Definition tr_element (t : TypeRef) : option TypeRef := match t with mkTypeRef _ _ e => e end.

Definition Schema_name (s : Schema) : bytes := match s with mkSchema n _ _ _ => n end.
Definition Schema_version (s : Schema) : Z := match s with mkSchema _ v _ _ => v end.
Definition Schema_fields (s : Schema) : list Field := match s with mkSchema _ _ f _ => f end.
Definition Schema_content_id (s : Schema) : Z := match s with mkSchema _ _ _ c => c end.

(** ** FNV-1a, 64 bit *)

Module Fnv1a.

Definition kFnvOffset : Z := 1469598103934665603.
Definition kFnvPrime : Z := 1099511628211.

Definition byte (h : Z) (b : Z) : Z := u64 (Z.lxor h b * kFnvPrime).

Definition fnv_bytes (h : Z) (s : bytes) : Z :=
  fold_left (fun h c => byte h (octet c)) s h.

(** The loop of [u64]: eight rounds over the low octet of a shifting word. *)
Fixpoint u64_loop (i : nat) (h v : Z) : Z :=
  match i with
  | O => h
  | S i => u64_loop i (byte h (Z.land v 255)) (Z.shiftr v 8)
  end.
Definition fnv_u64 (h v : Z) : Z := u64_loop 8 h v.

Definition field (h : Z) (s : bytes) : Z := fnv_bytes (fnv_u64 h (u64 (zlen s))) s.

End Fnv1a.

(** ** Validation and content identity of a schema under construction *)

Fixpoint validate_typeref (t : TypeRef) : result unit :=
  match t with
  | mkTypeRef KMessage m e =>
      match m with
      | None => Throw (invalid_argument "Message type requires a nested schema")
      | Some _ =>
          match e with
          | Some _ => Throw (invalid_argument "Message type must not carry a list element")
          | None => Ok tt
          end
      end
  | mkTypeRef KList m e =>
      match e with
      | None => Throw (invalid_argument "List type requires an element type")
      | Some el =>
          match m with
          | Some _ => Throw (invalid_argument "List type must not carry a message schema")
          | None => validate_typeref el
          end
      end
  | mkTypeRef _ m e =>
      match m, e with
      | None, None => Ok tt
      | _, _ => Throw (invalid_argument "primitive type must not carry a schema or element")
      end
  end.

Fixpoint hash_typeref (h : Z) (t : TypeRef) : result Z :=
  match t with
  | mkTypeRef k m e =>
      let h := Fnv1a.byte h (kind_code k) in
      match k with
      | KMessage => s ← deref m; Ok (Fnv1a.fnv_u64 h (Schema_content_id s))
      | KList => match e with Some el => hash_typeref h el | None => UB end
      | _ => Ok h
      end
  end.

Fixpoint hash_fields (h : Z) (fields : list Field) : result Z :=
  match fields with
  | [] => Ok h
  | f :: rest =>
      let h := Fnv1a.field h (fname f) in
      let h := Fnv1a.byte h (if required f then 1 else 0) in
      h ← hash_typeref h (ftype f);
      hash_fields h rest
  end.

Definition compute_content_id (name : bytes) (version : Z) (fields : list Field) : result Z :=
  let h := Fnv1a.field Fnv1a.kFnvOffset name in
  let h := Fnv1a.fnv_u64 h version in
  let h := Fnv1a.fnv_u64 h (u64 (zlen fields)) in
  hash_fields h fields.

Definition type_of (k : Kind) : result TypeRef :=
  match k with
  | KMessage | KList =>
      Throw (invalid_argument "type_of is for primitive kinds; use type_message/type_list")
  | _ => Ok (mkTypeRef k None None)
  end.

Definition type_message (schema : option Schema) : result TypeRef :=
  match schema with
  | None => Throw (invalid_argument "type_message requires a non-null schema")
  | Some _ => Ok (mkTypeRef KMessage schema None)
  end.

Definition type_list (element : TypeRef) : TypeRef := mkTypeRef KList None (Some element).

(** The constructor's loop over the fields, with its set of names seen. *)
Fixpoint check_fields (seen : gset bytes) (fields : list Field) : result unit :=
  match fields with
  | [] => Ok tt
  | f :: rest =>
      if bool_decide (fname f = []) then
        Throw (invalid_argument "field name must not be empty")
      else if bool_decide (fname f ∈ seen) then
        Throw (invalid_argument (str "duplicate field name '" ++ fname f ++ str "'"))
      else
        _ ← validate_typeref (ftype f);
        check_fields ({[ fname f ]} ∪ seen) rest
  end.

Definition Schema_new (name : bytes) (version : Z) (fields : list Field) : result Schema :=
  _ ← check_fields ∅ fields;
  cid ← compute_content_id name version fields;
  Ok (mkSchema name version fields cid).

Definition make_schema := Schema_new.

(** Linear scan: the first field of that name. *)
Fixpoint find_field (fields : list Field) (field_name : bytes) : option Field :=
  match fields with
  | [] => None
  | f :: rest => if bool_decide (fname f = field_name) then Some f else find_field rest field_name
  end.
Definition Schema_find (s : Schema) (field_name : bytes) : option Field :=
  find_field (Schema_fields s) field_name.

Definition same_identity (a b : Schema) : bool :=
  bool_decide (Schema_name a = Schema_name b) && (Schema_version a =? Schema_version b)
  && (Schema_content_id a =? Schema_content_id b).

(** ** SchemaBuilder *)

Record SchemaBuilder : Type :=
  mkBuilder { sb_name : bytes; sb_version : Z; sb_fields : list Field }.

Definition builder (name : bytes) (version : Z) : SchemaBuilder := mkBuilder name version [].

Definition builder_add (f : Field) (b : SchemaBuilder) : SchemaBuilder :=
  mkBuilder (sb_name b) (sb_version b) (sb_fields b ++ [f]).

Definition builder_field (name : bytes) (k : Kind) (req : bool) (b : SchemaBuilder)
  : result SchemaBuilder :=
  t ← type_of k; Ok (builder_add (mkField name t req) b).

Definition builder_message (name : bytes) (schema : option Schema) (req : bool)
    (b : SchemaBuilder) : result SchemaBuilder :=
  t ← type_message schema; Ok (builder_add (mkField name t req) b).

Definition builder_list (name : bytes) (element : TypeRef) (req : bool) (b : SchemaBuilder)
  : SchemaBuilder :=
  builder_add (mkField name (type_list element) req) b.

Definition builder_build (b : SchemaBuilder) : result Schema :=
  Schema_new (sb_name b) (sb_version b) (sb_fields b).

(** ** The schema invariant *)

Definition primitive (k : Kind) : Prop := k <> KMessage /\ k <> KList.

(** A reference is well formed when its pointers match its kind, at every
    depth; a schema when its constructor accepted it. *)
Inductive wf_type : TypeRef -> Prop :=
| wf_primitive k : primitive k -> wf_type (mkTypeRef k None None)
| wf_message s : wf_schema s -> wf_type (mkTypeRef KMessage (Some s) None)
| wf_list t : wf_type t -> wf_type (mkTypeRef KList None (Some t))
with wf_schema : Schema -> Prop :=
| wf_schema_intro n v fs cid :
    in_u32 v -> NoDup (fname <$> fs) -> Forall (fun f => fname f <> []) fs ->
    Forall (fun f => wf_type (ftype f)) fs ->
    compute_content_id n v fs = Ok cid ->
    wf_schema (mkSchema n v fs cid).

(** The pointers of a well-formed reference, by kind. *)
Lemma wf_type_inv k m e :
  wf_type (mkTypeRef k m e) ->
  match k with
  | KMessage => exists s, m = Some s /\ e = None /\ wf_schema s
  | KList => exists el, m = None /\ e = Some el /\ wf_type el
  | _ => m = None /\ e = None
  end.
Proof. inversion 1 as [? [??]| |]; subst; [by destruct k|eauto|eauto]. Qed.

Lemma wf_schema_types s : wf_schema s -> Forall (fun f => wf_type (ftype f)) (Schema_fields s).
Proof. by destruct 1. Qed.

Lemma wf_schema_nodup s : wf_schema s -> NoDup (fname <$> Schema_fields s).
Proof. by destruct 1. Qed.

(** Induction on a reference and a schema together, through the field list. *)
Section type_schema_ind.
Context (P : TypeRef -> Prop) (Q : Schema -> Prop).
Context (Hprim : forall k, primitive k -> P (mkTypeRef k None None)).
Context (Hmsg : forall s, wf_schema s -> Q s -> P (mkTypeRef KMessage (Some s) None)).
Context (Hlist : forall t, wf_type t -> P t -> P (mkTypeRef KList None (Some t))).
Context (Hschema : forall n v fs cid,
  wf_schema (mkSchema n v fs cid) -> Forall (fun f => P (ftype f)) fs ->
  Q (mkSchema n v fs cid)).

Fixpoint wf_type_ind' (t : TypeRef) (H : wf_type t) {struct H} : P t :=
  match H in wf_type t return P t with
  | wf_primitive k Hk => Hprim k Hk
  | wf_message s Hs => Hmsg s Hs (wf_schema_ind' s Hs)
  | wf_list t Ht => Hlist t Ht (wf_type_ind' t Ht)
  end
with wf_schema_ind' (s : Schema) (H : wf_schema s) {struct H} : Q s :=
  match H in wf_schema s return Q s with
  | wf_schema_intro n v fs cid Hv Hnd Hne Hts Hcid =>
      Hschema n v fs cid (wf_schema_intro n v fs cid Hv Hnd Hne Hts Hcid)
        ((fix go fs (H : Forall (fun f => wf_type (ftype f)) fs)
            : Forall (fun f => P (ftype f)) fs :=
            match H with
            | @List.Forall_nil _ _ => List.Forall_nil _
            | @List.Forall_cons _ _ f fs Hf Hr =>
                @List.Forall_cons _ _ f fs (wf_type_ind' (ftype f) Hf) (go fs Hr)
            end) fs Hts)
  end.

Lemma wf_type_schema_ind :
  (forall t, wf_type t -> P t) /\ (forall s, wf_schema s -> Q s).
Proof. split; [exact wf_type_ind' | exact wf_schema_ind']. Qed.
End type_schema_ind.

(** ** Validation *)

(** The message schemas a reference points at (through its elements) are
    already constructed ones. *)
Fixpoint messages_wf (t : TypeRef) : Prop :=
  match t with
  | mkTypeRef _ m e =>
      match m with Some s => wf_schema s | None => True end /\
      match e with Some el => messages_wf el | None => True end
  end.

(** Structural induction on a reference along its elements. *)
Fixpoint TypeRef_element_ind (P : TypeRef -> Prop)
    (Hnone : forall k m, P (mkTypeRef k m None))
    (Hsome : forall k m e, P e -> P (mkTypeRef k m (Some e))) (t : TypeRef) {struct t} : P t :=
  match t with
  | mkTypeRef k m None => Hnone k m
  | mkTypeRef k m (Some e) => Hsome k m e (TypeRef_element_ind P Hnone Hsome e)
  end.

Lemma validate_typeref_wf t :
  messages_wf t -> validate_typeref t = Ok tt <-> wf_type t.
Proof.
  induction t as [k m|k m e IH] using TypeRef_element_ind; intros [Hm He]; split.
  - destruct k, m as [s|]; simpl; intros [=]; try (constructor; split; discriminate).
    by constructor.
  - intros H. inversion H as [? [??]| |]; subst; [by destruct k|done].
  - destruct k, m as [s|]; simpl; intros H; try discriminate H.
    constructor. by apply IH.
  - intros H. inversion H; subst. simpl. by apply IH.
Qed.

Lemma validate_typeref_no_UB t : validate_typeref t <> UB.
Proof.
  induction t as [k m|k m e IH] using TypeRef_element_ind; destruct k, m; simpl; done.
Qed.

Lemma hash_typeref_ok t : validate_typeref t = Ok tt -> forall h, exists h', hash_typeref h t = Ok h'.
Proof.
  induction t as [k m|k m e IH] using TypeRef_element_ind; destruct k, m; simpl; intros [=] h;
    eauto.
Qed.

Definition valid_fields (fs : list Field) : Prop :=
  NoDup (fname <$> fs) /\ Forall (fun f => fname f <> []) fs /\
  Forall (fun f => validate_typeref (ftype f) = Ok tt) fs.

Lemma check_fields_ok seen fs :
  check_fields seen fs = Ok tt <->
  valid_fields fs /\ Forall (fun f => fname f ∉ seen) fs.
Proof.
  unfold valid_fields. revert seen. induction fs as [|f fs IH]; intros seen; simpl.
  { split; [|done]. intros _. repeat split; constructor. }
  rewrite NoDup_cons, !Forall_cons. case_bool_decide; [naive_solver|].
  case_bool_decide; [naive_solver|]. destruct (validate_typeref (ftype f)) as [[]| |] eqn:E;
    simpl; [|naive_solver..].
  rewrite IH. split.
  - intros [(Hnd & Hne & Hv) Hs]. rewrite !Forall_forall in *. repeat split; auto.
    + intros (g & Hg & Hin)%list_elem_of_fmap. apply (Hs g Hin).
      apply elem_of_union_l, elem_of_singleton. done.
    + intros g Hg Hin. by apply (Hs g Hg), elem_of_union_r.
  - intros (([Hn Hnd] & [_ Hne] & [_ Hv]) & [_ Hs]). repeat split; auto.
    rewrite Forall_forall in *. intros g Hg [Hgf%elem_of_singleton|]%elem_of_union.
    + apply Hn. rewrite <-Hgf. by apply list_elem_of_fmap_2.
    + by eapply Hs.
Qed.

Lemma check_fields_no_UB seen fs : check_fields seen fs <> UB.
Proof.
  revert seen. induction fs as [|f fs IH]; intros seen; simpl; [done|].
  repeat case_bool_decide; try done.
  destruct (validate_typeref (ftype f)) eqn:E; simpl; [apply IH|done|].
  by apply validate_typeref_no_UB in E.
Qed.

Lemma hash_fields_ok fs :
  Forall (fun f => validate_typeref (ftype f) = Ok tt) fs ->
  forall h, exists h', hash_fields h fs = Ok h'.
Proof.
  induction 1 as [|f fs Hf _ IH]; intros h; simpl; [eauto|].
  edestruct (hash_typeref_ok _ Hf) as [h' ->]. simpl. apply IH.
Qed.

(** The constructor's outcome: every raw field list is either accepted or
    rejected by an exception; no pointer is followed before it is checked. *)
Lemma Schema_new_cases n v fs :
  (valid_fields fs /\ exists cid, compute_content_id n v fs = Ok cid /\
     Schema_new n v fs = Ok (mkSchema n v fs cid)) \/
  (~ valid_fields fs /\ exists e, Schema_new n v fs = Throw e).
Proof.
  unfold Schema_new. destruct (check_fields ∅ fs) as [[]|e|] eqn:E; simpl.
  - apply check_fields_ok in E as [Hv _]. left. split; [done|].
    destruct (hash_fields_ok fs (proj2 (proj2 Hv))
      (Fnv1a.fnv_u64 (Fnv1a.fnv_u64 (Fnv1a.field Fnv1a.kFnvOffset n) v) (u64 (zlen fs))))
      as [h Hh].
    exists h. unfold compute_content_id. by rewrite Hh.
  - right. split; [|by eauto]. intros Hv.
    assert (check_fields ∅ fs = Ok tt) by (apply check_fields_ok; split; [done|];
      apply Forall_forall; set_solver). congruence.
  - by apply check_fields_no_UB in E.
Qed.

Lemma Schema_new_iff n v fs :
  in_u32 v -> Forall (fun f => messages_wf (ftype f)) fs ->
  Schema_new n v fs <> UB /\
  (forall s, Schema_new n v fs = Ok s <->
     wf_schema s /\ Schema_name s = n /\ Schema_version s = v /\ Schema_fields s = fs).
Proof.
  intros Hv Hm. destruct (Schema_new_cases n v fs) as [[(Hnd & Hne & Hf) (cid & Hc & ->)]
    |[Hn [e ->]]]; (split; [done|]); intros s; split.
  - intros [= <-]. split; [|done]. constructor; try done.
    rewrite Forall_forall in *. intros f Hin. apply validate_typeref_wf; auto.
  - destruct s as [n' v' fs' c']. simpl. intros (Hwf & -> & -> & ->).
    inversion Hwf; subst. congruence.
  - intros [=].
  - destruct s as [n' v' fs' c']. simpl. intros (Hwf & -> & -> & ->).
    inversion Hwf; subst. destruct Hn. split; [done|]. split; [done|].
    rewrite Forall_forall in *. intros f Hin. apply validate_typeref_wf; auto.
Qed.

(** C36: the [Schema] constructor accepts exactly the field lists whose names
    are non-empty and distinct and whose type references carry the pointers
    their kind needs, at every depth; the schema it returns has the given name,
    version and fields and satisfies the schema invariant.  It never follows a
    null pointer. *)
Theorem Schema_new_spec n v fs :
  in_u32 v -> Forall (fun f => messages_wf (ftype f)) fs ->
  Schema_new n v fs <> UB /\
  (forall s, Schema_new n v fs = Ok s <->
     wf_schema s /\ Schema_name s = n /\ Schema_version s = v /\ Schema_fields s = fs).
Proof. apply Schema_new_iff. Qed.

(** ** The stream a content id hashes

    [hash_typeref] and [compute_content_id] fold FNV-1a over a byte stream; the
    stream in closed form is [schema_stream]. *)

Fixpoint type_stream (t : TypeRef) : bytes :=
  match t with
  | mkTypeRef k m e =>
      chr (kind_code k) ::
      match k, m, e with
      | KMessage, Some s, _ => le_bytes 8 (Schema_content_id s)
      | KList, _, Some el => type_stream el
      | _, _, _ => []
      end
  end.

(** What follows the kind code. *)
Definition type_tail (t : TypeRef) : bytes :=
  match t with
  | mkTypeRef KMessage (Some s) _ => le_bytes 8 (Schema_content_id s)
  | mkTypeRef KList _ (Some el) => type_stream el
  | _ => []
  end.

Lemma type_stream_cons t : type_stream t = chr (kind_code (tr_kind t)) :: type_tail t.
Proof. by destruct t as [[] [s|] [e|]]. Qed.

Definition field_stream (f : Field) : bytes :=
  le_bytes 8 (u64 (zlen (fname f))) ++ fname f ++
  chr (if required f then 1 else 0) :: type_stream (ftype f).

Definition schema_stream (n : bytes) (v : Z) (fs : list Field) : bytes :=
  le_bytes 8 (u64 (zlen n)) ++ n ++ le_bytes 8 v ++ le_bytes 8 (u64 (zlen fs)) ++
  concat (field_stream <$> fs).

Lemma fnv_bytes_app h (a b : bytes) :
  Fnv1a.fnv_bytes h (a ++ b) = Fnv1a.fnv_bytes (Fnv1a.fnv_bytes h a) b.
Proof. apply fold_left_app. Qed.

Lemma fnv_bytes_cons h c s :
  Fnv1a.fnv_bytes h (c :: s) = Fnv1a.fnv_bytes (Fnv1a.byte h (octet c)) s.
Proof. done. Qed.

Lemma fnv_u64_loop_bytes i h v :
  Fnv1a.u64_loop i h v = Fnv1a.fnv_bytes h (le_bytes i v).
Proof.
  revert h v. induction i as [|i IH]; intros h v; [done|].
  rewrite le_bytes_S, fnv_bytes_cons, octet_chr, <-IH. unfold Fnv1a.u64_loop at 1.
  fold Fnv1a.u64_loop. change 255 with (Z.ones 8). rewrite Z.land_ones by lia. done.
Qed.

Lemma fnv_field_bytes h s :
  Fnv1a.field h s = Fnv1a.fnv_bytes h (le_bytes 8 (u64 (zlen s)) ++ s).
Proof. unfold Fnv1a.field, Fnv1a.fnv_u64. by rewrite fnv_u64_loop_bytes, fnv_bytes_app. Qed.

Lemma kind_code_octet k : octet (chr (kind_code k)) = kind_code k.
Proof. rewrite octet_chr. by destruct k. Qed.

(** One unfolding of [hash_typeref]. *)
Lemma hash_typeref_eq h k m e :
  hash_typeref h (mkTypeRef k m e) =
  let h := Fnv1a.byte h (kind_code k) in
  match k with
  | KMessage => s ← deref m; Ok (Fnv1a.fnv_u64 h (Schema_content_id s))
  | KList => match e with Some el => hash_typeref h el | None => UB end
  | _ => Ok h
  end.
Proof. done. Qed.

Lemma hash_typeref_stream t :
  validate_typeref t = Ok tt ->
  forall h, hash_typeref h t = Ok (Fnv1a.fnv_bytes h (type_stream t)).
Proof.
  induction t as [k m|k m e IH] using TypeRef_element_ind; destruct k, m as [s|];
    intros H; try discriminate H; intros h;
    rewrite type_stream_cons, fnv_bytes_cons, kind_code_octet, hash_typeref_eq; try done.
  - unfold deref, mbind, result_bind, Fnv1a.fnv_u64. by rewrite fnv_u64_loop_bytes.
  - by apply IH.
Qed.

Lemma hash_fields_stream fs :
  Forall (fun f => validate_typeref (ftype f) = Ok tt) fs ->
  forall h, hash_fields h fs = Ok (Fnv1a.fnv_bytes h (concat (field_stream <$> fs))).
Proof.
  induction 1 as [|f fs Hf _ IH]; intros h; [done|].
  simpl hash_fields. rewrite hash_typeref_stream by done. simpl mbind. rewrite IH.
  rewrite fmap_cons, concat_cons, fnv_bytes_app. do 2 f_equal.
  unfold field_stream. rewrite fnv_field_bytes, app_assoc, (fnv_bytes_app h (_ ++ _)).
  rewrite fnv_bytes_cons, octet_chr. by destruct (required f).
Qed.

(** The content id is FNV-1a over [schema_stream]. *)
Lemma content_id_stream n v fs :
  Forall (fun f => validate_typeref (ftype f) = Ok tt) fs ->
  compute_content_id n v fs = Ok (Fnv1a.fnv_bytes Fnv1a.kFnvOffset (schema_stream n v fs)).
Proof.
  intros H. unfold compute_content_id, schema_stream, Fnv1a.fnv_u64.
  rewrite hash_fields_stream, !fnv_u64_loop_bytes, fnv_field_bytes by done.
  by rewrite !fnv_bytes_app.
Qed.

Lemma fnv_bytes_range h s : in_u64 h -> in_u64 (Fnv1a.fnv_bytes h s).
Proof.
  revert h. induction s as [|c s IH]; intros h Hh; [done|]. simpl. apply IH, u64_range.
Qed.

Lemma wf_type_messages_wf t : wf_type t -> messages_wf t.
Proof.
  induction t as [k m|k m e IH] using TypeRef_element_ind;
    intros H; inversion H; subst; simpl; auto.
Qed.

Lemma wf_type_valid t : wf_type t -> validate_typeref t = Ok tt.
Proof. intros H. apply validate_typeref_wf; [by apply wf_type_messages_wf|done]. Qed.

Lemma wf_schema_content_id s : wf_schema s -> in_u64 (Schema_content_id s).
Proof.
  destruct 1 as [n v fs cid Hv Hnd Hne Hts Hcid]. simpl.
  rewrite content_id_stream in Hcid by (eapply Forall_impl; [exact Hts|]; intros f Hf; by apply wf_type_valid).
  assert (cid = Fnv1a.fnv_bytes Fnv1a.kFnvOffset (schema_stream n v fs)) as -> by congruence.
  apply fnv_bytes_range. unfold in_u64, Fnv1a.kFnvOffset. lia.
Qed.

(** ** Injectivity of the stream

    Distinct shapes have distinct streams: names and counts are length
    prefixed, a reference's codes form a prefix code.  A nested message counts
    through its own content id. *)

Fixpoint same_type (t t' : TypeRef) : Prop :=
  match t, t' with
  | mkTypeRef k m e, mkTypeRef k' m' e' =>
      k = k' /\
      match m, m' with
      | Some s, Some s' => Schema_content_id s = Schema_content_id s'
      | None, None => True
      | _, _ => False
      end /\
      match e, e' with
      | Some el, Some el' => same_type el el'
      | None, None => True
      | _, _ => False
      end
  end.

Definition same_field (f f' : Field) : Prop :=
  fname f = fname f' /\ required f = required f' /\ same_type (ftype f) (ftype f').

(** Names and field lists of a real program's size. *)
Definition sized (n : bytes) (fs : list Field) : Prop :=
  in_u64 (zlen n) /\ in_u64 (zlen fs) /\ Forall (fun f => in_u64 (zlen (fname f))) fs.

Lemma kind_code_inj k k' : kind_code k = kind_code k' -> k = k'.
Proof. by destruct k, k'. Qed.

Lemma chr_kind_code_inj k k' : chr (kind_code k) = chr (kind_code k') -> k = k'.
Proof.
  intros H. apply kind_code_inj. apply (f_equal octet) in H. rewrite !octet_chr in H.
  by destruct k, k'.
Qed.

Lemma type_stream_inj t : forall t' (r r' : bytes),
  wf_type t -> wf_type t' ->
  type_stream t ++ r = type_stream t' ++ r' -> same_type t t' /\ r = r'.
Proof.
  induction t as [k m|k m e IH] using TypeRef_element_ind;
    intros [k' m' e'] r r' Ht%wf_type_inv Ht'%wf_type_inv H;
    rewrite !type_stream_cons in H; apply cons_eq_inv in H as [Hk%chr_kind_code_inj H];
    unfold tr_kind in Hk; subst k'; destruct k;
    repeat (destruct_and?; destruct_ex?); inv_eqs; try done.
  - apply le_bytes_app_inj in H; [naive_solver|by apply wf_schema_content_id..].
  - apply IH in H as [??]; [|done..]. done.
Qed.

Lemma length_prefix_inj (a a' r r' : bytes) :
  in_u64 (zlen a) -> in_u64 (zlen a') ->
  le_bytes 8 (u64 (zlen a)) ++ a ++ r = le_bytes 8 (u64 (zlen a')) ++ a' ++ r' ->
  a = a' /\ r = r'.
Proof.
  intros Ha Ha' H. rewrite !u64_small in H by done.
  apply le_bytes_app_inj in H as [Hl H]; [|done..].
  apply app_eq_length in H; [done|]. unfold zlen in Hl. lia.
Qed.

Lemma field_stream_inj f f' (r r' : bytes) :
  in_u64 (zlen (fname f)) -> in_u64 (zlen (fname f')) ->
  wf_type (ftype f) -> wf_type (ftype f') ->
  field_stream f ++ r = field_stream f' ++ r' -> same_field f f' /\ r = r'.
Proof.
  intros Hn Hn' Ht Ht' H. unfold field_stream in H. rewrite <-!app_assoc in H.
  apply length_prefix_inj in H as [Hname H]; [|done..].
  rewrite <-!app_comm_cons in H. apply cons_eq_inv in H as [Hr H].
  apply type_stream_inj in H as [? ->]; [|done..]. split; [|done].
  split; [done|]. split; [|done].
  apply (f_equal octet) in Hr. rewrite !octet_chr in Hr. by destruct (required f), (required f').
Qed.

Lemma fields_stream_inj fs : forall fs' (r r' : bytes),
  length fs = length fs' ->
  Forall (fun f => in_u64 (zlen (fname f)) /\ wf_type (ftype f)) fs ->
  Forall (fun f => in_u64 (zlen (fname f)) /\ wf_type (ftype f)) fs' ->
  concat (field_stream <$> fs) ++ r = concat (field_stream <$> fs') ++ r' ->
  Forall2 same_field fs fs'.
Proof.
  induction fs as [|f fs IH]; intros [|f' fs'] r r' Hl H H' Hs; try discriminate Hl; [done|].
  inversion H as [|?? [??]]; inversion H' as [|?? [??]]; subst. injection Hl as Hl.
  rewrite !fmap_cons, !concat_cons, <-!app_assoc in Hs.
  apply field_stream_inj in Hs as [? Hs]; [|done..]. constructor; [done|]. by eapply IH.
Qed.

(** The id of a well-formed schema. *)
Lemma wf_hashed n v fs cid : wf_schema (mkSchema n v fs cid) ->
  compute_content_id n v fs = Ok cid /\ cid = Fnv1a.fnv_bytes Fnv1a.kFnvOffset (schema_stream n v fs).
Proof.
  inversion 1 as [? ? ? ? _ _ _ Ht Hc]; subst. split; [done|].
  rewrite content_id_stream in Hc by (eapply Forall_impl; [exact Ht|]; intros f Hf; by apply wf_type_valid). congruence.
Qed.

Lemma stream_shape n v fs n' v' fs' cid cid' :
  wf_schema (mkSchema n v fs cid) -> wf_schema (mkSchema n' v' fs' cid') ->
  sized n fs -> sized n' fs' ->
  schema_stream n v fs = schema_stream n' v' fs' ->
  n = n' /\ v = v' /\ Forall2 same_field fs fs'.
Proof.
  intros Hw Hw' (Hn & Hl & Hf) (Hn' & Hl' & Hf') H.
  inversion Hw as [???? Hv _ _ Ht _]; inversion Hw' as [???? Hv' _ _ Ht' _]; subst.
  unfold schema_stream in H.
  apply length_prefix_inj in H as [-> H]; [|done..].
  apply le_bytes_app_inj in H as [-> H]; [|unfold in_u32 in *; lia..].
  rewrite !u64_small in H by done. apply le_bytes_app_inj in H as [Hlen H]; [|done..].
  split; [done|]. split; [done|]. eapply (fields_stream_inj _ _ [] []).
  - unfold zlen in Hlen. lia.
  - by apply Forall_and.
  - by apply Forall_and.
  - by rewrite H.
Qed.

(** C37: a content id hashes the whole shape and nothing else.  The id the
    constructor computes is FNV-1a, from the code's offset on, over [schema_stream]
    of what it was given; and two well-formed schemas with equal streams have the
    same name, the same version and, field by field in declared order, the same
    names, required flags and types (a nested message through its own content id).
    So equal ids of different shapes can only come from the hash. *)
Theorem schema_stream_injective n v fs n' v' fs' cid cid' :
  wf_schema (mkSchema n v fs cid) -> wf_schema (mkSchema n' v' fs' cid') ->
  sized n fs -> sized n' fs' ->
  (compute_content_id n v fs = Ok cid /\ cid = Fnv1a.fnv_bytes Fnv1a.kFnvOffset (schema_stream n v fs)) /\
  (compute_content_id n' v' fs' = Ok cid' /\ cid' = Fnv1a.fnv_bytes Fnv1a.kFnvOffset (schema_stream n' v' fs')) /\
  (schema_stream n v fs = schema_stream n' v' fs' -> n = n' /\ v = v' /\ Forall2 same_field fs fs').
Proof.
  intros Hw Hw' Hz Hz'. split; [by apply wf_hashed|]. split; [by apply wf_hashed|]. by apply (stream_shape n v fs n' v' fs' cid cid').
Qed.

(** ** Single-octet changes

    One FNV-1a step is a bijection of the state for a fixed octet (the prime is
    odd, so it has an inverse modulo [2^64]) and injective in the octet, so two
    streams that differ in one octet never have the same hash. *)

Definition kFnvPrimeInv : Z := 14886173955864302971.

Lemma kFnvPrimeInv_ok : (Fnv1a.kFnvPrime * kFnvPrimeInv) mod 2 ^ 64 = 1.
Proof. by vm_compute. Qed.

Lemma mul_prime_inj x y :
  in_u64 x -> in_u64 y -> u64 (x * Fnv1a.kFnvPrime) = u64 (y * Fnv1a.kFnvPrime) -> x = y.
Proof.
  intros Hx Hy H.
  assert (forall z, in_u64 z -> u64 (u64 (z * Fnv1a.kFnvPrime) * kFnvPrimeInv) = z) as Hinv.
  { intros z Hz. unfold u64. rewrite Zmult_mod_idemp_l, <-Z.mul_assoc.
    rewrite <-Zmult_mod_idemp_r, kFnvPrimeInv_ok, Z.mul_1_r. by apply Z.mod_small. }
  by rewrite <-(Hinv x Hx), H, Hinv.
Qed.

Lemma lxor_range x y : in_u64 x -> in_u64 y -> in_u64 (Z.lxor x y).
Proof.
  unfold in_u64. intros Hx Hy. split; [apply Z.lxor_nonneg; lia|].
  destruct (Z.eq_dec (Z.lxor x y) 0) as [->|Hne]; [lia|].
  assert (0 <= Z.lxor x y) by (apply Z.lxor_nonneg; lia).
  apply Z.log2_lt_pow2; [lia|].
  assert (forall z, 0 <= z < 2 ^ 64 -> Z.log2 z < 64) as Hlog.
  { intros z Hz. destruct (Z.eq_dec z 0) as [->|]; [done|]. apply Z.log2_lt_pow2; lia. }
  pose proof (Z.log2_lxor x y). pose proof (Hlog x). pose proof (Hlog y). lia.
Qed.

Lemma octet_in_u64 c : in_u64 (octet c).
Proof. pose proof (octet_range c). unfold in_u64. lia. Qed.

Lemma fnv_byte_inj_state h h' b :
  in_u64 h -> in_u64 h' -> in_u64 b -> Fnv1a.byte h b = Fnv1a.byte h' b -> h = h'.
Proof.
  intros Hh Hh' Hb H. apply mul_prime_inj in H; [|by apply lxor_range..].
  apply (f_equal (fun z => Z.lxor z b)) in H.
  by rewrite !Z.lxor_assoc, Z.lxor_nilpotent, !Z.lxor_0_r in H.
Qed.

Lemma fnv_byte_inj_octet h b b' :
  in_u64 h -> in_u64 b -> in_u64 b' -> Fnv1a.byte h b = Fnv1a.byte h b' -> b = b'.
Proof.
  intros Hh Hb Hb' H. apply mul_prime_inj in H; [|by apply lxor_range..].
  apply (f_equal (Z.lxor h)) in H.
  by rewrite <-!Z.lxor_assoc, Z.lxor_nilpotent, !Z.lxor_0_l in H.
Qed.

Lemma fnv_bytes_inj_state s h h' :
  in_u64 h -> in_u64 h' -> Fnv1a.fnv_bytes h s = Fnv1a.fnv_bytes h' s -> h = h'.
Proof.
  revert h h'. induction s as [|c s IH]; intros h h' Hh Hh' H; [done|].
  rewrite !fnv_bytes_cons in H. apply IH in H; [|apply u64_range..].
  by apply fnv_byte_inj_state in H; [|done|done|apply octet_in_u64].
Qed.

Lemma fnv_single_octet h (p s : bytes) c c' :
  in_u64 h ->
  Fnv1a.fnv_bytes h (p ++ c :: s) = Fnv1a.fnv_bytes h (p ++ c' :: s) -> c = c'.
Proof.
  intros Hh H. rewrite !fnv_bytes_app, !fnv_bytes_cons in H.
  apply fnv_bytes_inj_state in H; [|apply u64_range..].
  apply fnv_byte_inj_octet in H; [by apply octet_inj|by apply fnv_bytes_range|apply octet_in_u64..].
Qed.

Lemma kFnvOffset_range : in_u64 Fnv1a.kFnvOffset.
Proof. unfold in_u64, Fnv1a.kFnvOffset. lia. Qed.

Lemma schema_stream_split n v fs1 f fs2 :
  exists p, schema_stream n v (fs1 ++ f :: fs2) =
    p ++ chr (if required f then 1 else 0) :: type_stream (ftype f) ++
    concat (field_stream <$> fs2) /\
    forall f', fname f' = fname f ->
      schema_stream n v (fs1 ++ f' :: fs2) =
      p ++ chr (if required f' then 1 else 0) :: type_stream (ftype f') ++
      concat (field_stream <$> fs2).
Proof.
  exists (le_bytes 8 (u64 (zlen n)) ++ n ++ le_bytes 8 v ++
     le_bytes 8 (u64 (zlen (fs1 ++ f :: fs2))) ++ concat (field_stream <$> fs1) ++
     le_bytes 8 (u64 (zlen (fname f))) ++ fname f).
  assert (forall f', zlen (fs1 ++ f' :: fs2) = zlen (fs1 ++ f :: fs2)) as Hl.
  { intros. unfold zlen. by rewrite !length_app. }
  unfold schema_stream, field_stream.
  split; [|intros f' Hf; rewrite (Hl f')];
    rewrite fmap_app, fmap_cons, concat_app, concat_cons, <-!app_assoc, ?Hf; done.
Qed.

(** Changing one field's required flag, or its kind to another primitive
    kind, changes the schema's content id: the two versions of the shape can
    never share a door. *)
Theorem content_id_single_change n v fs1 f f' fs2 cid cid' :
  compute_content_id n v (fs1 ++ f :: fs2) = Ok cid ->
  compute_content_id n v (fs1 ++ f' :: fs2) = Ok cid' ->
  Forall (fun f => validate_typeref (ftype f) = Ok tt) (fs1 ++ f :: fs2) ->
  fname f' = fname f ->
  (required f' <> required f /\ ftype f' = ftype f \/
   required f' = required f /\ exists k k', k <> k' /\ primitive k /\ primitive k' /\
     ftype f = mkTypeRef k None None /\ ftype f' = mkTypeRef k' None None) ->
  cid <> cid'.
Proof.
  intros Hc Hc' Hval Hname Hdiff <-.
  assert (Forall (fun f => validate_typeref (ftype f) = Ok tt) (fs1 ++ f' :: fs2)) as Hval'.
  { rewrite !Forall_app, !Forall_cons in *. destruct Hval as (? & ? & ?).
    split; [done|]. split; [|done].
    destruct Hdiff as [[_ ->]|(_ & k & k' & _ & _ & [??] & _ & ->)]; [done|by destruct k']. }
  rewrite content_id_stream in Hc, Hc' by done.
  assert (Fnv1a.fnv_bytes Fnv1a.kFnvOffset (schema_stream n v (fs1 ++ f :: fs2)) =
    Fnv1a.fnv_bytes Fnv1a.kFnvOffset (schema_stream n v (fs1 ++ f' :: fs2))) as He by congruence.
  destruct (schema_stream_split n v fs1 f fs2) as (p & Hs & Hs').
  rewrite Hs, (Hs' f' Hname) in He.
  destruct Hdiff as [[Hreq Hty]|(Hreq & k & k' & Hk & [??] & [??] & Ht & Ht')].
  - rewrite Hty in He. apply fnv_single_octet in He; [|apply kFnvOffset_range].
    apply (f_equal octet) in He. rewrite !octet_chr in He.
    by destruct (required f), (required f').
  - rewrite Ht, Ht', Hreq, !type_stream_cons in He.
    replace (type_tail (mkTypeRef k None None)) with ([] : bytes) in He by by destruct k.
    replace (type_tail (mkTypeRef k' None None)) with ([] : bytes) in He by by destruct k'.
    rewrite <-!app_comm_cons, !(cons_middle (chr (if required f then 1 else 0))), !app_assoc in He.
    apply fnv_single_octet in He; [|apply kFnvOffset_range].
    by apply chr_kind_code_inj in He.
Qed.

(** ** Examples and witnesses *)

Definition t_int : TypeRef := mkTypeRef KInt None None.
Definition t_text : TypeRef := mkTypeRef KText None None.

(** The README's [PlayerState v1 {hp: Int, name: Text}]. *)
Definition player_fields : list Field := [mkField "hp" t_int true; mkField "name" t_text true].
Definition player : Schema := mkSchema "PlayerState" 1 player_fields 12814600957391176662.

(** The content id the README prints, [0xb1d69bad13ae83d6]. *)
Example player_built :
  (b ← builder_field "hp" KInt true (builder "PlayerState" 1);
   b ← builder_field "name" KText true b; builder_build b) = Ok player.
Proof. vm_compute. reflexivity. Qed.

Lemma player_fields_wf : Forall (fun f => wf_type (ftype f)) player_fields.
Proof. repeat constructor; discriminate. Qed.

Lemma player_wf : wf_schema player.
Proof.
  constructor; [done| | |exact player_fields_wf|by vm_compute].
  - apply (bool_decide_unpack _). by vm_compute.
  - repeat constructor; discriminate.
Qed.

Lemma Schema_new_spec_witness :
  Schema_new "PlayerState" 1 player_fields = Ok player <->
  wf_schema player /\ Schema_name player = "PlayerState" /\ Schema_version player = 1 /\
  Schema_fields player = player_fields.
Proof.
  apply (proj2 (Schema_new_spec "PlayerState" 1 player_fields
    (conj (Z.le_0_1) (eq_refl : 1 < 2 ^ 32))
    (Forall_impl _ _ _ player_fields_wf (fun f => wf_type_messages_wf (ftype f))))).
Defined.

Lemma player_sized : sized "PlayerState" player_fields.
Proof. by repeat constructor. Qed.

Lemma schema_stream_injective_witness :
  compute_content_id "PlayerState" 1 player_fields = Ok (Schema_content_id player) /\
  Schema_content_id player = Fnv1a.fnv_bytes Fnv1a.kFnvOffset (schema_stream "PlayerState" 1 player_fields).
Proof.
  exact (proj1 (schema_stream_injective "PlayerState" 1 player_fields "PlayerState" 1
    player_fields _ _ player_wf player_wf player_sized player_sized)).
Defined.

Lemma content_id_single_change_witness :
  (Schema_content_id player : Z) <> 12324427411047802811.
Proof.
  apply (content_id_single_change "PlayerState" 1 [] (mkField "hp" t_int true)
    (mkField "hp" t_int false) [mkField "name" t_text true]).
  - vm_compute. reflexivity.
  - vm_compute. reflexivity.
  - repeat constructor.
  - reflexivity.
  - left. split; [discriminate|reflexivity].
Defined.
