(* ===== verification/Value.v ===== *)
(** * Values and cells

    [include/zen/value.hpp] and [src/value.cpp].  A [Cell] is the variant of the
    seven kinds; a [double] is kept as its 64 bits (all the code ever inspects,
    through [memcpy]); a nested message is a nullable pointer.  Nested values are
    shared on copy in C++, but no code under [src/] writes through such a pointer,
    so sharing is not observable and a nested value is held directly. *)

From S2P Require Import Prelude Schema.

Inductive Cell : Type :=
| CInt (v : Z)
| CFloat (bits : Z)
| CText (s : bytes)
| CBool (b : bool)
| CBytes (b : bytes)
| CMessage (v : option Value)
| CList (a : list Cell)
with Value : Type :=
| mkValue (schema : Schema) (slots : list (option Cell)).

Definition Cell_kind (c : Cell) : Kind :=
  match c with
  | CInt _ => KInt | CFloat _ => KFloat | CText _ => KText | CBool _ => KBool
  | CBytes _ => KBytes | CMessage _ => KMessage | CList _ => KList
  end.

Definition as_int (c : Cell) : result Z :=
  match c with CInt v => Ok v | _ => Throw bad_variant_access end.
Definition as_float (c : Cell) : result Z :=
  match c with CFloat b => Ok b | _ => Throw bad_variant_access end.
Definition as_text (c : Cell) : result bytes :=
  match c with CText s => Ok s | _ => Throw bad_variant_access end.
Definition as_bool (c : Cell) : result bool :=
  match c with CBool b => Ok b | _ => Throw bad_variant_access end.
Definition as_bytes (c : Cell) : result bytes :=
  match c with CBytes b => Ok b | _ => Throw bad_variant_access end.
Definition as_message (c : Cell) : result (option Value) :=
  match c with CMessage v => Ok v | _ => Throw bad_variant_access end.
Definition as_list (c : Cell) : result (list Cell) :=
  match c with CList a => Ok a | _ => Throw bad_variant_access end.

Definition Value_schema (v : Value) : Schema := match v with mkValue s _ => s end.
Definition Value_slots (v : Value) : list (option Cell) := match v with mkValue _ sl => sl end.

Definition Value_new (schema : option Schema) : result Value :=
  match schema with
  | None => Throw (invalid_argument "Value requires a non-null schema")
  | Some s => Ok (mkValue s (replicate (length (Schema_fields s)) None))
  end.

(** The linear scan of [set] and [get]: the first index with that name. *)
Fixpoint field_index (fields : list Field) (field : bytes) : option nat :=
  match fields with
  | [] => None
  | f :: rest => if bool_decide (fname f = field) then Some O else S <$> field_index rest field
  end.

Definition undeclared (field : bytes) (s : Schema) : exn :=
  out_of_range (str "field '" ++ field ++ str "' is not declared by schema '" ++
    Schema_name s ++ str "'").

Definition Value_set (v : Value) (field : bytes) (c : Cell) : result Value :=
  match field_index (Schema_fields (Value_schema v)) field with
  | Some i => Ok (mkValue (Value_schema v) (<[i := Some c]> (Value_slots v)))
  | None => Throw (undeclared field (Value_schema v))
  end.

(** [slots_[i]], with [nullptr] for an empty slot. *)
Definition Value_at (v : Value) (i : nat) : option Cell := mjoin (Value_slots v !! i).

Definition Value_get (v : Value) (field : bytes) : option Cell :=
  match field_index (Schema_fields (Value_schema v)) field with
  | Some i => Value_at v i
  | None => None
  end.

Definition Value_has (v : Value) (field : bytes) : bool := bool_decide (is_Some (Value_get v field)).
Definition field_count (v : Value) : Z := zlen (Value_slots v).

(** Blind construction.  The source may keep a state of its own (a console
    reading its input), threaded in the order of the calls. *)
Section construct_blind.
Context {S : Type} (source : S -> Field -> S * option Cell).

Fixpoint blind_fill (fields : list Field) (st : S) (v : Value) : result (S * Value) :=
  match fields with
  | [] => Ok (st, v)
  | f :: rest =>
      let '(st, cell) := source st f in
      match cell with
      | Some c => v ← Value_set v (fname f) c; blind_fill rest st v
      | None => blind_fill rest st v
      end
  end.

Definition construct_blind (schema : option Schema) (st : S) : result (S * Value) :=
  v ← Value_new schema;
  s ← deref schema;
  blind_fill (Schema_fields s) st v.
End construct_blind.

(** ** Slots stay aligned with the schema's fields *)

Definition aligned (v : Value) : Prop :=
  length (Value_slots v) = length (Schema_fields (Value_schema v)).

Lemma Value_new_aligned s v : Value_new (Some s) = Ok v -> aligned v /\ Value_schema v = s.
Proof. intros [= <-]. split; [|done]. unfold aligned. simpl. by rewrite length_replicate. Qed.

Lemma field_index_Some fs name i :
  field_index fs name = Some i -> exists f, fs !! i = Some f /\ fname f = name.
Proof.
  revert i. induction fs as [|f fs IH]; intros i; simpl; [done|].
  case_bool_decide; [intros [= <-]; eauto|].
  destruct (field_index fs name) as [j|]; intros [= <-]. by apply IH.
Qed.

Lemma field_index_None fs name : field_index fs name = None <-> name ∉ fname <$> fs.
Proof.
  induction fs as [|f fs IH]; simpl; [split; [intros _; by apply not_elem_of_nil|done]|].
  rewrite not_elem_of_cons. case_bool_decide; [naive_solver|].
  rewrite fmap_None, IH. naive_solver.
Qed.

Lemma field_index_lookup fs i f :
  NoDup (fname <$> fs) -> fs !! i = Some f -> field_index fs (fname f) = Some i.
Proof.
  revert i. induction fs as [|g fs IH]; intros i Hnd Hi; [done|].
  rewrite fmap_cons, NoDup_cons in Hnd. destruct Hnd as [Hg Hnd].
  destruct i as [|i]; simpl in *.
  - injection Hi as ->. by rewrite bool_decide_true.
  - rewrite (IH i Hnd Hi), bool_decide_false; [done|]. intros Heq. apply Hg. rewrite Heq.
    by eapply list_elem_of_fmap_2, list_elem_of_lookup_2.
Qed.

Lemma field_index_inj fs n n' i :
  field_index fs n = Some i -> field_index fs n' = Some i -> n = n'.
Proof.
  intros (f & Hf & <-)%field_index_Some (f' & Hf' & <-)%field_index_Some. congruence.
Qed.

Lemma Value_set_ok v field c i :
  field_index (Schema_fields (Value_schema v)) field = Some i ->
  Value_set v field c = Ok (mkValue (Value_schema v) (<[i := Some c]> (Value_slots v))).
Proof. intros H. unfold Value_set. by rewrite H. Qed.

Lemma Value_set_cases v field c :
  (exists i, field_index (Schema_fields (Value_schema v)) field = Some i /\
     Value_set v field c = Ok (mkValue (Value_schema v) (<[i := Some c]> (Value_slots v))))
  \/ (field ∉ fname <$> Schema_fields (Value_schema v) /\
     Value_set v field c = Throw (undeclared field (Value_schema v))).
Proof.
  unfold Value_set. destruct (field_index _ field) as [i|] eqn:E; [left; eauto|right].
  split; [|done]. by apply field_index_None.
Qed.

(** [set] succeeds exactly on a declared field and throws
    [std::out_of_range] otherwise; when it succeeds the schema and the alignment
    of slots with fields are kept, the field reads back the new cell and every
    other field reads as before. *)
Theorem Value_set_get v field c :
  aligned v ->
  (field ∈ fname <$> Schema_fields (Value_schema v) ->
     exists v', Value_set v field c = Ok v' /\ Value_schema v' = Value_schema v /\ aligned v' /\
       Value_get v' field = Some c /\
       forall other, other <> field -> Value_get v' other = Value_get v other) /\
  (field ∉ fname <$> Schema_fields (Value_schema v) ->
     Value_set v field c = Throw (undeclared field (Value_schema v))).
Proof.
  intros Hal. destruct (Value_set_cases v field c) as [(i & Hi & Hset)|[Hn Hset]]; [|naive_solver].
  destruct (field_index_Some _ _ _ Hi) as (f & Hf & Hname).
  split; [intros _|intros []; subst; by eapply list_elem_of_fmap_2, list_elem_of_lookup_2].
  eexists. split; [done|]. split; [done|]. unfold aligned, Value_get, Value_at in *. simpl.
  rewrite length_insert, Hi. split; [done|]. apply lookup_lt_Some in Hf.
  rewrite list_lookup_insert_eq by lia. split; [done|]. intros other Hne.
  destruct (field_index _ other) as [j|] eqn:Hj; [|done].
  rewrite list_lookup_insert_ne; [done|]. intros ->. apply Hne. by eapply field_index_inj.
Qed.

(** The slots blind construction leaves, and the source's final state. *)
Fixpoint blind_slots {S} (source : S -> Field -> S * option Cell) (fields : list Field) (st : S)
  : S * list (option Cell) :=
  match fields with
  | [] => (st, [])
  | f :: rest =>
      let '(st, c) := source st f in
      let '(st, cs) := blind_slots source rest st in (st, c :: cs)
  end.

Lemma blind_fill_spec {S} (source : S -> Field -> S * option Cell) s fs1 fs2 st sl :
  Schema_fields s = fs1 ++ fs2 -> NoDup (fname <$> Schema_fields s) -> length sl = length fs1 ->
  blind_fill source fs2 st (mkValue s (sl ++ replicate (length fs2) None)) =
  let '(st', cs) := blind_slots source fs2 st in Ok (st', mkValue s (sl ++ cs)).
Proof.
  revert fs1 st sl. induction fs2 as [|f fs2 IH]; intros fs1 st sl Hfs Hnd Hl; [done|].
  simpl. destruct (source st f) as [st1 c].
  assert (Schema_fields s = (fs1 ++ [f]) ++ fs2) as Hfs' by (by rewrite <-app_assoc).
  specialize (IH (fs1 ++ [f]) st1 (sl ++ [c]) Hfs' Hnd ltac:(rewrite !length_app; simpl; lia)).
  rewrite <-!app_assoc in IH. simpl in IH. destruct (blind_slots source fs2 st1) as [st2 cs].
  rewrite <-app_assoc in IH. destruct c as [c|]; [|done].
  rewrite (Value_set_ok _ _ _ (length fs1)); simpl.
  - rewrite insert_app_r_alt by lia. rewrite Hl, Nat.sub_diag. done.
  - apply field_index_lookup; [done|]. rewrite Hfs. by apply list_lookup_middle.
Qed.

(** For every constructed schema [construct_blind] succeeds; it consults the
    source once per field, in declared order, and the slot of each field holds
    exactly what the source returned for it. *)
Theorem construct_blind_spec {S} (source : S -> Field -> S * option Cell) (s : Schema) (st : S) :
  wf_schema s ->
  construct_blind source (Some s) st =
  let '(st', cs) := blind_slots source (Schema_fields s) st in Ok (st', mkValue s cs).
Proof.
  intros [n v fs cid Hv Hnd Hne Hts Hcid]. unfold construct_blind. simpl.
  by apply (blind_fill_spec source (mkSchema n v fs cid) [] fs st []).
Qed.

(** ** Induction on a cell and a value together *)

Section cell_value_ind.
Context (P : Cell -> Prop) (Q : Value -> Prop).
Context (Hint : forall z, P (CInt z)) (Hfloat : forall b, P (CFloat b)).
Context (Htext : forall s, P (CText s)) (Hbool : forall b, P (CBool b)).
Context (Hbytes : forall b, P (CBytes b)) (Hnull : P (CMessage None)).
Context (Hmsg : forall v, Q v -> P (CMessage (Some v))).
Context (Hlist : forall a, Forall P a -> P (CList a)).
Context (Hvalue : forall s sl, Forall (fun o => forall c, o = Some c -> P c) sl ->
  Q (mkValue s sl)).

Fixpoint Cell_ind' (c : Cell) : P c :=
  match c with
  | CInt z => Hint z
  | CFloat b => Hfloat b
  | CText s => Htext s
  | CBool b => Hbool b
  | CBytes b => Hbytes b
  | CMessage None => Hnull
  | CMessage (Some v) => Hmsg v (Value_ind' v)
  | CList a =>
      Hlist a ((fix go a : Forall P a :=
        match a with
        | [] => @List.Forall_nil _ _
        | c :: a => @List.Forall_cons _ _ c a (Cell_ind' c) (go a)
        end) a)
  end
with Value_ind' (v : Value) : Q v :=
  match v with
  | mkValue s sl =>
      Hvalue s sl ((fix go sl : Forall (fun o => forall c, o = Some c -> P c) sl :=
        match sl with
        | [] => @List.Forall_nil _ _
        | o :: sl =>
            @List.Forall_cons _ _ o sl
              (match o return forall c, o = Some c -> P c with
               | Some d => fun c E => eq_ind d P (Cell_ind' d) c (Some_inj d c E)
               | None => fun c E => False_ind _ (eq_ind (@None Cell)
                   (fun o => match o with None => True | Some _ => False end) I (Some c) E)
               end) (go sl)
        end) sl)
  end.

Lemma cell_value_ind : (forall c, P c) /\ (forall v, Q v).
Proof. split; [exact Cell_ind' | exact Value_ind']. Qed.
End cell_value_ind.

(** ** Witnesses *)

(** The README's [{hp: 30, name: "Ami"}]. *)
Definition ami : Value := mkValue player [Some (CInt 30); Some (CText "Ami")].

Lemma Value_set_get_witness :
  exists v', Value_set ami "hp" (CInt 31) = Ok v' /\ Value_get v' "hp" = Some (CInt 31).
Proof.
  destruct (proj1 (Value_set_get ami "hp" (CInt 31) eq_refl)) as (v' & H1 & _ & _ & H2 & _).
  - left.
  - exists v'. split; [exact H1|exact H2].
Defined.

Lemma construct_blind_spec_witness :
  construct_blind (fun (n : nat) f => (S n, if required f then Some (CInt (Z.of_nat n)) else None))
    (Some player) O = Ok (2%nat, mkValue player [Some (CInt 0); Some (CInt 1)]).
Proof. exact (construct_blind_spec _ player O player_wf). Defined.
