(* ===== verification/Registry.v ===== *)
(** * The registry of published schemas

    [include/zen/registry.hpp] and [src/registry.cpp].  The state is the current
    copy-on-write snapshot, a map from [(name, version)]; a writer replaces it
    wholesale under the lock, a reader copies it and looks up in its copy. *)

From S2P Require Import Prelude Schema.

Abbreviation Key := (bytes * Z)%type.
Abbreviation Registry := (gmap (bytes * Z) Schema).

Record Registration : Type := mkRegistration { reg_schema : Schema; inserted : bool }.

Definition Registry_new : Registry := ∅.

Definition schema_key (s : Schema) : Key := (Schema_name s, Schema_version s).

(** The text of a [SchemaConflict], and of the exceptions in general; that of a
    bad variant access is the standard library's own. *)
Definition conflict_what (name : bytes) (version : Z) : bytes :=
  str "schema '" ++ name ++ str "' v" ++ to_string version ++
  str " is already published with a different shape (published schemas are immutable)".

Definition what (variant_what : bytes) (e : exn) : bytes :=
  match e with
  | invalid_argument w | out_of_range w | logic_error w | runtime_error w | DllBoundaryError w => w
  | SchemaConflict name version _ _ => conflict_what name version
  | bad_variant_access => variant_what
  end.

Definition register_schema (current : Registry) (schema : option Schema)
  : Registry * result Registration :=
  match schema with
  | None =>
      (current, Throw (invalid_argument "Registry::register_schema requires a non-null schema"))
  | Some s =>
      match current !! schema_key s with
      | Some existing =>
          if Schema_content_id existing =? Schema_content_id s
          then (current, Ok (mkRegistration existing false))
          else (current, Throw (SchemaConflict (Schema_name s) (Schema_version s)
                  (Schema_content_id existing) (Schema_content_id s)))
      | None => (<[schema_key s := s]> current, Ok (mkRegistration s true))
      end
  end.

(** [snapshot()] copies the current pointer; [lookup], [contains] and [size]
    read a snapshot. *)
Definition snapshot (current : Registry) : Registry := current.
Definition Registry_lookup (current : Registry) (name : bytes) (version : Z) : option Schema :=
  snapshot current !! (name, version).
Definition contains (current : Registry) (name : bytes) (version : Z) : bool :=
  bool_decide (is_Some (Registry_lookup current name version)).
Definition Registry_size (current : Registry) : nat := size (snapshot current).

(** A run of registrations, ignoring their individual outcomes. *)
Definition register_all (current : Registry) (l : list (option Schema)) : Registry :=
  fold_left (fun r s => (register_schema r s).1) l current.

(** ** Invariant: every schema is filed under its own key *)

Definition registry_ok (r : Registry) : Prop :=
  forall k s, r !! k = Some s -> schema_key s = k.

Lemma registry_ok_empty : registry_ok Registry_new.
Proof. intros k s H. unfold Registry_new in H. by rewrite lookup_empty in H. Qed.

Lemma register_ok r s : registry_ok r -> registry_ok (register_schema r s).1.
Proof.
  intros Hr. destruct s as [s|]; simpl; [|done].
  destruct (r !! schema_key s); [by case_match|]. simpl.
  intros k s' [[<- <-]|[_ H]]%lookup_insert_Some; auto.
Qed.

#[export] Hint Resolve registry_ok_empty register_ok : zen.

(** [register_schema] rejects a null schema; files a new [(name, version)];
    returns the already published owner, unchanged, when the content ids agree;
    and throws [SchemaConflict] naming both ids when they differ.  Only the
    second case changes the registry, and then only at that key. *)
Theorem register_schema_spec r :
  register_schema r None =
    (r, Throw (invalid_argument "Registry::register_schema requires a non-null schema")) /\
  (forall s, Registry_lookup r (Schema_name s) (Schema_version s) = None ->
     exists r', register_schema r (Some s) = (r', Ok (mkRegistration s true)) /\
       Registry_lookup r' (Schema_name s) (Schema_version s) = Some s /\
       Registry_size r' = S (Registry_size r) /\
       forall n v, (n, v) <> schema_key s -> Registry_lookup r' n v = Registry_lookup r n v) /\
  (forall s e, Registry_lookup r (Schema_name s) (Schema_version s) = Some e ->
     (Schema_content_id e = Schema_content_id s ->
        register_schema r (Some s) = (r, Ok (mkRegistration e false))) /\
     (Schema_content_id e <> Schema_content_id s ->
        register_schema r (Some s) = (r, Throw (SchemaConflict (Schema_name s)
          (Schema_version s) (Schema_content_id e) (Schema_content_id s))))).
Proof.
  unfold Registry_lookup, Registry_size, snapshot, register_schema.
  split; [done|]. split; intros s.
  - intros Hn. unfold schema_key at 1. rewrite Hn. eexists. split; [done|].
    split; [apply lookup_insert_eq|]. split; [by apply map_size_insert_None|].
    intros n v Hne. by apply lookup_insert_ne.
  - intros e He. unfold schema_key. rewrite He. split; intros H.
    + by rewrite H, Z.eqb_refl.
    + by apply Z.eqb_neq in H as ->.
Qed.

Lemma register_grows r s : r ⊆ (register_schema r s).1.
Proof.
  destruct s as [s|]; simpl; [|done]. destruct (r !! schema_key s) eqn:E; [by case_match|].
  by apply insert_subseteq.
Qed.

(** A published schema is frozen.  Whatever is registered later, by any
    number of writers in any order, a key once published keeps resolving to the
    very same schema; so a reader holding an older snapshot and a reader of the
    current one can never disagree on a schema the older one knows. *)
Theorem published_is_immutable r l n v s :
  Registry_lookup r n v = Some s -> Registry_lookup (register_all r l) n v = Some s.
Proof.
  revert r. induction l as [|x l IH]; intros r H; [done|].
  simpl. apply IH. unfold Registry_lookup, snapshot in *.
  eapply lookup_weaken; [done|apply register_grows].
Qed.

(** ** Witnesses *)

Lemma register_schema_spec_witness :
  exists r', register_schema ∅ (Some player) = (r', Ok (mkRegistration player true)) /\
    Registry_lookup r' "PlayerState" 1 = Some player.
Proof.
  destruct (proj1 (proj2 (register_schema_spec ∅)) player) as (r' & H1 & H2 & _).
  - vm_compute. reflexivity.
  - exists r'. split; [exact H1|exact H2].
Defined.

Lemma published_is_immutable_witness :
  Registry_lookup (register_all (register_schema ∅ (Some player)).1
    [None; Some (mkSchema "PlayerState" 1 [] 7); Some (mkSchema "PlayerState" 2 [] 7)])
    "PlayerState" 1 = Some player.
Proof. apply published_is_immutable. vm_compute. reflexivity. Defined.
