(* ===== verification/RegistryThreads.v ===== *)
(** * The registry under threads

    [src/registry.cpp] step by step, as its threads interleave: the shared mutex, the
    pointer to the current map, and the maps it has pointed to.  A step is one access
    to what the threads share, or an acquisition or release of the mutex; a schedule
    says whose turn it is.  [Registry] is what this refines: whatever the schedule,
    the calls answer as if each had run by itself, at one moment between its start and
    its return.

    A map lives as long as anything points to it; the heap here keeps them all.  The
    operations of the mutex order memory, so the accesses between them are those of an
    interleaving once no two of them race, which is proved too. *)

From S2P Require Import Prelude Schema Registry.

Abbreviation Tid := nat.
Abbreviation Addr := nat.

(** ** Calls and their answers *)

Inductive Call : Type :=
| CRegister (schema : option Schema)
| CLookup (name : bytes) (version : Z)
| CContains (name : bytes) (version : Z)
| CSize.

Inductive Reply : Type :=
| RRegistered (r : result Registration)
| RLookup (s : option Schema)
| RContains (b : bool)
| RSize (n : nat).

(** The call by itself. *)
Definition alone (c : Call) (m : Registry) : Registry * Reply :=
  match c with
  | CRegister s => let '(m, r) := register_schema m s in (m, RRegistered r)
  | CLookup n v => (m, RLookup (Registry_lookup m n v))
  | CContains n v => (m, RContains (contains m n v))
  | CSize => (m, RSize (Registry_size m))
  end.
Definition read (c : Call) (m : Registry) : Reply := (alone c m).2.

(** One after the other. *)
Fixpoint replay (cs : list Call) (m : Registry) : Registry * list Reply :=
  match cs with
  | [] => (m, [])
  | c :: cs => let '(m, x) := alone c m in let '(m, l) := replay cs m in (m, x :: l)
  end.

(** ** Threads *)

(** Where a thread is in its call.  A writer waits for the mutex, searches the current
    map, copies it, inserts into its copy, swaps the copy in and unlocks; a reader waits,
    loads the pointer, unlocks and searches. *)
Inductive Pc : Type :=
| Idle
| WWait (s : Schema)
| WFind (s : Schema)
| WCopy (s : Schema)
| WInsert (s : Schema) (next : Addr)
| WSwap (s : Schema) (next : Addr)
| WUnlock (s : Schema) (out : result Registration)
| RWait (c : Call)
| RLoad (c : Call)
| RUnlock (c : Call) (snap : Addr)
| RFind (c : Call) (snap : Addr).

Record Thread : Type := mkThread { pc : Pc; todo : list Call; answered : list (Call * Reply) }.

Record State : Type := mkState {
  threads : gmap Tid Thread;
  heap : gmap Addr Registry;
  current : Addr;
  fresh : Addr;
  owner : option Tid;        (* who holds [mtx_] exclusively *)
  sharers : gset Tid         (* who holds it shared *)
}.

Definition set_thread (t : Tid) (th : Thread) (σ : State) : State :=
  mkState (<[t := th]> (threads σ)) (heap σ) (current σ) (fresh σ) (owner σ) (sharers σ).
Definition set_heap (a : Addr) (m : Registry) (n : Addr) (σ : State) : State :=
  mkState (threads σ) (<[a := m]> (heap σ)) (current σ) n (owner σ) (sharers σ).
Definition set_current (a : Addr) (σ : State) : State :=
  mkState (threads σ) (heap σ) a (fresh σ) (owner σ) (sharers σ).
Definition set_lock (o : option Tid) (l : gset Tid) (σ : State) : State :=
  mkState (threads σ) (heap σ) (current σ) (fresh σ) o l.

Definition goto (t : Tid) (p : Pc) (th : Thread) (σ : State) : State :=
  set_thread t (mkThread p (todo th) (answered th)) σ.
Definition return_ (t : Tid) (c : Call) (x : Reply) (th : Thread) (σ : State) : State :=
  set_thread t (mkThread Idle (todo th) (answered th ++ [(c, x)])) σ.

(** What [*current_] is. *)
Definition cur (σ : State) : Registry := default ∅ (heap σ !! current σ).

(** The step that decides a call's answer says so: who, what and the answer. *)
Abbreviation Event := (Tid * (Call * Reply))%type.

Definition decided (t : Tid) (c : Call) (x : Reply) (σ : State) : State * option Event := (σ, Some (t, (c, x))).
Definition silent (σ : State) : State * option Event := (σ, None).

Definition null_schema : result Registration :=
  Throw (invalid_argument "Registry::register_schema requires a non-null schema").
Definition already (existing s : Schema) : result Registration :=
  if Schema_content_id existing =? Schema_content_id s then Ok (mkRegistration existing false)
  else Throw (SchemaConflict (Schema_name s) (Schema_version s) (Schema_content_id existing) (Schema_content_id s)).

(** The next call; a null schema is refused before the mutex. *)
Definition call_step (t : Tid) (th : Thread) (σ : State) : option (State * option Event) :=
  match todo th with
  | [] => None
  | c :: cs =>
      let th := mkThread Idle cs (answered th) in
      match c with
      | CRegister None => Some (decided t c (RRegistered null_schema) (return_ t c (RRegistered null_schema) th σ))
      | CRegister (Some s) => Some (silent (goto t (WWait s) th σ))
      | _ => Some (silent (goto t (RWait c) th σ))
      end
  end.

(** [register_schema] from its lock on. *)
Definition writer_step (t : Tid) (th : Thread) (σ : State) : option (State * option Event) :=
  match pc th with
  | WWait s =>
      if bool_decide (owner σ = None /\ sharers σ = ∅)
      then Some (silent (goto t (WFind s) th (set_lock (Some t) (sharers σ) σ))) else None
  | WFind s =>
      m ← heap σ !! current σ;
      match m !! schema_key s with
      | Some existing =>
          let out := already existing s in
          Some (decided t (CRegister (Some s)) (RRegistered out) (goto t (WUnlock s out) th σ))
      | None => Some (silent (goto t (WCopy s) th σ))
      end
  | WCopy s =>
      m ← heap σ !! current σ;
      Some (silent (goto t (WInsert s (fresh σ)) th (set_heap (fresh σ) m (S (fresh σ)) σ)))
  | WInsert s a =>
      m ← heap σ !! a;
      Some (silent (goto t (WSwap s a) th (set_heap a (<[schema_key s := s]> m) (fresh σ) σ)))
  | WSwap s a =>
      let out := Ok (mkRegistration s true) in
      Some (decided t (CRegister (Some s)) (RRegistered out) (goto t (WUnlock s out) th (set_current a σ)))
  | WUnlock s out =>
      Some (silent (return_ t (CRegister (Some s)) (RRegistered out) th (set_lock None (sharers σ) σ)))
  | _ => None
  end.

(** [snapshot], and the search of what it gave. *)
Definition reader_step (t : Tid) (th : Thread) (σ : State) : option (State * option Event) :=
  match pc th with
  | RWait c =>
      if bool_decide (owner σ = None)
      then Some (silent (goto t (RLoad c) th (set_lock None ({[t]} ∪ sharers σ) σ))) else None
  | RLoad c => Some (decided t c (read c (cur σ)) (goto t (RUnlock c (current σ)) th σ))
  | RUnlock c a => Some (silent (goto t (RFind c a) th (set_lock (owner σ) (sharers σ ∖ {[t]}) σ)))
  | RFind c a =>
      m ← heap σ !! a;
      Some (silent (return_ t c (read c m) th σ))
  | _ => None
  end.

Definition step (t : Tid) (σ : State) : option (State * option Event) :=
  th ← threads σ !! t;
  match pc th with
  | Idle => call_step t th σ
  | WWait _ | WFind _ | WCopy _ | WInsert _ _ | WSwap _ _ | WUnlock _ _ => writer_step t th σ
  | RWait _ | RLoad _ | RUnlock _ _ | RFind _ _ => reader_step t th σ
  end.

(** A thread that cannot move lets its turn pass. *)
Fixpoint run (schedule : list Tid) (σ : State) : State * list Event :=
  match schedule with
  | [] => (σ, [])
  | t :: schedule =>
      match step t σ with
      | None => run schedule σ
      | Some (σ, e) => let '(σ, l) := run schedule σ in (σ, option_list e ++ l)
      end
  end.

(** A new registry, and threads with calls to make. *)
Definition start (programs : gmap Tid (list Call)) : State :=
  mkState ((fun cs => mkThread Idle cs []) <$> programs) {[ 0%nat := Registry_new ]} 0 1 None ∅.

(** ** The invariant *)

(** Inside the exclusive section, and inside the shared one. *)
Definition writing (p : Pc) : bool :=
  match p with WFind _ | WCopy _ | WInsert _ _ | WSwap _ _ | WUnlock _ _ => true | _ => false end.
Definition sharing (p : Pc) : bool :=
  match p with RLoad _ | RUnlock _ _ => true | _ => false end.

(** A reader's call is one that leaves the map. *)
Definition reads (c : Call) : Prop := match c with CRegister _ => False | _ => True end.

(** What a thread may rely on.  Maps are published in the order they are made: one
    beyond the current is still its writer's own. *)
Definition knows (σ : State) (p : Pc) : Prop :=
  match p with
  | WCopy s => cur σ !! schema_key s = None
  | WInsert s a => (current σ < a)%nat /\ heap σ !! a = Some (cur σ) /\ cur σ !! schema_key s = None
  | WSwap s a => (current σ < a)%nat /\ heap σ !! a = Some (<[schema_key s := s]> (cur σ)) /\ cur σ !! schema_key s = None
  | RWait c | RLoad c => reads c
  | RUnlock c a | RFind c a => reads c /\ (a <= current σ)%nat /\ is_Some (heap σ !! a)
  | _ => True
  end.

Record thread_ok (σ : State) (t : Tid) (th : Thread) : Prop := {
  th_owner : owner σ = Some t <-> writing (pc th) = true;
  th_sharer : t ∈ sharers σ <-> sharing (pc th) = true;
  th_knows : knows σ (pc th)
}.

Record shared_ok (σ : State) : Prop := {
  so_current : heap σ !! current σ = Some (cur σ);
  so_fresh a : is_Some (heap σ !! a) -> (a < fresh σ)%nat;
  so_excl : owner σ = None \/ sharers σ = ∅;
  so_owner t : owner σ = Some t -> is_Some (threads σ !! t);
  so_sharers t : t ∈ sharers σ -> is_Some (threads σ !! t)
}.

Record state_ok (σ : State) : Prop := {
  st_shared : shared_ok σ;
  st_threads t th : threads σ !! t = Some th -> thread_ok σ t th
}.

(** The answer that is decided, of a call that has not returned. *)
Definition pending (σ : State) (p : Pc) : list (Call * Reply) :=
  match p with
  | WUnlock s out => [(CRegister (Some s), RRegistered out)]
  | RUnlock c a | RFind c a => [(c, read c (default ∅ (heap σ !! a)))]
  | _ => []
  end.

(** The call under way. *)
Definition underway (p : Pc) : list Call :=
  match p with
  | Idle => []
  | WWait s | WFind s | WCopy s | WInsert s _ | WSwap s _ | WUnlock s _ => [CRegister (Some s)]
  | RWait c | RLoad c | RUnlock c _ | RFind c _ => [c]
  end.
Definition calls (th : Thread) : list Call := (answered th).*1 ++ underway (pc th) ++ todo th.

(** What a step of [t] may change for the others. *)
Record others (t : Tid) (σ σ' : State) : Prop := {
  ot_owner t' : t' <> t -> owner σ' = Some t' <-> owner σ = Some t';
  ot_sharers t' : t' <> t -> t' ∈ sharers σ' <-> t' ∈ sharers σ;
  ot_heap a : (a <= current σ)%nat -> is_Some (heap σ !! a) -> heap σ' !! a = heap σ !! a;
  ot_current : (current σ <= current σ')%nat;
  ot_owned : owner σ = Some t \/ (heap σ' = heap σ /\ current σ' = current σ)
}.

Lemma others_ok t t' th σ σ' :
  t' <> t -> others t σ σ' -> thread_ok σ t' th -> thread_ok σ' t' th /\ pending σ' (pc th) = pending σ (pc th).
Proof.
  intros Ht [O1 O2 O3 O4 O5] [H1 H2 H3]. specialize (O1 t' Ht). specialize (O2 t' Ht).
  assert (writing (pc th) = true -> heap σ' = heap σ /\ current σ' = current σ) as Hw.
  { intros Hw. apply H1 in Hw. destruct O5 as [O5|O5]; [congruence|done]. }
  assert (knows σ' (pc th) /\ pending σ' (pc th) = pending σ (pc th)) as [? ?]; [|by split; [split; [rewrite O1|rewrite O2|]|]].
  destruct (pc th); cbn in *; unfold cur in *; try done;
    try (destruct (Hw eq_refl) as [-> ->]; by rewrite ?H3).
  all: destruct H3 as (Hr & Ha & Hs); rewrite O3 by done; split; [split; [done|split; [lia|done]]|done].
Qed.

(** ** A step *)

(** What a thread has still to do. *)
Definition rank (p : Pc) : nat :=
  match p with
  | Idle => 0 | WWait _ | RWait _ => 7 | WFind _ => 6 | WCopy _ => 5 | WInsert _ _ => 4 | WSwap _ _ => 3
  | RLoad _ => 3 | WUnlock _ _ | RUnlock _ _ => 2 | RFind _ _ => 1
  end.
Definition left_over (th : Thread) : nat := 8 * length (todo th) + rank (pc th).

Record advance (t : Tid) (th th' : Thread) (σ σ' : State) (e : option Event) : Prop := {
  ad_threads : threads σ' = <[t := th']> (threads σ);
  ad_others : others t σ σ';
  ad_self : thread_ok σ' t th';
  ad_shared : shared_ok σ';
  ad_replay : replay (option_list e).*2.*1 (cur σ) = (cur σ', (option_list e).*2.*2);
  ad_says x : e = Some x -> x.1 = t;
  ad_answers : answered th' ++ pending σ' (pc th') = answered th ++ pending σ (pc th) ++ (option_list e).*2;
  ad_calls : calls th' = calls th;
  ad_less : (left_over th' < left_over th)%nat
}.

Lemma alone_null m : alone (CRegister None) m = (m, RRegistered null_schema).
Proof. done. Qed.

Lemma alone_existing s m existing :
  m !! schema_key s = Some existing -> alone (CRegister (Some s)) m = (m, RRegistered (already existing s)).
Proof. intros E. unfold alone, register_schema, already. rewrite E. by destruct (_ =? _). Qed.

Lemma alone_new s m :
  m !! schema_key s = None -> alone (CRegister (Some s)) m = (<[schema_key s := s]> m, RRegistered (Ok (mkRegistration s true))).
Proof. intros E. cbn. by rewrite E. Qed.

Lemma replay_one c m m' x : alone c m = (m', x) -> replay [c] m = (m', [x]).
Proof. intros E. cbn [replay]. by rewrite E. Qed.

Lemma alone_read c m : reads c -> alone c m = (m, read c m).
Proof. by destruct c. Qed.

(** The rest of the shared state, where the threads only are changed. *)
Lemma shared_insert σ t th x :
  shared_ok σ -> threads σ !! t = Some x -> shared_ok (set_thread t th σ).
Proof.
  intros [H1 H2 H3 H4 H5] Ht. split; try done; cbn; intros t' Ht'; apply lookup_insert_is_Some'; auto.
Qed.

Lemma shared_lock σ o l :
  shared_ok σ -> (o = None \/ l = ∅) -> (forall t, o = Some t \/ t ∈ l -> is_Some (threads σ !! t)) -> shared_ok (set_lock o l σ).
Proof. intros [H1 H2 H3 H4 H5] Hx Ht. split; cbn; auto. Qed.

Lemma others_thread t th σ σ' : others t σ σ' -> others t σ (set_thread t th σ').
Proof. by intros []. Qed.

Lemma others_refl t σ : others t σ σ.
Proof. split; auto. Qed.

Lemma others_lock t σ o l :
  (forall t', t' <> t -> o = Some t' <-> owner σ = Some t') -> (forall t', t' <> t -> t' ∈ l <-> t' ∈ sharers σ) ->
  others t σ (set_lock o l σ).
Proof. intros Ho Hl. by split; auto. Qed.

(** The owner writes a map that is not published yet. *)
Lemma others_heap t σ a m n : owner σ = Some t -> (current σ < a)%nat -> others t σ (set_heap a m n σ).
Proof. intros Ho Ha. split; try done; [|by left]. intros a' Ha' _. cbn. apply lookup_insert_ne. lia. Qed.

Lemma others_current t σ a : owner σ = Some t -> (current σ <= a)%nat -> others t σ (set_current a σ).
Proof. intros Ho Ha. split; try done. by left. Qed.

Ltac others := unfold goto, return_; apply others_thread; first [apply others_refl|idtac].
Ltac count := unfold left_over; cbn; lia.
Ltac same_calls := unfold calls; cbn; rewrite ?fmap_app, <-?app_assoc; done.
Ltac same_answers := cbn; rewrite ?app_nil_r, <-?app_assoc; done.
Ltac by_itself := intros x; first [intros [= <-]; done|done].

Section advances.
Context (t : Tid) (σ : State) (cs : list Call) (l : list (Call * Reply)).
Hypothesis shared : shared_ok σ.

Lemma call_advances σ' e :
  threads σ !! t = Some (mkThread Idle cs l) -> thread_ok σ t (mkThread Idle cs l) ->
  call_step t (mkThread Idle cs l) σ = Some (σ', e) -> exists th', advance t (mkThread Idle cs l) th' σ σ' e.
Proof using shared.
  intros Eth [K1 K2 _] E. unfold call_step in E. cbn in *. destruct cs as [|c rest]; [done|].
  destruct c as [[s|]|n v|n v|]; injection E as <- <-; eexists;
    (split; [done|others|by split|by eapply shared_insert|done|by_itself|same_answers|same_calls|count]).
Qed.

Lemma writer_advances p σ' e :
  threads σ !! t = Some (mkThread p cs l) -> thread_ok σ t (mkThread p cs l) ->
  writer_step t (mkThread p cs l) σ = Some (σ', e) -> exists th', advance t (mkThread p cs l) th' σ σ' e.
Proof using shared.
  intros Eth [K1 K2 K3] E. pose proof (so_current _ shared) as Hcur. unfold writer_step in E. cbn in *.
  destruct p as [|s|s|s|s a|s a|s out|c|c|c a|c a]; try done; cbn in *.
  - destruct (bool_decide _) eqn:Hb; [|done]. apply bool_decide_eq_true in Hb as [Ho Hl]. injection E as <- <-. eexists.
    split; [done|others|split|eapply shared_insert|done|by_itself|same_answers|same_calls|count]; try done.
    + apply others_lock; [|done]. intros t' Ht'. rewrite Ho. split; [intros [= ->]; done|done].
    + apply shared_lock; [done|by right|]. intros t' [[= <-]|Ht']; [by eexists|by apply (so_sharers _ shared)].
  - rewrite Hcur in E. cbn in E. destruct (cur σ !! schema_key s) as [existing|] eqn:Ef; injection E as <- <-; eexists;
      (split; [done|others|by split|by eapply shared_insert|try done|by_itself|same_answers|same_calls|count]).
    apply (replay_one (CRegister (Some s))). by apply alone_existing.
  - rewrite Hcur in E. injection E as <- <-. assert (owner σ = Some t) as Ho by by apply K1.
    assert (current σ < fresh σ)%nat as Hlt by by apply (so_fresh _ shared).
    assert (cur (set_heap (fresh σ) (cur σ) (S (fresh σ)) σ) = cur σ) as Ecur.
    { unfold cur at 1. cbn. rewrite lookup_insert_ne by lia. done. }
    eexists. split; [done|others|split; [done|done|]|eapply shared_insert; [|done]|cbn|by_itself|same_answers|same_calls|count].
    + by apply others_heap.
    + cbn [knows pc]. change (cur (goto _ _ _ ?x)) with (cur x). rewrite Ecur. split; [done|]. split; [apply lookup_insert_eq|done].
    + split; cbn; try apply shared.
      * rewrite lookup_insert_ne by lia. rewrite Hcur. f_equal. symmetry. exact Ecur.
      * intros a. rewrite lookup_insert_is_Some'. intros [<-|Ha]; [lia|]. pose proof (so_fresh _ shared a Ha). lia.
    + change (cur (goto _ _ _ ?x)) with (cur x). by rewrite Ecur.
  - destruct K3 as (Hlt & Ha & Hn). rewrite Ha in E. injection E as <- <-. assert (owner σ = Some t) as Ho by by apply K1.
    assert (cur (set_heap a (<[schema_key s := s]> (cur σ)) (fresh σ) σ) = cur σ) as Ecur.
    { unfold cur at 1. cbn. rewrite lookup_insert_ne by lia. done. }
    eexists. split; [done|others|split; [done|done|]|eapply shared_insert; [|done]|cbn|by_itself|same_answers|same_calls|count].
    + by apply others_heap.
    + cbn [knows pc]. change (cur (goto _ _ _ ?x)) with (cur x). rewrite Ecur. split; [done|]. split; [apply lookup_insert_eq|done].
    + split; cbn; try apply shared.
      * rewrite lookup_insert_ne by lia. rewrite Hcur. f_equal. symmetry. exact Ecur.
      * intros a'. rewrite lookup_insert_is_Some'. intros [<-|Ha']; apply (so_fresh _ shared); [by eexists|done].
    + change (cur (goto _ _ _ ?x)) with (cur x). by rewrite Ecur.
  - destruct K3 as (Hlt & Ha & Hn). injection E as <- <-. assert (owner σ = Some t) as Ho by by apply K1.
    assert (cur (set_current a σ) = <[schema_key s := s]> (cur σ)) as Ecur by (unfold cur at 1; cbn; by rewrite Ha).
    eexists. split; [done|others|by split|eapply shared_insert; [|done]| |by_itself|same_answers|same_calls|count].
    + apply others_current; [done|lia].
    + split; cbn; try apply shared. change (heap σ !! a = Some (cur (set_current a σ))). by rewrite Ecur.
    + apply (replay_one (CRegister (Some s))). change (cur (goto _ _ _ ?x)) with (cur x). rewrite Ecur. by apply alone_new.
  - injection E as <- <-. assert (owner σ = Some t) as Ho by by apply K1. eexists.
    split; [done|others|split|eapply shared_insert; [|done]|done|by_itself|same_answers|same_calls|count]; try done.
    + apply others_lock; [|done]. intros t' Ht'. rewrite Ho. split; [done|intros [= ->]; done].
    + apply shared_lock; [done|by left|]. intros t' [Ht'|Ht']; [done|by apply (so_sharers _ shared)].
Qed.

Lemma reader_advances p σ' e :
  threads σ !! t = Some (mkThread p cs l) -> thread_ok σ t (mkThread p cs l) ->
  reader_step t (mkThread p cs l) σ = Some (σ', e) -> exists th', advance t (mkThread p cs l) th' σ σ' e.
Proof using shared.
  intros Eth [K1 K2 K3] E. pose proof (so_current _ shared) as Hcur. unfold reader_step in E. cbn in *.
  destruct p as [|s|s|s|s a|s a|s out|c|c|c a|c a]; try done; cbn in *.
  - destruct (bool_decide _) eqn:Hb; [|done]. apply bool_decide_eq_true in Hb as Ho. injection E as <- <-. eexists.
    split; [done|others|split|eapply shared_insert; [|done]|done|by_itself|same_answers|same_calls|count]; try done.
    + apply others_lock; [by rewrite Ho|]. intros t' Ht'. set_solver.
    + cbn. split; [done|set_solver].
    + apply shared_lock; [done|by left|]. intros t' [Ht'|[->%elem_of_singleton|Ht']%elem_of_union]; [done|by eexists|by apply (so_sharers _ shared)].
  - injection E as <- <-. eexists.
    split; [done|others|split; [done|done|]|by eapply shared_insert| |by_itself| |same_calls|count].
    + cbn. by rewrite Hcur.
    + apply (replay_one c). by apply alone_read.
    + cbn. by rewrite Hcur.
  - destruct K3 as (Hr & Ha & Hm). injection E as <- <-. eexists.
    split; [done|others|split|eapply shared_insert; [|done]|done|by_itself|same_answers|same_calls|count]; try done.
    + apply others_lock; [done|]. intros t' Ht'. set_solver.
    + cbn. split; [set_solver|done].
    + apply shared_lock; [done| |].
      * destruct (so_excl _ shared) as [Ho|Ho]; [by left|right]. set_solver.
      * intros t' [Ht'|Ht']; [by apply (so_owner _ shared)|apply (so_sharers _ shared); set_solver].
  - destruct K3 as (Hr & Ha & [m Hm]). rewrite Hm in E. injection E as <- <-. eexists.
    split; [done|others|by split|by eapply shared_insert|done|by_itself| |same_calls|count].
    cbn. rewrite Hm. by rewrite app_nil_r.
Qed.
End advances.

Lemma step_advances t σ σ' e :
  state_ok σ -> step t σ = Some (σ', e) -> exists th th', threads σ !! t = Some th /\ advance t th th' σ σ' e.
Proof.
  intros [Hs Ht] E. unfold step in E. destruct (threads σ !! t) as [[p cs l]|] eqn:Eth; [|done]. cbn in E.
  pose proof (Ht t _ Eth) as Hth. exists (mkThread p cs l).
  assert (exists th', advance t (mkThread p cs l) th' σ σ' e) as [th' Ha].
  { destruct p; first [by eapply call_advances|by eapply writer_advances|by eapply reader_advances]. }
  by exists th'.
Qed.

Lemma advance_ok t th th' σ σ' e : state_ok σ -> advance t th th' σ σ' e -> state_ok σ'.
Proof.
  intros [Hs Ht] A. split; [apply A|]. intros t' x. rewrite (ad_threads _ _ _ _ _ _ A), lookup_insert_Some.
  intros [[<- <-]|[Hn Hx]]; [apply A|]. apply (others_ok t t' x σ σ'); [done|apply A|by apply Ht].
Qed.

Lemma start_ok programs : state_ok (start programs).
Proof.
  split; [split; cbn|].
  - done.
  - intros a [m [<- _]%lookup_singleton_Some]. lia.
  - by left.
  - done.
  - set_solver.
  - intros t th. cbn. rewrite lookup_fmap, fmap_Some. intros (cs & _ & ->). split; cbn; [done|set_solver|done].
Qed.

(** ** Runs *)

Lemma replay_app cs cs' : forall m, replay (cs ++ cs') m =
  let '(m', l) := replay cs m in let '(m'', l') := replay cs' m' in (m'', l ++ l').
Proof.
  induction cs as [|c cs IH]; intros m; cbn [app replay]; [by destruct (replay cs' m)|].
  destruct (alone c m) as [m1 x]. rewrite IH. destruct (replay cs m1) as [m2 l]. by destruct (replay cs' m2).
Qed.

(** What a run from a good state says and does. *)
Definition history (σ σ' : State) (L : list Event) : Prop :=
  replay L.*2.*1 (cur σ) = (cur σ', L.*2.*2) /\
  forall t th, threads σ !! t = Some th -> exists th', threads σ' !! t = Some th' /\
    answered th' ++ pending σ' (pc th') = answered th ++ pending σ (pc th) ++ (filter (fun e : Event => e.1 = t) L).*2 /\
    calls th' = calls th.

Lemma history_step t th th' σ σ' e : state_ok σ -> threads σ !! t = Some th -> advance t th th' σ σ' e -> history σ σ' (option_list e).
Proof.
  intros [Hs Ht] Eth A. split; [apply A|]. intros t' x Hx. rewrite (ad_threads _ _ _ _ _ _ A).
  destruct (decide (t' = t)) as [->|Hn].
  - rewrite Eth in Hx. injection Hx as <-. exists th'. rewrite lookup_insert_eq. split; [done|].
    split; [|apply A]. rewrite (ad_answers _ _ _ _ _ _ A). do 3 f_equal.
    destruct e as [e|]; [|done]. pose proof (ad_says _ _ _ _ _ _ A e eq_refl). change (option_list (Some e)) with [e].
    by rewrite filter_cons_True.
  - exists x. rewrite lookup_insert_ne by done. split; [done|]. split; [|done].
    destruct (others_ok t t' x σ σ' Hn (ad_others _ _ _ _ _ _ A) (Ht t' x Hx)) as [_ ->].
    destruct e as [e|]; [|by rewrite app_nil_r]. pose proof (ad_says _ _ _ _ _ _ A e eq_refl). change (option_list (Some e)) with [e].
    rewrite filter_cons_False by congruence. by rewrite app_nil_r.
Qed.

Lemma history_trans σ σ1 σ2 L L' : history σ σ1 L -> history σ1 σ2 L' -> history σ σ2 (L ++ L').
Proof.
  intros [R1 H1] [R2 H2]. split.
  - rewrite !fmap_app, replay_app, R1, R2. done.
  - intros t th Hth. destruct (H1 t th Hth) as (th1 & E1 & A1 & C1). destruct (H2 t th1 E1) as (th2 & E2 & A2 & C2).
    exists th2. split; [done|]. split; [|congruence]. rewrite A2, filter_app, fmap_app, !app_assoc, A1. by rewrite <-!app_assoc.
Qed.

Lemma run_history sched : forall σ, state_ok σ -> state_ok (run sched σ).1 /\ history σ (run sched σ).1 (run sched σ).2.
Proof.
  induction sched as [|t sched IH]; intros σ Hs; cbn [run].
  { split; [done|]. split; [done|]. intros t th Hth. exists th. by rewrite app_nil_r. }
  destruct (step t σ) as [[σ1 e]|] eqn:E; [|by apply IH].
  destruct (step_advances t σ σ1 e Hs E) as (th & th' & Eth & A). pose proof (advance_ok _ _ _ _ _ _ Hs A) as Hs1.
  destruct (IH σ1 Hs1) as [H1 H2]. destruct (run sched σ1) as [σ2 L]. cbn [fst snd] in *. split; [done|].
  eapply history_trans; [by eapply history_step|done].
Qed.

(** C38: the registry is linearizable.  Whatever calls the threads make and however the
    scheduler interleaves their steps, the decided calls, in the order they were
    decided, answer exactly as if each had run by itself on the map the one before
    left; the last map is the current one; and each thread has made its own calls in
    its own order, and got, or is about to get, the answers decided for it.  A call is
    decided by a step of its own thread, between its start and its return. *)
Theorem registry_linearizable programs schedule :
  let σ := (run schedule (start programs)).1 in
  let L := (run schedule (start programs)).2 in
  replay L.*2.*1 Registry_new = (cur σ, L.*2.*2) /\
  forall t cs, programs !! t = Some cs -> exists th, threads σ !! t = Some th /\
    (filter (fun e : Event => e.1 = t) L).*2 = answered th ++ pending σ (pc th) /\
    cs = (answered th).*1 ++ underway (pc th) ++ todo th.
Proof.
  intros σ L. destruct (run_history schedule (start programs) (start_ok programs)) as [_ [HR HT]].
  split; [exact HR|]. intros t cs Hcs.
  destruct (HT t (mkThread Idle cs [])) as (th & E & A & C); [cbn; by rewrite lookup_fmap, Hcs|].
  exists th. split; [done|]. split; [symmetry; exact A|symmetry; exact C].
Qed.

(** ** Races *)

(** What a thread's next step touches: the pointer [current_] or a map, to write or
    to read. *)
Inductive Place : Type := ThePointer | TheMap (a : Addr).

Definition touches (σ : State) (p : Pc) : list (Place * bool) :=
  match p with
  | WFind _ => [(ThePointer, false); (TheMap (current σ), false)]
  | WCopy _ => [(ThePointer, false); (TheMap (current σ), false); (TheMap (fresh σ), true)]
  | WInsert _ a => [(TheMap a, true)]
  | WSwap _ _ => [(ThePointer, true)]
  | RLoad _ => [(ThePointer, false)]
  | RFind _ a => [(TheMap a, false)]
  | _ => []
  end.

Lemma touches_own σ t th x : thread_ok σ t th -> (x, true) ∈ touches σ (pc th) ->
  owner σ = Some t /\ match x with ThePointer => True | TheMap a => (current σ < a)%nat \/ a = fresh σ end.
Proof.
  intros [H1 _ H3] Hx. destruct (pc th); cbn in Hx, H3; set_unfold in Hx;
    repeat match goal with H : _ \/ _ |- _ => destruct H as [H|H] end; try done; injection Hx as ->;
    (split; [by apply H1|]); [by right|left; by destruct H3|done].
Qed.

Lemma touches_below σ t th x w : shared_ok σ -> thread_ok σ t th -> (x, w) ∈ touches σ (pc th) ->
  owner σ = Some t \/ (t ∈ sharers σ /\ x = ThePointer) \/ exists a, x = TheMap a /\ (a <= current σ)%nat.
Proof.
  intros Hs [H1 H2 H3] Hx. destruct (pc th); cbn in Hx, H3; set_unfold in Hx; try (left; by apply H1); try done.
  - right. left. destruct Hx as [[= -> ->]|Hx]; [|done]. split; [by apply H2|done].
  - right. right. destruct Hx as [[= -> ->]|Hx]; [|done]. exists snap. split; [done|]. by destruct H3 as (_ & H3 & _).
Qed.

(** C39: no two threads race.  In every state the threads can reach, two threads' next
    steps never touch the same place with one of them writing; so what is written to a
    map or to the pointer is ordered by the mutex against everything that reads it. *)
Theorem registry_race_free programs schedule t t' th th' x w :
  let σ := (run schedule (start programs)).1 in
  threads σ !! t = Some th -> threads σ !! t' = Some th' -> t <> t' ->
  (x, true) ∈ touches σ (pc th) -> (x, w) ∉ touches σ (pc th').
Proof.
  intros σ Ht Ht' Hn Hx Hx'. destruct (run_history schedule (start programs) (start_ok programs)) as [[Hs Hth] _]. fold σ in Hs, Hth.
  destruct (touches_own σ t th x (Hth t th Ht) Hx) as [Ho Ha].
  destruct (touches_below σ t' th' x w Hs (Hth t' th' Ht') Hx') as [Ho'|[[Hl ->]|(a & -> & Hle)]].
  - congruence.
  - destruct (so_excl _ Hs) as [?|E]; [congruence|]. rewrite E in Hl. set_solver.
  - assert (current σ < fresh σ)%nat by (apply (so_fresh _ Hs); eexists; apply (so_current _ Hs)).
    destruct Ha as [Ha| ->]; lia.
Qed.

(** ** Progress *)

Definition finished (th : Thread) : Prop := pc th = Idle /\ todo th = [].

(** A thread that cannot move is done or waits for the mutex. *)
Lemma stuck_waits σ t th : shared_ok σ -> thread_ok σ t th -> threads σ !! t = Some th -> step t σ = None ->
  finished th \/ (exists s, pc th = WWait s /\ ~ (owner σ = None /\ sharers σ = ∅)) \/
  (exists c, pc th = RWait c /\ owner σ <> None).
Proof.
  intros Hs [_ _ H3] Ht E. pose proof (so_current _ Hs) as Hcur. unfold step in E. rewrite Ht in E. cbn in E.
  destruct th as [p cs l]. unfold finished. destruct p; cbn in *.
  - left. split; [done|]. unfold call_step in E. cbn in E. destruct cs as [|c cs]; [done|]. by destruct c as [[]| | |].
  - right. left. exists s. split; [done|]. unfold writer_step in E. cbn in E. destruct (bool_decide _) eqn:Eb; [done|].
    by apply bool_decide_eq_false in Eb.
  - unfold writer_step in E. cbn in E. rewrite Hcur in E. cbn in E. by destruct (_ !! schema_key s).
  - unfold writer_step in E. cbn in E. by rewrite Hcur in E.
  - unfold writer_step in E. cbn in E. destruct H3 as (_ & Ha & _). by rewrite Ha in E.
  - done.
  - done.
  - right. right. exists c. split; [done|]. unfold reader_step in E. cbn in E. destruct (bool_decide _) eqn:Eb; [done|].
    by apply bool_decide_eq_false in Eb.
  - done.
  - done.
  - unfold reader_step in E. cbn in E. destruct H3 as (_ & _ & m & Hm). by rewrite Hm in E.
Qed.

(** Somebody can move as long as somebody is not done. *)
Lemma someone_moves σ : state_ok σ -> (forall t, is_Some (threads σ !! t) -> step t σ = None) ->
  forall t th, threads σ !! t = Some th -> finished th.
Proof.
  intros [Hs Hth] Hstuck.
  assert (forall t th, threads σ !! t = Some th -> finished th \/ (exists s, pc th = WWait s /\ ~ (owner σ = None /\ sharers σ = ∅)) \/
    (exists c, pc th = RWait c /\ owner σ <> None)) as Hw by (intros t th Ht; apply (stuck_waits σ t); eauto).
  assert (owner σ = None) as Ho.
  { destruct (owner σ) as [t|] eqn:Ho; [|done]. destruct (so_owner _ Hs t Ho) as [th Ht].
    pose proof (proj1 (th_owner _ _ _ (Hth t th Ht)) Ho) as Hwr.
    destruct (Hw t th Ht) as [[E _]|[(s & E & _)|(c & E & _)]]; by rewrite E in Hwr. }
  assert (sharers σ = ∅) as Hl.
  { apply set_eq. intros t. split; [|set_solver]. intros Hl. destruct (so_sharers _ Hs t Hl) as [th Ht].
    pose proof (proj1 (th_sharer _ _ _ (Hth t th Ht)) Hl) as Hsh.
    destruct (Hw t th Ht) as [[E _]|[(s & E & _)|(c & E & _)]]; by rewrite E in Hsh. }
  intros t th Ht. destruct (Hw t th Ht) as [?|[(s & _ & Hn)|(c & _ & Hn)]]; [done|by destruct Hn|done].
Qed.

(** ** Termination *)

Definition total (σ : State) : nat := sum_list (left_over <$> (map_to_list (threads σ)).*2).

Lemma total_delete (m : gmap Tid Thread) t th : m !! t = Some th ->
  sum_list (left_over <$> (map_to_list m).*2) = (left_over th + sum_list (left_over <$> (map_to_list (delete t m)).*2))%nat.
Proof. intros Ht. rewrite <-(map_to_list_delete m t th Ht). done. Qed.

Lemma total_insert (m : gmap Tid Thread) t th th' :
  m !! t = Some th -> (left_over th' < left_over th)%nat ->
  (sum_list (left_over <$> (map_to_list (<[t := th']> m)).*2) < sum_list (left_over <$> (map_to_list m).*2))%nat.
Proof.
  intros Ht Hlt. rewrite (total_delete m t th Ht), (total_delete _ t th' (lookup_insert_eq m t th')), delete_insert_eq. lia.
Qed.

Lemma step_less t σ σ' e : state_ok σ -> step t σ = Some (σ', e) -> (total σ' < total σ)%nat.
Proof.
  intros Hs E. destruct (step_advances t σ σ' e Hs E) as (th & th' & Ht & A). unfold total.
  rewrite (ad_threads _ _ _ _ _ _ A). apply (total_insert _ t th); [done|apply A].
Qed.

Lemma run_app ts ts' : forall σ, (run (ts ++ ts') σ).1 = (run ts' (run ts σ).1).1.
Proof.
  induction ts as [|t ts IH]; intros σ; cbn [app run]; [done|].
  destruct (step t σ) as [[σ1 e]|]; [|done]. specialize (IH σ1).
  destruct (run (ts ++ ts') σ1), (run ts σ1). cbn in *. exact IH.
Qed.

Lemma run_less ts : forall σ, state_ok σ ->
  (total (run ts σ).1 < total σ)%nat \/ ((run ts σ).1 = σ /\ forall t, t ∈ ts -> step t σ = None).
Proof.
  induction ts as [|t ts IH]; intros σ Hs; cbn [run]; [right; split; [done|by intros t ?%elem_of_nil]|].
  destruct (step t σ) as [[σ1 e]|] eqn:E.
  - left. pose proof (step_less t σ σ1 e Hs E) as Hlt.
    destruct (step_advances t σ σ1 e Hs E) as (th & th' & _ & A). pose proof (advance_ok _ _ _ _ _ _ Hs A) as Hs1.
    assert (total (run ts σ1).1 <= total σ1)%nat by (destruct (IH σ1 Hs1) as [?|[-> _]]; lia).
    destruct (run ts σ1). cbn [fst] in *. lia.
  - destruct (IH σ Hs) as [?|[H1 H2]]; [by left|right]. split; [done|]. by intros t' [->|Ht']%elem_of_cons; [|apply H2].
Qed.

Lemma run_threads ts : forall σ, state_ok σ -> dom (threads (run ts σ).1) = dom (threads σ).
Proof.
  induction ts as [|t ts IH]; intros σ Hs; cbn [run]; [done|].
  destruct (step t σ) as [[σ1 e]|] eqn:E; [|by apply IH].
  destruct (step_advances t σ σ1 e Hs E) as (th & th' & Ht & A). pose proof (IH σ1 (advance_ok _ _ _ _ _ _ Hs A)) as Hd.
  destruct (run ts σ1). cbn [fst] in *. rewrite Hd, (ad_threads _ _ _ _ _ _ A). apply dom_insert_lookup_L. by eexists.
Qed.

(** So many turns for everyone, in the order of the list. *)
Definition rounds (n : nat) (ts : list Tid) : list Tid := mjoin (replicate n ts).

(** A state nobody moves from stays. *)
Lemma rounds_stuck n ts σ : (forall t, t ∈ ts -> step t σ = None) -> (run (rounds n ts) σ).1 = σ.
Proof.
  intros H. assert (forall l, (forall t, t ∈ l -> step t σ = None) -> run l σ = (σ, [])) as Hl.
  { induction l as [|t l IH]; intros Hl; cbn [run]; [done|]. rewrite (Hl t) by apply list_elem_of_here. apply IH. intros t' Ht'. apply Hl. by right. }
  rewrite Hl; [done|]. intros t (l & Ht & Hin)%list_elem_of_join. apply elem_of_replicate_inv in Hin. subst l. auto.
Qed.

Lemma rounds_finish n ts : forall σ, state_ok σ -> (total σ < n)%nat -> (forall t, t ∈ dom (threads σ) -> t ∈ ts) ->
  forall t th, threads (run (rounds n ts) σ).1 !! t = Some th -> finished th.
Proof.
  induction n as [|n IH]; intros σ Hs Hn Hall; [lia|].
  change (rounds (S n) ts) with (ts ++ rounds n ts). intros t th. rewrite run_app.
  destruct (run_less ts σ Hs) as [Hlt|[-> H2]].
  - destruct (run_history ts σ Hs) as [Hs1 _]. apply IH; [done|lia|]. intros t'. rewrite run_threads by done. apply Hall.
  - rewrite rounds_stuck by done. apply someone_moves; [done|]. intros t' Ht'. apply H2, Hall. by apply elem_of_dom.
Qed.

(** The calls return.  From wherever a scheduler has brought the threads, rounds in
    which each has its turn, as many as the calls left need, end them all: no thread is
    stuck waiting for the mutex, and each has answered all of its calls, in order. *)
Theorem registry_finishes (programs : gmap Tid (list Call)) schedule (t : Tid) (cs : list Call) :
  let σ := (run schedule (start programs)).1 in
  programs !! t = Some cs ->
  exists th : Thread, threads (run (rounds (S (total σ))%nat (elements (dom programs : gset Tid))) σ).1 !! t = Some th /\
    finished th /\ (answered th).*1 = cs.
Proof.
  intros σ Hcs. pose proof (run_history schedule (start programs) (start_ok programs)) as [Hs H]. fold σ in Hs.
  set (ts := rounds _ _). destruct (run_history ts σ Hs) as [_ H'].
  destruct (proj2 (history_trans _ _ _ _ _ H H') t (mkThread Idle cs [])) as (th & E & _ & C); [cbn; by rewrite lookup_fmap, Hcs|].
  exists th. split; [done|]. assert (finished th) as Hf.
  { apply (rounds_finish _ _ σ Hs (Nat.lt_succ_diag_r _)) in E; [done|]. intros t'. subst σ. rewrite run_threads by apply start_ok.
    cbn. rewrite dom_fmap_L. by apply elem_of_elements. }
  split; [done|]. destruct Hf as [Hp Ht]. unfold calls in C. rewrite Hp, Ht in C. cbn in C. by rewrite app_nil_r in C.
Qed.

(** ** Two threads at work *)

Definition ball : Schema := mkSchema (str "Ball") 1 [] 42.
Definition ball' : Schema := mkSchema (str "Ball") 1 [] 43.

(** One registers a schema and looks it up; the other looks it up, and tries to give
    it another shape. *)
Definition two : gmap Tid (list Call) :=
  {[ 0%nat := [CRegister (Some ball); CLookup (str "Ball") 1];
     1%nat := [CLookup (str "Ball") 1; CRegister (Some ball'); CSize] ]}.

(** The reader takes its snapshot, then the writer works on its copy. *)
Definition meanwhile : list Tid := [1; 1; 1; 1; 0; 0; 0; 0]%nat.
(** The writer publishes and both go on; the reader still answers from its snapshot. *)
Definition all_of_it : list Tid := (meanwhile ++ [0; 0; 1; 0] ++ replicate 6 1 ++ replicate 5 0 ++ replicate 6 1)%nat.

Definition here : State := (run meanwhile (start two)).1.

(** The reader searches the old map while the writer fills the new one. *)
Lemma here_pcs : pc <$> threads here !! 0%nat = Some (WInsert ball 1) /\ pc <$> threads here !! 1%nat = Some (RFind (CLookup (str "Ball") 1) 0).
Proof. by split; vm_compute. Qed.

(** What the two come to, in the order it was decided. *)
Example two_answers : (run all_of_it (start two)).2 =
  [ (1%nat, (CLookup (str "Ball") 1, RLookup None));
    (0%nat, (CRegister (Some ball), RRegistered (Ok (mkRegistration ball true))));
    (1%nat, (CRegister (Some ball'), RRegistered (Throw (SchemaConflict (str "Ball") 1 42 43))));
    (0%nat, (CLookup (str "Ball") 1, RLookup (Some ball)));
    (1%nat, (CSize, RSize 1)) ].
Proof. by vm_compute. Qed.

Lemma registry_race_free_witness : exists th th', threads here !! 0%nat = Some th /\ threads here !! 1%nat = Some th' /\
  (TheMap 1, true) ∈ touches here (pc th) /\ (TheMap 1, false) ∉ touches here (pc th').
Proof.
  eexists _, _. split; [vm_compute; reflexivity|]. split; [vm_compute; reflexivity|]. split; [apply list_elem_of_here|].
  eapply (registry_race_free two meanwhile 0%nat 1%nat); [vm_compute; reflexivity|vm_compute; reflexivity|lia|apply list_elem_of_here].
Defined.

Lemma registry_linearizable_witness : exists th, threads here !! 1%nat = Some th /\
  [(CLookup (str "Ball") 1, RLookup None)] = answered th ++ pending here (pc th).
Proof.
  destruct (proj2 (registry_linearizable two meanwhile) 1%nat _ eq_refl) as (th & E & A & _). by exists th.
Defined.

Lemma registry_finishes_witness : exists th,
  threads (run (rounds (S (total here)) (elements (dom two : gset Tid))) here).1 !! 1%nat = Some th /\ finished th /\
  (answered th).*1 = [CLookup (str "Ball") 1; CRegister (Some ball'); CSize].
Proof. exact (registry_finishes two meanwhile 1%nat _ eq_refl). Defined.
