(* ===== verification/Gate.v ===== *)
(** * The gate

    [include/zen/admission.hpp], [include/zen/gate.hpp] and [src/gate.cpp]: the
    errors, the [Admission], the one structural validator and the two public
    entry points.  The validator threads its [Ctx] explicitly; the process-wide
    invocation counter is the state [g] of [validate_into] and its callers. *)

From S2P Require Import Prelude Schema Value.

(** ** Errors and admissions *)

Inductive ErrorKind : Set :=
| EK_None | SchemaMismatch | UnknownSchema | MissingField | TypeMismatch
| NullMessage | MalformedBytes | MalformedField | UnknownField.

#[export] Instance ErrorKind_eq_dec : EqDecision ErrorKind.
Proof. solve_decision. Defined.

Definition ErrorKind_name_of (k : ErrorKind) : bytes :=
  match k with
  | EK_None => "None" | SchemaMismatch => "SchemaMismatch" | UnknownSchema => "UnknownSchema"
  | MissingField => "MissingField" | TypeMismatch => "TypeMismatch"
  | NullMessage => "NullMessage" | MalformedBytes => "MalformedBytes"
  | MalformedField => "MalformedField" | UnknownField => "UnknownField"
  end.

Record Error : Type := mkError
  { e_kind : ErrorKind; e_path : bytes; e_expected : bytes; e_actual : bytes; e_detail : bytes }.

#[export] Instance Error_eq_dec : EqDecision Error.
Proof. solve_decision. Defined.

Definition Error_default : Error := mkError EK_None [] [] [] [].

(** The em dash is its three UTF-8 octets. *)
Definition em_dash : bytes := [chr 226; chr 128; chr 148].

Definition Error_message (e : Error) : bytes :=
  let loc := if bool_decide (e_path e = []) then str "<value>" else e_path e in
  let s := loc ++ str ": " ++ ErrorKind_name_of (e_kind e) in
  let s := if bool_decide (e_expected e = []) && bool_decide (e_actual e = []) then s
           else s ++ str " (expected " ++ e_expected e ++ str ", got " ++ e_actual e ++ str ")" in
  if bool_decide (e_detail e = []) then s
  else s ++ str " " ++ em_dash ++ str " " ++ e_detail e.

Record Admission : Type := mkAdmission { adm_value : option Value; adm_errors : list Error }.

Definition Admission_accept (v : Value) : Admission := mkAdmission (Some v) [].
Definition Admission_reject_one (e : Error) : Admission := mkAdmission None [e].
Definition Admission_reject (errors : list Error) : Admission :=
  mkAdmission None
    (match errors with
     | [] => [mkError EK_None [] [] [] "refused without detail"]
     | _ => errors
     end).
Definition adm_ok (a : Admission) : bool := match adm_value a with Some _ => true | None => false end.
Definition Admission_value (a : Admission) : result Value :=
  match adm_value a with
  | Some v => Ok v
  | None => Throw (logic_error "Admission::value() called on a refused admission")
  end.
Definition first_error (a : Admission) : result Error :=
  match adm_errors a with
  | e :: _ => Ok e
  | [] => Throw (logic_error "Admission::first_error() called on an accepted admission")
  end.

(** ** Labels *)

Definition version_label (s : Schema) : bytes :=
  Schema_name s ++ str " v" ++ to_string (Schema_version s).

Fixpoint type_label (t : TypeRef) : result bytes :=
  match t with
  | mkTypeRef k m e =>
      match k with
      | KMessage => s ← deref m; Ok (str "Message(" ++ version_label s ++ str ")")
      | KList =>
          match e with
          | Some el => l ← type_label el; Ok (str "List<" ++ l ++ str ">")
          | None => UB
          end
      | _ => Ok (Kind_name_of k)
      end
  end.

(** ** The validator *)

Record Ctx : Type := mkCtx { errs : list Error; collect_all : bool; stopped : bool }.

Definition emit (ctx : Ctx) (e : Error) : Ctx :=
  mkCtx (errs ctx ++ [e]) (collect_all ctx) (if collect_all ctx then stopped ctx else true).

Definition join_path (base name : bytes) : bytes :=
  if bool_decide (base = []) then name else base ++ str "." ++ name.
Definition index_path (path : bytes) (i : Z) : bytes :=
  path ++ str "[" ++ to_string i ++ str "]".

Fixpoint validate_cell (c : Cell) (t : TypeRef) (ctx : Ctx) (path : bytes) {struct t}
  : result Ctx :=
  if stopped ctx then Ok ctx else
  match t with
  | mkTypeRef k m e =>
      match k with
      | KMessage =>
          match c with
          | CMessage None =>
              l ← type_label t; Ok (emit ctx (mkError NullMessage path l "null" []))
          | CMessage (Some nested) =>
              match m with
              | None => UB
              | Some s =>
                  if Schema_content_id (Value_schema nested) =? Schema_content_id s
                  then validate_value nested s ctx path
                  else l ← type_label t;
                    Ok (emit ctx (mkError SchemaMismatch path l
                      (version_label (Value_schema nested))
                      "nested value claims a different shape"))
              end
          | _ => l ← type_label t;
              Ok (emit ctx (mkError TypeMismatch path l (Kind_name_of (Cell_kind c)) []))
          end
      | KList =>
          match c with
          | CList arr =>
              (fix each (i : Z) (arr : list Cell) (ctx : Ctx) : result Ctx :=
                 match arr with
                 | [] => Ok ctx
                 | x :: arr =>
                     if stopped ctx then Ok ctx else
                     match e with
                     | None => UB
                     | Some el =>
                         ctx ← validate_cell x el ctx (index_path path i);
                         each (i + 1) arr ctx
                     end
                 end) 0 arr ctx
          | _ => l ← type_label t;
              Ok (emit ctx (mkError TypeMismatch path l (Kind_name_of (Cell_kind c)) []))
          end
      | _ =>
          if bool_decide (Cell_kind c = k) then Ok ctx
          else Ok (emit ctx (mkError TypeMismatch path (Kind_name_of k)
                 (Kind_name_of (Cell_kind c)) []))
      end
  end
with validate_value (v : Value) (door : Schema) (ctx : Ctx) (base : bytes) {struct door}
  : result Ctx :=
  match door with
  | mkSchema _ _ fields _ =>
      (fix each (fields : list Field) (ctx : Ctx) : result Ctx :=
         match fields with
         | [] => Ok ctx
         | f :: rest =>
             if stopped ctx then Ok ctx else
             let fpath := join_path base (fname f) in
             match Value_get v (fname f) with
             | None =>
                 if required f
                 then l ← type_label (ftype f);
                   each rest (emit ctx (mkError MissingField fpath l "absent" []))
                 else each rest ctx
             | Some c => ctx ← validate_cell c (ftype f) ctx fpath; each rest ctx
             end
         end) fields ctx
  end.

(** ** The one validator's entry point and the public gate *)

Inductive Report : Set := FirstError | Full.

Definition validate_into (claimant : Value) (door : Schema) (all : bool) (g : Z)
  : Z * result (list Error) :=
  let g := u64 (g + 1) in
  if Schema_content_id (Value_schema claimant) =? Schema_content_id door
  then (g, ctx ← validate_value claimant door (mkCtx [] all false) []; Ok (errs ctx))
  else (g, Ok [mkError SchemaMismatch [] (version_label door)
         (version_label (Value_schema claimant)) "claimed shape does not match this door"]).

Definition is_full (r : Report) : bool := match r with Full => true | FirstError => false end.

Definition admit_live (claimant : Value) (door : Schema) (report : Report) (g : Z)
  : Z * result Admission :=
  let '(g, r) := validate_into claimant door (is_full report) g in
  (g, es ← r;
      Ok (match es with [] => Admission_accept claimant | _ => Admission_reject es end)).

Definition diagnose (claimant : Value) (door : Schema) (g : Z) : Z * result (list Error) :=
  validate_into claimant door true g.

(** ** Specification: conformance, and the full list of offences *)

(** A value is a well-formed instance of a schema: each declared field is
    present with a conforming cell or absent and optional; a nested message
    claims the nested schema's content id; a list conforms element-wise. *)
Fixpoint conforms_cell (t : TypeRef) (c : Cell) {struct t} : Prop :=
  match t with
  | mkTypeRef k m e =>
      match k with
      | KMessage =>
          match c, m with
          | CMessage (Some v), Some s =>
              Schema_content_id (Value_schema v) = Schema_content_id s /\ conforms_value s v
          | _, _ => False
          end
      | KList =>
          match c, e with
          | CList a, Some el => Forall (conforms_cell el) a
          | _, _ => False
          end
      | _ => Cell_kind c = k
      end
  end
with conforms_value (s : Schema) (v : Value) {struct s} : Prop :=
  match s with
  | mkSchema _ _ fs _ =>
      (fix each (fs : list Field) : Prop :=
         match fs with
         | [] => True
         | f :: fs =>
             match Value_get v (fname f) with
             | Some c => conforms_cell (ftype f) c
             | None => required f = false
             end /\ each fs
         end) fs
  end.

(** [v] would be admitted at [door]. *)
Definition conforms (v : Value) (door : Schema) : Prop :=
  Schema_content_id (Value_schema v) = Schema_content_id door /\ conforms_value door v.

Definition conforms_field (v : Value) (f : Field) : Prop :=
  match Value_get v (fname f) with
  | Some c => conforms_cell (ftype f) c
  | None => required f = false
  end.

Lemma conforms_value_fields s v :
  conforms_value s v <-> Forall (conforms_field v) (Schema_fields s).
Proof.
  destruct s as [n ver fs cid]. simpl. induction fs as [|f fs IH]; [by rewrite Forall_nil|].
  by rewrite Forall_cons, <-IH.
Qed.

(** The label of a well-formed reference. *)
Definition label (t : TypeRef) : bytes :=
  match type_label t with Ok l => l | _ => [] end.

Lemma type_label_ok t : wf_type t -> type_label t = Ok (label t).
Proof.
  unfold label. induction t as [k m|k m e IH] using TypeRef_element_ind; intros H%wf_type_inv;
    destruct k; destruct_and?; destruct_ex; destruct_and?; inv_eqs; try done.
  simpl. rewrite IH by done. done.
Qed.

(** Every offence of a claimant, in the order the walk meets them. *)
Fixpoint cell_errors (t : TypeRef) (path : bytes) (c : Cell) {struct t} : list Error :=
  match t with
  | mkTypeRef k m e =>
      match k with
      | KMessage =>
          match c, m with
          | CMessage None, _ => [mkError NullMessage path (label t) "null" []]
          | CMessage (Some v), Some s =>
              if Schema_content_id (Value_schema v) =? Schema_content_id s
              then value_errors s path v
              else [mkError SchemaMismatch path (label t) (version_label (Value_schema v))
                      "nested value claims a different shape"]
          | CMessage (Some _), None => []
          | _, _ => [mkError TypeMismatch path (label t) (Kind_name_of (Cell_kind c)) []]
          end
      | KList =>
          match c, e with
          | CList a, Some el =>
              (fix each (i : Z) (a : list Cell) : list Error :=
                 match a with
                 | [] => []
                 | x :: a => cell_errors el (index_path path i) x ++ each (i + 1) a
                 end) 0 a
          | CList _, None => []
          | _, _ => [mkError TypeMismatch path (label t) (Kind_name_of (Cell_kind c)) []]
          end
      | _ =>
          if bool_decide (Cell_kind c = k) then []
          else [mkError TypeMismatch path (Kind_name_of k) (Kind_name_of (Cell_kind c)) []]
      end
  end
with value_errors (s : Schema) (base : bytes) (v : Value) {struct s} : list Error :=
  match s with
  | mkSchema _ _ fs _ =>
      (fix each (fs : list Field) : list Error :=
         match fs with
         | [] => []
         | f :: fs =>
             match Value_get v (fname f) with
             | Some c => cell_errors (ftype f) (join_path base (fname f)) c
             | None =>
                 if required f
                 then [mkError MissingField (join_path base (fname f)) (label (ftype f)) "absent" []]
                 else []
             end ++ each fs
         end) fs
  end.

Definition offences (v : Value) (door : Schema) : list Error :=
  if Schema_content_id (Value_schema v) =? Schema_content_id door then value_errors door [] v
  else [mkError SchemaMismatch [] (version_label door) (version_label (Value_schema v))
          "claimed shape does not match this door"].

(** ** The validator emits exactly the offences, up to the first when stopping *)

Definition emit_all (ctx : Ctx) (l : list Error) : Ctx :=
  if stopped ctx then ctx
  else if collect_all ctx then mkCtx (errs ctx ++ l) true false
  else match l with
       | [] => ctx
       | e :: _ => mkCtx (errs ctx ++ [e]) false true
       end.

Lemma emit_all_nil ctx : emit_all ctx [] = ctx.
Proof. destruct ctx as [es [] []]; unfold emit_all; simpl; by rewrite ?app_nil_r. Qed.

Lemma emit_all_one ctx e : stopped ctx = false -> emit ctx e = emit_all ctx [e].
Proof. by destruct ctx as [es [] []]. Qed.

Lemma emit_all_app ctx l k : emit_all (emit_all ctx l) k = emit_all ctx (l ++ k).
Proof.
  destruct ctx as [es [] []], l; unfold emit_all; simpl; try done; by rewrite <-?app_assoc.
Qed.

Lemma emit_all_stopped ctx l : stopped ctx = true -> emit_all ctx l = ctx.
Proof. unfold emit_all. by intros ->. Qed.

Lemma validate_emits :
  (forall t, wf_type t -> forall c ctx path,
     validate_cell c t ctx path = Ok (emit_all ctx (cell_errors t path c))) /\
  (forall s, wf_schema s -> forall v ctx base,
     validate_value v s ctx base = Ok (emit_all ctx (value_errors s base v))).
Proof.
  apply wf_type_schema_ind.
  - intros k Hk c ctx path. simpl. destruct (stopped ctx) eqn:Hst.
    { by rewrite emit_all_stopped. }
    destruct Hk, k; try done; case_bool_decide; rewrite ?emit_all_nil, <-?emit_all_one by done; done.
  - intros s Hs IH c ctx path. simpl. destruct (stopped ctx) eqn:Hst.
    { by rewrite emit_all_stopped. }
    destruct c as [| | | | |[v|]|]; simpl; rewrite <-?emit_all_one by done; try done.
    case_match; [apply IH|]. by rewrite <-emit_all_one.
  - intros t Ht IH c ctx path. simpl. rewrite type_label_ok by done. simpl.
    destruct (stopped ctx) eqn:Hst; [by rewrite emit_all_stopped|].
    destruct c as [| | | | | |arr]; simpl;
      try (rewrite <-emit_all_one by done; unfold label; simpl; by rewrite type_label_ok).
    clear Hst. generalize 0. revert ctx. induction arr as [|x arr IHarr]; intros ctx i.
    { by rewrite emit_all_nil. }
    destruct (stopped ctx) eqn:Hst; [by rewrite emit_all_stopped|].
    rewrite IH. simpl. rewrite IHarr. by rewrite emit_all_app.
  - intros n ver fs cid Hwf Hfs v ctx base. apply wf_schema_types in Hwf. simpl in *. revert ctx.
    induction Hfs as [|f fs Hf Hfs IH]; intros ctx; [by rewrite emit_all_nil|].
    apply Forall_cons in Hwf as [Hwf Hwfs].
    destruct (stopped ctx) eqn:Hst; [by rewrite emit_all_stopped|].
    destruct (Value_get v (fname f)) as [c|].
    { rewrite Hf. simpl. by rewrite IH, emit_all_app. }
    rewrite type_label_ok by done. simpl.
    destruct (required f); rewrite IH by done; [|done].
    by rewrite <-emit_all_app, <-emit_all_one.
Qed.

Lemma offences_conforms_cell_value :
  (forall t, wf_type t -> forall path c, cell_errors t path c = [] <-> conforms_cell t c) /\
  (forall s, wf_schema s -> forall base v, value_errors s base v = [] <-> conforms_value s v).
Proof.
  apply wf_type_schema_ind.
  - intros k [Hm Hl] path c. simpl. destruct k; try done; case_bool_decide; naive_solver.
  - intros s Hs IH path c. simpl. destruct c as [| | | | |[v|]|]; simpl; try done.
    rewrite <-IH. case_match; bool_to_prop; naive_solver.
  - intros t Ht IH path c. simpl. destruct c as [| | | | | |a]; simpl; try done.
    generalize 0. induction a as [|x a IHa]; intros i; [by rewrite Forall_nil|].
    rewrite app_nil, IH, IHa, Forall_cons. done.
  - intros n v fs cid Hwf Hfs base w. simpl. clear Hwf.
    induction Hfs as [|f fs Hf Hfs IH]; [done|]. rewrite app_nil, IH.
    destruct (Value_get w (fname f)); [by rewrite Hf|].
    destruct (required f); naive_solver.
Qed.

Lemma offences_nil v door : wf_schema door -> offences v door = [] <-> conforms v door.
Proof.
  intros Hd. unfold offences, conforms. case_match; bool_to_prop; [|naive_solver].
  rewrite (proj2 offences_conforms_cell_value door Hd). naive_solver.
Qed.

(** What one run of the validator returns; it never follows a null pointer. *)
Lemma validate_into_offences v door all g :
  wf_schema door ->
  validate_into v door all g =
    (u64 (g + 1), Ok (if all then offences v door else take 1 (offences v door))).
Proof.
  intros Hd. unfold validate_into, offences. case_match; [|by destruct all].
  rewrite (proj2 validate_emits door Hd). unfold emit_all. simpl.
  by destruct all, (value_errors door [] v).
Qed.

(** C4: at a constructed door the gate runs the single validator exactly once and
    admits precisely the conforming claimants, in both report modes, returning
    the very value it was given; a refusal always carries at least one error.
    It never follows a null pointer and never throws. *)
Theorem admit_iff_conforms v door report g :
  wf_schema door ->
  exists a, admit_live v door report g = (u64 (g + 1), Ok a) /\
    (conforms v door -> a = Admission_accept v) /\
    (~ conforms v door -> adm_value a = None /\ adm_errors a <> []) /\
    (adm_ok a = true <-> conforms v door).
Proof.
  intros Hd. unfold admit_live. rewrite validate_into_offences by done. simpl.
  eexists. split; [done|]. rewrite <-(offences_nil v door Hd).
  destruct (offences v door) as [|e es]; destruct report; simpl; naive_solver.
Qed.

(** The two results the live gate has at a constructed door, when it stops at
    the first error. *)
Lemma admit_live_cases v door g :
  wf_schema door ->
  (conforms v door /\ admit_live v door FirstError g = (u64 (g + 1), Ok (Admission_accept v))) \/
  (~ conforms v door /\ exists e, head (offences v door) = Some e /\
     admit_live v door FirstError g = (u64 (g + 1), Ok (Admission_reject_one e))).
Proof.
  intros Hd. unfold admit_live. rewrite validate_into_offences by done. simpl.
  rewrite <-(offences_nil v door Hd). destruct (offences v door) as [|e es]; [by left|].
  right. split; [done|]. by exists e.
Qed.

(** The hot path and the diagnostic path are one validator: the first-error
    report is exactly the first entry of the full report, and [diagnose] is
    empty exactly on conforming values. *)
Theorem first_error_is_head_of_full v door g :
  wf_schema door ->
  exists es, diagnose v door g = (u64 (g + 1), Ok es) /\
    validate_into v door false g = (u64 (g + 1), Ok (take 1 es)) /\
    (es = [] <-> conforms v door).
Proof.
  intros Hd. exists (offences v door). unfold diagnose.
  rewrite !validate_into_offences by done. split; [done|]. split; [done|]. by apply offences_nil.
Qed.

(** What the code behind the gate relies on: after admission at [door] every
    required field reads back a cell of the declared kind, so [*v.get(name)] and
    the typed accessor that follow never fail; and every present nested message
    or list conforms in turn. *)
Theorem admitted_field_access v door f :
  conforms v door -> f ∈ Schema_fields door -> required f = true -> wf_type (ftype f) ->
  exists c, Value_get v (fname f) = Some c /\ Cell_kind c = tr_kind (ftype f) /\
    conforms_cell (ftype f) c.
Proof.
  intros [_ Hc] Hin Hreq Hwf. rewrite conforms_value_fields, Forall_forall in Hc.
  specialize (Hc f Hin). unfold conforms_field in Hc.
  destruct (Value_get v (fname f)) as [c|]; [|congruence]. exists c. split; [done|].
  split; [|done]. destruct (ftype f) as [k m e]. apply wf_type_inv in Hwf. simpl in *.
  destruct k, c as [| | | | |[]|]; simpl in *; try done; destruct_ex; destruct_and?; by inv_eqs.
Qed.

(** ** Witnesses *)

Lemma ami_conforms : conforms ami player.
Proof. by vm_compute. Qed.

(** [{hp: "oops"}]: a wrong kind and a missing field. *)
Definition oops : Value := mkValue player [Some (CText "oops"); None].

Lemma admit_iff_conforms_witness :
  exists a, admit_live ami player Full 0 = (1, Ok a) /\ a = Admission_accept ami.
Proof.
  destruct (admit_iff_conforms ami player Full 0 player_wf) as (a & H & Hc & _).
  exists a. split; [exact H|exact (Hc ami_conforms)].
Defined.

Lemma first_error_is_head_of_full_witness :
  exists es, diagnose oops player 4 = (5, Ok es) /\
    validate_into oops player false 4 = (5, Ok (take 1 es)) /\ length es = 2%nat.
Proof.
  destruct (first_error_is_head_of_full oops player 4 player_wf) as (es & H1 & H2 & _).
  exists es. split; [exact H1|]. split; [exact H2|].
  vm_compute in H1. injection H1 as <-. reflexivity.
Defined.

Lemma admitted_field_access_witness :
  exists c, Value_get ami "hp" = Some c /\ Cell_kind c = KInt.
Proof.
  destruct (admitted_field_access ami player (mkField "hp" t_int true) ami_conforms)
    as (c & H & Hk & _).
  - left.
  - reflexivity.
  - constructor. split; discriminate.
  - exists c. split; [exact H|exact Hk].
Defined.

(** The refusal the README prints for [{"hp": "oops"}] renders as in C++. *)
Example oops_message :
  Error_message (mkError MalformedField "hp" "Int" "json:string" "not a base-10 64-bit integer")
  = str "hp: MalformedField (expected Int, got json:string) " ++ em_dash ++
    str " not a base-10 64-bit integer".
Proof. by vm_compute. Qed.
