(* ===== verification/Utf8.v ===== *)
(** * UTF-8

    [encode_utf8] and [valid_utf8] of [src/detail/json.cpp].  The validator's
    [while] loop runs over the unread suffix, with one unit of fuel per octet;
    [utf8_fuel] shows that more fuel never changes its verdict. *)

From S2P Require Import Prelude.

Definition encode_utf8 (cp : Z) : bytes :=
  if cp <=? 0x7F then [chr cp]
  else if cp <=? 0x7FF then
    [chr (Z.lor 0xC0 (Z.shiftr cp 6)); chr (Z.lor 0x80 (Z.land cp 0x3F))]
  else if cp <=? 0xFFFF then
    [chr (Z.lor 0xE0 (Z.shiftr cp 12)); chr (Z.lor 0x80 (Z.land (Z.shiftr cp 6) 0x3F));
     chr (Z.lor 0x80 (Z.land cp 0x3F))]
  else
    [chr (Z.lor 0xF0 (Z.shiftr cp 18)); chr (Z.lor 0x80 (Z.land (Z.shiftr cp 12) 0x3F));
     chr (Z.lor 0x80 (Z.land (Z.shiftr cp 6) 0x3F)); chr (Z.lor 0x80 (Z.land cp 0x3F))].

(** The lead octet: number of continuation octets, payload bits, and the range
    its code points must lie in. *)
Definition utf8_lead (c : Z) : option (nat * Z * Z * Z) :=
  if Z.land c 0xE0 =? 0xC0 then Some (1%nat, Z.land c 0x1F, 0x80, 0x7FF)
  else if Z.land c 0xF0 =? 0xE0 then Some (2%nat, Z.land c 0x0F, 0x800, 0xFFFF)
  else if Z.land c 0xF8 =? 0xF0 then Some (3%nat, Z.land c 0x07, 0x10000, 0x10FFFF)
  else None.

(** The [for] loop over the continuation octets. *)
Fixpoint utf8_continue (extra : nat) (cp : Z) (s : bytes) : option Z :=
  match extra with
  | O => Some cp
  | S extra =>
      match s with
      | [] => None
      | ch :: s =>
          let cc := octet ch in
          if Z.land cc 0xC0 =? 0x80
          then utf8_continue extra (Z.lor (Z.shiftl cp 6) (Z.land cc 0x3F)) s
          else None
      end
  end.

Fixpoint utf8_loop (fuel : nat) (s : bytes) : bool :=
  match fuel with
  | O => false
  | S fuel =>
      match s with
      | [] => true
      | ch :: s =>
          let c := octet ch in
          if c <? 0x80 then utf8_loop fuel s
          else
            match utf8_lead c with
            | None => false
            | Some (extra, cp, lo, hi) =>
                if zlen s <? Z.of_nat extra then false
                else
                  match utf8_continue extra cp s with
                  | None => false
                  | Some cp =>
                      if (cp <? lo) || (hi <? cp) then false
                      else if (0xD800 <=? cp) && (cp <=? 0xDFFF) then false
                      else utf8_loop fuel (drop extra s)
                  end
            end
      end
  end.

Definition valid_utf8 (s : bytes) : bool := utf8_loop (S (length s)) s.

(** ** Octets by their arithmetic *)

Lemma lead_octet_ranges c : 0 <= c < 256 ->
  utf8_lead c =
    if (192 <=? c) && (c <? 224) then Some (1%nat, c - 192, 0x80, 0x7FF)
    else if (224 <=? c) && (c <? 240) then Some (2%nat, c - 224, 0x800, 0xFFFF)
    else if (240 <=? c) && (c <? 248) then Some (3%nat, c - 240, 0x10000, 0x10FFFF)
    else None.
Proof. revert c. apply forall_octets. by vm_compute. Qed.

Lemma cont_octet_range c : 0 <= c < 256 ->
  (Z.land c 0xC0 =? 0x80) = (128 <=? c) && (c <? 192).
Proof. revert c. apply forall_octets. by vm_compute. Qed.

Lemma land_ones_mod a n m : 0 <= n -> m = Z.ones n -> Z.land a m = a mod 2 ^ n.
Proof. intros ? ->. by apply Z.land_ones. Qed.

(** [hi | x] for a constant with its low [n] bits clear. *)
Lemma lor_high hi h n x : 0 <= n -> hi = Z.shiftl h n -> 0 <= x < 2 ^ n -> Z.lor hi x = hi + x.
Proof.
  intros Hn -> Hx. rewrite Z.lor_comm, lor_shiftl_add, Z.shiftl_mul_pow2 by done. lia.
Qed.

(** Scalar values, and their encoding in arithmetic form. *)
Definition scalar (cp : Z) : Prop := 0 <= cp <= 0x10FFFF /\ ~ (0xD800 <= cp <= 0xDFFF).

Definition utf8_arith (cp : Z) : bytes :=
  if cp <=? 0x7F then [chr cp]
  else if cp <=? 0x7FF then [chr (192 + cp / 64); chr (128 + cp mod 64)]
  else if cp <=? 0xFFFF then
    [chr (224 + cp / 4096); chr (128 + (cp / 64) mod 64); chr (128 + cp mod 64)]
  else
    [chr (240 + cp / 262144); chr (128 + (cp / 4096) mod 64);
     chr (128 + (cp / 64) mod 64); chr (128 + cp mod 64)].

Lemma lor_cont x : Z.lor 0x80 (Z.land x 0x3F) = 128 + x mod 64.
Proof.
  rewrite (land_ones_mod x 6) by done. apply (lor_high _ 2 6); [done|done|].
  apply Z.mod_pos_bound. lia.
Qed.

Lemma encode_utf8_arith cp : 0 <= cp <= 0x10FFFF -> encode_utf8 cp = utf8_arith cp.
Proof.
  intros Hcp. unfold encode_utf8, utf8_arith. rewrite !lor_cont, !Z.shiftr_div_pow2 by lia.
  change (2 ^ 6) with 64. change (2 ^ 12) with 4096. change (2 ^ 18) with 262144.
  destruct (Z.leb_spec cp 0x7F); [done|].
  destruct (Z.leb_spec cp 0x7FF).
  { rewrite (lor_high 0xC0 3 6); [done|done|done|]. split; [apply Z.div_pos; lia|].
    apply Z.div_lt_upper_bound; lia. }
  destruct (Z.leb_spec cp 0xFFFF).
  { rewrite (lor_high 0xE0 14 4); [done|done|done|]. split; [apply Z.div_pos; lia|].
    apply Z.div_lt_upper_bound; lia. }
  rewrite (lor_high 0xF0 30 3); [done|done|done|]. split; [apply Z.div_pos; lia|].
  apply Z.div_lt_upper_bound; lia.
Qed.

Lemma utf8_continue_cons n cp ch s :
  utf8_continue (S n) cp (ch :: s) =
  if (128 <=? octet ch) && (octet ch <? 192)
  then utf8_continue n (cp * 64 + (octet ch - 128)) s else None.
Proof.
  simpl. rewrite cont_octet_range by apply octet_range.
  destruct ((128 <=? octet ch) && (octet ch <? 192)) eqn:E; [|done]. bool_to_prop.
  f_equal. rewrite (land_ones_mod _ 6) by done.
  rewrite Z.lor_comm, lor_shiftl_add by (try apply Z.mod_pos_bound; lia).
  replace (octet ch) with ((octet ch - 128) + 2 * 64) at 1 by lia.
  rewrite Z_mod_plus_full, Z.mod_small; lia.
Qed.

(** One round of the loop on a multi-octet lead, in arithmetic form. *)
Lemma utf8_loop_lead fuel ch s :
  128 <= octet ch ->
  utf8_loop (S fuel) (ch :: s) =
  match utf8_lead (octet ch) with
  | None => false
  | Some (extra, cp, lo, hi) =>
      if zlen s <? Z.of_nat extra then false
      else
        match utf8_continue extra cp s with
        | None => false
        | Some cp =>
            if (cp <? lo) || (hi <? cp) then false
            else if (0xD800 <=? cp) && (cp <=? 0xDFFF) then false
            else utf8_loop fuel (drop extra s)
        end
  end.
Proof. intros H. simpl. by destruct (Z.ltb_spec (octet ch) 0x80); [lia|]. Qed.

(** Decide every comparison of the goal from the context. *)
Ltac decide_cmp :=
  repeat match goal with
  | |- context [?a <? ?b] =>
      first [replace (a <? b) with true by (symmetry; apply Z.ltb_lt; lia)
            |replace (a <? b) with false by (symmetry; apply Z.ltb_ge; lia)]
  | |- context [?a <=? ?b] =>
      first [replace (a <=? b) with true by (symmetry; apply Z.leb_le; lia)
            |replace (a <=? b) with false by (symmetry; apply Z.leb_gt; lia)]
  end; cbn [andb orb].
Ltac run_loop :=
  unfold zlen; repeat progress (decide_cmp; cbn [length utf8_continue drop andb orb]).

Lemma octet_chr_small v : 0 <= v < 256 -> octet (chr v) = v.
Proof. intros. by rewrite octet_chr, Z.mod_small. Qed.

Lemma utf8_step fuel cp s :
  scalar cp -> utf8_loop (S fuel) (encode_utf8 cp ++ s) = utf8_loop fuel s.
Proof.
  intros [Hcp Hs]. rewrite encode_utf8_arith by done. unfold utf8_arith.
  pose proof (Z.mod_pos_bound cp 64). pose proof (Z.mod_pos_bound (cp / 64) 64).
  pose proof (Z.mod_pos_bound (cp / 4096) 64).
  pose proof (Z.div_mod cp 64). pose proof (Z.div_mod (cp / 64) 64).
  pose proof (Z.div_mod (cp / 4096) 64).
  assert (cp / 64 / 64 = cp / 4096) by (by rewrite Z.div_div by lia).
  assert (cp / 4096 / 64 = cp / 262144) by (by rewrite Z.div_div by lia).
  destruct (Z.leb_spec cp 0x7F); [|destruct (Z.leb_spec cp 0x7FF);
    [|destruct (Z.leb_spec cp 0xFFFF)]]; cbn [app].
  - simpl. rewrite octet_chr_small by lia. by decide_cmp.
  - rewrite utf8_loop_lead, lead_octet_ranges, octet_chr_small
      by (rewrite ?octet_chr_small; lia).
    decide_cmp. rewrite utf8_continue_cons, octet_chr_small by lia.
    by run_loop.
  - rewrite utf8_loop_lead, lead_octet_ranges, octet_chr_small
      by (rewrite ?octet_chr_small; lia).
    decide_cmp. rewrite !utf8_continue_cons, !octet_chr_small by lia.
    run_loop. replace (_ && _) with false; [done|]. symmetry. apply andb_false_iff.
    destruct (Z.leb_spec 0xD800 (((224 + cp / 4096 - 224) * 64 +
      (128 + (cp / 64) `mod` 64 - 128)) * 64 + (128 + cp `mod` 64 - 128))); [right|by left].
    apply Z.leb_gt. lia.
  - rewrite utf8_loop_lead, lead_octet_ranges, octet_chr_small
      by (rewrite ?octet_chr_small; lia).
    decide_cmp. rewrite !utf8_continue_cons, !octet_chr_small by lia.
    by run_loop.
Qed.

Lemma utf8_continue_app n cp s cp' :
  utf8_continue n cp s = Some cp' ->
  exists cs, length cs = n /\ s = cs ++ drop n s /\
    Forall (fun c => 128 <= octet c < 192) cs /\
    cp' = fold_left (fun a c => a * 64 + (octet c - 128)) cs cp.
Proof.
  revert cp s. induction n as [|n IH]; intros cp s; [intros [= ->]; by exists []|].
  destruct s as [|ch s]; [done|]. rewrite utf8_continue_cons.
  case_match; [|done]. bool_to_prop. intros (cs & Hl & Hs & Hc & ->)%IH.
  exists (ch :: cs). simpl. rewrite <-Hs, Hl. split; [done|]. split; [done|].
  split; [|done]. by constructor.
Qed.

(** The octets a lead and its continuations spell, when they are in range, are
    the encoding of the code point. *)

Lemma utf8_arith_2 c c1 cp :
  192 <= octet c < 224 -> 128 <= octet c1 < 192 ->
  cp = (octet c - 192) * 64 + (octet c1 - 128) -> 0x80 <= cp -> cp <= 0x7FF ->
  [c; c1] = utf8_arith cp.
Proof.
  intros Hc H1 Hcp Hlo Hhi. unfold utf8_arith. decide_cmp.
  assert (cp / 64 = octet c - 192) as -> by (symmetry; apply (Z.div_unique cp 64 _ (octet c1 - 128)); lia).
  assert (cp mod 64 = octet c1 - 128) as -> by (symmetry; apply (Z.mod_unique cp 64 (octet c - 192)); lia).
  f_equal; [|f_equal]; apply octet_inj; rewrite octet_chr_small; lia.
Qed.

Lemma utf8_arith_3 c c1 c2 cp :
  224 <= octet c < 240 -> 128 <= octet c1 < 192 -> 128 <= octet c2 < 192 ->
  cp = ((octet c - 224) * 64 + (octet c1 - 128)) * 64 + (octet c2 - 128) ->
  0x800 <= cp -> cp <= 0xFFFF -> [c; c1; c2] = utf8_arith cp.
Proof.
  intros Hc H1 H2 Hcp Hlo Hhi. unfold utf8_arith. decide_cmp.
  assert (cp / 64 = (octet c - 224) * 64 + (octet c1 - 128)) as Hq
    by (symmetry; apply (Z.div_unique cp 64 _ (octet c2 - 128)); lia).
  assert (cp mod 64 = octet c2 - 128) as -> by
    (symmetry; apply (Z.mod_unique cp 64 ((octet c - 224) * 64 + (octet c1 - 128))); lia).
  replace (cp / 4096) with (cp / 64 / 64) by (by rewrite Z.div_div by lia). rewrite Hq.
  assert (((octet c - 224) * 64 + (octet c1 - 128)) / 64 = octet c - 224) as ->
    by (symmetry; apply (Z.div_unique _ 64 _ (octet c1 - 128)); lia).
  assert (((octet c - 224) * 64 + (octet c1 - 128)) mod 64 = octet c1 - 128) as ->
    by (symmetry; apply (Z.mod_unique _ 64 (octet c - 224)); lia).
  f_equal; [|f_equal; [|f_equal]]; apply octet_inj; rewrite octet_chr_small; lia.
Qed.

Lemma utf8_arith_4 c c1 c2 c3 cp :
  240 <= octet c < 248 -> 128 <= octet c1 < 192 -> 128 <= octet c2 < 192 ->
  128 <= octet c3 < 192 ->
  cp = (((octet c - 240) * 64 + (octet c1 - 128)) * 64 + (octet c2 - 128)) * 64 +
    (octet c3 - 128) ->
  0x10000 <= cp -> cp <= 0x10FFFF -> [c; c1; c2; c3] = utf8_arith cp.
Proof.
  intros Hc H1 H2 H3 Hcp Hlo Hhi. unfold utf8_arith. decide_cmp.
  set (q1 := (octet c - 240) * 64 + (octet c1 - 128)) in *.
  set (q2 := q1 * 64 + (octet c2 - 128)) in *.
  assert (cp / 64 = q2) as Hq2 by (symmetry; apply (Z.div_unique cp 64 _ (octet c3 - 128)); lia).
  assert (q2 / 64 = q1) as Hq1 by (symmetry; apply (Z.div_unique q2 64 _ (octet c2 - 128)); lia).
  assert (cp mod 64 = octet c3 - 128) as -> by (symmetry; apply (Z.mod_unique cp 64 q2); lia).
  replace (cp / 262144) with (cp / 64 / 64 / 64) by (by rewrite !Z.div_div by lia).
  replace (cp / 4096) with (cp / 64 / 64) by (by rewrite Z.div_div by lia). rewrite Hq2, Hq1.
  assert (q2 mod 64 = octet c2 - 128) as -> by (symmetry; apply (Z.mod_unique q2 64 q1); lia).
  assert (q1 / 64 = octet c - 240) as ->
    by (symmetry; apply (Z.div_unique _ 64 _ (octet c1 - 128)); lia).
  assert (q1 mod 64 = octet c1 - 128) as ->
    by (symmetry; apply (Z.mod_unique _ 64 (octet c - 240)); lia).
  f_equal; [|f_equal; [|f_equal; [|f_equal]]]; apply octet_inj; rewrite octet_chr_small; lia.
Qed.

(** A round that does not fail consumed the encoding of one scalar value. *)
Lemma utf8_loop_inv fuel ch s :
  utf8_loop (S fuel) (ch :: s) = true ->
  exists cp s', scalar cp /\ ch :: s = encode_utf8 cp ++ s' /\ utf8_loop fuel s' = true.
Proof.
  pose proof (octet_range ch). destruct (Z.ltb_spec (octet ch) 128) as [Hlt|Hge].
  { simpl. decide_cmp. intros Hr. exists (octet ch), s.
    rewrite encode_utf8_arith by lia. unfold utf8_arith. decide_cmp. rewrite chr_octet.
    split; [unfold scalar; lia|done]. }
  rewrite utf8_loop_lead, lead_octet_ranges by done.
  assert (forall n cp0 lo hi,
    (n = 1%nat /\ cp0 = octet ch - 192 /\ lo = 0x80 /\ hi = 0x7FF /\ 192 <= octet ch < 224 \/
     n = 2%nat /\ cp0 = octet ch - 224 /\ lo = 0x800 /\ hi = 0xFFFF /\ 224 <= octet ch < 240 \/
     n = 3%nat /\ cp0 = octet ch - 240 /\ lo = 0x10000 /\ hi = 0x10FFFF /\ 240 <= octet ch < 248) ->
    match utf8_continue n cp0 s with
    | None => false
    | Some cp => if (cp <? lo) || (hi <? cp) then false
        else if (0xD800 <=? cp) && (cp <=? 0xDFFF) then false
        else utf8_loop fuel (drop n s)
    end = true ->
    exists cp s', scalar cp /\ ch :: s = encode_utf8 cp ++ s' /\ utf8_loop fuel s' = true) as Hmain.
  { intros n cp0 lo hi Hn Hm. destruct (utf8_continue n cp0 s) as [cp|] eqn:Hc; [|done].
    destruct ((cp <? lo) || (hi <? cp)) eqn:E1; [done|].
    destruct ((0xD800 <=? cp) && (cp <=? 0xDFFF)) eqn:E2; [done|]. bool_to_prop.
    apply andb_false_iff in E2. rewrite !Z.leb_gt in E2.
    apply utf8_continue_app in Hc as (cs & Hl & Hs & Hcs & Hcp).
    exists cp, (drop n s). assert (scalar cp) as Hsc by (unfold scalar; lia).
    split; [done|]. split; [|done]. rewrite Hs at 1.
    rewrite encode_utf8_arith, app_comm_cons by apply Hsc. f_equal.
    rewrite Forall_forall in Hcs. setoid_rewrite list_elem_of_In in Hcs.
    destruct Hn as [(-> & -> & -> & -> & ?)|[(-> & -> & -> & -> & ?)|(-> & -> & -> & -> & ?)]].
    - destruct cs as [|c1 [|]]; try done. simpl in *.
      apply utf8_arith_2; auto.
    - destruct cs as [|c1 [|c2 [|]]]; try done. simpl in *.
      apply utf8_arith_3; auto.
    - destruct cs as [|c1 [|c2 [|c3 [|]]]]; try done. simpl in *.
      apply utf8_arith_4; auto. }
  repeat match goal with |- context [if ?b then Some _ else _] => destruct b eqn:? end;
    intros Hr; try done; bool_to_prop;
    (destruct (zlen s <? _) eqn:?; [done|]); eapply Hmain; eauto 10 with lia.
Qed.

(** ** The specification of the validator *)

(** More fuel than octets never changes the verdict. *)
Lemma utf8_fuel s : forall fuel, (length s < fuel)%nat ->
  utf8_loop fuel s = true <-> exists cps, Forall scalar cps /\ s = concat (encode_utf8 <$> cps).
Proof.
  induction s as [s IH] using (induction_ltof1 _ (@length ascii)); unfold ltof in IH.
  intros [|fuel] Hf; [lia|]. split.
  - destruct s as [|ch s]; [by exists []|].
    intros (cp & s' & Hcp & Hs & Hr)%utf8_loop_inv.
    assert (length (ch :: s) = length (encode_utf8 cp) + length s')%nat as Hl
      by (by rewrite Hs, length_app).
    assert (0 < length (encode_utf8 cp))%nat as Hpos.
    { unfold encode_utf8. repeat case_match; simpl; lia. }
    apply (IH s') in Hr as (cps & Hcps & ->); [|lia..].
    exists (cp :: cps). split; [by constructor|]. by rewrite Hs.
  - intros (cps & Hcps & ->). destruct Hcps as [|cp cps Hcp Hcps]; [done|].
    rewrite fmap_cons, concat_cons in *. rewrite utf8_step by done.
    rewrite length_app in Hf.
    assert (0 < length (encode_utf8 cp))%nat as Hpos.
    { unfold encode_utf8. repeat case_match; simpl; lia. }
    apply IH; [rewrite length_app; lia|lia|]. by exists cps.
Qed.

(** C40: [valid_utf8] accepts exactly the concatenations of [encode_utf8] of
    Unicode scalar values: no overlong form, no surrogate, nothing above
    U+10FFFF, no truncated sequence, and everything [encode_utf8] writes. *)
Theorem valid_utf8_iff s :
  valid_utf8 s = true <-> exists cps, Forall scalar cps /\ s = concat (encode_utf8 <$> cps).
Proof. apply utf8_fuel. lia. Qed.

Lemma valid_utf8_nil : valid_utf8 [] = true.
Proof. done. Qed.
