(* ===== verification/Binary.v ===== *)
(** * Primitives of the native binary format

    [src/detail/binary.hpp] and [src/detail/binary.cpp]: the writers append to a
    byte string; [BinReader] is the buffer with its position.  Each primitive is
    shown to be a [Codec]: the reader returns a value exactly when the unread
    input starts with the one canonical encoding of that value, and consumes
    that encoding and nothing else. *)

From S2P Require Import Prelude.

(** ** Caps and constants *)

Definition kMaxBinaryDepth : Z := 64.
Definition kMaxListCount : Z := Z.shiftl 1 20.
Definition kMaxFieldBytes : Z := Z.shiftl 1 28.
Definition kCanonicalNaNBits : Z := 0x7FF8000000000000.

(** ** Writers *)

Definition put_u8 (out : bytes) (v : Z) : bytes := out ++ [chr v].

Definition put_u16le (out : bytes) (v : Z) : bytes :=
  put_u8 (put_u8 out (Z.land v 0xFF)) (Z.land (Z.shiftr v 8) 0xFF).

Definition put_u32le (out : bytes) (v : Z) : bytes :=
  fold_left (fun out s => put_u8 out (Z.land (Z.shiftr v s) 0xFF)) [0; 8; 16; 24] out.

Definition put_u64le (out : bytes) (v : Z) : bytes :=
  fold_left (fun out s => put_u8 out (Z.land (Z.shiftr v s) 0xFF))
    [0; 8; 16; 24; 32; 40; 48; 56] out.

(** [exp] all ones and a non-zero mantissa: a NaN of any payload. *)
Definition is_nan_bits (bits : Z) : bool :=
  (Z.land bits 0x7FF0000000000000 =? 0x7FF0000000000000) &&
  negb (Z.land bits 0x000FFFFFFFFFFFFF =? 0).

(** The [double] is its 64 bits, which is all [memcpy] sees of it. *)
Definition put_f64le (out : bytes) (v : Z) : bytes :=
  put_u64le out (if is_nan_bits v then kCanonicalNaNBits else v).

(** The [while (v >= 0x80)] loop; ten rounds are enough for 64 bits
    ([uvarint_fuel]). *)
Fixpoint put_uvarint_loop (fuel : nat) (out : bytes) (v : Z) : bytes :=
  match fuel with
  | O => out
  | S fuel =>
      if v >=? 0x80
      then put_uvarint_loop fuel (put_u8 out (Z.lor (Z.land v 0x7F) 0x80)) (Z.shiftr v 7)
      else put_u8 out v
  end.
Definition put_uvarint (out : bytes) (v : Z) : bytes := put_uvarint_loop 10 out v.

Definition put_zigzag (out : bytes) (v : Z) : bytes :=
  let sign := if v <? 0 then u64 (Z.lnot 0) else 0 in
  let zz := Z.lxor (u64 (Z.shiftl (u64 v) 1)) sign in
  put_uvarint out zz.

(** ** Reader *)

Record BinReader : Type := mkReader { r_bytes : bytes; r_pos : nat }.

#[export] Instance ascii_inhabited : Inhabited ascii := populate zero.

Definition remaining (r : BinReader) : nat := length (r_bytes r) - r_pos r.
Definition at_end (r : BinReader) : bool := (length (r_bytes r) <=? r_pos r)%nat.

(** [p_[i_ + k]], an octet, and [i_ += n]. *)
Definition peek (r : BinReader) (k : nat) : Z := octet (r_bytes r !!! (r_pos r + k)%nat).
Definition advance (r : BinReader) (n : nat) : BinReader := mkReader (r_bytes r) (r_pos r + n).

Definition r_u8 (r : BinReader) : option (Z * BinReader) :=
  if (remaining r <? 1)%nat then None else Some (peek r 0, advance r 1).

Definition r_u16le (r : BinReader) : option (Z * BinReader) :=
  if (remaining r <? 2)%nat then None
  else Some (u16 (Z.lor (peek r 0) (Z.shiftl (peek r 1) 8)), advance r 2).

Definition r_u32le (r : BinReader) : option (Z * BinReader) :=
  if (remaining r <? 4)%nat then None
  else
    let v := fold_left (fun v b => Z.lor v (u32 (Z.shiftl (peek r b) (8 * Z.of_nat b))))
               [0; 1; 2; 3]%nat 0 in
    Some (v, advance r 4).

Definition r_u64le (r : BinReader) : option (Z * BinReader) :=
  if (remaining r <? 8)%nat then None
  else
    let v := fold_left (fun v b => Z.lor v (u64 (Z.shiftl (peek r b) (8 * Z.of_nat b))))
               [0; 1; 2; 3; 4; 5; 6; 7]%nat 0 in
    Some (v, advance r 8).

Definition r_f64le (r : BinReader) : option (Z * BinReader) :=
  match r_u64le r with
  | None => None
  | Some (bits, r) =>
      if is_nan_bits bits && negb (bits =? kCanonicalNaNBits) then None else Some (bits, r)
  end.

(** [rounds] counts the rounds before [idx >= 10] refuses. *)
Fixpoint uvarint_loop (rounds : nat) (idx result shift : Z) (r : BinReader)
  : option (Z * BinReader) :=
  match rounds with
  | O => None
  | S rounds =>
      match r_u8 r with
      | None => None
      | Some (b, r) =>
          if (idx =? 9) && (b >? 0x01) then None
          else
            let result := Z.lor result (u64 (Z.shiftl (Z.land b 0x7F) shift)) in
            let shift := shift + 7 in
            if Z.land b 0x80 =? 0
            then if (idx >? 0) && (b =? 0) then None else Some (result, r)
            else uvarint_loop rounds (idx + 1) result shift r
      end
  end.
Definition r_uvarint (r : BinReader) : option (Z * BinReader) := uvarint_loop 10 0 0 0 r.

Definition r_zigzag (r : BinReader) : option (Z * BinReader) :=
  match r_uvarint r with
  | None => None
  | Some (zz, r) =>
      let mag := Z.shiftr zz 1 in
      let neg := u64 (u64 (Z.lnot (Z.land zz 1)) + 1) in
      Some (i64 (Z.lxor mag neg), r)
  end.

Definition r_take (r : BinReader) (count : nat) : option (bytes * BinReader) :=
  if (remaining r <? count)%nat then None
  else Some (take count (drop (r_pos r) (r_bytes r)), advance r count).

(** ** The unread suffix *)

Definition rest (r : BinReader) : bytes := drop (r_pos r) (r_bytes r).

Lemma remaining_rest r : remaining r = length (rest r).
Proof. unfold remaining, rest. by rewrite length_drop. Qed.

Lemma rest_advance r n : rest (advance r n) = drop n (rest r).
Proof. unfold rest, advance. simpl. by rewrite drop_drop. Qed.

Lemma advance_advance r n m : advance (advance r n) m = advance r (n + m).
Proof. unfold advance. simpl. f_equal. lia. Qed.

Lemma advance_0 r : advance r 0 = r.
Proof. destruct r. unfold advance. simpl. f_equal. lia. Qed.

Lemma peek_rest r k c s : drop k (rest r) = c :: s -> peek r k = octet c.
Proof.
  intros H. unfold peek. f_equal. apply list_lookup_total_correct.
  apply drop_lookup_head with s. rewrite <-H. unfold rest. by rewrite drop_drop.
Qed.

(** ** Codecs

    [codec read enc ok]: [read] recognises exactly the encodings [enc x] of the
    values with [ok x].  The first half is the round trip, the second says that
    no other byte string is accepted and nothing beyond the encoding is consumed
    or inspected. *)
Class Codec {A} (read : BinReader -> option (A * BinReader)) (enc : A -> bytes)
    (ok : A -> Prop) : Prop := {
  codec_complete r x s :
    ok x -> rest r = enc x ++ s -> read r = Some (x, advance r (length (enc x)));
  codec_sound r x r' :
    read r = Some (x, r') ->
    ok x /\ rest r = enc x ++ rest r' /\ r' = advance r (length (enc x))
}.

Lemma codec_rest {A} (read : BinReader -> option (A * BinReader)) enc ok `{!Codec read enc ok}
    r x s :
  ok x -> rest r = enc x ++ s ->
  exists r', read r = Some (x, r') /\ rest r' = s /\ r' = advance r (length (enc x)).
Proof.
  intros Hok Hr. eexists. split; [by eapply codec_complete|]. split; [|done].
  by rewrite rest_advance, Hr, drop_app_length.
Qed.

(** A codec read through a bijection of the value. *)
Lemma codec_inj {A} (read : BinReader -> option (A * BinReader)) enc ok `{!Codec read enc ok}
    x y (s t : bytes) :
  ok x -> ok y -> enc x ++ s = enc y ++ t -> x = y /\ s = t.
Proof.
  intros Hx Hy H. set (r := mkReader (enc x ++ s) 0).
  assert (rest r = enc x ++ s) as H1 by done. assert (rest r = enc y ++ t) as H2 by done.
  destruct (codec_rest read enc ok r x s Hx H1) as (r1 & E1 & R1 & _).
  destruct (codec_rest read enc ok r y t Hy H2) as (r2 & E2 & R2 & _).
  assert (x = y /\ r1 = r2) as [-> ->] by (split; congruence). by rewrite <-R1, <-R2.
Qed.


(** ** Fixed-width words *)

Lemma chr_land_ff z : chr (Z.land z 0xFF) = chr z.
Proof.
  unfold chr. change 0xFF with (Z.ones 8). rewrite Z.land_ones by lia.
  change (2 ^ 8) with 256. by rewrite Z.mod_mod by lia.
Qed.

Lemma put_words out v (ss : list Z) n :
  0 <= n -> ss = map (fun k => 8 * Z.of_nat k) (seq 0 (length ss)) ->
  fold_left (fun out s => put_u8 out (Z.land (Z.shiftr v (n + s)) 0xFF)) ss out =
  out ++ le_bytes (length ss) (Z.shiftr v n).
Proof.
  intros Hn ->. rewrite length_map, length_seq. generalize (length ss) as k. clear ss.
  intros k. revert out n Hn.
  enough (forall j out n, 0 <= n ->
    fold_left (fun out s => put_u8 out (Z.land (Z.shiftr v (n + s)) 0xFF))
      (map (fun k => 8 * Z.of_nat k) (seq j k)) out =
    out ++ le_bytes k (Z.shiftr v (n + 8 * Z.of_nat j))) as H.
  { intros out n Hn. rewrite H by done. by rewrite Z.add_0_r. }
  induction k as [|k IH]; intros j out n Hn; [by rewrite app_nil_r|].
  simpl map. simpl fold_left. rewrite IH by done. unfold put_u8.
  rewrite chr_land_ff, le_bytes_S, <-app_assoc. rewrite Z.shiftr_shiftr by lia.
  by replace (n + 8 * Z.of_nat j + 8) with (n + 8 * Z.of_nat (S j)) by lia.
Qed.

Lemma put_u8_spec out v : put_u8 out v = out ++ le_bytes 1 v.
Proof. done. Qed.

Lemma put_u16le_spec out v : put_u16le out v = out ++ le_bytes 2 v.
Proof. unfold put_u16le, put_u8. by rewrite !chr_land_ff, <-app_assoc. Qed.

Lemma put_u32le_spec out v : put_u32le out v = out ++ le_bytes 4 v.
Proof. exact (put_words out v [0; 8; 16; 24] 0 ltac:(lia) eq_refl). Qed.

Lemma put_u64le_spec out v : put_u64le out v = out ++ le_bytes 8 v.
Proof. exact (put_words out v [0; 8; 16; 24; 32; 40; 48; 56] 0 ltac:(lia) eq_refl). Qed.

(** What [memcpy] normalises a [double] to. *)
Definition canonical_bits (v : Z) : Z := if is_nan_bits v then kCanonicalNaNBits else v.

Lemma put_f64le_spec out v : put_f64le out v = out ++ le_bytes 8 (canonical_bits v).
Proof. apply put_u64le_spec. Qed.

Lemma le_value_snoc l c : le_value (l ++ [c]) = le_value l + octet c * 2 ^ (8 * zlen l).
Proof.
  induction l as [|d l IH]; [cbn [app]; rewrite le_value_cons, le_value_nil; unfold zlen; simpl; lia|].
  cbn [app]. rewrite !le_value_cons, IH. unfold zlen. simpl length.
  replace (8 * Z.of_nat (S (length l))) with (8 + 8 * Z.of_nat (length l)) by lia.
  rewrite Z.pow_add_r by lia. change (2 ^ 8) with 256. lia.
Qed.

(** The reader's [v |= p[i + b] << (8 * b)] loop is the value of the octets. *)
Lemma read_words w r n :
  (n <= remaining r)%nat -> 8 * Z.of_nat n <= w ->
  fold_left (fun v b => Z.lor v (Z.shiftl (peek r b) (8 * Z.of_nat b) mod 2 ^ w)) (seq 0 n) 0 =
  le_value (take n (rest r)).
Proof.
  induction n as [|n IH]; intros Hn Hw; [by rewrite take_0, le_value_nil|].
  rewrite seq_S, fold_left_app. rewrite IH by lia. simpl fold_left.
  rewrite remaining_rest in Hn.
  destruct (drop n (rest r)) as [|c s] eqn:E.
  { apply (f_equal length) in E. rewrite length_drop in E. simpl in E. lia. }
  rewrite (peek_rest _ _ _ _ E).
  rewrite (take_S_r _ _ c) by (by apply drop_lookup_head with s).
  rewrite le_value_snoc. pose proof (octet_range c).
  assert (zlen (take n (rest r)) = Z.of_nat n) as Hl by (unfold zlen; rewrite length_take; lia).
  pose proof (le_value_range (take n (rest r))) as Hr. rewrite Hl in *.
  rewrite Z.mod_small.
  - by apply lor_shiftl_add; [lia|].
  - rewrite Z.shiftl_mul_pow2 by lia. split; [nia|].
    apply Z.lt_le_trans with (2 ^ (8 + 8 * Z.of_nat n)).
    + rewrite Z.pow_add_r by lia. nia.
    + apply Z.pow_le_mono_r; lia.
Qed.

Lemma remaining_lt r n :
  (remaining r <? n)%nat = false <-> (n <= length (rest r))%nat.
Proof. rewrite Nat.ltb_ge, remaining_rest. done. Qed.

Lemma take_rest r n :
  (n <= length (rest r))%nat -> rest r = take n (rest r) ++ rest (advance r n).
Proof. intros. by rewrite rest_advance, take_drop. Qed.

Lemma le_bytes_take_rest r n v :
  (n <= length (rest r))%nat -> v = le_value (take n (rest r)) ->
  0 <= v < 2 ^ (8 * Z.of_nat n) /\ rest r = le_bytes n v ++ rest (advance r n).
Proof.
  intros Hn ->. assert (length (take n (rest r)) = n) as Hl by (rewrite length_take; lia).
  split.
  - pose proof (le_value_range (take n (rest r))) as H. unfold zlen in H. by rewrite Hl in H.
  - rewrite <-Hl at 1. rewrite le_bytes_le_value. by apply take_rest.
Qed.

(** A reader that tests for [n] octets and returns their value is the codec of
    [n]-octet words. *)
Lemma word_codec (read : BinReader -> option (Z * BinReader)) n :
  (forall r, read r = if (remaining r <? n)%nat then None
                      else Some (le_value (take n (rest r)), advance r n)) ->
  Codec read (le_bytes n) (fun v => 0 <= v < 2 ^ (8 * Z.of_nat n)).
Proof.
  intros Hread. split.
  - intros r v s Hv Hr. rewrite Hread, length_le_bytes.
    rewrite (proj2 (remaining_lt r n)) by (rewrite Hr, length_app, length_le_bytes; lia).
    rewrite Hr, take_app_length', le_value_le_bytes, Z.mod_small by (done || by rewrite length_le_bytes).
    done.
  - intros r v r' H. rewrite Hread in H. destruct (remaining r <? n)%nat eqn:E; [done|].
    apply remaining_lt in E. inversion H as [[Hv Hr]].
    rewrite length_le_bytes. destruct (le_bytes_take_rest r n v E (eq_sym Hv)) as [? ?].
    rewrite Hv. done.
Qed.

#[export] Instance u8_codec : Codec r_u8 (le_bytes 1) (fun v => 0 <= v < 2 ^ 8).
Proof.
  apply (word_codec r_u8 1). intros r. unfold r_u8.
  destruct (remaining r <? 1)%nat eqn:E; [done|]. apply Nat.ltb_ge in E.
  pose proof (read_words 8 r 1 E ltac:(lia)) as <-. simpl fold_left.
  pose proof (octet_range (r_bytes r !!! (r_pos r + 0)%nat)).
  rewrite Z.shiftl_0_r, Z.lor_0_l, Z.mod_small by (unfold peek; lia). done.
Qed.

#[export] Instance u16_codec : Codec r_u16le (le_bytes 2) (fun v => 0 <= v < 2 ^ 16).
Proof.
  apply (word_codec r_u16le 2). intros r. unfold r_u16le.
  destruct (remaining r <? 2)%nat eqn:E; [done|]. apply Nat.ltb_ge in E.
  pose proof (read_words 16 r 2 E ltac:(lia)) as H. simpl fold_left in H.
  rewrite Z.shiftl_0_r, Z.lor_0_l in H.
  pose proof (octet_range (r_bytes r !!! (r_pos r + 0)%nat)).
  pose proof (octet_range (r_bytes r !!! (r_pos r + 1)%nat)).
  rewrite !Z.mod_small in H by (unfold peek; rewrite ?Z.shiftl_mul_pow2; lia).
  change (8 * Z.of_nat 1) with 8 in H. rewrite H. unfold u16. rewrite Z.mod_small; [done|].
  pose proof (le_value_range (take 2 (rest r))) as Hr. unfold zlen in Hr.
  rewrite length_take, <-remaining_rest, Nat.min_l in Hr by done. exact Hr.
Qed.

#[export] Instance u32_codec : Codec r_u32le (le_bytes 4) (fun v => 0 <= v < 2 ^ 32).
Proof.
  apply (word_codec r_u32le 4). intros r. unfold r_u32le.
  destruct (remaining r <? 4)%nat eqn:E; [done|]. apply Nat.ltb_ge in E.
  by rewrite <-(read_words 32 r 4 E ltac:(lia)).
Qed.

#[export] Instance u64_codec : Codec r_u64le (le_bytes 8) (fun v => 0 <= v < 2 ^ 64).
Proof.
  apply (word_codec r_u64le 8). intros r. unfold r_u64le.
  destruct (remaining r <? 8)%nat eqn:E; [done|]. apply Nat.ltb_ge in E.
  by rewrite <-(read_words 64 r 8 E ltac:(lia)).
Qed.

(** A 64-bit pattern that [f64le] accepts. *)
Definition canonical_f64 (v : Z) : Prop := in_u64 v /\ canonical_bits v = v.

Lemma canonical_bits_idem v : in_u64 v -> canonical_f64 (canonical_bits v).
Proof.
  intros Hv. unfold canonical_f64, canonical_bits. destruct (is_nan_bits v) eqn:E.
  - split; [unfold in_u64, kCanonicalNaNBits; lia|reflexivity].
  - by rewrite E.
Qed.

#[export] Instance f64_codec : Codec r_f64le (le_bytes 8) canonical_f64.
Proof.
  split.
  - intros r v s [Hv Hc] Hr. unfold r_f64le.
    rewrite (codec_complete (Codec := u64_codec) r v s Hv Hr).
    unfold canonical_bits in Hc. destruct (is_nan_bits v); [|done].
    by rewrite <-Hc.
  - intros r v r' H. unfold r_f64le in H.
    destruct (r_u64le r) as [[b r1]|] eqn:E; [|done].
    destruct (codec_sound r b r1 E) as (Hb & Hr & Hp).
    destruct (_ && _) eqn:En; [done|]. assert (b = v /\ r1 = r') as [-> ->] by (split; congruence).
    split; [|by split]. split; [exact Hb|]. unfold canonical_bits.
    destruct (is_nan_bits v); [|done]. simpl in En. bool_to_prop. congruence.
Qed.

(** ** Variable-length integers

    The reference encoding: seven bits per octet, lowest first, the high bit set
    on all but the last; ten octets are enough for 64 bits. *)
Fixpoint leb128 (n : nat) (v : Z) : bytes :=
  match n with
  | O => []
  | S n => if v <? 128 then [chr v] else chr (v mod 128 + 128) :: leb128 n (v / 128)
  end.
Definition uvarint_bytes (v : Z) : bytes := leb128 10 v.

(** Zigzag numbering of the signed integers: 0, -1, 1, -2, 2, ... *)
Definition zigzag (v : Z) : Z := if v <? 0 then - 2 * v - 1 else 2 * v.
Definition zigzag_bytes (v : Z) : bytes := uvarint_bytes (zigzag v).

Lemma land_ones_7 v : Z.land v 0x7F = v mod 128.
Proof. change 0x7F with (Z.ones 7). by rewrite Z.land_ones. Qed.

Lemma lor_0x80 v : 0 <= v < 128 -> Z.lor v 0x80 = v + 128.
Proof. intros. exact (lor_shiftl_add v 1 7 ltac:(lia) H). Qed.

Lemma put_uvarint_loop_spec n out v : put_uvarint_loop n out v = out ++ leb128 n v.
Proof.
  revert out v. induction n as [|n IH]; intros out v; simpl; [by rewrite app_nil_r|].
  destruct (Z.geb_spec v 0x80); destruct (Z.ltb_spec v 128); try lia; [|done].
  rewrite IH, land_ones_7, lor_0x80 by (apply Z.mod_pos_bound; lia).
  unfold put_u8. rewrite <-app_assoc, Z.shiftr_div_pow2 by lia. done.
Qed.

Lemma put_uvarint_spec out v : put_uvarint out v = out ++ uvarint_bytes v.
Proof. apply put_uvarint_loop_spec. Qed.

(** Ten rounds finish the loop: with more the result is the same. *)
Lemma uvarint_fuel n v : in_u64 v -> leb128 (10 + n) v = uvarint_bytes v.
Proof.
  intros Hv. unfold uvarint_bytes, in_u64 in *.
  enough (forall k v, 0 <= v < 2 ^ (7 * Z.of_nat k) -> leb128 (k + n) v = leb128 k v \/ k = O) as H.
  { destruct (H 10%nat v); [lia|done|done]. }
  clear v Hv. induction k as [|k IH]; intros v Hv; [by right|left]. simpl.
  destruct (Z.ltb_spec v 128); [done|]. f_equal.
  assert (0 <= v / 128 < 2 ^ (7 * Z.of_nat k)).
  { split; [apply Z.div_pos; lia|]. apply Z.div_lt_upper_bound; [lia|].
    replace (7 * Z.of_nat (S k)) with (7 + 7 * Z.of_nat k) in Hv by lia.
    rewrite Z.pow_add_r in Hv by lia. lia. }
  destruct (IH (v / 128)) as [|Hk]; [done|done|]. subst k.
  change (2 ^ (7 * Z.of_nat 1)) with 128 in Hv. lia.
Qed.

Lemma r_u8_rest r :
  r_u8 r = match rest r with [] => None | c :: _ => Some (octet c, advance r 1) end.
Proof.
  unfold r_u8. rewrite remaining_rest. destruct (rest r) as [|c s] eqn:E; [done|].
  simpl length. by rewrite (peek_rest r 0 c s).
Qed.

Lemma rest_advance_1 r c s : rest r = c :: s -> rest (advance r 1) = s.
Proof. intros H. by rewrite rest_advance, H. Qed.

Lemma land_high b : 0 <= b < 256 -> (Z.land b 0x80 =? 0) = (b <? 128).
Proof.
  revert b. apply forall_octets. by vm_compute.
Qed.

(** One pass of the reader's loop, in arithmetic. *)
Lemma uvarint_step n idx acc shift r :
  0 <= idx <= 9 -> shift = 7 * idx -> 0 <= acc < 2 ^ shift ->
  uvarint_loop (S n) idx acc shift r =
    match rest r with
    | [] => None
    | c :: _ =>
        let b := octet c in
        if (idx =? 9) && (b >? 1) then None
        else if b <? 128
        then if (idx >? 0) && (b =? 0) then None
             else Some (acc + b * 2 ^ shift, advance r 1)
        else uvarint_loop n (idx + 1) (acc + (b - 128) * 2 ^ shift) (shift + 7) (advance r 1)
    end.
Proof.
  intros Hi -> Hacc. cbn [uvarint_loop]. rewrite r_u8_rest.
  destruct (rest r) as [|c s]; [done|]. cbv zeta.
  pose proof (octet_range c) as Hc. set (b := octet c) in *.
  change 0x01 with 1. destruct ((idx =? 9) && (b >? 1)) eqn:E9; [done|].
  assert (idx = 9 -> b <= 1) as H9 by (intros ->; simpl in E9; bool_to_prop; lia).
  rewrite land_ones_7, land_high by done.
  assert (0 <= b mod 128 < 128) by (apply Z.mod_pos_bound; lia).
  assert (u64 (Z.shiftl (b mod 128) (7 * idx)) = Z.shiftl (b mod 128) (7 * idx)) as ->.
  { apply u64_small. unfold in_u64. rewrite Z.shiftl_mul_pow2 by lia. split; [nia|].
    destruct (Z.eq_dec idx 9) as [->|].
    - rewrite Z.mod_small by lia. lia.
    - apply Z.lt_le_trans with (2 ^ (7 + 7 * idx)); [rewrite Z.pow_add_r by lia; nia|].
      apply Z.pow_le_mono_r; lia. }
  rewrite lor_shiftl_add by lia.
  destruct (Z.ltb_spec b 128).
  - rewrite Z.mod_small by lia. done.
  - replace (b mod 128) with (b - 128) by (rewrite (Z.mod_eq b 128) by lia;
      replace (b / 128) with 1 by (apply Z.div_unique with (b - 128); lia); lia).
    done.
Qed.

(** The groups read so far are [acc], below [2 ^ shift]; [v] is what the rest
    of the input spells. *)
Lemma uvarint_loop_complete n idx acc r v s :
  idx = 10 - Z.of_nat n -> 0 <= idx <= 9 -> 0 <= acc < 2 ^ (7 * idx) ->
  0 <= v -> v * 2 ^ (7 * idx) < 2 ^ 64 -> (0 < idx -> 0 < v) ->
  rest r = leb128 n v ++ s ->
  uvarint_loop n idx acc (7 * idx) r =
    Some (acc + v * 2 ^ (7 * idx), advance r (length (leb128 n v))).
Proof.
  revert idx acc r v. induction n as [|n IH]; intros idx acc r v Hi Hidx Hacc Hv Hmax Hpos Hr; [lia|].
  rewrite uvarint_step by done.
  assert (idx = 9 -> v <= 1) as H9.
  { intros ->. change (2 ^ 64) with (2 * 2 ^ (7 * 9)) in Hmax. nia. }
  revert Hr. simpl leb128. destruct (Z.ltb_spec v 128) as [Hl|Hl]; intros Hr; rewrite Hr; cbn [app].
  - cbv zeta. rewrite octet_chr, Z.mod_small by lia.
    destruct (Z.ltb_spec v 128); [|lia].
    destruct (Z.eqb_spec idx 9), (Z.gtb_spec v 1), (Z.gtb_spec idx 0), (Z.eqb_spec v 0);
      simpl; try lia; done.
  - assert (idx <> 9) by lia. assert (0 <= v mod 128 < 128) by (apply Z.mod_pos_bound; lia).
    cbv zeta. rewrite octet_chr, (Z.mod_small (v mod 128 + 128)) by lia.
    destruct (Z.eqb_spec idx 9); [lia|]. destruct (Z.ltb_spec (v mod 128 + 128) 128); [lia|].
    cbn [andb]. pose proof (Z.div_mod v 128 ltac:(lia)) as Hdm.
    assert (2 ^ (7 * (idx + 1)) = 128 * 2 ^ (7 * idx)) as Hp.
    { replace (7 * (idx + 1)) with (7 + 7 * idx) by lia. by rewrite Z.pow_add_r by lia. }
    replace (7 * idx + 7) with (7 * (idx + 1)) by lia.
    rewrite IH with (v := v / 128).
    + rewrite advance_advance, Hp. f_equal. f_equal. nia.
    + lia.
    + lia.
    + rewrite Hp. nia.
    + apply Z.div_pos; lia.
    + rewrite Hp. nia.
    + intros _. apply Z.div_str_pos. lia.
    + by apply rest_advance_1 in Hr.
Qed.

Lemma uvarint_loop_sound n idx acc r x r' :
  idx = 10 - Z.of_nat n -> 0 <= idx -> 0 <= acc < 2 ^ (7 * idx) ->
  uvarint_loop n idx acc (7 * idx) r = Some (x, r') ->
  exists v, x = acc + v * 2 ^ (7 * idx) /\ 0 <= v /\ v * 2 ^ (7 * idx) + acc < 2 ^ 64 /\
    (0 < idx -> 0 < v) /\
    rest r = leb128 n v ++ rest r' /\ r' = advance r (length (leb128 n v)).
Proof.
  revert idx acc r. induction n as [|n IH]; intros idx acc r Hi Hidx Hacc H; [done|].
  rewrite uvarint_step in H by (done || lia). destruct (rest r) as [|c s] eqn:Hr; [done|].
  cbv zeta in H. pose proof (octet_range c) as Hc.
  pose proof (rest_advance_1 r c s Hr) as Hr1.
  destruct (_ && _) eqn:E9 in H; [done|].
  assert (idx = 9 -> octet c <= 1) as H9 by (intros ->; simpl in E9; bool_to_prop; lia).
  assert (2 ^ (7 * (idx + 1)) = 128 * 2 ^ (7 * idx)) as Hp.
  { replace (7 * (idx + 1)) with (7 + 7 * idx) by lia. by rewrite Z.pow_add_r by lia. }
  assert (0 < 2 ^ (7 * idx)) by lia.
  assert (idx <> 9 -> 2 ^ (7 * (idx + 1)) <= 2 ^ 63) as Hle
    by (intros; apply Z.pow_le_mono_r; lia).
  destruct (Z.ltb_spec (octet c) 128) as [Hl|Hl].
  - destruct (_ && _) eqn:E0 in H; [done|]. apply (inj Some) in H. injection H as <- <-.
    exists (octet c). simpl leb128. destruct (Z.ltb_spec (octet c) 128); [|lia].
    rewrite chr_octet, Hr1. split; [done|]. split; [lia|]. split.
    { destruct (Z.eq_dec idx 9) as [->|Hne]; [|specialize (Hle Hne); nia].
      specialize (H9 eq_refl). change (2 ^ (7 * 9)) with (2 ^ 63) in *. nia. }
    split; [|done]. intros Hpos.
    destruct (Z.gtb_spec idx 0), (Z.eqb_spec (octet c) 0); simpl in E0; try done; lia.
  - replace (7 * idx + 7) with (7 * (idx + 1)) in H by lia.
    assert (idx <> 9) by lia.
    apply IH in H; [|lia|lia|rewrite Hp; nia].
    destruct H as (v & -> & Hv & Hmax & Hpos & Hrest & ->).
    specialize (Hpos ltac:(lia)). rewrite Hp in Hmax.
    exists (octet c - 128 + 128 * v). simpl leb128.
    destruct (Z.ltb_spec (octet c - 128 + 128 * v) 128); [lia|].
    replace ((octet c - 128 + 128 * v) mod 128) with (octet c - 128)
      by (apply Z.mod_unique with v; lia).
    replace ((octet c - 128 + 128 * v) / 128) with v
      by (apply Z.div_unique with (octet c - 128); lia).
    replace (octet c - 128 + 128) with (octet c) by lia. rewrite chr_octet.
    rewrite Hp. repeat split; try lia; [|by rewrite advance_advance].
    cbn [app]. f_equal. by rewrite <-Hrest, Hr1.
Qed.

#[export] Instance uvarint_codec : Codec r_uvarint uvarint_bytes in_u64.
Proof.
  unfold r_uvarint, uvarint_bytes, in_u64. split.
  - intros r v s Hv Hr. pose proof (uvarint_loop_complete 10 0 0 r v s) as H.
    change (7 * 0) with 0 in H. change (2 ^ 0) with 1 in H.
    rewrite H by (done || lia). by rewrite Z.add_0_l, Z.mul_1_r.
  - intros r v r' H. apply (uvarint_loop_sound 10 0 0) in H; [|lia..].
    change (7 * 0) with 0 in H. change (2 ^ 0) with 1 in H.
    destruct H as (w & -> & ? & ? & _ & Hr & ->). rewrite Z.add_0_l, Z.mul_1_r. split; [lia|done].
Qed.

Lemma lxor_ones_64 x : in_u64 x -> Z.lxor x (2 ^ 64 - 1) = 2 ^ 64 - 1 - x.
Proof.
  unfold in_u64. intros Hx. change (2 ^ 64 - 1) with (Z.ones 64). rewrite Z.sub_nocarry_ldiff.
  - apply Z.bits_inj'. intros i Hi. rewrite Z.lxor_spec, Z.ldiff_spec, Z.testbit_ones by lia.
    destruct (Z.leb_spec 0 i), (Z.ltb_spec i 64); try lia; cbn [andb]; try btauto.
    rewrite (testbit_above x 64) by lia. done.
  - apply Z.bits_inj'. intros i Hi. rewrite Z.ldiff_spec, Z.bits_0, Z.testbit_ones by lia.
    destruct (Z.leb_spec 0 i), (Z.ltb_spec i 64); try lia; cbn [andb]; try btauto.
    rewrite (testbit_above x 64) by lia. done.
Qed.

Lemma zigzag_range v : in_i64 v -> in_u64 (zigzag v).
Proof. unfold in_i64, in_u64, zigzag. destruct (Z.ltb_spec v 0); lia. Qed.

Lemma put_zigzag_spec out v : in_i64 v -> put_zigzag out v = out ++ zigzag_bytes v.
Proof.
  intros Hv. unfold put_zigzag, zigzag_bytes. rewrite put_uvarint_spec. do 2 f_equal.
  unfold zigzag, in_i64 in *. rewrite Z.shiftl_mul_pow2 by lia. destruct (Z.ltb_spec v 0).
  - change (u64 (Z.lnot 0)) with (2 ^ 64 - 1).
    assert (u64 v = v + 2 ^ 64) as -> by (symmetry; apply Z.mod_unique with (-1); lia).
    assert (u64 ((v + 2 ^ 64) * 2 ^ 1) = 2 * v + 2 ^ 64) as ->
      by (symmetry; apply Z.mod_unique with 1; lia).
    rewrite lxor_ones_64 by (unfold in_u64; lia). lia.
  - rewrite Z.lxor_0_r, !u64_small by (rewrite ?u64_small; unfold in_u64; lia). lia.
Qed.

(** The reader undoes the numbering. *)
Lemma unzigzag zz :
  in_u64 zz ->
  i64 (Z.lxor (Z.shiftr zz 1) (u64 (u64 (Z.lnot (Z.land zz 1)) + 1))) =
  (if Z.even zz then zz / 2 else - (zz / 2) - 1).
Proof.
  intros Hz. unfold in_u64 in Hz.
  rewrite Z.shiftr_div_pow2 by lia. change (2 ^ 1) with 2. change 1 with (Z.ones 1) at 1.
  rewrite Z.land_ones by lia. change (2 ^ 1) with 2. rewrite Zmod_even.
  assert (0 <= zz / 2 < 2 ^ 63)
    by (split; [apply Z.div_pos; lia|apply Z.div_lt_upper_bound; lia]).
  destruct (Z.even zz).
  - change (u64 (u64 (Z.lnot 0) + 1)) with 0. rewrite Z.lxor_0_r, i64_small by (unfold in_i64; lia).
    done.
  - change (u64 (u64 (Z.lnot 1) + 1)) with (2 ^ 64 - 1). rewrite lxor_ones_64 by (unfold in_u64; lia).
    unfold i64. replace ((2 ^ 64 - 1 - zz / 2 + 2 ^ 63) mod 2 ^ 64) with (2 ^ 63 - 1 - zz / 2)
      by (apply Z.mod_unique with 1; lia). lia.
Qed.

Lemma zigzag_even_odd v :
  (if Z.even (zigzag v) then zigzag v / 2 else - (zigzag v / 2) - 1) = v.
Proof.
  unfold zigzag. destruct (Z.ltb_spec v 0).
  - replace (- 2 * v - 1) with (1 + 2 * (- v - 1)) by lia.
    rewrite Z.even_add, Z.even_mul. cbn [Z.even orb xorb Bool.eqb].
    replace ((1 + 2 * (- v - 1)) / 2) with (- v - 1) by (apply Z.div_unique with 1; lia). simpl. lia.
  - rewrite Z.even_mul. simpl. replace (2 * v / 2) with v by (apply Z.div_unique with 0; lia). done.
Qed.

Lemma zigzag_onto zz :
  in_u64 zz -> exists v, in_i64 v /\ zz = zigzag v.
Proof.
  intros Hz. unfold in_u64, in_i64 in *. pose proof (Z.div_mod zz 2 ltac:(lia)) as Hdm.
  pose proof (Zmod_even zz) as He. destruct (Z.even zz); rewrite He in Hdm.
  - exists (zz / 2). unfold zigzag. destruct (Z.ltb_spec (zz / 2) 0); lia.
  - exists (- (zz / 2) - 1). unfold zigzag. destruct (Z.ltb_spec (- (zz / 2) - 1) 0); lia.
Qed.

#[export] Instance zigzag_codec : Codec r_zigzag zigzag_bytes in_i64.
Proof.
  split.
  - intros r v s Hv Hr. unfold r_zigzag.
    rewrite (codec_complete (Codec := uvarint_codec) r (zigzag v) s (zigzag_range v Hv) Hr).
    cbv zeta. by rewrite unzigzag, zigzag_even_odd by auto using zigzag_range.
  - intros r v r' H. unfold r_zigzag in H. destruct (r_uvarint r) as [[zz r1]|] eqn:E; [|done].
    destruct (codec_sound r zz r1 E) as (Hz & Hr & ->).
    destruct (zigzag_onto zz Hz) as (w & Hw & ->). cbv zeta in H.
    rewrite unzigzag, zigzag_even_odd in H by done.
    assert (w = v /\ advance r (length (uvarint_bytes (zigzag w))) = r') as [-> <-]
      by (split; congruence).
    done.
Qed.

(** [take] is the codec of byte strings of a known length. *)
#[export] Instance take_codec n : Codec (fun r => r_take r n) (fun s => s) (fun s => length s = n).
Proof.
  split.
  - intros r x s Hx Hr. unfold r_take. change (drop (r_pos r) (r_bytes r)) with (rest r).
    rewrite (proj2 (remaining_lt r n)) by (rewrite Hr, length_app; lia).
    rewrite Hr, take_app_length' by done. by rewrite Hx.
  - intros r x r' H. unfold r_take in H. change (drop (r_pos r) (r_bytes r)) with (rest r) in H.
    destruct (remaining r <? n)%nat eqn:E; [done|]. apply remaining_lt in E.
    assert (take n (rest r) = x /\ advance r n = r') as [<- <-] by (split; congruence).
    rewrite length_take, Nat.min_l by done. split; [done|]. split; [|done]. by apply take_rest.
Qed.

Lemma r_take_prefix r b s :
  rest r = b ++ s -> exists r', r_take r (length b) = Some (b, r') /\ rest r' = s.
Proof.
  intros Hr.
  destruct (codec_rest (fun r => r_take r (length b)) (fun s => s)
    (fun s => length s = length b) r b s eq_refl Hr) as (r' & E & R & _). eauto.
Qed.

(** ** Properties *)

(** [read] accepts exactly the strings [put] writes. *)
Definition canonical {A} (read : BinReader -> option (A * BinReader)) (put : bytes -> A -> bytes)
    (ok : A -> Prop) : Prop :=
  forall r x r',
    read r = Some (x, r') <->
    ok x /\ rest r = put [] x ++ rest r' /\ r' = advance r (length (put [] x)).

Lemma codec_canonical {A} (read : BinReader -> option (A * BinReader)) enc ok `{!Codec read enc ok}
    (put : bytes -> A -> bytes) :
  (forall x, ok x -> put [] x = enc x) -> canonical read put ok.
Proof.
  intros Hput r x r'. split.
  - intros H. destruct (codec_sound r x r' H) as (Hx & ? & ?). by rewrite Hput.
  - intros (Hx & Hr & ->). rewrite Hput in * by done. by eapply codec_complete.
Qed.

(** The number of octets a varint takes. *)
Lemma length_leb128 n v : (length (leb128 n v) <= n)%nat.
Proof. revert v. induction n; intros v; simpl; [done|]. case_match; simpl; [lia|]. specialize (IHn (v / 128)). lia. Qed.

(** Varints are canonical.  [BinReader::uvarint] accepts an input exactly
    when it starts with the octets [put_uvarint] writes for the returned 64-bit
    value, and [BinReader::zigzag] the same for [put_zigzag] and every signed
    64-bit value; they consume those octets only, at most ten.  So the round trip
    loses nothing and an overlong, non-minimal, overflowing or truncated varint
    is refused. *)
Theorem varint_canonical :
  canonical r_uvarint put_uvarint in_u64 /\ canonical r_zigzag put_zigzag in_i64 /\
  (forall v out, exists w, put_uvarint out v = out ++ w /\ (length w <= 10)%nat).
Proof.
  split; [|split].
  - by apply (codec_canonical _ uvarint_bytes in_u64); intros x _; rewrite put_uvarint_spec.
  - by apply (codec_canonical _ zigzag_bytes in_i64); intros x Hx; rewrite put_zigzag_spec.
  - intros v out. exists (uvarint_bytes v). split; [apply put_uvarint_spec|apply length_leb128].
Qed.

(** Fixed-width fields are canonical: the readers of octets and of 16-,
    32- and 64-bit little-endian words return every value of their width from
    exactly the octets the writers produce, and [f64le] accepts exactly the
    patterns [put_f64le] writes: every [double] reads back as itself, except that
    all NaN payloads are written as, and only accepted as, the one canonical
    pattern. *)
Theorem fixed_width_canonical :
  canonical r_u8 put_u8 (fun v => 0 <= v < 2 ^ 8) /\
  canonical r_u16le put_u16le (fun v => 0 <= v < 2 ^ 16) /\
  canonical r_u32le put_u32le in_u32 /\
  canonical r_u64le put_u64le in_u64 /\
  canonical r_f64le put_f64le canonical_f64 /\
  (forall v, in_u64 v ->
     r_f64le (mkReader (put_f64le [] v) 0) = Some (canonical_bits v, mkReader (put_f64le [] v) 8)).
Proof.
  split; [|split; [|split; [|split; [|split]]]].
  - apply (codec_canonical _ (le_bytes 1) _). intros. by rewrite put_u8_spec.
  - apply (codec_canonical _ (le_bytes 2) _). intros. by rewrite put_u16le_spec.
  - apply (codec_canonical _ (le_bytes 4) _). intros. by rewrite put_u32le_spec.
  - apply (codec_canonical _ (le_bytes 8) _). intros. by rewrite put_u64le_spec.
  - apply (codec_canonical _ (le_bytes 8) _). intros x [_ Hx]. by rewrite put_f64le_spec, Hx.
  - intros v Hv. set (r := mkReader (put_f64le [] v) 0).
    assert (rest r = le_bytes 8 (canonical_bits v) ++ []) as Hr.
    { rewrite app_nil_r. apply put_f64le_spec. }
    rewrite (codec_complete (Codec := f64_codec) r (canonical_bits v) [] (canonical_bits_idem v Hv) Hr).
    rewrite length_le_bytes. done.
Qed.
