(* ===== verification/Native.v ===== *)
(** * The native body codec

    The schema-guided, positional body format of [src/serialize.cpp]:
    [bin_encode_body]/[bin_encode_value] and the [BinaryDecoder].  A body is a
    presence bitmask, one bit per declared field, followed by the present fields
    in order; a nested message is inlined, a list is counted.

    The specification is a pure encoding [enc_value] and the predicate
    [wire_value] of what may cross the wire at a schema (types, caps, nesting
    depth, canonical floats, UTF-8).  The encoder refines the former; the decoder
    accepts exactly the encodings of the latter, never throws and never follows a
    null pointer, whatever the input. *)

From S2P Require Import Prelude Schema Value Gate Utf8 Binary.

(** ** Encoder *)

Definition bin_require_kind (c : Cell) (expected : Kind) : result unit :=
  if bool_decide (Cell_kind c = expected) then Ok tt
  else Throw (invalid_argument (str "serialize: a field holds " ++ Kind_name_of (Cell_kind c) ++
         str " but its schema declares " ++ Kind_name_of expected ++
         str " (validate the value before serializing)")).

(** [out[mask_pos + i / 8] |= 1 << (i % 8)]. *)
Definition set_mask_bit (out : bytes) (mask_pos i : nat) : bytes :=
  alter (fun mask_byte => chr (Z.lor (octet mask_byte) (Z.shiftl 1 (Z.of_nat (i mod 8)))))
    (mask_pos + i / 8)%nat out.

Definition mask_bytes (n : nat) : nat := (n + 7) / 8.

Fixpoint bin_encode_value (c : Cell) (t : TypeRef) (out : bytes) {struct c} : result bytes :=
  match tr_kind t with
  | KInt => _ ← bin_require_kind c KInt; v ← as_int c; Ok (put_zigzag out v)
  | KFloat => _ ← bin_require_kind c KFloat; v ← as_float c; Ok (put_f64le out v)
  | KText =>
      _ ← bin_require_kind c KText; s ← as_text c;
      Ok (put_uvarint out (zlen s) ++ s)
  | KBool =>
      _ ← bin_require_kind c KBool; b ← as_bool c;
      Ok (put_u8 out (if b : bool then 1 else 0))
  | KBytes =>
      _ ← bin_require_kind c KBytes; b ← as_bytes c;
      Ok (put_uvarint out (zlen b) ++ b)
  | KMessage =>
      _ ← bin_require_kind c KMessage;
      match c with
      | CMessage (Some nested) => bin_encode_body nested out
      | CMessage None =>
          Throw (invalid_argument
            "serialize: a present Message field is null (validate before serializing)")
      | _ => Throw bad_variant_access
      end
  | KList =>
      _ ← bin_require_kind c KList;
      match c with
      | CList arr =>
          (fix each (arr : list Cell) (out : bytes) : result bytes :=
             match arr with
             | [] => Ok out
             | e :: arr =>
                 el ← deref (tr_element t);
                 out ← bin_encode_value e el out;
                 each arr out
             end) arr (put_uvarint out (zlen arr))
      | _ => Throw bad_variant_access
      end
  end
with bin_encode_body (v : Value) (out : bytes) {struct v} : result bytes :=
  match v with
  | mkValue schema slots =>
      let fields := Schema_fields schema in
      let mask_pos := length out in
      (fix each (i : nat) (slots : list (option Cell)) (fields : list Field) (out : bytes)
         : result bytes :=
         match fields with
         | [] => Ok out
         | f :: fields =>
             match slots with
             | [] => Ok out
             | None :: slots => each (S i) slots fields out
             | Some c :: slots =>
                 out ← bin_encode_value c (ftype f) (set_mask_bit out mask_pos i);
                 each (S i) slots fields out
             end
         end) O slots fields (out ++ replicate (mask_bytes (length fields)) (chr 0))
  end.

(** ** Decoder

    A failed read of the [BinReader] sets [fatal], and nothing reads after that,
    so the position a failed read leaves behind is not kept. *)

Record BinaryDecoder : Type :=
  mkDecoder { d_r : BinReader; d_errs : list Error; d_fatal : bool }.

Definition fail (d : BinaryDecoder) (kind : ErrorKind) (path expected detail : bytes)
  : BinaryDecoder :=
  mkDecoder (d_r d) (d_errs d ++ [mkError kind path expected "binary" detail]) true.

Definition with_r (d : BinaryDecoder) (r : BinReader) : BinaryDecoder :=
  mkDecoder r (d_errs d) (d_fatal d).

(** [((mask[i / 8] >> (i % 8)) & 1) != 0]. *)
Definition mask_bit (mask : bytes) (i : nat) : bool :=
  negb (Z.land (Z.shiftr (octet (mask !!! (i / 8)%nat)) (Z.of_nat (i mod 8))) 1 =? 0).

(** A non-zero padding bit in the last octet of the mask of [n] fields. *)
Definition mask_padding (mask : bytes) (n : nat) : bool :=
  negb (n mod 8 =? 0)%nat &&
  negb (Z.land (octet (mask !!! (mask_bytes n - 1)%nat))
          (Z.lnot (Z.shiftl 1 (Z.of_nat (n mod 8)) - 1)) =? 0).

(** The [Text] and [Bytes] cases: a length, then that many octets. *)
Definition dec_length (d : BinaryDecoder) (path type : bytes) : BinaryDecoder * option Z :=
  match r_uvarint (d_r d) with
  | None => (fail d MalformedField path type "truncated or non-minimal length", None)
  | Some (len, r) =>
      let d := with_r d r in
      if (len >? kMaxFieldBytes) || (len >? Z.of_nat (remaining r))
      then (fail d MalformedField path type "length exceeds remaining input or cap", None)
      else (d, Some len)
  end.

(** [r.take(len, sv)], whose result the source ignores: on failure [sv] is empty. *)
Definition take_or_empty (d : BinaryDecoder) (len : Z) : BinaryDecoder * bytes :=
  match r_take (d_r d) (Z.to_nat len) with
  | None => (d, [])
  | Some (sv, r) => (with_r d r, sv)
  end.

Definition dec_text (d : BinaryDecoder) (path : bytes) : BinaryDecoder * option Cell :=
  match dec_length d path "Text" with
  | (d, None) => (d, None)
  | (d, Some len) =>
      let '(d, sv) := take_or_empty d len in
      if valid_utf8 sv then (d, Some (CText sv))
      else (fail d MalformedField path "Text" "invalid UTF-8", None)
  end.

Definition dec_bytes (d : BinaryDecoder) (path : bytes) : BinaryDecoder * option Cell :=
  match dec_length d path "Bytes" with
  | (d, None) => (d, None)
  | (d, Some len) => let '(d, sv) := take_or_empty d len in (d, Some (CBytes sv))
  end.

Definition dec_bool (d : BinaryDecoder) (path : bytes) : BinaryDecoder * option Cell :=
  match r_u8 (d_r d) with
  | None => (fail d MalformedField path "Bool" "truncated", None)
  | Some (b, r) =>
      let d := with_r d r in
      if b >? 1 then (fail d MalformedField path "Bool" "byte is not 0x00 or 0x01", None)
      else (d, Some (CBool (negb (b =? 0))))
  end.

Definition too_deep (d : BinaryDecoder) (path : bytes) : BinaryDecoder :=
  fail d MalformedBytes path [] "maximum nesting depth exceeded".

(** [value]: the cell is the [out] parameter, [None] when it returns false. *)
Fixpoint dec_value (t : TypeRef) (path : bytes) (depth : Z) (d : BinaryDecoder) {struct t}
  : result (BinaryDecoder * option Cell) :=
  if d_fatal d then Ok (d, None) else
  if depth >? kMaxBinaryDepth then Ok (too_deep d path, None) else
  match t with
  | mkTypeRef k m e =>
      match k with
      | KInt =>
          match r_zigzag (d_r d) with
          | None => Ok (fail d MalformedField path "Int" "truncated or non-minimal varint", None)
          | Some (v, r) => Ok (with_r d r, Some (CInt v))
          end
      | KFloat =>
          match r_f64le (d_r d) with
          | None => Ok (fail d MalformedField path "Float" "truncated or non-canonical float", None)
          | Some (b, r) => Ok (with_r d r, Some (CFloat b))
          end
      | KText => Ok (dec_text d path)
      | KBool => Ok (dec_bool d path)
      | KBytes => Ok (dec_bytes d path)
      | KMessage =>
          nested ← Value_new m;
          match m with
          | None => UB
          | Some s =>
              '(d, nested) ← dec_body s nested path (depth + 1) d;
              Ok (d, if d_fatal d then None else Some (CMessage (Some nested)))
          end
      | KList =>
          match r_uvarint (d_r d) with
          | None =>
              l ← type_label t;
              Ok (fail d MalformedField path l "truncated or non-minimal count", None)
          | Some (count, r) =>
              let d := with_r d r in
              if count >? kMaxListCount
              then l ← type_label t; Ok (fail d MalformedField path l "list count exceeds cap", None)
              else
                (fix each (todo : nat) (k : Z) (arr : list Cell) (d : BinaryDecoder)
                   : result (BinaryDecoder * option Cell) :=
                   match todo with
                   | O => Ok (d, Some (CList arr))
                   | S todo =>
                       if d_fatal d then Ok (d, None) else
                       match e with
                       | None => UB
                       | Some el =>
                           '(d, ec) ← dec_value el (index_path path k) (depth + 1) d;
                           match ec with
                           | None => Ok (d, None)
                           | Some c => each todo (k + 1) (arr ++ [c]) d
                           end
                       end
                   end) (Z.to_nat count) 0 [] d
          end
      end
  end
with dec_body (door : Schema) (out : Value) (base : bytes) (depth : Z) (d : BinaryDecoder)
    {struct door} : result (BinaryDecoder * Value) :=
  if d_fatal d then Ok (d, out) else
  if depth >? kMaxBinaryDepth then Ok (too_deep d base, out) else
  match door with
  | mkSchema _ _ fields _ =>
      let n := length fields in
      match r_take (d_r d) (mask_bytes n) with
      | None => Ok (fail d MalformedBytes base [] "truncated presence bitmask", out)
      | Some (mask, r) =>
          let d := with_r d r in
          if mask_padding mask n
          then Ok (fail d MalformedBytes base [] "non-zero padding bit in presence bitmask", out)
          else
            (fix each (i : nat) (fields : list Field) (out : Value) (d : BinaryDecoder)
               : result (BinaryDecoder * Value) :=
               match fields with
               | [] => Ok (d, out)
               | f :: fields =>
                   if d_fatal d then Ok (d, out) else
                   if mask_bit mask i
                   then
                     '(d, c) ← dec_value (ftype f) (join_path base (fname f)) depth d;
                     match c with
                     | Some c => out ← Value_set out (fname f) c; each (S i) fields out d
                     | None => each (S i) fields out d
                     end
                   else each (S i) fields out d
               end) O fields out d
      end
  end.

(** ** Specification *)

(** The number whose bit [i] is the [i]-th flag. *)
Fixpoint bits (l : list bool) : Z :=
  match l with
  | [] => 0
  | b :: l => Z.b2z b + 2 * bits l
  end.

Definition is_present (o : option Cell) : bool := match o with Some _ => true | None => false end.

(** The presence mask of a list of slots. *)
Definition enc_mask (slots : list (option Cell)) : bytes :=
  le_bytes (mask_bytes (length slots)) (bits (is_present <$> slots)).

(** The encoding of a value, as a pure function of what it holds. *)
Fixpoint enc_cell (c : Cell) : bytes :=
  match c with
  | CInt v => zigzag_bytes v
  | CFloat b => le_bytes 8 (canonical_bits b)
  | CText s => uvarint_bytes (zlen s) ++ s
  | CBool b => [chr (if b then 1 else 0)]
  | CBytes b => uvarint_bytes (zlen b) ++ b
  | CMessage (Some v) => enc_value v
  | CMessage None => []
  | CList a =>
      uvarint_bytes (zlen a) ++
      (fix each a := match a with [] => [] | c :: a => enc_cell c ++ each a end) a
  end
with enc_value (v : Value) : bytes :=
  match v with
  | mkValue _ slots =>
      enc_mask slots ++
      (fix each (slots : list (option Cell)) : bytes :=
         match slots with
         | [] => []
         | o :: slots => match o with Some c => enc_cell c | None => [] end ++ each slots
         end) slots
  end.

Definition enc_cells (a : list Cell) : bytes := concat (enc_cell <$> a).
Definition enc_slot (o : option Cell) : bytes :=
  match o with Some c => enc_cell c | None => [] end.
Definition enc_slots (slots : list (option Cell)) : bytes := concat (enc_slot <$> slots).

Lemma enc_cell_list a : enc_cell (CList a) = uvarint_bytes (zlen a) ++ enc_cells a.
Proof. simpl. f_equal. induction a as [|c a IH]; [done|]. by rewrite IH. Qed.

Lemma enc_value_eq s slots : enc_value (mkValue s slots) = enc_mask slots ++ enc_slots slots.
Proof. simpl. f_equal. induction slots as [|o slots IH]; [done|]. by rewrite IH. Qed.

(** What C++ code can construct: integers and doubles in range, values over
    constructed schemas with one slot per field. *)
Fixpoint built_cell (c : Cell) : Prop :=
  match c with
  | CInt v => in_i64 v
  | CFloat b => in_u64 b
  | CText s => zlen s < 2 ^ 64
  | CBytes b => zlen b < 2 ^ 64
  | CMessage (Some v) => built_value v
  | CList a =>
      zlen a < 2 ^ 64 /\
      (fix each a := match a with [] => True | c :: a => built_cell c /\ each a end) a
  | _ => True
  end
with built_value (v : Value) : Prop :=
  match v with
  | mkValue s slots =>
      wf_schema s /\ length slots = length (Schema_fields s) /\
      (fix each (slots : list (option Cell)) : Prop :=
         match slots with
         | [] => True
         | o :: slots => match o with Some c => built_cell c | None => True end /\ each slots
         end) slots
  end.

(** The values the encoder accepts: every cell, at every depth, has the kind its
    own schema declares and no present message is null. *)
Fixpoint encodes (c : Cell) (t : TypeRef) {struct c} : bool :=
  bool_decide (Cell_kind c = tr_kind t) &&
  match c with
  | CMessage None => false
  | CMessage (Some v) => encodes_value v
  | CList a =>
      match tr_element t with
      | None => false
      | Some el =>
          (fix each a := match a with [] => true | c :: a => encodes c el && each a end) a
      end
  | _ => true
  end
with encodes_value (v : Value) {struct v} : bool :=
  match v with
  | mkValue s slots =>
      (fix each (slots : list (option Cell)) (fields : list Field) : bool :=
         match slots, fields with
         | o :: slots, f :: fields =>
             match o with Some c => encodes c (ftype f) | None => true end && each slots fields
         | _, _ => true
         end) slots (Schema_fields s)
  end.

(** The values that may cross the wire at a type or a door, at a nesting depth:
    the caps of [detail/binary.hpp], UTF-8 text, canonical floats, and exactly
    the door's schema. *)
Fixpoint wire_cell (depth : Z) (t : TypeRef) (c : Cell) {struct t} : Prop :=
  depth <= kMaxBinaryDepth /\
  match t with
  | mkTypeRef k m e =>
      match k, c with
      | KInt, CInt v => in_i64 v
      | KFloat, CFloat b => canonical_f64 b
      | KText, CText s => valid_utf8 s = true /\ zlen s <= kMaxFieldBytes
      | KBool, CBool _ => True
      | KBytes, CBytes b => zlen b <= kMaxFieldBytes
      | KMessage, CMessage (Some v) =>
          match m with Some s => wire_value (depth + 1) s v | None => False end
      | KList, CList a =>
          match e with
          | Some el => zlen a <= kMaxListCount /\ Forall (wire_cell (depth + 1) el) a
          | None => False
          end
      | _, _ => False
      end
  end
with wire_value (depth : Z) (door : Schema) (v : Value) {struct door} : Prop :=
  depth <= kMaxBinaryDepth /\ Value_schema v = door /\
  match door with
  | mkSchema _ _ fields _ =>
      (fix each (fields : list Field) (slots : list (option Cell)) : Prop :=
         match fields, slots with
         | [], [] => True
         | f :: fields, o :: slots =>
             match o with Some c => wire_cell depth (ftype f) c | None => True end /\
             each fields slots
         | _, _ => False
         end) fields (Value_slots v)
  end.

(** The slots of a door's value, field by field. *)
Definition wire_slot (depth : Z) (f : Field) (o : option Cell) : Prop :=
  match o with Some c => wire_cell depth (ftype f) c | None => True end.

Lemma wire_value_slots depth door v :
  wire_value depth door v <->
  depth <= kMaxBinaryDepth /\ Value_schema v = door /\
  Forall2 (wire_slot depth) (Schema_fields door) (Value_slots v).
Proof.
  destruct door as [n ver fields cid]. simpl. do 2 apply and_iff_compat_l.
  generalize (Value_slots v). induction fields as [|f fields IH]; intros slots.
  - destruct slots; split; try done. by intros H%Forall2_nil_cons_inv.
  - destruct slots as [|o slots]; [split; [done|by intros H%Forall2_cons_nil_inv]|].
    rewrite Forall2_cons, IH. done.
Qed.

(** Every NaN becomes the canonical one; nothing else changes. *)
Fixpoint canon_cell (c : Cell) : Cell :=
  match c with
  | CFloat b => CFloat (canonical_bits b)
  | CMessage (Some v) => CMessage (Some (canon_value v))
  | CList a => CList (map canon_cell a)
  | _ => c
  end
with canon_value (v : Value) : Value :=
  match v with
  | mkValue s slots =>
      mkValue s (map (fun o => match o with Some c => Some (canon_cell c) | None => None end) slots)
  end.

(** ** Presence masks *)

Lemma bits_range l : 0 <= bits l < 2 ^ zlen l.
Proof.
  induction l as [|b l IH]; [done|]. cbn [bits].
  rewrite pow2_zlen_cons. destruct b; cbn [Z.b2z]; lia.
Qed.

Lemma bits_app l k : bits (l ++ k) = bits l + bits k * 2 ^ zlen l.
Proof.
  induction l as [|b l IH]; [change (2 ^ zlen []) with 1; cbn [app bits]; lia|].
  cbn [app bits]. rewrite IH, pow2_zlen_cons. lia.
Qed.

Lemma bits_testbit l i : Z.testbit (bits l) (Z.of_nat i) = default false (l !! i).
Proof.
  revert i. induction l as [|b l IH]; intros i; [by rewrite Z.bits_0|]. cbn [bits].
  rewrite Z.add_comm. destruct i as [|i].
  - change (Z.of_nat 0) with 0. rewrite Z.testbit_0_r. done.
  - rewrite Nat2Z.inj_succ, Z.testbit_succ_r by lia. apply IH.
Qed.

(** A number below [2 ^ n] is the number of its first [n] bits. *)
Lemma bits_of_testbits V n :
  0 <= V < 2 ^ Z.of_nat n -> bits ((fun i => Z.testbit V (Z.of_nat i)) <$> seq 0 n) = V.
Proof.
  intros HV. apply Z.bits_inj'. intros i Hi.
  rewrite <-(Z2Nat.id i) by done. rewrite bits_testbit, list_lookup_fmap.
  destruct (decide (Z.to_nat i < n)%nat).
  - by rewrite lookup_seq_lt.
  - rewrite lookup_seq_ge by lia. simpl. symmetry. eapply testbit_above; [done|]. lia.
Qed.

(** Octet by octet, [chr] keeps bits 0 to 7. *)
Lemma chr_testbits a b :
  (forall n, 0 <= n < 8 -> Z.testbit a n = Z.testbit b n) -> chr a = chr b.
Proof.
  intros H. apply octet_inj. rewrite !octet_chr. change 256 with (2 ^ 8).
  rewrite <-!Z.land_ones by lia. apply Z.bits_inj'. intros n Hn.
  rewrite !Z.land_spec, Z.testbit_ones by lia.
  destruct (Z.leb_spec 0 n), (Z.ltb_spec n 8); try lia; cbn [andb]; try btauto.
  by rewrite H by lia.
Qed.

Lemma octet_chr_testbit a n : 0 <= n < 8 -> Z.testbit (octet (chr a)) n = Z.testbit a n.
Proof.
  intros Hn. rewrite octet_chr. change 256 with (2 ^ 8). by rewrite Z.mod_pow2_bits_low by lia.
Qed.

Lemma set_bit_at k V j r :
  (j < k)%nat -> (r < 8)%nat ->
  alter (fun c => chr (Z.lor (octet c) (Z.shiftl 1 (Z.of_nat r)))) j (le_bytes k V) =
  le_bytes k (Z.lor V (Z.shiftl 1 (Z.of_nat (8 * j + r)))).
Proof.
  intros Hj Hr. revert k V Hj. induction j as [|j IH]; intros [|k] V Hj; [lia| |lia|];
    rewrite !le_bytes_S, Z.shiftr_lor; cbn [alter list_alter].
  - rewrite Nat.mul_0_r, Nat.add_0_l. f_equal.
    + apply chr_testbits. intros n Hn. by rewrite !Z.lor_spec, octet_chr_testbit by done.
    + rewrite (Z.shiftr_eq_0 (Z.shiftl 1 _)); [by rewrite Z.lor_0_r|by apply Z.shiftl_nonneg|].
      rewrite Z.shiftl_1_l, Z.log2_pow2 by lia. lia.
  - f_equal.
    + apply chr_testbits. intros n Hn. rewrite Z.lor_spec, Z.shiftl_spec by lia.
      rewrite (Z.testbit_neg_r 1) by lia. btauto.
    + change (alter _ j (le_bytes k (Z.shiftr V 8))) with
        (alter (fun c => chr (Z.lor (octet c) (Z.shiftl 1 (Z.of_nat r)))) j
           (le_bytes k (Z.shiftr V 8))).
      rewrite IH by lia. do 2 f_equal. rewrite Z.shiftr_shiftl_l by lia. f_equal. lia.
Qed.

Lemma set_bit_le_bytes k V i :
  (i / 8 < k)%nat ->
  alter (fun c => chr (Z.lor (octet c) (Z.shiftl 1 (Z.of_nat (i mod 8))))) (i / 8)%nat (le_bytes k V) =
  le_bytes k (Z.lor V (Z.shiftl 1 (Z.of_nat i))).
Proof.
  intros Hi. rewrite set_bit_at by (done || apply Nat.mod_upper_bound; lia).
  by rewrite <-(Nat.div_mod_eq i 8).
Qed.

(** ** The encoder refines the pure encoding *)

(** [r] appends nothing but [w], or throws [std::invalid_argument]. *)
Definition writes (r : result bytes) (ok : bool) (w : bytes) : Prop :=
  if ok then r = Ok w else exists what, r = Throw (invalid_argument what).

Lemma writes_bind (m : result bytes) f b1 b2 w1 w2 :
  writes m b1 w1 -> writes (f w1) b2 w2 -> writes (m ≫= f) (b1 && b2) w2.
Proof. destruct b1; simpl; [by intros -> ?|intros [what ->] _; by exists what]. Qed.

Lemma bits_snoc l b : bits (l ++ [b]) = Z.lor (bits l) (Z.shiftl (Z.b2z b) (zlen l)).
Proof.
  rewrite bits_app. pose proof (zlen_nonneg l).
  rewrite lor_shiftl_add by (done || apply bits_range). destruct b; cbn [bits Z.b2z]; lia.
Qed.

Lemma mask_bytes_gt i n : (i < n)%nat -> (i / 8 < mask_bytes n)%nat.
Proof.
  intros Hi. unfold mask_bytes. apply Nat.Div0.div_lt_upper_bound.
  pose proof (Nat.div_mod_eq (n + 7) 8). pose proof (Nat.mod_upper_bound (n + 7) 8). lia.
Qed.

(** Marking field [i] after the mask bits of the fields before it. *)
Lemma set_mask_bit_snoc pre body k (flags : list bool) :
  (length flags / 8 < k)%nat ->
  set_mask_bit (pre ++ le_bytes k (bits flags) ++ body) (length pre) (length flags) =
  pre ++ le_bytes k (bits (flags ++ [true])) ++ body.
Proof.
  intros Hk. unfold set_mask_bit.
  rewrite alter_app_r, alter_app_l by (rewrite length_le_bytes; lia).
  by rewrite set_bit_le_bytes, bits_snoc by done.
Qed.

Lemma replicate_le_bytes k : replicate k (chr 0) = le_bytes k 0.
Proof. induction k as [|k IH]; [done|]. simpl. by rewrite le_bytes_S, IH. Qed.

(** The loops of the encoder and of [encodes], named. *)
Fixpoint encode_slots (mask_pos i : nat) (slots : list (option Cell)) (fields : list Field)
    (out : bytes) : result bytes :=
  match fields with
  | [] => Ok out
  | f :: fields =>
      match slots with
      | [] => Ok out
      | None :: slots => encode_slots mask_pos (S i) slots fields out
      | Some c :: slots =>
          out ← bin_encode_value c (ftype f) (set_mask_bit out mask_pos i);
          encode_slots mask_pos (S i) slots fields out
      end
  end.

Fixpoint encodes_slots (slots : list (option Cell)) (fields : list Field) : bool :=
  match slots, fields with
  | o :: slots, f :: fields =>
      match o with Some c => encodes c (ftype f) | None => true end && encodes_slots slots fields
  | _, _ => true
  end.

Lemma bin_encode_body_eq s slots out :
  bin_encode_body (mkValue s slots) out =
  encode_slots (length out) O slots (Schema_fields s)
    (out ++ le_bytes (mask_bytes (length (Schema_fields s))) 0).
Proof.
  rewrite <-replicate_le_bytes. cbn [bin_encode_body]. cbv zeta.
  generalize (out ++ replicate (mask_bytes (length (Schema_fields s))) (chr 0)).
  intros o. generalize O as i. revert o. generalize (Schema_fields s) as fs.
  induction slots as [|[c|] slots IH]; intros [|f fs] o i; cbn [encode_slots]; try done.
  destruct (bin_encode_value c (ftype f) _); simpl; [apply IH|done|done].
Qed.

Lemma encodes_value_eq s slots :
  encodes_value (mkValue s slots) = encodes_slots slots (Schema_fields s).
Proof.
  simpl. generalize (Schema_fields s) as fs.
  induction slots as [|o slots IH]; intros [|f fs]; done.
Qed.

(** Slots [done] are written; [slots] follow, their mask bits and cells. *)
Lemma encode_slots_writes (slots : list (option Cell)) pre k :
  Forall (fun o => forall c, o = Some c -> forall t out, built_cell c -> wf_type t ->
    writes (bin_encode_value c t out) (encodes c t) (out ++ enc_cell c)) slots ->
  forall (flags : list bool) body fields,
  Forall (fun o => match o with Some c => built_cell c | None => True end) slots ->
  Forall (fun f => wf_type (ftype f)) fields ->
  length slots = length fields -> k = mask_bytes (length flags + length fields) ->
  writes
    (encode_slots (length pre) (length flags) slots fields (pre ++ le_bytes k (bits flags) ++ body))
    (encodes_slots slots fields)
    (pre ++ le_bytes k (bits (flags ++ (is_present <$> slots))) ++ body ++ enc_slots slots).
Proof.
  induction 1 as [|o slots Ho _ IH]; intros flags body [|f fields] Hb Hts Hlen Hk; try done.
  { simpl. unfold enc_slots. simpl. by rewrite !app_nil_r. }
  apply Forall_cons in Hb as [Hbo Hb]. apply Forall_cons in Hts as [Ht Hts].
  simpl in Hlen. unfold enc_slots. cbn [fmap list_fmap concat].
  change (concat (enc_slot <$> slots)) with (enc_slots slots).
  specialize (IH (flags ++ [is_present o]) (body ++ enc_slot o) fields Hb Hts ltac:(lia)).
  rewrite length_app in IH. change (length [is_present o]) with 1%nat in IH.
  rewrite (Nat.add_1_r (length flags)), Nat.add_succ_l, <-Nat.add_succ_r in IH. specialize (IH Hk).
  rewrite <-!app_assoc in IH. destruct o as [c|].
  - cbn [encode_slots encodes_slots]. rewrite set_mask_bit_snoc.
    2: { subst k. apply mask_bytes_gt. simpl. lia. }
    eapply writes_bind; [by apply (Ho c)|]. rewrite <-!app_assoc. exact IH.
  - cbn [encode_slots encodes_slots andb]. simpl is_present in *. simpl enc_slot in *.
    rewrite app_nil_r in IH. rewrite bits_snoc, Z.shiftl_0_l, Z.lor_0_r in IH. exact IH.
Qed.

Lemma built_value_slots s slots :
  built_value (mkValue s slots) <->
  wf_schema s /\ length slots = length (Schema_fields s) /\
  Forall (fun o => match o with Some c => built_cell c | None => True end) slots.
Proof.
  simpl. do 2 apply and_iff_compat_l.
  induction slots as [|o slots IH]; [by rewrite Forall_nil|]. by rewrite Forall_cons, IH.
Qed.

Lemma bin_encode_writes :
  (forall c t out, built_cell c -> wf_type t ->
     writes (bin_encode_value c t out) (encodes c t) (out ++ enc_cell c)) /\
  (forall v out, built_value v ->
     writes (bin_encode_body v out) (encodes_value v) (out ++ enc_value v)).
Proof.
  apply cell_value_ind.
  - intros z [k m e] out Hz _. destruct k; simpl; eauto. by rewrite put_zigzag_spec.
  - intros z [k m e] out _ _. destruct k; simpl; eauto. by rewrite put_f64le_spec.
  - intros z [k m e] out _ _. destruct k; simpl; eauto. by rewrite put_uvarint_spec, <-app_assoc.
  - intros z [k m e] out _ _. destruct k; simpl; eauto.
  - intros z [k m e] out _ _. destruct k; simpl; eauto. by rewrite put_uvarint_spec, <-app_assoc.
  - intros [k m e] out _ _. destruct k; simpl; eauto.
  - intros v IH [k m e] out Hb _. destruct k; simpl; eauto.
  - intros a IH [k m e] out Hb Ht. destruct k; try (simpl; eauto; fail).
    apply wf_type_inv in Ht as (el & -> & -> & Hel). rewrite enc_cell_list. simpl.
    destruct Hb as [_ Hb]. rewrite put_uvarint_spec, app_assoc.
    generalize (out ++ uvarint_bytes (zlen a)) as o. clear out.
    induction IH as [|c a Hc _ IHa]; intros o; [simpl; by rewrite app_nil_r|].
    destruct Hb as [Hb1 Hb2]. eapply writes_bind; [by apply Hc|].
    unfold enc_cells. cbn [fmap list_fmap concat]. rewrite app_assoc. by apply IHa.
  - intros s slots IH out (Hs & Hlen & Hb)%built_value_slots.
    rewrite enc_value_eq, bin_encode_body_eq, encodes_value_eq. unfold enc_mask. rewrite Hlen.
    pose proof (encode_slots_writes slots out _ IH [] [] _ Hb (wf_schema_types s Hs) Hlen eq_refl) as H.
    rewrite app_nil_r in H. exact H.
Qed.

(** ** Reading a mask back *)

Lemma lookup_le_bytes k V j :
  (j < k)%nat -> le_bytes k V !!! j = chr (Z.shiftr V (8 * Z.of_nat j)).
Proof.
  revert V j. induction k as [|k IH]; intros V j Hj; [lia|]. rewrite le_bytes_S.
  destruct j as [|j]; [by rewrite Z.shiftr_0_r|]. cbn [lookup_total list_lookup_total].
  change (le_bytes k (Z.shiftr V 8) !!! j = chr (Z.shiftr V (8 * Z.of_nat (S j)))).
  rewrite IH by lia. rewrite Z.shiftr_shiftr by lia. do 2 f_equal. lia.
Qed.

Lemma mask_bit_le_bytes k V i :
  (i / 8 < k)%nat -> mask_bit (le_bytes k V) i = Z.testbit V (Z.of_nat i).
Proof.
  intros Hi. unfold mask_bit. rewrite lookup_le_bytes by done.
  pose proof (Nat.mod_upper_bound i 8 ltac:(lia)) as Hr. pose proof (Nat.div_mod_eq i 8) as Hdm.
  change 1 with (Z.ones 1). rewrite Z.land_ones by lia. change (2 ^ 1) with 2.
  rewrite <-Z.bit0_mod, Z.shiftr_spec, Z.add_0_l by lia.
  rewrite octet_chr_testbit, Z.shiftr_spec by lia.
  replace (Z.of_nat (i mod 8) + 8 * Z.of_nat (i / 8)) with (Z.of_nat i) by lia.
  by destruct (Z.testbit V (Z.of_nat i)).
Qed.

Lemma high_bits_zero x r :
  0 <= r -> 0 <= x -> Z.land x (Z.lnot (Z.shiftl 1 r - 1)) = 0 <-> x < 2 ^ r.
Proof.
  intros Hr Hx. replace (Z.shiftl 1 r - 1) with (Z.ones r) by (rewrite Z.ones_equiv, Z.shiftl_1_l; lia).
  rewrite <-Z.ldiff_land, Z.ldiff_ones_r, Z.shiftl_eq_0_iff, Z.shiftr_div_pow2 by done.
  assert (0 < 2 ^ r) by (apply Z.pow_pos_nonneg; lia).
  rewrite Z.div_small_iff by lia. lia.
Qed.

Lemma mask_padding_le_bytes n V :
  0 <= V < 2 ^ (8 * Z.of_nat (mask_bytes n)) ->
  mask_padding (le_bytes (mask_bytes n) V) n = false <-> V < 2 ^ Z.of_nat n.
Proof.
  intros HV. unfold mask_padding.
  pose proof (Nat.mod_upper_bound n 8 ltac:(lia)) as Hr. pose proof (Nat.div_mod_eq n 8) as Hdm.
  unfold mask_bytes in *. destruct (Nat.eqb_spec (n mod 8) 0) as [E|E]; cbn [negb andb].
  - replace (8 * Z.of_nat ((n + 7) / 8)) with (Z.of_nat n) in HV; [lia|].
    replace ((n + 7) / 8)%nat with (n / 8)%nat; [lia|].
    apply Nat.div_unique with 7%nat; lia.
  - replace ((n + 7) / 8)%nat with (S (n / 8)) in *
      by (apply Nat.div_unique with (n mod 8 - 1)%nat; lia).
    replace (S (n / 8) - 1)%nat with (n / 8)%nat by lia.
    rewrite lookup_le_bytes by lia.
    assert (0 < 2 ^ (8 * Z.of_nat (n / 8))) by (apply Z.pow_pos_nonneg; lia).
    set (W := 2 ^ (8 * Z.of_nat (n / 8))) in *.
    assert (2 ^ (8 * Z.of_nat (S (n / 8))) = W * 256) as HW.
    { unfold W. change 256 with (2 ^ 8). rewrite <-Z.pow_add_r by lia. f_equal. lia. }
    assert (0 <= V / W < 256) as HVW
      by (split; [apply Z.div_pos; lia|apply Z.div_lt_upper_bound; lia]).
    rewrite octet_chr, Z.shiftr_div_pow2 by lia. fold W. rewrite Z.mod_small by done.
    rewrite negb_false_iff, Z.eqb_eq, high_bits_zero by lia.
    replace (Z.of_nat n) with (8 * Z.of_nat (n / 8) + Z.of_nat (n mod 8)) by lia.
    rewrite Z.pow_add_r by lia. fold W. pose proof (Z.mod_pos_bound V W ltac:(lia)).
    pose proof (Z.div_mod V W ltac:(lia)).
    split; intros Hlt; [nia|]. by apply Z.div_lt_upper_bound.
Qed.

(** ** The decoder's loops, named *)

Fixpoint dec_list (el : TypeRef) (path : bytes) (depth : Z) (todo : nat) (k : Z) (arr : list Cell)
    (d : BinaryDecoder) : result (BinaryDecoder * option Cell) :=
  match todo with
  | O => Ok (d, Some (CList arr))
  | S todo =>
      if d_fatal d then Ok (d, None) else
      '(d, ec) ← dec_value el (index_path path k) (depth + 1) d;
      match ec with
      | None => Ok (d, None)
      | Some c => dec_list el path depth todo (k + 1) (arr ++ [c]) d
      end
  end.

Fixpoint dec_fields (mask base : bytes) (depth : Z) (i : nat) (fields : list Field) (out : Value)
    (d : BinaryDecoder) : result (BinaryDecoder * Value) :=
  match fields with
  | [] => Ok (d, out)
  | f :: fields =>
      if d_fatal d then Ok (d, out) else
      if mask_bit mask i
      then
        '(d, c) ← dec_value (ftype f) (join_path base (fname f)) depth d;
        match c with
        | Some c => out ← Value_set out (fname f) c; dec_fields mask base depth (S i) fields out d
        | None => dec_fields mask base depth (S i) fields out d
        end
      else dec_fields mask base depth (S i) fields out d
  end.

Lemma dec_value_list el path depth r es :
  (depth >? kMaxBinaryDepth) = false ->
  dec_value (mkTypeRef KList None (Some el)) path depth (mkDecoder r es false) =
  let d := mkDecoder r es false in
  match r_uvarint r with
  | None =>
      l ← type_label (mkTypeRef KList None (Some el));
      Ok (fail d MalformedField path l "truncated or non-minimal count", None)
  | Some (count, r) =>
      let d := mkDecoder r es false in
      if count >? kMaxListCount
      then l ← type_label (mkTypeRef KList None (Some el));
        Ok (fail d MalformedField path l "list count exceeds cap", None)
      else dec_list el path depth (Z.to_nat count) 0 [] d
  end.
Proof.
  intros Hd. cbn [dec_value d_fatal d_r]. rewrite Hd. cbv zeta.
  destruct (r_uvarint r) as [[count r']|]; [|done]. destruct (count >? _); [done|].
  match goal with |- ?F _ _ _ _ = _ =>
    enough (forall n k arr d, F n k arr d = dec_list el path depth n k arr d) as H by apply H
  end.
  induction n as [|n IH]; intros k arr d; [done|]. cbn [dec_list].
  destruct (d_fatal d); [done|]. destruct (dec_value el _ _ d) as [[d' [c|]]| |]; simpl; [apply IH|done..].
Qed.

Lemma dec_body_eq n ver fields cid out base depth r es :
  (depth >? kMaxBinaryDepth) = false ->
  dec_body (mkSchema n ver fields cid) out base depth (mkDecoder r es false) =
  let d := mkDecoder r es false in
  match r_take r (mask_bytes (length fields)) with
  | None => Ok (fail d MalformedBytes base [] "truncated presence bitmask", out)
  | Some (mask, r) =>
      let d := mkDecoder r es false in
      if mask_padding mask (length fields)
      then Ok (fail d MalformedBytes base [] "non-zero padding bit in presence bitmask", out)
      else dec_fields mask base depth O fields out d
  end.
Proof.
  intros Hd. cbn [dec_body d_fatal d_r]. rewrite Hd. cbv zeta.
  destruct (r_take r _) as [[mask r']|]; [|done]. destruct (mask_padding _ _); [done|].
  match goal with |- ?F _ _ _ _ = _ =>
    enough (forall fs i o d, F i fs o d = dec_fields mask base depth i fs o d) as H by apply H
  end.
  induction fs as [|f fs IH]; intros i o d; [done|]. cbn [dec_fields].
  destruct (d_fatal d); [done|]. destruct (mask_bit mask i); [|apply IH].
  destruct (dec_value (ftype f) _ _ d) as [[d' [c|]]| |]; simpl; try done.
  destruct (Value_set o (fname f) c); simpl; done.
Qed.

(** ** Completeness: what may cross the wire is decoded *)

Lemma to_nat_zlen {A} (l : list A) : Z.to_nat (zlen l) = length l.
Proof. unfold zlen. apply Nat2Z.id. Qed.

Lemma zlen_in_u64 {A} (l : list A) m : zlen l <= m -> m < 2 ^ 64 -> in_u64 (zlen l).
Proof. pose proof (zlen_nonneg l). unfold in_u64. lia. Qed.

Lemma dec_length_complete r es b s path type :
  rest r = uvarint_bytes (zlen b) ++ b ++ s -> zlen b <= kMaxFieldBytes ->
  dec_length (mkDecoder r es false) path type =
    (mkDecoder (advance r (length (uvarint_bytes (zlen b)))) es false, Some (zlen b)) /\
  take_or_empty (mkDecoder (advance r (length (uvarint_bytes (zlen b)))) es false) (zlen b) =
    (mkDecoder (advance r (length (uvarint_bytes (zlen b) ++ b))) es false, b).
Proof.
  intros Hr Hb. assert (in_u64 (zlen b)) as Hu by (by apply (zlen_in_u64 _ kMaxFieldBytes)).
  destruct (codec_rest r_uvarint uvarint_bytes in_u64 r _ _ Hu Hr) as (r1 & E1 & R1 & ->).
  unfold dec_length. cbn [d_r]. rewrite E1. unfold with_r. cbn [d_errs d_fatal].
  rewrite remaining_rest, R1, length_app.
  assert ((zlen b >? kMaxFieldBytes) || (zlen b >? Z.of_nat (length b + length s)) = false) as ->.
  { unfold zlen in *. apply orb_false_intro; rewrite Z.gtb_ltb; apply Z.ltb_ge; lia. }
  split; [done|]. unfold take_or_empty. cbn [d_r]. rewrite to_nat_zlen.
  rewrite (codec_complete (Codec := take_codec (length b)) _ b s eq_refl R1).
  unfold with_r. cbn [d_errs d_fatal]. by rewrite advance_advance, length_app.
Qed.

Lemma enc_slots_cons o slots : enc_slots (o :: slots) = enc_slot o ++ enc_slots slots.
Proof. done. Qed.

Lemma dec_list_complete el path depth a :
  (forall c path r es s, c ∈ a -> rest r = enc_cell c ++ s ->
     dec_value el path (depth + 1) (mkDecoder r es false) =
       Ok (mkDecoder (advance r (length (enc_cell c))) es false, Some c)) ->
  forall k arr r es s, rest r = enc_cells a ++ s ->
  dec_list el path depth (length a) k arr (mkDecoder r es false) =
    Ok (mkDecoder (advance r (length (enc_cells a))) es false, Some (CList (arr ++ a))).
Proof.
  induction a as [|c a IH]; intros Hc k arr r es s Hr; simpl.
  { by rewrite advance_0, app_nil_r. }
  unfold enc_cells in *. cbn [fmap list_fmap concat] in *. rewrite <-app_assoc in Hr.
  rewrite (Hc c _ r es _ ltac:(left) Hr). simpl.
  rewrite IH with (s := s).
  - rewrite <-app_assoc, advance_advance, length_app. done.
  - intros. apply Hc with s0; [by right|done].
  - by rewrite rest_advance, Hr, drop_app_length.
Qed.

(** [out] holds the cells of the fields already read. *)
Lemma dec_fields_complete n ver cid (all : list Field) mask V base depth slots :
  NoDup (fname <$> all) -> mask = le_bytes (mask_bytes (length all)) V ->
  forall done fields pre r es s,
  all = done ++ fields -> length pre = length done -> length slots = length fields ->
  (forall j, Z.testbit V (Z.of_nat (length done + j)) = default false (is_present <$> (slots !! j))) ->
  Forall2 (fun f o => forall c, o = Some c -> forall path r es s, rest r = enc_cell c ++ s ->
     dec_value (ftype f) path depth (mkDecoder r es false) =
       Ok (mkDecoder (advance r (length (enc_cell c))) es false, Some c)) fields slots ->
  rest r = enc_slots slots ++ s ->
  dec_fields mask base depth (length done) fields
    (mkValue (mkSchema n ver all cid) (pre ++ replicate (length fields) None))
    (mkDecoder r es false) =
    Ok (mkDecoder (advance r (length (enc_slots slots))) es false,
        mkValue (mkSchema n ver all cid) (pre ++ slots)).
Proof.
  intros Hnd ->. revert slots. intros slots done fields. revert slots done.
  induction fields as [|f fields IH]; intros [|o slots] dn pre r es s Hall Hpre Hlen Hbits HF Hr;
    try discriminate Hlen.
  { simpl. by rewrite advance_0. }
  apply Forall2_cons in HF as [Ho HF]. rewrite enc_slots_cons, <-app_assoc in Hr.
  cbn [dec_fields d_fatal]. pose proof (Hbits O) as H0. rewrite Nat.add_0_r in H0. simpl in H0.
  rewrite mask_bit_le_bytes, H0.
  2: { apply mask_bytes_gt. rewrite Hall, length_app. simpl. lia. }
  assert (forall o' r', rest r' = enc_slots slots ++ s ->
    dec_fields (le_bytes (mask_bytes (length all)) V) base depth (S (length dn)) fields
      (mkValue (mkSchema n ver all cid) (pre ++ o' :: replicate (length fields) None))
      (mkDecoder r' es false) =
    Ok (mkDecoder (advance r' (length (enc_slots slots))) es false,
        mkValue (mkSchema n ver all cid) (pre ++ o' :: slots))) as Hnext.
  { intros o' r' Hr'.
    specialize (IH slots (dn ++ [f]) (pre ++ [o']) r' es s).
    rewrite !length_app, <-!app_assoc in IH. simpl in IH. rewrite !Nat.add_1_r in IH.
    apply IH; [done|lia|by injection Hlen| |done|done].
    intros j. specialize (Hbits (S j)). simpl in Hbits. rewrite <-Hbits. do 2 f_equal. lia. }
  destruct o as [c|]; simpl is_present; cbn iota.
  - simpl enc_slot in Hr. rewrite (Ho c eq_refl _ r es _ Hr). cbn [mbind result_bind].
    rewrite (Value_set_ok _ _ _ (length dn)); cbn [Value_schema Value_slots Schema_fields mbind result_bind].
    + rewrite <-Hpre, insert_app_r_alt, Nat.sub_diag by lia. cbn [replicate insert list_insert length].
      rewrite Hpre, (Hnext (Some c)), advance_advance; [by rewrite enc_slots_cons, length_app|].
      by rewrite rest_advance, Hr, drop_app_length.
    + apply field_index_lookup; [done|]. rewrite Hall. by apply list_lookup_middle.
  - rewrite (Hnext None); done.
Qed.

Lemma depth_ok depth : depth <= kMaxBinaryDepth -> (depth >? kMaxBinaryDepth) = false.
Proof. apply gtb_false. Qed.

Lemma enc_mask_range slots :
  0 <= bits (is_present <$> slots) < 2 ^ Z.of_nat (length slots).
Proof.
  pose proof (bits_range (is_present <$> slots)) as H. unfold zlen in H. by rewrite length_fmap in H.
Qed.

Lemma mask_bytes_le n : 2 ^ Z.of_nat n <= 2 ^ (8 * Z.of_nat (mask_bytes n)).
Proof.
  apply Z.pow_le_mono_r; [lia|]. unfold mask_bytes.
  pose proof (Nat.div_mod_eq (n + 7) 8). pose proof (Nat.mod_upper_bound (n + 7) 8). lia.
Qed.

Lemma decode_complete :
  (forall t, wf_type t -> forall c depth path r es s,
     wire_cell depth t c -> rest r = enc_cell c ++ s ->
     dec_value t path depth (mkDecoder r es false) =
       Ok (mkDecoder (advance r (length (enc_cell c))) es false, Some c)) /\
  (forall door, wf_schema door -> forall v depth base r es s,
     wire_value depth door v -> rest r = enc_value v ++ s ->
     dec_body door (mkValue door (replicate (length (Schema_fields door)) None)) base depth
       (mkDecoder r es false) =
       Ok (mkDecoder (advance r (length (enc_value v))) es false, v)).
Proof.
  apply wf_type_schema_ind.
  - intros k [Hm Hl] c depth path r es s [Hd Hc] Hr. apply depth_ok in Hd.
    destruct k, c; try done; cbn [dec_value d_fatal d_r]; rewrite Hd; simpl in Hc, Hr.
    + by rewrite (codec_complete (Codec := zigzag_codec) r v s Hc Hr).
    + destruct Hc as [Hu Hcan]. rewrite Hcan in Hr.
      rewrite (codec_complete (Codec := f64_codec) r bits0 s (conj Hu Hcan) Hr).
      simpl. by rewrite Hcan.
    + destruct Hc as [Hutf Hlen]. rewrite <-app_assoc in Hr.
      destruct (dec_length_complete r es s0 s path "Text" Hr Hlen) as [E1 E2].
      unfold dec_text. rewrite E1, E2, Hutf. done.
    + unfold dec_bool. cbn [d_r].
      rewrite (codec_complete (Codec := u8_codec) r (if b then 1 else 0) s); [|by destruct b|].
      * rewrite length_le_bytes. by destruct b.
      * by rewrite le_bytes_S.
    + rewrite <-app_assoc in Hr.
      destruct (dec_length_complete r es b s path "Bytes" Hr Hc) as [E1 E2].
      unfold dec_bytes. rewrite E1, E2. done.
  - intros door Hdoor IH c depth path r es s [Hd Hc] Hr. apply depth_ok in Hd.
    destruct c as [| | | | |[v|]|]; try done. cbn [dec_value d_fatal]. rewrite Hd.
    cbn [Value_new mbind result_bind]. simpl enc_cell in *.
    by rewrite (IH v (depth + 1) path r es s Hc Hr).
  - intros el Hel IH c depth path r es s [Hd Hc] Hr. apply depth_ok in Hd.
    destruct c as [| | | | | |a]; try done. destruct Hc as [Hlen Ha].
    rewrite enc_cell_list in *. rewrite <-app_assoc in Hr.
    assert (in_u64 (zlen a)) as Hu by (by apply (zlen_in_u64 _ kMaxListCount)).
    destruct (codec_rest r_uvarint uvarint_bytes in_u64 r _ _ Hu Hr) as (r1 & E1 & R1 & ->).
    rewrite dec_value_list by done. cbv zeta. rewrite E1.
    rewrite gtb_false by done. rewrite to_nat_zlen.
    rewrite (dec_list_complete el path depth a) with (s := s).
    + by rewrite advance_advance, length_app.
    + intros c path' r' es' s' Hin Hr'. apply (IH c (depth + 1) path' r' es' s'); [|done].
      rewrite Forall_forall in Ha. by apply Ha.
    + done.
  - intros n ver fs cid Hwf Hfs v depth base r es s (Hd & Hsch & Hslots)%wire_value_slots Hr.
    simpl Schema_fields in *. destruct v as [sch slots]. simpl in Hsch, Hslots. subst sch.
    rewrite enc_value_eq, <-app_assoc in Hr. rewrite dec_body_eq by (by apply depth_ok). cbv zeta.
    unfold enc_mask in Hr. pose proof (Forall2_length _ _ _ Hslots) as Hlen. rewrite <-Hlen in Hr.
    rewrite (codec_complete (Codec := take_codec (mask_bytes (length fs))) r _ _
               (length_le_bytes _ _) Hr).
    pose proof (enc_mask_range slots) as Hrange. rewrite <-Hlen in Hrange.
    pose proof (mask_bytes_le (length fs)) as Hmb.
    rewrite (proj2 (mask_padding_le_bytes (length fs) _
      (conj (proj1 Hrange) (Z.lt_le_trans _ _ _ (proj2 Hrange) Hmb))) (proj2 Hrange)).
    rewrite (dec_fields_complete n ver cid fs _ (bits (is_present <$> slots)) base depth slots
               (wf_schema_nodup _ Hwf) eq_refl [] fs [] _ es s).
    + rewrite advance_advance, enc_value_eq. unfold enc_mask. rewrite <-Hlen.
      by rewrite length_app, !length_le_bytes.
    + done.
    + done.
    + done.
    + intros j. simpl length. rewrite Nat.add_0_l, bits_testbit, list_lookup_fmap. done.
    + clear -Hfs Hslots. induction Hslots as [|f o fs slots Ho _ IH]; [constructor|].
      apply Forall_cons in Hfs as [Hf Hfs]. constructor; [|by apply IH].
      intros c -> path r es s Hr. by apply Hf with s.
    + by rewrite rest_advance, Hr, drop_app_length.
Qed.

(** ** Totality and soundness: every input is decoded or refused

    A run either consumes exactly the encoding of an acceptable result and adds
    no error, or records one error and sets [fatal]. *)

Inductive outcome {B} (r : BinReader) (es : list Error) (good : bytes -> B -> Prop)
    (bad : B -> Prop) : result (BinaryDecoder * B) -> Prop :=
| decoded w s b :
    good w b -> rest r = w ++ s ->
    outcome r es good bad (Ok (mkDecoder (advance r (length w)) es false, b))
| refused r' e b :
    bad b -> outcome r es good bad (Ok (mkDecoder r' (es ++ [e]) true, b)).

Definition good_cell (depth : Z) (t : TypeRef) (w : bytes) (oc : option Cell) : Prop :=
  exists c, oc = Some c /\ w = enc_cell c /\ wire_cell depth t c.
Definition bad_cell (oc : option Cell) : Prop := oc = None.

Definition good_body (depth : Z) (door : Schema) (w : bytes) (v : Value) : Prop :=
  w = enc_value v /\ wire_value depth door v.

Lemma codec_outcome {A} (read : BinReader -> option (A * BinReader)) enc ok `{!Codec read enc ok}
    r x r' :
  read r = Some (x, r') ->
  ok x /\ r' = advance r (length (enc x)) /\ rest r = enc x ++ rest r'.
Proof. intros H. by apply codec_sound in H as (? & ? & ->). Qed.

Lemma dec_length_cases r es path type :
  (exists d e, dec_length (mkDecoder r es false) path type = (mkDecoder d (es ++ [e]) true, None)) \/
  (exists b s, zlen b <= kMaxFieldBytes /\ rest r = uvarint_bytes (zlen b) ++ b ++ s /\
     dec_length (mkDecoder r es false) path type =
       (mkDecoder (advance r (length (uvarint_bytes (zlen b)))) es false, Some (zlen b))).
Proof.
  unfold dec_length. cbn [d_r]. destruct (r_uvarint r) as [[len r']|] eqn:E; [|left; by do 2 eexists].
  apply (codec_outcome r_uvarint uvarint_bytes in_u64) in E as (Hu & -> & Hr).
  set (r1 := advance r (length (uvarint_bytes len))) in *.
  destruct ((len >? kMaxFieldBytes) || (len >? Z.of_nat (remaining r1))) eqn:E;
    [left; by do 2 eexists|right].
  apply orb_false_elim in E as [E1 E2]. rewrite Z.gtb_ltb, Z.ltb_ge in E1, E2.
  rewrite remaining_rest in E2. unfold in_u64 in Hu.
  assert (zlen (take (Z.to_nat len) (rest r1)) = len) as Hl
    by (unfold zlen; rewrite length_take; lia).
  exists (take (Z.to_nat len) (rest r1)), (drop (Z.to_nat len) (rest r1)).
  rewrite Hl. split; [done|]. split; [by rewrite take_drop|done].
Qed.

Lemma dec_prim_outcome k path depth r es :
  primitive k -> depth <= kMaxBinaryDepth ->
  outcome r es (good_cell depth (mkTypeRef k None None)) bad_cell
    (dec_value (mkTypeRef k None None) path depth (mkDecoder r es false)).
Proof.
  intros [Hm Hl] Hd. pose proof (depth_ok depth Hd) as Hdb.
  destruct k; try done; cbn [dec_value d_fatal d_r]; rewrite Hdb.
  - destruct (r_zigzag r) as [[v r']|] eqn:E; [|by apply refused].
    apply (codec_outcome r_zigzag zigzag_bytes in_i64) in E as (Hv & -> & Hr).
    apply decoded with (rest (advance r (length (zigzag_bytes v)))); [|done].
    exists (CInt v). done.
  - destruct (r_f64le r) as [[v r']|] eqn:E; [|by apply refused].
    apply (codec_outcome r_f64le (le_bytes 8) canonical_f64) in E as (Hv & -> & Hr).
    apply decoded with (rest (advance r (length (le_bytes 8 v)))); [|done].
    exists (CFloat v). simpl. destruct Hv as [? Hc]. rewrite Hc. done.
  - unfold dec_text.
    destruct (dec_length_cases r es path "Text") as [(d & e & ->)|(b & s & Hb & Hr & ->)];
      [by apply refused|].
    destruct (dec_length_complete r es b s path "Text" Hr Hb) as [_ ->].
    destruct (valid_utf8 b) eqn:Eu; [|by apply refused].
    apply decoded with s; [|by rewrite <-app_assoc]. exists (CText b). done.
  - unfold dec_bool. cbn [d_r]. destruct (r_u8 r) as [[b r']|] eqn:E; [|by apply refused].
    apply (codec_outcome r_u8 (le_bytes 1) (fun v => 0 <= v < 2 ^ 8)) in E as (Hv & -> & Hr).
    destruct (Z.gtb_spec b 1); [by apply refused|].
    apply decoded with (rest (advance r (length (le_bytes 1 b)))); [|done].
    exists (CBool (negb (b =? 0))). split; [done|]. split; [|done].
    assert (b = 0 \/ b = 1) as [-> | ->] by lia; by rewrite le_bytes_S.
  - unfold dec_bytes.
    destruct (dec_length_cases r es path "Bytes") as [(d & e & ->)|(b & s & Hb & Hr & ->)];
      [by apply refused|].
    destruct (dec_length_complete r es b s path "Bytes" Hr Hb) as [_ ->].
    apply decoded with s; [|by rewrite <-app_assoc]. exists (CBytes b). done.
Qed.

Lemma outcome_bind {B C} r es good bad good' bad' (m : result (BinaryDecoder * B))
    (f : BinaryDecoder * B -> result (BinaryDecoder * C)) :
  outcome r es good bad m ->
  (forall w s b, good w b -> rest r = w ++ s ->
     outcome r es good' bad' (f (mkDecoder (advance r (length w)) es false, b))) ->
  (forall r' e b, bad b -> outcome r es good' bad' (f (mkDecoder r' (es ++ [e]) true, b))) ->
  outcome r es good' bad' (m ≫= f).
Proof. intros H Hgood Hbad. destruct H; simpl; eauto. Qed.

Lemma decoded_nil {B} r es (good : bytes -> B -> Prop) bad b :
  good [] b -> outcome r es good bad (Ok (mkDecoder r es false, b)).
Proof. intros H. rewrite <-(advance_0 r) at 2. by apply (decoded r es good bad [] (rest r)). Qed.

Lemma outcome_impl {B} r es (good good' : bytes -> B -> Prop) bad res :
  outcome r es good bad res -> (forall w b, good w b -> good' w b) -> outcome r es good' bad res.
Proof. intros [w s b Hb Hr|] Himp; [|by apply refused]. apply decoded with s; auto. Qed.

(** A later stage of a run, seen from its start. *)
Lemma outcome_shift {B} r es (good good' : bytes -> B -> Prop) bad w s res :
  rest r = w ++ s -> outcome (advance r (length w)) es good bad res ->
  (forall w' b, good w' b -> good' (w ++ w') b) -> outcome r es good' bad res.
Proof.
  intros Hr H Hg. destruct H as [w' s' b Hb Hr'|]; [|by apply refused].
  rewrite rest_advance, Hr, drop_app_length in Hr'.
  rewrite advance_advance, <-length_app. apply decoded with s'; [by apply Hg|].
  by rewrite Hr, Hr', app_assoc.
Qed.

Lemma dec_list_outcome el path depth :
  (forall path r es, outcome r es (good_cell (depth + 1) el) bad_cell
     (dec_value el path (depth + 1) (mkDecoder r es false))) ->
  forall n k arr r es,
  outcome r es
    (fun w oc => exists a, oc = Some (CList (arr ++ a)) /\ w = enc_cells a /\ length a = n /\
       Forall (wire_cell (depth + 1) el) a) bad_cell
    (dec_list el path depth n k arr (mkDecoder r es false)).
Proof.
  intros Hel. induction n as [|n IH]; intros k arr r es.
  { apply decoded_nil. exists []. by rewrite app_nil_r. }
  cbn [dec_list d_fatal]. eapply outcome_bind; [apply Hel| |].
  - intros w s oc (c & -> & -> & Hc) Hr. eapply outcome_shift; [done|apply IH|].
    intros w' b (a & -> & -> & <- & Ha). exists (c :: a). rewrite <-app_assoc.
    split; [done|]. split; [done|]. split; [done|]. by constructor.
  - intros r' e oc ->. by apply refused.
Qed.

(** Once [fatal] the remaining fields are skipped. *)
Lemma dec_fields_fatal mask base depth i fields out r es :
  dec_fields mask base depth i fields out (mkDecoder r es true) = Ok (mkDecoder r es true, out).
Proof. by destruct fields. Qed.

Lemma dec_fields_outcome n ver cid (all : list Field) mask base depth :
  NoDup (fname <$> all) -> forall done fields,
  all = done ++ fields ->
  Forall (fun f => forall path r es, outcome r es (good_cell depth (ftype f)) bad_cell
     (dec_value (ftype f) path depth (mkDecoder r es false))) fields ->
  forall pre r es, length pre = length done ->
  outcome r es
    (fun w v => exists slots, v = mkValue (mkSchema n ver all cid) (pre ++ slots) /\
       w = enc_slots slots /\ Forall2 (wire_slot depth) fields slots /\
       is_present <$> slots =
         (fun j => mask_bit mask (length done + j)) <$> seq 0 (length fields))
    (fun _ => True)
    (dec_fields mask base depth (length done) fields
       (mkValue (mkSchema n ver all cid) (pre ++ replicate (length fields) None))
       (mkDecoder r es false)).
Proof.
  intros Hnd dn fields. revert dn. induction fields as [|f fields IH]; intros dn Hall HF pre r es Hpre.
  { apply decoded_nil. exists []. done. }
  apply Forall_cons in HF as [Hf HF]. cbn [dec_fields d_fatal].
  assert (forall o r', outcome r' es
    (fun w v => exists slots, v = mkValue (mkSchema n ver all cid) (pre ++ o :: slots) /\
       w = enc_slots slots /\ Forall2 (wire_slot depth) fields slots /\
       is_present <$> slots =
         (fun j => mask_bit mask (length dn + j)) <$> seq 1 (length fields)) (fun _ => True)
    (dec_fields mask base depth (S (length dn)) fields
      (mkValue (mkSchema n ver all cid) (pre ++ o :: replicate (length fields) None))
      (mkDecoder r' es false))) as Hnext.
  { intros o r'. specialize (IH (dn ++ [f])). rewrite length_app, Nat.add_1_r in IH.
    rewrite <-app_assoc in IH. specialize (IH Hall HF (pre ++ [o]) r' es).
    rewrite length_app, <-app_assoc, Nat.add_1_r, Hpre in IH. specialize (IH eq_refl).
    eapply outcome_impl; [exact IH|]. intros w v (slots & -> & -> & Hslots & Hbits). exists slots.
    rewrite <-app_assoc. split; [done|]. split; [done|]. split; [done|].
    rewrite Hbits, <-fmap_S_seq, <-list_fmap_compose.
    apply list_fmap_ext. intros. simpl. f_equal. lia. }
  destruct (mask_bit mask (length dn)) eqn:Eb.
  - eapply outcome_bind; [apply Hf| |].
    + intros w s oc (c & -> & -> & Hc) Hr. cbn iota.
      rewrite (Value_set_ok _ _ _ (length dn)); cbn [Value_schema Value_slots Schema_fields mbind result_bind].
      2: { apply field_index_lookup; [done|]. rewrite Hall. by apply list_lookup_middle. }
      rewrite <-Hpre at 2. rewrite insert_app_r_alt, Nat.sub_diag by lia.
      cbn [length replicate insert list_insert].
      eapply outcome_shift; [done|apply (Hnext (Some c))|].
      intros w' v (slots & -> & -> & Hslots & Hbits). exists (Some c :: slots).
      split; [done|]. split; [done|]. split; [by constructor|].
      rewrite fmap_cons, Hbits. cbn [length seq].
      by rewrite fmap_cons, Nat.add_0_r, Eb.
    + intros r' e oc ->. cbn iota. rewrite dec_fields_fatal. by apply refused.
  - cbn [length replicate]. eapply outcome_impl; [apply (Hnext None)|].
    intros w' v (slots & -> & -> & Hslots & Hbits). exists (None :: slots).
    split; [done|]. split; [done|]. split; [by constructor|].
    rewrite fmap_cons, Hbits. cbn [length seq].
      by rewrite fmap_cons, Nat.add_0_r, Eb.
Qed.

Lemma mask_of_bits mask n (slots : list (option Cell)) :
  length mask = mask_bytes n -> mask_padding mask n = false -> length slots = n ->
  is_present <$> slots = (fun j => mask_bit mask j) <$> seq 0 n ->
  mask = enc_mask slots.
Proof.
  intros Hlen Hpad Hn Hbits. unfold enc_mask. rewrite Hn.
  pose proof (le_bytes_le_value mask) as Hm. rewrite Hlen in Hm. symmetry in Hm.
  pose proof (le_value_range mask) as Hr. unfold zlen in Hr. rewrite Hlen in Hr.
  rewrite Hm in Hpad. apply mask_padding_le_bytes in Hpad; [|done].
  rewrite Hm at 1. f_equal. rewrite Hbits.
  rewrite <-(bits_of_testbits (le_value mask) n) at 1 by lia.
  f_equal. apply list_fmap_ext. intros i x Hx. apply lookup_seq in Hx as [-> Hi]. simpl.
  rewrite Hm at 2. rewrite mask_bit_le_bytes; [done|]. by apply mask_bytes_gt.
Qed.

Lemma decode_outcome :
  (forall t, wf_type t -> forall depth path r es,
     outcome r es (good_cell depth t) bad_cell (dec_value t path depth (mkDecoder r es false))) /\
  (forall door, wf_schema door -> forall depth base r es,
     outcome r es (good_body depth door) (fun _ => True)
       (dec_body door (mkValue door (replicate (length (Schema_fields door)) None)) base depth
          (mkDecoder r es false))).
Proof.
  assert (forall t depth path r es, kMaxBinaryDepth < depth ->
    outcome r es (good_cell depth t) bad_cell (dec_value t path depth (mkDecoder r es false))) as Hdeep.
  { intros [k m e] depth path r es Hd. cbn [dec_value d_fatal].
    destruct (Z.gtb_spec depth kMaxBinaryDepth); [by apply refused|lia]. }
  apply wf_type_schema_ind.
  - intros k Hk depth path r es. destruct (Z.le_gt_cases depth kMaxBinaryDepth); [|auto].
    by apply dec_prim_outcome.
  - intros s Hs IH depth path r es. destruct (Z.le_gt_cases depth kMaxBinaryDepth) as [Hd|]; [|auto].
    cbn [dec_value d_fatal]. rewrite depth_ok by done. cbn [Value_new mbind result_bind].
    eapply outcome_bind; [apply IH| |].
    + intros w s' v [-> Hv] Hr. apply decoded with s'; [|done]. exists (CMessage (Some v)). done.
    + intros r' e v _. by apply refused.
  - intros el Hel IH depth path r es. destruct (Z.le_gt_cases depth kMaxBinaryDepth) as [Hd|]; [|auto].
    rewrite dec_value_list by (by apply depth_ok). cbv zeta.
    rewrite type_label_ok by (by constructor). cbn [mbind result_bind].
    destruct (r_uvarint r) as [[count r']|] eqn:E; [|by apply refused].
    apply (codec_outcome r_uvarint uvarint_bytes in_u64) in E as (Hc & -> & Hr).
    destruct (Z.gtb_spec count kMaxListCount); [by apply refused|].
    eapply outcome_shift; [done|apply dec_list_outcome; intros; apply IH|].
    intros w oc (a & -> & -> & Hlen & Ha). exists (CList a). split; [done|].
    unfold in_u64 in Hc. assert (zlen a = count) as <- by (unfold zlen; lia).
    split; [by rewrite enc_cell_list|]. by split.
  - intros n ver fs cid Hwf Hfs depth base r es. simpl Schema_fields.
    destruct (Z.le_gt_cases depth kMaxBinaryDepth) as [Hd|Hd].
    2: { cbn [dec_body d_fatal]. destruct (Z.gtb_spec depth kMaxBinaryDepth); [by apply refused|lia]. }
    rewrite dec_body_eq by (by apply depth_ok). cbv zeta.
    destruct (r_take r _) as [[mask r']|] eqn:E; [|by apply refused].
    apply (codec_outcome (fun r => r_take r (mask_bytes (length fs))) _ _) in E as (Hm & -> & Hr).
    destruct (mask_padding mask (length fs)) eqn:Ep; [by apply refused|].
    eapply outcome_shift; [done| |].
    { apply (dec_fields_outcome n ver cid fs mask base depth (wf_schema_nodup _ Hwf) [] fs)
        with (pre := []); [done| |done]. eapply Forall_impl; [exact Hfs|]. auto. }
    intros w v (slots & -> & -> & Hslots & Hbits). split.
    + rewrite enc_value_eq. f_equal. apply (mask_of_bits mask (length fs)); try done.
      symmetry. by eapply Forall2_length.
    + apply wire_value_slots. done.
Qed.

(** ** Canonical values *)

Definition canon_slots (slots : list (option Cell)) : list (option Cell) :=
  map (fun o => match o with Some c => Some (canon_cell c) | None => None end) slots.

Lemma enc_mask_canon slots : enc_mask (canon_slots slots) = enc_mask slots.
Proof.
  unfold enc_mask, canon_slots. rewrite length_map. do 2 f_equal.
  induction slots as [|[c|] slots IH]; [done|..]; simpl; by f_equal.
Qed.

Lemma canonical_bits_twice b : canonical_bits (canonical_bits b) = canonical_bits b.
Proof. unfold canonical_bits. destruct (is_nan_bits b) eqn:E; [done|by rewrite E]. Qed.

(** A NaN's payload never reaches the wire. *)
Lemma enc_canon :
  (forall c, enc_cell (canon_cell c) = enc_cell c) /\
  (forall v, enc_value (canon_value v) = enc_value v).
Proof.
  apply cell_value_ind; try done.
  - intros b. simpl. by rewrite canonical_bits_twice.
  - intros a Ha. cbn [canon_cell]. rewrite !enc_cell_list. unfold zlen. rewrite length_map.
    f_equal. unfold enc_cells. induction Ha as [|c a Hc _ IH]; [done|].
    cbn [map fmap list_fmap concat]. by rewrite Hc, IH.
  - intros s slots Hs. cbn [canon_value]. rewrite !enc_value_eq.
    change (map _ slots) with (canon_slots slots). rewrite enc_mask_canon. f_equal.
    induction Hs as [|[c|] slots Ho _ IH]; [done|..]; unfold canon_slots; cbn [map];
      rewrite !enc_slots_cons; cbn [enc_slot].
    + by rewrite (Ho c eq_refl), <-IH.
    + by rewrite <-IH.
Qed.

(** A value that may cross the wire, up to NaN payloads. *)
Definition storable (door : Schema) (v : Value) : Prop := wire_value 0 door (canon_value v).

Lemma wire_encodes :
  (forall t, wf_type t -> forall depth c, wire_cell depth t (canon_cell c) -> encodes c t = true) /\
  (forall door, wf_schema door -> forall depth v,
     wire_value depth door (canon_value v) -> encodes_value v = true).
Proof.
  apply wf_type_schema_ind.
  - intros k [Hm Hl] depth c [_ Hc]. destruct k, c as [| | | | |[]|]; try done.
  - intros s Hs IH depth c [_ Hc]. destruct c as [| | | | |[v|]|]; try done. simpl in *. eauto.
  - intros el Hel IH depth c [_ Hc]. destruct c as [| | | | |[]|a]; try done.
    destruct Hc as [_ Ha]. simpl. induction a as [|c a IHa]; [done|].
    cbn [map] in Ha. apply Forall_cons in Ha as [Hc Ha]. rewrite (IH _ _ Hc). by apply IHa.
  - intros n ver fs cid Hwf Hfs depth [s slots] (_ & Hs & Hslots)%wire_value_slots.
    simpl in Hs. subst s. rewrite encodes_value_eq. cbn [Schema_fields canon_value Value_slots] in *.
    clear Hwf. revert slots Hslots. induction Hfs as [|f fs Hf _ IH]; intros [|o slots] Hslots;
      [done|done|done|].
    cbn [map] in Hslots. apply Forall2_cons in Hslots as [Ho Hslots]. cbn [encodes_slots].
    rewrite (IH slots Hslots), andb_true_r. destruct o as [c|]; [|done]. by eapply Hf.
Qed.

Lemma wire_value_schema depth door v : wire_value depth door (canon_value v) -> Value_schema v = door.
Proof. destruct v. by intros (_ & ? & _)%wire_value_slots. Qed.

(** ** Properties *)

(** For every value the C++ program can build, [bin_encode_body] appends
    exactly the pure encoding of the value when all its cells, at every depth,
    have the kinds its schema declares, and otherwise throws
    [std::invalid_argument]; it never follows a null pointer. *)
Theorem bin_encode_refines v out :
  built_value v ->
  if encodes_value v then bin_encode_body v out = Ok (out ++ enc_value v)
  else exists what, bin_encode_body v out = Throw (invalid_argument what).
Proof. intros Hv. exact (proj2 bin_encode_writes v out Hv). Qed.

(** The decoder's run on a door, as [admit_against] and nested messages start it. *)
Definition decode_at (door : Schema) (base : bytes) (depth : Z) (r : BinReader) (es : list Error)
  : result (BinaryDecoder * Value) :=
  candidate ← Value_new (Some door); dec_body door candidate base depth (mkDecoder r es false).

(** Decoding is canonical.  At a constructed door the decoder finishes
    without [fatal] on a value exactly when that value may cross the wire there
    and the input starts with its one encoding; then it has consumed that
    encoding only and recorded no error. *)
Theorem native_decode_canonical door base depth r es d v :
  wf_schema door ->
  decode_at door base depth r es = Ok (d, v) /\ d_fatal d = false <->
  wire_value depth door v /\ rest r = enc_value v ++ rest (d_r d) /\
    d = mkDecoder (advance r (length (enc_value v))) es false.
Proof.
  intros Hd. split.
  - intros [H Hf]. pose proof (proj2 decode_outcome door Hd depth base r es) as Ho.
    change (decode_at door base depth r es) with
      (dec_body door (mkValue door (replicate (length (Schema_fields door)) None)) base depth
         (mkDecoder r es false)) in H.
    rewrite H in Ho. inversion Ho as [w s b [-> Hw] Hr Heq|]; subst; [|done].
    split; [done|]. split; [|done]. simpl. by rewrite rest_advance, Hr, drop_app_length.
  - intros (Hw & Hr & ->). split; [|done]. simpl in Hr.
    exact (proj2 decode_complete door Hd v depth base r es _ Hw Hr).
Qed.

(** Decoding is total.  On every input, hostile or not, the decoder of a
    constructed door neither throws nor follows a null pointer: either it
    finishes without an error, or it records exactly one error and stops. *)
Theorem native_decode_total door base depth r es :
  wf_schema door ->
  exists d v, decode_at door base depth r es = Ok (d, v) /\
    (d_fatal d = false /\ d_errs d = es \/ d_fatal d = true /\ exists e, d_errs d = es ++ [e]).
Proof.
  intros Hd. pose proof (proj2 decode_outcome door Hd depth base r es) as Ho.
  change (decode_at door base depth r es) with
    (dec_body door (mkValue door (replicate (length (Schema_fields door)) None)) base depth
       (mkDecoder r es false)).
  inversion Ho; do 2 eexists; (split; [done|]); simpl; eauto.
Qed.

(** The native round trip.  A value that may be stored at its schema is
    encoded without an exception, and decoding the bytes, whatever follows them,
    returns the value with its NaNs made canonical and leaves what follows. *)
Theorem native_roundtrip v s es :
  built_value v -> storable (Value_schema v) v ->
  exists w d, bin_encode_body v [] = Ok w /\
    decode_at (Value_schema v) [] 0 (mkReader (w ++ s) 0) es = Ok (d, canon_value v) /\
    d_fatal d = false /\ d_errs d = es /\ rest (d_r d) = s.
Proof.
  intros Hb Hs. assert (wf_schema (Value_schema v)) as Hd by (destruct v; by destruct Hb).
  pose proof (bin_encode_refines v [] Hb) as He.
  rewrite (proj2 wire_encodes _ Hd 0 v Hs) in He.
  exists (enc_value v), (mkDecoder (advance (mkReader (enc_value v ++ s) 0)
    (length (enc_value (canon_value v)))) es false). split; [done|].
  assert (rest (mkReader (enc_value v ++ s) 0) = enc_value (canon_value v) ++ s) as Hr
    by (by rewrite (proj2 enc_canon)).
  split; [exact (proj2 decode_complete _ Hd _ 0 [] _ es s Hs Hr)|].
  split; [done|]. split; [done|]. simpl. by rewrite rest_advance, Hr, drop_app_length.
Qed.

(** ** Witnesses *)

Lemma ami_built : built_value ami.
Proof.
  split; [exact player_wf|]. split; [done|]. split; [|split; [|done]].
  - unfold built_cell, in_i64. lia.
  - vm_compute. done.
Qed.

Lemma ami_storable : storable player ami.
Proof.
  unfold storable. vm_compute canon_value. apply wire_value_slots.
  split; [unfold kMaxBinaryDepth; lia|]. split; [done|].
  constructor; [|constructor; [|constructor]]; (split; [unfold kMaxBinaryDepth; lia|]); simpl.
  - unfold in_i64. lia.
  - split; [done|]. vm_compute. discriminate.
Qed.

Lemma bin_encode_refines_witness :
  bin_encode_body ami (str "x") = Ok (str "x" ++ [chr 3; chr 60; chr 3] ++ str "Ami").
Proof. exact (bin_encode_refines ami "x" ami_built). Defined.

Lemma native_decode_total_witness :
  exists d v, decode_at player [] 0 (mkReader [chr 3; chr 128] 0) [] = Ok (d, v) /\
    d_fatal d = true.
Proof.
  destruct (native_decode_total player [] 0 (mkReader [chr 3; chr 128] 0) [] player_wf)
    as (d & v & H & _).
  exists d, v. split; [exact H|]. vm_compute in H. injection H as <- _. reflexivity.
Defined.

Lemma native_decode_canonical_witness :
  exists d, decode_at player [] 0 (mkReader ([chr 3; chr 60; chr 3] ++ str "Ami!") 0) [] = Ok (d, ami)
    /\ d_fatal d = false.
Proof.
  eexists. apply native_decode_canonical; [exact player_wf|].
  split; [exact ami_storable|]. split; [|reflexivity]. reflexivity.
Defined.

Lemma native_roundtrip_witness :
  exists w d, bin_encode_body ami [] = Ok w /\
    decode_at player [] 0 (mkReader (w ++ str "!") 0) [] = Ok (d, ami) /\ rest (d_r d) = "!".
Proof.
  destruct (native_roundtrip ami "!" [] ami_built ami_storable) as (w & d & H1 & H2 & _ & _ & H3).
  exists w, d. split; [exact H1|]. split; [exact H2|exact H3].
Defined.
