(* ===== verification/Json.v ===== *)
(** * The JSON reader and writer

    [src/detail/json.hpp] and [src/detail/json.cpp].  The reader's cursor [i_]
    is kept as the unread suffix of the input, so [s_[i_]] is its head and
    [i_ >= n_] its emptiness.  [JsonValue] is the tagged union the C++ struct
    encodes with its [type] field.

    The mutual recursion of [parse_value], [parse_object] and [parse_array] runs
    on fuel, twice the input's length and one; [parse_never_starves] shows that
    this is always enough.  Shown: the reader is total and refuses with a reason,
    the trees it accepts respect the nesting cap and have distinct keys, and it
    inverts the writer on every tree within the cap. *)

From S2P Require Import Prelude Utf8.

(** ** Trees *)

Inductive JsonValue : Type :=
| JNull
| JBool (boolean : bool)
| JNumber (text : bytes)
| JString (text : bytes)
| JArray (items : list JsonValue)
| JObject (members : list (bytes * JsonValue)).

(** [JsonValue::find] on the members. *)
Fixpoint find_member (members : list (bytes * JsonValue)) (key : bytes) : option JsonValue :=
  match members with
  | [] => None
  | m :: members => if bool_decide (m.1 = key) then Some m.2 else find_member members key
  end.

Definition JsonValue_find (v : JsonValue) (key : bytes) : option JsonValue :=
  match v with JObject members => find_member members key | _ => None end.

(** ** Reader *)

(** The outcome of a parsing function: its value and the unread suffix, or the
    reason it stores in [err_]. *)
Inductive parsed (A : Type) : Type :=
| Parsed (a : A) (s : bytes)
| Err (why : bytes)
| NoFuel.
Arguments Parsed {A} a s.
Arguments Err {A} why.
Arguments NoFuel {A}.

Definition parsed_bind {A B} (m : parsed A) (k : A -> bytes -> parsed B) : parsed B :=
  match m with Parsed a s => k a s | Err why => Err why | NoFuel => NoFuel end.
Notation "'let!' ( a , s ) := m 'in' k" := (parsed_bind m (fun a s => k))
  (at level 10, a binder, s binder, k at level 200).

Definition kQuote : ascii := chr 34.
Definition kBackslash : ascii := chr 92.

Definition is_digit (c : ascii) : bool := (48 <=? octet c) && (octet c <=? 57).

Definition is_ws (c : ascii) : bool :=
  (octet c =? 32) || (octet c =? 9) || (octet c =? 10) || (octet c =? 13).

Fixpoint skip_ws (s : bytes) : bytes :=
  match s with
  | c :: s' => if is_ws c then skip_ws s' else s
  | [] => []
  end.

Definition hex_digit (c : ascii) : option Z :=
  let v := octet c in
  if (48 <=? v) && (v <=? 57) then Some (v - 48)
  else if (97 <=? v) && (v <=? 102) then Some (v - 97 + 10)
  else if (65 <=? v) && (v <=? 70) then Some (v - 65 + 10)
  else None.

(** The [k < 4] loop of [parse_hex4]. *)
Fixpoint hex_loop (k : nat) (cp : Z) (s : bytes) : option Z :=
  match k, s with
  | S k, c :: s =>
      match hex_digit c with
      | Some d => hex_loop k (Z.lor (Z.shiftl cp 4) d) s
      | None => None
      end
  | _, _ => Some cp
  end.

Definition parse_hex4 (s : bytes) : parsed Z :=
  if (length s <? 4)%nat then Err "truncated \u escape"
  else match hex_loop 4 0 s with
       | Some cp => Parsed cp (drop 4 s)
       | None => Err "invalid \u escape"
       end.

(** The [case 'u'] of [parse_string]: a scalar value, or a surrogate pair. *)
Definition parse_unicode (s : bytes) : parsed bytes :=
  let! (cp, s) := parse_hex4 s in
  if (0xD800 <=? cp) && (cp <=? 0xDBFF)
  then
    match s with
    | b :: u :: s =>
        if bool_decide (b = kBackslash) && bool_decide (u = "u"%char)
        then
          let! (lo, s) := parse_hex4 s in
          if (lo <? 0xDC00) || (lo >? 0xDFFF) then Err "invalid low surrogate"
          else Parsed (encode_utf8 (0x10000 + Z.shiftl (cp - 0xD800) 10 + (lo - 0xDC00))) s
        else Err "unpaired high surrogate"
    | _ => Err "unpaired high surrogate"
    end
  else if (0xDC00 <=? cp) && (cp <=? 0xDFFF) then Err "unexpected low surrogate"
  else Parsed (encode_utf8 cp) s.

(** The one-character escapes. *)
Definition simple_escape (e : ascii) : option ascii :=
  let v := octet e in
  if v =? 34 then Some (chr 34)
  else if v =? 92 then Some (chr 92)
  else if v =? 47 then Some (chr 47)
  else if v =? 98 then Some (chr 8)
  else if v =? 102 then Some (chr 12)
  else if v =? 110 then Some (chr 10)
  else if v =? 114 then Some (chr 13)
  else if v =? 116 then Some (chr 9)
  else None.

Fixpoint string_loop (fuel : nat) (out : bytes) (s : bytes) : parsed bytes :=
  match fuel with
  | O => NoFuel
  | S fuel =>
      match s with
      | [] => Err "unterminated string"
      | c :: s =>
          if bool_decide (c = kQuote) then Parsed out s
          else if bool_decide (c = kBackslash)
          then
            match s with
            | [] => Err "unterminated escape"
            | e :: s =>
                match simple_escape e with
                | Some x => string_loop fuel (out ++ [x]) s
                | None =>
                    if bool_decide (e = "u"%char)
                    then let! (w, s) := parse_unicode s in string_loop fuel (out ++ w) s
                    else Err "invalid escape"
                end
            end
          else if octet c <? 0x20 then Err "control character in string"
          else string_loop fuel (out ++ [c]) s
      end
  end.

(** [parse_string] after its opening quote. *)
Definition parse_string (s : bytes) : parsed bytes := string_loop (S (length s)) [] s.

Fixpoint skip_digits (s : bytes) : bytes :=
  match s with
  | c :: s' => if is_digit c then skip_digits s' else s
  | [] => []
  end.

(** A run of at least one digit. *)
Definition digits1 (s : bytes) (why : bytes) : parsed unit :=
  match s with
  | c :: _ => if is_digit c then Parsed tt (skip_digits s) else Err why
  | [] => Err why
  end.

Definition number_int (s : bytes) : parsed unit :=
  match s with
  | c :: s' => if octet c =? 48 then Parsed tt s' else digits1 s "malformed number"
  | [] => Err "malformed number"
  end.

Definition number_frac (s : bytes) : parsed unit :=
  match s with
  | c :: s' => if octet c =? 46 then digits1 s' "malformed fraction" else Parsed tt s
  | [] => Parsed tt s
  end.

Definition skip_sign (s : bytes) : bytes :=
  match s with
  | c :: s' => if (octet c =? 43) || (octet c =? 45) then s' else s
  | [] => []
  end.

Definition number_exp (s : bytes) : parsed unit :=
  match s with
  | c :: s' =>
      if (octet c =? 101) || (octet c =? 69) then digits1 (skip_sign s') "malformed exponent"
      else Parsed tt s
  | [] => Parsed tt s
  end.

Definition parse_number (s : bytes) : parsed JsonValue :=
  let s0 := match s with
            | c :: s' => if octet c =? 45 then s' else s
            | [] => s
            end in
  let! (_u, s1) := number_int s0 in
  let! (_u, s2) := number_frac s1 in
  let! (_u, s3) := number_exp s2 in
  Parsed (JNumber (take (length s - length s3) s)) s3.

Definition match_literal (lit : bytes) (s : bytes) : parsed unit :=
  if bool_decide (take (length lit) s = lit) then Parsed tt (drop (length lit) s)
  else Err "invalid literal".

Definition parse_bool (s : bytes) : parsed JsonValue :=
  match s with
  | c :: _ =>
      if bool_decide (c = "t"%char)
      then let! (_u, s) := match_literal "true" s in Parsed (JBool true) s
      else let! (_u, s) := match_literal "false" s in Parsed (JBool false) s
  | [] => let! (_u, s) := match_literal "false" s in Parsed (JBool false) s
  end.

Definition parse_null (s : bytes) : parsed JsonValue :=
  let! (_u, s) := match_literal "null" s in Parsed JNull s.

Section parser.
Context (max_depth : Z).

Definition enter (depth : Z) : option bytes :=
  if depth + 1 >? max_depth then Some (str "maximum nesting depth exceeded") else None.

Fixpoint parse_value (fuel : nat) (depth : Z) (s : bytes) : parsed JsonValue :=
  match fuel with
  | O => NoFuel
  | S fuel =>
      match skip_ws s with
      | [] => Err "unexpected end of input"
      | (c :: s1) as s0 =>
          if bool_decide (c = "{"%char)
          then
            match enter depth with
            | Some why => Err why
            | None =>
                match skip_ws s1 with
                | (d :: s2) as s1 =>
                    if bool_decide (d = "}"%char) then Parsed (JObject []) s2
                    else object_loop fuel depth [] s1
                | [] => object_loop fuel depth [] []
                end
            end
          else if bool_decide (c = "["%char)
          then
            match enter depth with
            | Some why => Err why
            | None =>
                match skip_ws s1 with
                | (d :: s2) as s1 =>
                    if bool_decide (d = "]"%char) then Parsed (JArray []) s2
                    else array_loop fuel depth [] s1
                | [] => array_loop fuel depth [] []
                end
            end
          else if bool_decide (c = kQuote)
          then let! (t, s) := parse_string s1 in Parsed (JString t) s
          else if bool_decide (c = "t"%char) || bool_decide (c = "f"%char) then parse_bool s0
          else if bool_decide (c = "n"%char) then parse_null s0
          else if bool_decide (c = "-"%char) || is_digit c then parse_number s0
          else Err "unexpected character"
      end
  end
with object_loop (fuel : nat) (depth : Z) (members : list (bytes * JsonValue)) (s : bytes)
    : parsed JsonValue :=
  match fuel with
  | O => NoFuel
  | S fuel =>
      match skip_ws s with
      | c :: s =>
          if bool_decide (c = kQuote)
          then
            let! (key, s) := parse_string s in
            if bool_decide (key ∈ members.*1) then Err "duplicate object key"
            else
              match skip_ws s with
              | c :: s =>
                  if bool_decide (c = ":"%char)
                  then
                    let! (val, s) := parse_value fuel (depth + 1) s in
                    match skip_ws s with
                    | c :: s =>
                        if bool_decide (c = ","%char)
                        then object_loop fuel depth (members ++ [(key, val)]) s
                        else if bool_decide (c = "}"%char)
                        then Parsed (JObject (members ++ [(key, val)])) s
                        else Err "expected ',' or '}' in object"
                    | [] => Err "expected ',' or '}' in object"
                    end
                  else Err "expected ':' in object"
              | [] => Err "expected ':' in object"
              end
          else Err "expected string key in object"
      | [] => Err "expected string key in object"
      end
  end
with array_loop (fuel : nat) (depth : Z) (items : list JsonValue) (s : bytes)
    : parsed JsonValue :=
  match fuel with
  | O => NoFuel
  | S fuel =>
      let! (val, s) := parse_value fuel (depth + 1) s in
      match skip_ws s with
      | c :: s =>
          if bool_decide (c = ","%char) then array_loop fuel depth (items ++ [val]) s
          else if bool_decide (c = "]"%char) then Parsed (JArray (items ++ [val])) s
          else Err "expected ',' or ']' in array"
      | [] => Err "expected ',' or ']' in array"
      end
  end.

(** [Parser::run], up to the reason. *)
Definition run (input : bytes) : parsed JsonValue :=
  let s := skip_ws input in
  let! (v, s) := parse_value (2 * length s + 1) 0 s in
  match skip_ws s with
  | [] => Parsed v []
  | _ => Err "trailing characters after JSON value"
  end.
End parser.

Record JsonParse : Type := mkJsonParse { jp_ok : bool; jp_value : JsonValue; jp_error : bytes }.

(** [fail()]: the recorded reason, or a default one.  [run] never starves, so
    the last case does not arise ([parse_json_reason]). *)
Definition parse_json (input : bytes) (max_depth : Z) : JsonParse :=
  match run max_depth input with
  | Parsed v _ => mkJsonParse true v []
  | Err why => mkJsonParse false JNull (if bool_decide (why = []) then str "malformed JSON" else why)
  | NoFuel => mkJsonParse false JNull []
  end.

(** The default argument of [max_depth]. *)
Definition kMaxJsonDepth : Z := 64.

(** ** Writer *)

Definition hex_char (d : Z) : ascii := if d <? 10 then chr (48 + d) else chr (97 + (d - 10)).

(** What [json_quote] appends for one character. *)
Definition quote_char (ch : ascii) : bytes :=
  let c := octet ch in
  if c =? 34 then [kBackslash; chr 34]
  else if c =? 92 then [kBackslash; chr 92]
  else if c =? 8 then [kBackslash; chr 98]
  else if c =? 12 then [kBackslash; chr 102]
  else if c =? 10 then [kBackslash; chr 110]
  else if c =? 13 then [kBackslash; chr 114]
  else if c =? 9 then [kBackslash; chr 116]
  else if c <? 0x20
  then [kBackslash; "u"%char; "0"%char; "0"%char;
        hex_char (Z.land (Z.shiftr c 4) 0xF); hex_char (Z.land c 0xF)]
  else [ch].

Definition json_quote (s : bytes) (out : bytes) : bytes :=
  fold_left (fun out ch => out ++ quote_char ch) s (out ++ [kQuote]) ++ [kQuote].

(** ** The reader never starves, always advances and always gives a reason *)

(** A run over an input of length [n] that advances by at least one, or refuses
    with a non-empty reason. *)
Definition advances {A} (n : nat) (m : parsed A) : Prop :=
  match m with
  | Parsed _ s => (length s < n)%nat
  | Err why => why <> []
  | NoFuel => False
  end.

Lemma advances_bind {A B} n n' (m : parsed A) (k : A -> bytes -> parsed B) :
  advances n m -> (forall a s, (length s < n)%nat -> advances n' (k a s)) ->
  advances n' (parsed_bind m k).
Proof. destruct m; simpl; auto; by intros []. Qed.

Lemma advances_mono {A} n n' (m : parsed A) : (n <= n')%nat -> advances n m -> advances n' m.
Proof. destruct m; simpl; [lia|done|done]. Qed.

Lemma skip_ws_length s : (length (skip_ws s) <= length s)%nat.
Proof. induction s as [|c s IH]; simpl; [done|]. destruct (is_ws c); simpl; lia. Qed.

Lemma skip_digits_length s : (length (skip_digits s) <= length s)%nat.
Proof. induction s as [|c s IH]; simpl; [done|]. destruct (is_digit c); simpl; lia. Qed.

Lemma skip_sign_length s : (length (skip_sign s) <= length s)%nat.
Proof. destruct s as [|c s]; simpl; [done|]. case_match; simpl; lia. Qed.

Lemma parse_hex4_advances s n : (length s <= n)%nat -> advances n (parse_hex4 s).
Proof.
  intros Hn. unfold parse_hex4. destruct (Nat.ltb_spec (length s) 4); [done|].
  destruct (hex_loop 4 0 s); [|done]. simpl. rewrite length_drop. lia.
Qed.

Lemma parse_unicode_advances s n : (length s <= n)%nat -> advances n (parse_unicode s).
Proof.
  intros Hn. unfold parse_unicode. eapply advances_bind; [by apply (parse_hex4_advances s n)|].
  intros cp s1 Hs1. case_match.
  - destruct s1 as [|b [|u s1]]; [done|done|]. case_match; [|done].
    eapply advances_bind; [apply (parse_hex4_advances s1 n); simpl in Hs1; lia|].
    intros lo s2 Hs2. by case_match.
  - by case_match.
Qed.

Lemma string_loop_advances fuel out s :
  (length s < fuel)%nat -> advances (length s) (string_loop fuel out s).
Proof.
  revert out s. induction fuel as [|fuel IH]; intros out s Hf; [lia|]. simpl.
  destruct s as [|c s]; [done|]. simpl in Hf.
  case_bool_decide; [simpl; lia|]. case_bool_decide.
  - destruct s as [|e s]; [done|]. simpl in Hf. destruct (simple_escape e).
    + eapply advances_mono; [|apply IH; lia]. simpl. lia.
    + case_bool_decide; [|done].
      eapply advances_bind; [by apply (parse_unicode_advances s (length s))|].
      intros w s1 Hs1. eapply advances_mono; [|apply IH; lia]. simpl. lia.
  - destruct (octet c <? 0x20); [done|]. eapply advances_mono; [|apply IH; lia]. simpl. lia.
Qed.

Lemma parse_string_advances s : advances (length s) (parse_string s).
Proof. apply string_loop_advances. lia. Qed.

Lemma digits1_advances s why : why <> [] -> advances (length s) (digits1 s why).
Proof.
  intros Hw. destruct s as [|c s]; simpl; [done|]. destruct (is_digit c); [|done].
  simpl. pose proof (skip_digits_length s). lia.
Qed.

Lemma parse_number_advances s : advances (length s) (parse_number s).
Proof.
  unfold parse_number.
  set (s0 := match s with c :: s' => if octet c =? 45 then s' else s | [] => s end).
  assert (length s0 <= length s)%nat as H0 by (subst s0; destruct s; simpl; [done|case_match; simpl; lia]).
  eapply (advances_bind (length s)).
  { unfold number_int. destruct s0 as [|c s0'] eqn:E; [done|].
    case_match; [simpl in *; lia|]. eapply advances_mono; [|by apply digits1_advances]. done. }
  intros _ s1 H1. eapply (advances_bind (length s)).
  { unfold number_frac. destruct s1 as [|c s1]; [done|]. case_match; [|simpl in *; lia].
    eapply advances_mono; [|by apply digits1_advances]. simpl in H1. lia. }
  intros _ s2 H2. eapply (advances_bind (length s)).
  { unfold number_exp. destruct s2 as [|c s2]; [done|]. case_match; [|simpl in *; lia].
    eapply advances_mono; [|by apply digits1_advances].
    pose proof (skip_sign_length s2). simpl in H2. lia. }
  intros _ s3 H3. done.
Qed.

Lemma match_literal_advances lit s :
  lit <> [] -> advances (length s) (match_literal lit s).
Proof.
  intros Hlit. unfold match_literal. case_bool_decide as E; [|done]. simpl.
  apply (f_equal length) in E. rewrite length_take in E. rewrite length_drop.
  destruct lit; [done|]. simpl length in *. lia.
Qed.

Lemma literal_value_advances lit v s :
  lit <> [] -> advances (length s) (let! (_u, s) := match_literal lit s in Parsed (v : JsonValue) s).
Proof. intros H. eapply advances_bind; [by apply match_literal_advances|]. done. Qed.

Section parser_facts.
Context (max_depth : Z).

Lemma parse_advances fuel :
  (forall depth s, (2 * length s < fuel)%nat ->
     advances (length s) (parse_value max_depth fuel depth s)) /\
  (forall depth members s, (2 * length s + 1 < fuel)%nat ->
     advances (length s) (object_loop max_depth fuel depth members s)) /\
  (forall depth items s, (2 * length s + 1 < fuel)%nat ->
     advances (length s) (array_loop max_depth fuel depth items s)).
Proof.
  induction fuel as [|fuel (IHv & IHo & IHa)]; [repeat split; lia|].
  split; [|split]; intros depth.
  - intros s Hf. cbn [parse_value]. pose proof (skip_ws_length s) as Hws.
    destruct (skip_ws s) as [|c s1] eqn:E; [done|]. simpl in Hws.
    apply (advances_mono (S (length s1))); [done|].
    case_bool_decide; [|case_bool_decide; [|case_bool_decide]].
    + destruct (enter max_depth depth) eqn:Ee; [unfold enter in Ee; case_match; by inv_eqs|].
      pose proof (skip_ws_length s1). destruct (skip_ws s1) as [|d s2]; simpl in *.
      * eapply advances_mono; [|apply IHo; simpl; lia]. simpl. lia.
      * case_bool_decide; [simpl; lia|].
        eapply advances_mono; [|apply IHo; simpl; lia]. simpl. lia.
    + destruct (enter max_depth depth) eqn:Ee; [unfold enter in Ee; case_match; by inv_eqs|].
      pose proof (skip_ws_length s1). destruct (skip_ws s1) as [|d s2]; simpl in *.
      * eapply advances_mono; [|apply IHa; simpl; lia]. simpl. lia.
      * case_bool_decide; [simpl; lia|].
        eapply advances_mono; [|apply IHa; simpl; lia]. simpl. lia.
    + eapply advances_bind; [apply parse_string_advances|]. simpl. lia.
    + change (S (length s1)) with (length (c :: s1)).
      case_match; [|case_match; [|case_match; [|done]]].
      * unfold parse_bool. case_bool_decide; by apply literal_value_advances.
      * by apply literal_value_advances.
      * apply parse_number_advances.
  - intros members s Hf. cbn [object_loop]. pose proof (skip_ws_length s) as Hws.
    destruct (skip_ws s) as [|c s1]; [done|]. simpl in Hws. case_bool_decide; [|done].
    eapply advances_bind; [apply parse_string_advances|]. intros key s2 H2.
    case_bool_decide; [done|]. pose proof (skip_ws_length s2).
    destruct (skip_ws s2) as [|c2 s3]; [done|]. simpl in *. case_bool_decide; [|done].
    eapply (advances_bind (length s3)); [apply IHv; lia|]. intros val s4 H4.
    pose proof (skip_ws_length s4). destruct (skip_ws s4) as [|c4 s5]; [done|]. simpl in *.
    case_bool_decide; [|case_bool_decide; [simpl; lia|done]].
    eapply advances_mono; [|apply IHo; lia]. lia.
  - intros items s Hf. cbn [array_loop].
    eapply (advances_bind (length s)); [apply IHv; lia|]. intros val s4 H4.
    pose proof (skip_ws_length s4). destruct (skip_ws s4) as [|c4 s5]; [done|]. simpl in *.
    case_bool_decide; [|case_bool_decide; [simpl; lia|done]].
    eapply advances_mono; [|apply IHa; lia]. lia.
Qed.

Lemma run_advances input : match run max_depth input with
  | Parsed _ s => s = [] | Err why => why <> [] | NoFuel => False end.
Proof.
  unfold run. set (s := skip_ws input).
  pose proof (proj1 (parse_advances (2 * length s + 1)) 0 s ltac:(lia)) as H.
  destruct (parse_value max_depth _ 0 s) as [v s'| |]; simpl in *; [|done|done].
  by destruct (skip_ws s').
Qed.
End parser_facts.

(** ** Numbers: the reader's scan is the JSON grammar *)

Definition digits (d : bytes) : Prop := d <> [] /\ Forall (fun c => is_digit c = true) d.

(** [-? (0 | [1-9][0-9]* ) (. [0-9]+)? ([eE] [+-]? [0-9]+)?] *)
Definition number_grammar (t : bytes) : Prop :=
  exists sg i f e, t = sg ++ i ++ f ++ e /\
    (sg = [] \/ sg = str "-") /\
    (i = str "0" \/ digits i /\ forall w, i <> "0"%char :: w) /\
    (f = [] \/ exists d, f = str "." ++ d /\ digits d) /\
    (e = [] \/ exists x g d, e = x :: g ++ d /\ (x = "e"%char \/ x = "E"%char) /\
       (g = [] \/ g = str "+" \/ g = str "-") /\ digits d).

(** No character that would prolong a number. *)
Definition number_end (s : bytes) : Prop :=
  match s with
  | [] => True
  | c :: _ => is_digit c = false /\ octet c <> 46 /\ octet c <> 101 /\ octet c <> 69
  end.

Definition no_digit (s : bytes) : Prop :=
  match s with [] => True | c :: _ => is_digit c = false end.

Lemma number_end_no_digit s : number_end s -> no_digit s.
Proof. destruct s; [done|]. by intros []. Qed.

Lemma octet_eqb c d : (octet c =? octet d) = bool_decide (c = d).
Proof.
  case_bool_decide as E; [subst; apply Z.eqb_refl|]. apply Z.eqb_neq. intros H. by apply E, octet_inj.
Qed.

Lemma skip_digits_app d s :
  Forall (fun c => is_digit c = true) d -> no_digit s -> skip_digits (d ++ s) = s.
Proof.
  intros Hd Hs. induction Hd as [|c d Hc _ IH]; simpl.
  - destruct s as [|c s]; [done|]. simpl in *. by rewrite Hs.
  - by rewrite Hc.
Qed.

Lemma digits1_spec d s why : digits d -> no_digit s -> digits1 (d ++ s) why = Parsed tt s.
Proof.
  intros [Hne Hd] Hs. destruct d as [|c d]; [done|]. pose proof Hd as [Hc _]%Forall_cons.
  unfold digits1. cbn [app]. rewrite Hc. f_equal. by apply (skip_digits_app (c :: d)).
Qed.

Lemma skip_digits_split s :
  exists d, s = d ++ skip_digits s /\ Forall (fun c => is_digit c = true) d /\
    no_digit (skip_digits s).
Proof.
  induction s as [|c s (d & E & Hd & Hn)]; simpl; [by exists []|].
  destruct (is_digit c) eqn:Ec; [|by exists []].
  exists (c :: d). simpl. split; [by f_equal|]. split; [by constructor|done].
Qed.

Lemma digits1_inv s why u s' :
  digits1 s why = Parsed u s' -> exists d, s = d ++ s' /\ digits d /\ no_digit s'.
Proof.
  unfold digits1. destruct s as [|c s]; [done|]. destruct (is_digit c) eqn:Ec; [|done].
  assert (skip_digits (c :: s) = skip_digits s) as Esk by (cbn [skip_digits]; by rewrite Ec).
  rewrite Esk. intros [= <- <-]. destruct (skip_digits_split (c :: s)) as (d & E & Hd & Hn).
  rewrite Esk in E, Hn. exists d. split; [done|]. split; [|done]. split; [|done].
  intros ->. cbn [app] in E. pose proof (skip_digits_length s) as H. rewrite <-E in H. simpl in H. lia.
Qed.

Lemma is_digit_octet c : is_digit c = true <-> 48 <= octet c <= 57.
Proof. unfold is_digit. rewrite andb_true_iff, !Z.leb_le. done. Qed.

Lemma number_int_spec i s :
  (i = str "0" \/ digits i /\ forall w, i <> "0"%char :: w) -> no_digit s ->
  number_int (i ++ s) = Parsed tt s.
Proof.
  intros [->|[Hd H0]] Hs; [done|]. unfold number_int. destruct i as [|c i]; [by destruct Hd|].
  cbn [app]. change 48 with (octet "0"%char). rewrite octet_eqb, bool_decide_false.
  - by apply (digits1_spec (c :: i)).
  - intros ->. by apply (H0 i).
Qed.

Lemma number_int_inv s u s' :
  number_int s = Parsed u s' ->
  exists i, s = i ++ s' /\ (i = str "0" \/ digits i /\ forall w, i <> "0"%char :: w).
Proof.
  unfold number_int. destruct s as [|c s]; [done|].
  change 48 with (octet "0"%char). rewrite octet_eqb. case_bool_decide as E.
  - intros [= <- <-]. subst c. exists (str "0"). split; [done|]. by left.
  - intros H. apply digits1_inv in H as (d & Hs & Hd & Hn). exists d. split; [done|]. right.
    split; [done|]. intros w ->. simpl in Hs. apply cons_eq_inv in Hs as [-> _]. done.
Qed.

Lemma number_frac_spec f s :
  (f = [] \/ exists d, f = str "." ++ d /\ digits d) -> no_digit s ->
  (f = [] -> match s with c :: _ => octet c <> 46 | [] => True end) ->
  number_frac (f ++ s) = Parsed tt s.
Proof.
  intros [->|(d & -> & Hd)] Hs Hend.
  - specialize (Hend eq_refl). destruct s as [|c s]; [done|]. cbn [app number_frac].
    by destruct (Z.eqb_spec (octet c) 46).
  - rewrite <-app_assoc. cbn. by apply digits1_spec.
Qed.

Lemma number_frac_inv s u s' :
  number_frac s = Parsed u s' ->
  exists f, s = f ++ s' /\ (f = [] \/ exists d, f = str "." ++ d /\ digits d).
Proof.
  unfold number_frac. destruct s as [|c s]; [intros [= <- <-]; exists []; auto|].
  change 46 with (octet "."%char). rewrite octet_eqb. case_bool_decide as E.
  - intros H. apply digits1_inv in H as (d & Hs & Hd & _). subst c s.
    exists (str "." ++ d). split; [done|]. right. by exists d.
  - intros [= <- <-]. exists []. auto.
Qed.

Lemma number_exp_spec e s :
  (e = [] \/ exists x g d, e = x :: g ++ d /\ (x = "e"%char \/ x = "E"%char) /\
     (g = [] \/ g = str "+" \/ g = str "-") /\ digits d) -> number_end s ->
  number_exp (e ++ s) = Parsed tt s.
Proof.
  intros [->|(x & g & d & -> & Hx & Hg & Hd)] Hs.
  - destruct s as [|c s]; [done|]. destruct Hs as (_ & _ & H1 & H2). cbn [app number_exp].
    destruct (Z.eqb_spec (octet c) 101), (Z.eqb_spec (octet c) 69); done.
  - cbn [app number_exp]. rewrite <-app_assoc.
    assert ((octet x =? 101) || (octet x =? 69) = true) as -> by (by destruct Hx as [-> | ->]).
    assert (skip_sign (g ++ d ++ s) = d ++ s) as ->.
    { destruct Hg as [->|[-> | ->]]; [|done|done].
      destruct Hd as [Hne Hd]. destruct d as [|c d]; [done|]. apply Forall_cons in Hd as [Hc _].
      apply is_digit_octet in Hc. cbn [app skip_sign].
      destruct (Z.eqb_spec (octet c) 43), (Z.eqb_spec (octet c) 45); try lia. done. }
    apply digits1_spec; [done|]. by apply number_end_no_digit.
Qed.

Lemma number_exp_inv s u s' :
  number_exp s = Parsed u s' ->
  exists e, s = e ++ s' /\
    (e = [] \/ exists x g d, e = x :: g ++ d /\ (x = "e"%char \/ x = "E"%char) /\
       (g = [] \/ g = str "+" \/ g = str "-") /\ digits d).
Proof.
  unfold number_exp. destruct s as [|c s]; [intros [= <- <-]; exists []; auto|].
  change 101 with (octet "e"%char). change 69 with (octet "E"%char). rewrite !octet_eqb.
  destruct (bool_decide (c = "e"%char) || bool_decide (c = "E"%char)) eqn:E.
  2: { intros [= <- <-]. exists []. auto. }
  intros H. apply digits1_inv in H as (d & Hs & Hd & _).
  assert (exists g, s = g ++ skip_sign s /\ (g = [] \/ g = str "+" \/ g = str "-"))
    as (g & Hg & Hg').
  { clear E. unfold skip_sign. destruct s as [|c' s]; [exists []; auto|].
    change 43 with (octet "+"%char). change 45 with (octet "-"%char). rewrite !octet_eqb.
    case_bool_decide; [subst; exists (str "+"); split; [done|auto]|].
    case_bool_decide; [subst; exists (str "-"); split; [done|auto]|].
    exists []. split; [done|auto]. }
  exists (c :: g ++ d). split; [cbn [app]; by rewrite <-app_assoc, <-Hs, <-Hg|]. right.
  exists c, g, d. split; [done|]. split; [|done].
  apply orb_prop in E as [E|E]; apply bool_decide_eq_true in E; auto.
Qed.

Lemma take_prefix (t s : bytes) : take (length (t ++ s) - length s) (t ++ s) = t.
Proof. rewrite length_app, Nat.add_sub. apply take_app_length. Qed.

Lemma parse_number_spec t s :
  number_grammar t -> number_end s -> parse_number (t ++ s) = Parsed (JNumber t) s.
Proof.
  intros (sg & i & f & e & Ht & Hsg & Hi & Hf & He) Hs. unfold parse_number.
  assert (match t ++ s with c :: s' => if octet c =? 45 then s' else t ++ s | [] => t ++ s end =
    i ++ f ++ e ++ s) as ->.
  { subst t. rewrite <-!app_assoc. destruct Hsg as [->| ->]; [|done].
    assert (exists c i', i = c :: i' /\ is_digit c = true) as (c & i' & -> & Hc%is_digit_octet).
    { destruct Hi as [->|[[Hne Hd] _]]; [by exists "0"%char, []|].
      destruct i as [|c i]; [done|]. apply Forall_cons in Hd as [Hc _]. eauto. }
    cbn [app]. destruct (Z.eqb_spec (octet c) 45); [lia|done]. }
  pose proof (number_end_no_digit s Hs) as Hsd.
  assert (no_digit (e ++ s)) as Hed.
  { destruct He as [->|(x & g & d & -> & [-> | ->] & _)]; done. }
  assert (no_digit (f ++ e ++ s)) as Hfd.
  { destruct Hf as [->|(d & -> & _)]; [done|done]. }
  rewrite (number_int_spec i _ Hi Hfd). cbn [parsed_bind].
  rewrite (number_frac_spec f _ Hf Hed).
  2: { intros _. destruct He as [->|(x & g & d & -> & [-> | ->] & _)]; [|done|done].
       destruct s; [done|]. by destruct Hs as (_ & ? & _). }
  cbn [parsed_bind]. rewrite (number_exp_spec e _ He Hs). cbn [parsed_bind].
  by rewrite take_prefix.
Qed.

Lemma parse_number_inv s v s' :
  parse_number s = Parsed v s' -> exists t, v = JNumber t /\ s = t ++ s' /\ number_grammar t.
Proof.
  unfold parse_number. set (s0 := match s with c :: s' => if octet c =? 45 then s' else s | [] => s end).
  intros H.
  destruct (number_int s0) as [u1 s1| |] eqn:E1; [|done|done]. cbn [parsed_bind] in H.
  destruct (number_frac s1) as [u2 s2| |] eqn:E2; [|done|done]. cbn [parsed_bind] in H.
  destruct (number_exp s2) as [u3 s3| |] eqn:E3; [|done|done]. cbn [parsed_bind] in H.
  apply number_int_inv in E1 as (i & E1 & Hi). apply number_frac_inv in E2 as (f & E2 & Hf).
  apply number_exp_inv in E3 as (e & E3 & He).
  assert (exists sg, s = sg ++ s0 /\ (sg = [] \/ sg = str "-")) as (sg & Es & Hsg).
  { subst s0. destruct s as [|c s]; [exists []; auto|]. change 45 with (octet "-"%char).
    rewrite octet_eqb. case_bool_decide; [subst; exists (str "-")|exists []]; auto. }
  rewrite Es, E1, E2, E3 in H.
  assert (take (length (sg ++ i ++ f ++ e ++ s3) - length s3) (sg ++ i ++ f ++ e ++ s3) =
    sg ++ i ++ f ++ e) as Ht.
  { replace (sg ++ i ++ f ++ e ++ s3) with ((sg ++ i ++ f ++ e) ++ s3) by (by rewrite <-!app_assoc).
    apply take_prefix. }
  rewrite Ht in H. injection H as <- <-. exists (sg ++ i ++ f ++ e). split; [done|].
  split; [by rewrite Es, E1, E2, E3, <-!app_assoc|]. by exists sg, i, f, e.
Qed.

(** ** Strings: the reader undoes [json_quote] on every byte string *)

Definition quoted (s : bytes) : bytes := kQuote :: flat_map quote_char s ++ [kQuote].

Lemma json_quote_spec s out : json_quote s out = out ++ quoted s.
Proof.
  unfold json_quote, quoted.
  enough (forall o, fold_left (fun out ch => out ++ quote_char ch) s o = o ++ flat_map quote_char s) as H.
  { by rewrite H, <-!app_assoc. }
  induction s as [|c s IH]; intros o; simpl; [by rewrite app_nil_r|]. by rewrite IH, <-app_assoc.
Qed.

Lemma string_loop_quote_char fuel out ch s :
  string_loop (S fuel) out (quote_char ch ++ s) = string_loop fuel (out ++ [ch]) s.
Proof. by destruct ch as [[] [] [] [] [] [] [] []]. Qed.

Lemma string_loop_quoted t : forall fuel out s,
  (length t < fuel)%nat ->
  string_loop fuel out (flat_map quote_char t ++ kQuote :: s) = Parsed (out ++ t) s.
Proof.
  induction t as [|c t IH]; intros fuel out s Hf; (destruct fuel as [|fuel]; [simpl in Hf; lia|]).
  - simpl. by rewrite app_nil_r.
  - cbn [flat_map]. rewrite <-app_assoc, string_loop_quote_char, IH by (simpl in Hf; lia).
    by rewrite <-app_assoc.
Qed.

Lemma quote_char_nonempty c : (1 <= length (quote_char c))%nat.
Proof. unfold quote_char. repeat case_match; simpl; lia. Qed.

Lemma parse_string_quoted t s : parse_string (flat_map quote_char t ++ kQuote :: s) = Parsed t s.
Proof.
  unfold parse_string. rewrite string_loop_quoted; [done|].
  rewrite length_app. simpl.
  assert (length t <= length (flat_map quote_char t))%nat; [|lia].
  induction t as [|c t IH]; simpl; [done|]. rewrite length_app. pose proof (quote_char_nonempty c). lia.
Qed.

(** ** Trees: a reference writer and the trees it is defined on *)

Fixpoint json_text (v : JsonValue) : bytes :=
  match v with
  | JNull => str "null"
  | JBool b => str (if b then "true" else "false")
  | JNumber t => t
  | JString t => quoted t
  | JArray [] => str "[]"
  | JArray (v :: items) =>
      "["%char :: json_text v ++
      (fix tail items :=
         match items with
         | [] => str "]"
         | v :: items => ","%char :: json_text v ++ tail items
         end) items
  | JObject [] => str "{}"
  | JObject ((key, v) :: members) =>
      "{"%char :: quoted key ++ ":"%char :: json_text v ++
      (fix tail members :=
         match members with
         | [] => str "}"
         | (key, v) :: members => ","%char :: quoted key ++ ":"%char :: json_text v ++ tail members
         end) members
  end.

Fixpoint items_tail (items : list JsonValue) : bytes :=
  match items with
  | [] => str "]"
  | v :: items => ","%char :: json_text v ++ items_tail items
  end.

Fixpoint members_tail (members : list (bytes * JsonValue)) : bytes :=
  match members with
  | [] => str "}"
  | (key, v) :: members =>
      ","%char :: quoted key ++ ":"%char :: json_text v ++ members_tail members
  end.

Lemma json_text_array v items :
  json_text (JArray (v :: items)) = "["%char :: json_text v ++ items_tail items.
Proof. simpl. do 2 f_equal. Qed.

Lemma json_text_object key v members :
  json_text (JObject ((key, v) :: members)) =
  "{"%char :: quoted key ++ ":"%char :: json_text v ++ members_tail members.
Proof. simpl. do 4 f_equal. Qed.

(** A tree within the nesting cap when met at [depth], whose objects have
    distinct keys and whose number tokens follow the grammar. *)
Fixpoint tree_ok (max_depth depth : Z) (v : JsonValue) : Prop :=
  match v with
  | JNumber t => number_grammar t
  | JArray items =>
      depth + 1 <= max_depth /\
      (fix each items :=
         match items with
         | [] => True
         | v :: items => tree_ok max_depth (depth + 1) v /\ each items
         end) items
  | JObject members =>
      depth + 1 <= max_depth /\ NoDup members.*1 /\
      (fix each (members : list (bytes * JsonValue)) :=
         match members with
         | [] => True
         | m :: members => tree_ok max_depth (depth + 1) m.2 /\ each members
         end) members
  | _ => True
  end.

Lemma tree_ok_array md depth items :
  tree_ok md depth (JArray items) <->
  depth + 1 <= md /\ Forall (tree_ok md (depth + 1)) items.
Proof.
  simpl. apply and_iff_compat_l. induction items as [|v items IH]; [by rewrite Forall_nil|].
  by rewrite Forall_cons, <-IH.
Qed.

Lemma tree_ok_object md depth members :
  tree_ok md depth (JObject members) <->
  depth + 1 <= md /\ NoDup members.*1 /\ Forall (fun m => tree_ok md (depth + 1) m.2) members.
Proof.
  simpl. do 2 apply and_iff_compat_l.
  induction members as [|m members IH]; [by rewrite Forall_nil|]. by rewrite Forall_cons, <-IH.
Qed.

Section JsonValue_ind'.
Context (P : JsonValue -> Prop).
Context (Hnull : P JNull) (Hbool : forall b, P (JBool b)).
Context (Hnumber : forall t, P (JNumber t)) (Hstring : forall t, P (JString t)).
Context (Harray : forall items, Forall P items -> P (JArray items)).
Context (Hobject : forall members, Forall (fun m => P m.2) members -> P (JObject members)).

Fixpoint JsonValue_ind' (v : JsonValue) : P v :=
  match v with
  | JNull => Hnull
  | JBool b => Hbool b
  | JNumber t => Hnumber t
  | JString t => Hstring t
  | JArray items =>
      Harray items ((fix go items : Forall P items :=
        match items with
        | [] => @List.Forall_nil _ _
        | v :: items => @List.Forall_cons _ _ v items (JsonValue_ind' v) (go items)
        end) items)
  | JObject members =>
      Hobject members ((fix go members : Forall (fun m => P m.2) members :=
        match members with
        | [] => @List.Forall_nil _ _
        | m :: members => @List.Forall_cons _ _ m members (JsonValue_ind' m.2) (go members)
        end) members)
  end.
End JsonValue_ind'.

(** ** Soundness: an accepted tree is within the cap *)

Lemma parsed_bind_inv {A B} (m : parsed A) (k : A -> bytes -> parsed B) b s' :
  parsed_bind m k = Parsed b s' -> exists a s, m = Parsed a s /\ k a s = Parsed b s'.
Proof. destruct m; simpl; [eauto|done|done]. Qed.

Lemma enter_None md depth : enter md depth = None <-> depth + 1 <= md.
Proof. unfold enter. destruct (Z.gtb_spec (depth + 1) md); split; try done; lia. Qed.

Lemma literal_inv lit v s w s' :
  (let! (_u, s) := match_literal lit s in Parsed (v : JsonValue) s) = Parsed w s' -> w = v.
Proof. intros (u & s1 & _ & [= <- _])%parsed_bind_inv. done. Qed.

Lemma parse_sound md fuel :
  (forall depth s v s', parse_value md fuel depth s = Parsed v s' -> tree_ok md depth v) /\
  (forall depth members s v s', object_loop md fuel depth members s = Parsed v s' ->
     tree_ok md depth (JObject members) -> tree_ok md depth v) /\
  (forall depth items s v s', array_loop md fuel depth items s = Parsed v s' ->
     tree_ok md depth (JArray items) -> tree_ok md depth v).
Proof.
  induction fuel as [|fuel (IHv & IHo & IHa)]; [done|]. split; [|split].
  - intros depth s v s' H. cbn [parse_value] in H. destruct (skip_ws s) as [|c s1]; [done|].
    case_bool_decide; [|case_bool_decide; [|case_bool_decide]].
    + destruct (enter md depth) eqn:Ee; [done|]. apply enter_None in Ee.
      assert (tree_ok md depth (JObject [])) as Hz by (split; [done|split; [constructor|done]]).
      destruct (skip_ws s1) as [|d s2]; [by eapply IHo|]. case_bool_decide; [|by eapply IHo].
      by injection H as <- _.
    + destruct (enter md depth) eqn:Ee; [done|]. apply enter_None in Ee.
      assert (tree_ok md depth (JArray [])) as Hz by (split; [done|done]).
      destruct (skip_ws s1) as [|d s2]; [by eapply IHa|]. case_bool_decide; [|by eapply IHa].
      by injection H as <- _.
    + by apply parsed_bind_inv in H as (t & s2 & _ & [= <- _]).
    + case_match; [|case_match; [|case_match; [|done]]].
      * unfold parse_bool in H. case_bool_decide; by apply literal_inv in H as ->.
      * by apply literal_inv in H as ->.
      * by apply parse_number_inv in H as (t & -> & _ & Ht).
  - intros depth members s v s' H Hm. cbn [object_loop] in H.
    destruct (skip_ws s) as [|c s1]; [done|]. case_bool_decide; [|done].
    apply parsed_bind_inv in H as (key & s2 & _ & H). case_bool_decide as Hk; [done|].
    destruct (skip_ws s2) as [|c2 s3]; [done|]. case_bool_decide; [|done].
    apply parsed_bind_inv in H as (val & s4 & Hval & H). apply IHv in Hval.
    assert (tree_ok md depth (JObject (members ++ [(key, val)]))) as Hm'.
    { apply tree_ok_object in Hm as (? & Hnd & Hall). apply tree_ok_object.
      split; [done|]. rewrite fmap_app. split.
      - apply NoDup_app. split; [done|]. split; [|apply NoDup_singleton].
        intros k Hin ->%list_elem_of_singleton. by apply Hk.
      - apply Forall_app. split; [done|]. by constructor. }
    destruct (skip_ws s4) as [|c4 s5]; [done|]. case_bool_decide; [by eapply IHo|].
    case_bool_decide; [|done]. by injection H as <- _.
  - intros depth items s v s' H Hi. cbn [array_loop] in H.
    apply parsed_bind_inv in H as (val & s4 & Hval & H). apply IHv in Hval.
    assert (tree_ok md depth (JArray (items ++ [val]))) as Hi'.
    { apply tree_ok_array in Hi as (? & Hall). apply tree_ok_array.
      split; [done|]. apply Forall_app. split; [done|]. by constructor. }
    destruct (skip_ws s4) as [|c4 s5]; [done|]. case_bool_decide; [by eapply IHa|].
    case_bool_decide; [|done]. by injection H as <- _.
Qed.

(** ** Completeness: every tree within the cap is read back from its text *)

Lemma number_head t :
  number_grammar t -> exists c w, t = c :: w /\ (c = "-"%char \/ is_digit c = true).
Proof.
  intros (sg & i & f & e & -> & Hsg & Hi & _). destruct Hsg as [->| ->]; [|by exists "-"%char; eauto].
  destruct Hi as [->|[[Hne Hd] _]]; [exists "0"%char; eauto|].
  destruct i as [|c i]; [done|]. apply Forall_cons in Hd as [Hc _]. exists c. eauto.
Qed.

Lemma items_tail_end items s : number_end (items_tail items ++ s).
Proof. by destruct items as [|v items]. Qed.

Lemma members_tail_end members s : number_end (members_tail members ++ s).
Proof. by destruct members as [|[k v] members]. Qed.

(** What completeness says of one value. *)
Definition reads_back (md : Z) (v : JsonValue) : Prop :=
  forall fuel depth s, tree_ok md depth v -> number_end s ->
  (2 * length (json_text v ++ s) < fuel)%nat ->
  parse_value md fuel depth (json_text v ++ s) = Parsed v s.

(** Compare the lengths of concatenations. *)
Ltac lengths := repeat (progress (rewrite ?length_app in *; cbn [length app] in *)); lia.

Lemma array_loop_complete md items : forall v fuel depth done s,
  Forall (reads_back md) (v :: items) -> Forall (tree_ok md (depth + 1)) (v :: items) ->
  (2 * length (json_text v ++ items_tail items ++ s) + 1 < fuel)%nat ->
  array_loop md fuel depth done (json_text v ++ items_tail items ++ s) =
    Parsed (JArray (done ++ v :: items)) s.
Proof.
  induction items as [|w items IH]; intros v fuel depth dn s HR HT Hf;
    apply Forall_cons in HR as [Hv HR]; apply Forall_cons in HT as [Tv HT];
    (destruct fuel as [|fuel]; [lia|]); cbn [array_loop];
    rewrite (Hv fuel _ _ Tv (items_tail_end _ s)) by lia; cbn [parsed_bind].
  - reflexivity.
  - cbn [items_tail app skip_ws]. change (is_ws ","%char) with false. cbn iota.
    rewrite bool_decide_true by done. rewrite <-app_assoc.
    rewrite (IH w); [by rewrite <-app_assoc|done|done|].
    cbn [items_tail] in Hf. lengths.
Qed.

Lemma object_loop_complete md members : forall key v fuel depth done s,
  Forall (fun m => reads_back md m.2) ((key, v) :: members) ->
  Forall (fun m => tree_ok md (depth + 1) m.2) ((key, v) :: members) ->
  NoDup (done ++ (key, v) :: members).*1 ->
  (2 * length (quoted key ++ ":"%char :: json_text v ++ members_tail members ++ s) + 1 < fuel)%nat ->
  object_loop md fuel depth done
    (quoted key ++ ":"%char :: json_text v ++ members_tail members ++ s) =
    Parsed (JObject (done ++ (key, v) :: members)) s.
Proof.
  induction members as [|[k w] members IH]; intros key v fuel depth dn s HR HT Hnd Hf;
    apply Forall_cons in HR as [Hv HR]; apply Forall_cons in HT as [Tv HT]; simpl in Hv, Tv;
    (destruct fuel as [|fuel]; [lia|]); cbn [object_loop];
    unfold quoted in *; cbn [app skip_ws] in *; change (is_ws kQuote) with false; cbn iota;
    rewrite bool_decide_true by done; rewrite <-app_assoc; cbn [app];
    rewrite parse_string_quoted; cbn [parsed_bind];
    rewrite bool_decide_false by
      (rewrite fmap_app, fmap_cons, NoDup_app in Hnd; destruct Hnd as (_ & Hd & _);
       intros Hin; apply (Hd key Hin); by left);
    cbn [skip_ws]; change (is_ws ":"%char) with false; cbn iota;
    rewrite bool_decide_true by done;
    rewrite (Hv fuel _ _ Tv (members_tail_end _ s)) by
      lengths;
    cbn [parsed_bind].
  - reflexivity.
  - cbn [members_tail app skip_ws]. change (is_ws ","%char) with false. cbn iota.
    rewrite bool_decide_true by done. rewrite <-!app_assoc in *. cbn [app].
    specialize (IH k w fuel depth (dn ++ [(key, v)]) s HR HT).
    unfold quoted in IH. cbn [app] in IH. rewrite <-!app_assoc in IH. cbn [app] in IH.
    unfold quoted. cbn [app]. rewrite <-!app_assoc. cbn [app]. apply IH; [done|].
    cbn [members_tail] in Hf. unfold quoted in Hf. lengths.
Qed.

Lemma digit_not_ws c : is_digit c = true -> is_ws c = false.
Proof.
  intros Hc%is_digit_octet. unfold is_ws.
  repeat (rewrite (proj2 (Z.eqb_neq (octet c) _)) by lia). done.
Qed.

Lemma json_text_head md depth v :
  tree_ok md depth v -> exists c w, json_text v = c :: w /\ is_ws c = false /\ c <> "]"%char.
Proof.
  destruct v as [|[]|t|t|[|v items]|[|[k v] members]]; intros Hok; try (do 2 eexists; done).
  destruct (number_head t Hok) as (c & w & -> & Hc). exists c, w. split; [done|].
  destruct Hc as [->|Hc]; [done|]. split; [by apply digit_not_ws|]. by intros ->.
Qed.

Lemma json_reads_back md v : reads_back md v.
Proof.
  induction v as [|b|t|t|items IH|members IH] using JsonValue_ind';
    intros fuel depth s Hok Hend Hf; (destruct fuel as [|fuel]; [lia|]).
  - by destruct fuel.
  - by destruct b.
  - cbn [json_text] in *. destruct (number_head t Hok) as (c & w & -> & Hc).
    cbn [parse_value app skip_ws].
    assert (is_ws c = false) as ->.
    { destruct Hc as [->|Hc]; [done|by apply digit_not_ws]. }
    assert (forall d, is_digit d = false -> d <> "-"%char -> bool_decide (c = d) = false) as Hd.
    { intros d Hd Hm. apply bool_decide_eq_false. intros ->. destruct Hc; congruence. }
    rewrite !Hd by done. cbn [orb]. cbn iota.
    assert (bool_decide (c = "-"%char) || is_digit c = true) as ->.
    { destruct Hc as [->|Hc]; [done|]. rewrite Hc. by rewrite orb_true_r. }
    by apply (parse_number_spec (c :: w)).
  - cbn [json_text] in *. unfold quoted. cbn [parse_value app skip_ws].
    change (is_ws kQuote) with false. cbn iota. rewrite <-app_assoc. cbn [app].
    by rewrite parse_string_quoted.
  - apply tree_ok_array in Hok as [Hd Hok]. apply enter_None in Hd.
    destruct items as [|v items]; [cbn; by rewrite Hd|].
    rewrite json_text_array in *. rewrite <-app_comm_cons, <-app_assoc in *.
    cbn [parse_value skip_ws]. change (is_ws "["%char) with false. cbn iota.
    rewrite bool_decide_false, bool_decide_true by done. rewrite Hd.
    assert (Forall (reads_back md) (v :: items)) as HR by done.
    pose proof (array_loop_complete md items v fuel depth [] s HR Hok) as H.
    cbn [app] in H. specialize (H ltac:(lengths)).
    destruct (json_text_head md (depth + 1) v) as (c & w & Ec & Hws & Hc); [by apply Forall_cons in Hok as [? _]|].
    rewrite Ec in *. cbn [app skip_ws]. rewrite Hws, bool_decide_false by done. exact H.
  - apply tree_ok_object in Hok as (Hd & Hnd & Hok). apply enter_None in Hd.
    destruct members as [|[key v] members]; [cbn; by rewrite Hd|].
    rewrite json_text_object in *. cbn [app] in *. rewrite <-app_assoc in *. cbn [app] in *.
    rewrite <-app_assoc in *.
    cbn [parse_value skip_ws]. change (is_ws "{"%char) with false. cbn iota.
    rewrite bool_decide_true by done. rewrite Hd.
    pose proof (object_loop_complete md members key v fuel depth [] s IH Hok Hnd) as H.
    specialize (H ltac:(lengths)). unfold quoted in *. cbn [app skip_ws] in *.
    change (is_ws kQuote) with false. cbn iota. rewrite bool_decide_false by done. exact H.
Qed.

(** ** Properties *)

(** C32: [parse_json] is total on every input: its fuel never runs out, a refusal
    always carries a reason, and an accepted tree never nests deeper than the cap,
    has distinct keys in every object and only number tokens of the JSON
    grammar. *)
Theorem parse_json_total input max_depth :
  (exists v, parse_json input max_depth = mkJsonParse true v [] /\ tree_ok max_depth 0 v) \/
  (exists why, parse_json input max_depth = mkJsonParse false JNull why /\ why <> []).
Proof.
  unfold parse_json. pose proof (run_advances max_depth input) as H.
  destruct (run max_depth input) as [v s|why|] eqn:E; [left|right|done].
  - exists v. split; [done|]. unfold run in E.
    apply parsed_bind_inv in E as (w & s1 & Hv & E). apply parse_sound in Hv.
    destruct (skip_ws s1); [|done]. by injection E as -> _.
  - exists why. by rewrite bool_decide_false.
Qed.

(** Reading inverts writing.  Every tree within the cap is read back exactly
    from its compact text, whatever bytes its strings and keys hold, and
    [json_quote] appends the text of a string. *)
Theorem parse_json_roundtrip v max_depth :
  tree_ok max_depth 0 v ->
  parse_json (json_text v) max_depth = mkJsonParse true v [] /\
  (forall t out, json_quote t out = out ++ json_text (JString t)).
Proof.
  intros Hok. split; [|intros; apply json_quote_spec]. unfold parse_json, run.
  destruct (json_text_head max_depth 0 v Hok) as (c & w & E & Hws & _).
  assert (skip_ws (json_text v) = json_text v) as -> by (rewrite E; cbn [skip_ws]; by rewrite Hws).
  pose proof (json_reads_back max_depth v (2 * length (json_text v) + 1)%nat 0 [] Hok I) as H.
  rewrite app_nil_r in H. by rewrite H by lia.
Qed.

(** ** Witnesses *)

Definition sample : JsonValue :=
  JObject [(str "a", JArray [JNumber "-1.5e3"; JNull]); (str "b", JString [chr 34; chr 9])].

Lemma parse_json_roundtrip_witness :
  parse_json (json_text sample) 2 = mkJsonParse true sample [] .
Proof.
  apply (parse_json_roundtrip sample 2).
  assert (number_grammar "-1.5e3") as H.
  { exists (str "-"), (str "1"), (str ".5"), (str "e3"). split; [done|]. split; [by right|].
    split; [right; split; [split; [done|by constructor]|done]|]. split.
    - right. exists (str "5"). split; [done|]. split; [done|by constructor].
    - right. exists "e"%char, [], (str "3"). split; [done|]. split; [by left|]. split; [by left|].
      split; [done|by constructor]. }
  simpl. split; [lia|]. split; [|split; [|done]]; [|split; [lia|]; by split].
  constructor; [|constructor; [|constructor]].
  - rewrite list_elem_of_singleton. done.
  - apply not_elem_of_nil.
Defined.

Example parse_json_refuses :
  parse_json "[[1]]" 1 = mkJsonParse false JNull "maximum nesting depth exceeded" /\
  parse_json "{" 64 = mkJsonParse false JNull "expected string key in object" /\
  jp_error (parse_json (kQuote :: str "\ud800x") 64) = str "unpaired high surrogate".
Proof. by vm_compute. Qed.
