(* ===== verification/Base64.v ===== *)
(** * Base64

    [src/detail/base64.cpp]: the encoder by groups of three octets, the strict
    decoder by quads.  The index loops are structural on the unread suffix.  The
    decoder is shown to accept exactly the encoder's outputs. *)

From S2P Require Import Prelude.

Definition kAlphabet : bytes := "ABCDEFGHIJKLMNOPQRSTUVWXYZabcdefghijklmnopqrstuvwxyz0123456789+/".

(** [kAlphabet[v]] for a 6-bit [v]. *)
Definition symbol (v : Z) : ascii := nth (Z.to_nat v) kAlphabet (chr 0).

(** [make_reverse]: the table, filled with [0xFF], then one entry per symbol. *)
Definition reverse_table : list Z :=
  fold_left (fun r i => <[Z.to_nat (octet (symbol (Z.of_nat i))) := Z.of_nat i]> r)
    (seq 0 64) (replicate 256 0xFF).

Definition rev (c : ascii) : Z := nth (Z.to_nat (octet c)) reverse_table 0.

Fixpoint base64_encode (data : bytes) : bytes :=
  match data with
  | a :: b :: c :: data =>
      let n := Z.lor (Z.lor (Z.shiftl (octet a) 16) (Z.shiftl (octet b) 8)) (octet c) in
      symbol (Z.land (Z.shiftr n 18) 0x3F) :: symbol (Z.land (Z.shiftr n 12) 0x3F) ::
      symbol (Z.land (Z.shiftr n 6) 0x3F) :: symbol (Z.land n 0x3F) :: base64_encode data
  | [a] =>
      let n := Z.shiftl (octet a) 16 in
      [symbol (Z.land (Z.shiftr n 18) 0x3F); symbol (Z.land (Z.shiftr n 12) 0x3F); "="%char; "="%char]
  | [a; b] =>
      let n := Z.lor (Z.shiftl (octet a) 16) (Z.shiftl (octet b) 8) in
      [symbol (Z.land (Z.shiftr n 18) 0x3F); symbol (Z.land (Z.shiftr n 12) 0x3F);
       symbol (Z.land (Z.shiftr n 6) 0x3F); "="%char]
  | [] => []
  end.

Definition is_pad (c : ascii) : bool := bool_decide (c = "="%char).

(** The loop over quads; [None] when it returns false.  The [[]] cases beside the
    first are not reached once the length is a multiple of four. *)
Fixpoint decode_quads (s : bytes) (out : bytes) : option bytes :=
  match s with
  | c0 :: c1 :: c2 :: c3 :: s =>
      let pad2 := is_pad c2 in
      let pad3 := is_pad c3 in
      let last_quad := match s with [] => true | _ => false end in
      if (pad2 || pad3) && negb last_quad then None
      else if pad2 && negb pad3 then None
      else
        let v0 := rev c0 in
        let v1 := rev c1 in
        if (v0 =? 0xFF) || (v1 =? 0xFF) then None
        else if pad3 && pad2
        then
          let out := out ++ [chr (Z.lor (Z.shiftl v0 2) (Z.shiftr v1 4))] in
          if negb (Z.land v1 0x0F =? 0) then None else decode_quads s out
        else
          let v2 := rev c2 in
          if v2 =? 0xFF then None
          else if pad3
          then
            let out := out ++ [chr (Z.lor (Z.shiftl v0 2) (Z.shiftr v1 4));
                               chr (Z.lor (Z.shiftl v1 4) (Z.shiftr v2 2))] in
            if negb (Z.land v2 0x03 =? 0) then None else decode_quads s out
          else
            let v3 := rev c3 in
            if v3 =? 0xFF then None
            else decode_quads s (out ++ [chr (Z.lor (Z.shiftl v0 2) (Z.shiftr v1 4));
                                         chr (Z.lor (Z.shiftl v1 4) (Z.shiftr v2 2));
                                         chr (Z.lor (Z.shiftl v2 6) v3)])
  | [] => Some out
  | _ => None
  end.

Definition base64_decode (s : bytes) : option bytes :=
  if negb (zlen s mod 4 =? 0) then None else decode_quads s [].

(** ** Symbols *)

Lemma forall_sextets (P : Z -> bool) :
  forallb P (seqZ 0 64) = true -> forall v, 0 <= v < 64 -> P v = true.
Proof.
  intros H v Hv. rewrite forallb_forall in H. apply H. apply list_elem_of_In, elem_of_seqZ. lia.
Qed.

Lemma rev_symbol v : 0 <= v < 64 -> rev (symbol v) = v /\ is_pad (symbol v) = false.
Proof.
  intros Hv. pose proof (forall_sextets
    (fun v => (rev (symbol v) =? v) && negb (is_pad (symbol v))) ltac:(by vm_compute) v Hv) as H.
  simpl in H. bool_to_prop. done.
Qed.

Lemma symbol_rev c : rev c <> 0xFF -> symbol (rev c) = c /\ 0 <= rev c < 64.
Proof.
  intros H. pose proof (octet_range c) as Hc.
  enough (forall z, 0 <= z < 256 ->
    ((rev (chr z) =? 0xFF) || bool_decide (symbol (rev (chr z)) = chr z) &&
      ((0 <=? rev (chr z)) && (rev (chr z) <? 64)))%bool = true) as Hall.
  { specialize (Hall (octet c) Hc). rewrite chr_octet in Hall.
    destruct (Z.eqb_spec (rev c) 0xFF); [done|]. simpl in Hall. bool_to_prop. done. }
  apply (forall_octets _ (fun _ => true)). by vm_compute.
Qed.

(** ** Groups *)

Ltac euclid := Z.to_euclidean_division_equations; lia.

(** The four sextets of three octets. *)
Lemma sextets a b c :
  0 <= a < 256 -> 0 <= b < 256 -> 0 <= c < 256 ->
  let n := Z.lor (Z.lor (Z.shiftl a 16) (Z.shiftl b 8)) c in
  Z.land (Z.shiftr n 18) 0x3F = a / 4 /\
  Z.land (Z.shiftr n 12) 0x3F = a mod 4 * 16 + b / 16 /\
  Z.land (Z.shiftr n 6) 0x3F = b mod 16 * 4 + c / 64 /\
  Z.land n 0x3F = c mod 64.
Proof.
  intros Ha Hb Hc n.
  assert (n = a * 65536 + b * 256 + c) as ->.
  { subst n. rewrite (Z.lor_comm _ c), (Z.lor_comm (Z.shiftl a 16)).
    replace (Z.shiftl a 16) with (Z.shiftl (Z.shiftl a 8) 8) by (by rewrite Z.shiftl_shiftl by lia).
    rewrite <-Z.shiftl_lor, (lor_shiftl_add b a 8), (lor_shiftl_add c _ 8) by lia. lia. }
  change 0x3F with (Z.ones 6). rewrite !Z.land_ones, !Z.shiftr_div_pow2 by lia.
  change (2 ^ 6) with 64. change (2 ^ 12) with 4096. change (2 ^ 18) with 262144.
  repeat split; euclid.
Qed.

(** The three octets of four sextets. *)
Lemma octets v0 v1 v2 v3 :
  0 <= v0 < 64 -> 0 <= v1 < 64 -> 0 <= v2 < 64 -> 0 <= v3 < 64 ->
  Z.lor (Z.shiftl v0 2) (Z.shiftr v1 4) = v0 * 4 + v1 / 16 /\
  Z.lor (Z.shiftl v1 4) (Z.shiftr v2 2) = v1 * 16 + v2 / 4 /\
  Z.lor (Z.shiftl v2 6) v3 = v2 * 64 + v3.
Proof.
  intros H0 H1 H2 H3. rewrite !Z.shiftr_div_pow2 by lia.
  rewrite !(Z.lor_comm (Z.shiftl _ _)), !lor_shiftl_add by
    (lia || (change (2 ^ 4) with 16; change (2 ^ 2) with 4; euclid)).
  change (2 ^ 4) with 16. change (2 ^ 2) with 4. change (2 ^ 6) with 64. lia.
Qed.

Lemma land_low v n m : 0 <= n -> m = Z.ones n -> Z.land v m = v mod 2 ^ n.
Proof. intros Hn ->. by apply Z.land_ones. Qed.

(** ** The decoder undoes the encoder *)

Lemma decode_encode_quads n : forall d out, (length d <= n)%nat ->
  decode_quads (base64_encode d) out = Some (out ++ d).
Proof.
  induction n as [|n IH]; intros d out Hn.
  { destruct d; [by rewrite app_nil_r|simpl in Hn; lia]. }
  destruct d as [|a [|b [|c d]]]; [by rewrite app_nil_r| | |].
  - pose proof (octet_range a) as Ha.
    destruct (sextets (octet a) 0 0 Ha ltac:(lia) ltac:(lia)) as (E0 & E1 & _ & _).
    rewrite Z.shiftl_0_l, !Z.lor_0_r in E0, E1. cbn [base64_encode decode_quads]. cbv zeta.
    rewrite E0, E1. clear E0 E1.
    destruct (rev_symbol (octet a / 4)) as [R0 _]; [euclid|].
    destruct (rev_symbol (octet a mod 4 * 16 + 0 / 16)) as [R1 _]; [euclid|].
    rewrite R0, R1. change (is_pad "="%char) with true. cbn [orb negb andb].
    destruct (octets (octet a / 4) (octet a mod 4 * 16 + 0 / 16) 0 0) as (O0 & _ & _);
      [euclid|euclid|lia|lia|]. rewrite O0.
    rewrite (land_low _ 4) by done. change (2 ^ 4) with 16.
    replace ((octet a mod 4 * 16 + 0 / 16) mod 16) with 0 by euclid.
    destruct (Z.eqb_spec (octet a / 4) 0xFF); [euclid|].
    destruct (Z.eqb_spec (octet a mod 4 * 16 + 0 / 16) 0xFF); [euclid|]. cbn [orb Z.eqb negb].
    do 2 f_equal. f_equal. apply chr_of_octet. euclid.
  - pose proof (octet_range a) as Ha. pose proof (octet_range b) as Hb.
    destruct (sextets (octet a) (octet b) 0 Ha Hb ltac:(lia)) as (E0 & E1 & E2 & _).
    rewrite !Z.lor_0_r in E0, E1, E2. cbn [base64_encode decode_quads]. cbv zeta.
    rewrite E0, E1, E2. clear E0 E1 E2.
    destruct (rev_symbol (octet a / 4)) as [R0 _]; [euclid|].
    destruct (rev_symbol (octet a mod 4 * 16 + octet b / 16)) as [R1 _]; [euclid|].
    destruct (rev_symbol (octet b mod 16 * 4 + 0 / 64)) as [R2 P2]; [euclid|].
    rewrite R0, R1, R2, P2. change (is_pad "="%char) with true. cbn [orb negb andb].
    destruct (octets (octet a / 4) (octet a mod 4 * 16 + octet b / 16)
      (octet b mod 16 * 4 + 0 / 64) 0) as (O0 & O1 & _); [euclid|euclid|euclid|lia|].
    rewrite O0, O1. rewrite (land_low _ 2) by done. change (2 ^ 2) with 4.
    replace ((octet b mod 16 * 4 + 0 / 64) mod 4) with 0 by euclid.
    destruct (Z.eqb_spec (octet a / 4) 0xFF); [euclid|].
    destruct (Z.eqb_spec (octet a mod 4 * 16 + octet b / 16) 0xFF); [euclid|].
    destruct (Z.eqb_spec (octet b mod 16 * 4 + 0 / 64) 0xFF); [euclid|]. cbn [orb Z.eqb negb].
    do 2 f_equal. f_equal; [|f_equal]; apply chr_of_octet; euclid.
  - pose proof (octet_range a) as Ha. pose proof (octet_range b) as Hb.
    pose proof (octet_range c) as Hc.
    destruct (sextets (octet a) (octet b) (octet c) Ha Hb Hc) as (E0 & E1 & E2 & E3).
    cbn [base64_encode decode_quads]. cbv zeta.
    rewrite E0, E1, E2, E3. clear E0 E1 E2 E3.
    destruct (rev_symbol (octet a / 4)) as [R0 _]; [euclid|].
    destruct (rev_symbol (octet a mod 4 * 16 + octet b / 16)) as [R1 _]; [euclid|].
    destruct (rev_symbol (octet b mod 16 * 4 + octet c / 64)) as [R2 P2]; [euclid|].
    destruct (rev_symbol (octet c mod 64)) as [R3 P3]; [euclid|].
    rewrite R0, R1, R2, R3, P2, P3. cbn [orb negb andb].
    destruct (octets (octet a / 4) (octet a mod 4 * 16 + octet b / 16)
      (octet b mod 16 * 4 + octet c / 64) (octet c mod 64)) as (O0 & O1 & O2);
      [euclid|euclid|euclid|euclid|].
    rewrite O0, O1, O2.
    destruct (Z.eqb_spec (octet a / 4) 0xFF); [euclid|].
    destruct (Z.eqb_spec (octet a mod 4 * 16 + octet b / 16) 0xFF); [euclid|].
    destruct (Z.eqb_spec (octet b mod 16 * 4 + octet c / 64) 0xFF); [euclid|].
    destruct (Z.eqb_spec (octet c mod 64) 0xFF); [euclid|]. cbn [orb].
    rewrite IH by (simpl in Hn; lia). rewrite <-app_assoc. cbn [app].
    do 2 f_equal. f_equal; [|f_equal; [|f_equal]]; apply chr_of_octet; euclid.
Qed.

Lemma length_encode n : forall d, (length d <= n)%nat -> zlen (base64_encode d) mod 4 = 0.
Proof.
  induction n as [|n IH]; intros d Hn; [by destruct d; [|simpl in Hn; lia]|].
  destruct d as [|a [|b [|c d]]]; [done|done|done|]. cbn [base64_encode]. cbv zeta.
  rewrite !zlen_cons. specialize (IH d ltac:(simpl in Hn; lia)). euclid.
Qed.

(** ** The decoder accepts nothing else *)

Lemma is_pad_eq c : is_pad c = true -> c = "="%char.
Proof. apply bool_decide_eq_true. Qed.

(** A quad without padding is the encoding of its three octets. *)
Lemma quad_encode v0 v1 v2 v3 d :
  0 <= v0 < 64 -> 0 <= v1 < 64 -> 0 <= v2 < 64 -> 0 <= v3 < 64 ->
  base64_encode (chr (v0 * 4 + v1 / 16) :: chr (v1 * 16 + v2 / 4) :: chr (v2 * 64 + v3) :: d) =
  symbol v0 :: symbol v1 :: symbol v2 :: symbol v3 :: base64_encode d.
Proof.
  intros H0 H1 H2 H3. cbn [base64_encode]. cbv zeta.
  destruct (sextets (octet (chr (v0 * 4 + v1 / 16))) (octet (chr (v1 * 16 + v2 / 4)))
    (octet (chr (v2 * 64 + v3)))) as (E0 & E1 & E2 & E3); try apply octet_range.
  rewrite E0, E1, E2, E3, !octet_chr.
  f_equal; [f_equal; euclid|]. f_equal; [f_equal; euclid|]. f_equal; [f_equal; euclid|].
  f_equal. f_equal. euclid.
Qed.

Lemma quad_encode_1 v0 v1 :
  0 <= v0 < 64 -> 0 <= v1 < 64 -> v1 mod 16 = 0 ->
  base64_encode [chr (v0 * 4 + v1 / 16)] = [symbol v0; symbol v1; "="%char; "="%char].
Proof.
  intros H0 H1 Hp. cbn [base64_encode]. cbv zeta.
  destruct (sextets (octet (chr (v0 * 4 + v1 / 16))) 0 0) as (E0 & E1 & _ & _);
    [apply octet_range|lia|lia|].
  rewrite Z.shiftl_0_l, !Z.lor_0_r in E0, E1. rewrite E0, E1, !octet_chr.
  f_equal; [f_equal; euclid|]. f_equal. f_equal. euclid.
Qed.

Lemma quad_encode_2 v0 v1 v2 :
  0 <= v0 < 64 -> 0 <= v1 < 64 -> 0 <= v2 < 64 -> v2 mod 4 = 0 ->
  base64_encode [chr (v0 * 4 + v1 / 16); chr (v1 * 16 + v2 / 4)] =
  [symbol v0; symbol v1; symbol v2; "="%char].
Proof.
  intros H0 H1 H2 Hp. cbn [base64_encode]. cbv zeta.
  destruct (sextets (octet (chr (v0 * 4 + v1 / 16))) (octet (chr (v1 * 16 + v2 / 4))) 0)
    as (E0 & E1 & E2 & _); [apply octet_range|apply octet_range|lia|].
  rewrite !Z.lor_0_r in E0, E1, E2. rewrite E0, E1, E2, !octet_chr.
  f_equal; [f_equal; euclid|]. f_equal; [f_equal; euclid|]. f_equal. f_equal. euclid.
Qed.

Lemma decode_quads_inv n : forall s out d, (length s <= n)%nat ->
  decode_quads s out = Some d -> exists d', d = out ++ d' /\ s = base64_encode d'.
Proof.
  induction n as [|n IH]; intros s out d Hn H.
  { destruct s; [|simpl in Hn; lia]. injection H as <-. exists []. by rewrite app_nil_r. }
  destruct s as [|c0 [|c1 [|c2 [|c3 s]]]]; try discriminate H.
  { injection H as <-. exists []. by rewrite app_nil_r. }
  cbn [decode_quads] in H. cbv zeta in H.
  destruct ((is_pad c2 || is_pad c3) && _) eqn:El; [done|].
  destruct (is_pad c2 && negb (is_pad c3)) eqn:Ep; [done|].
  destruct ((rev c0 =? 255) || (rev c1 =? 255)) eqn:E01; [done|].
  bool_to_prop. destruct (symbol_rev c0) as [S0 R0]; [done|]. destruct (symbol_rev c1) as [S1 R1]; [done|].
  destruct (is_pad c2) eqn:P2, (is_pad c3) eqn:P3; try done; cbn [orb andb negb] in *.
  - destruct s; [|done]. rewrite (land_low _ 4) in H by done. change (2 ^ 4) with 16 in H.
    destruct (Z.eqb_spec (rev c1 mod 16) 0) as [Hz|]; [|done]. cbn [negb] in H. injection H as <-.
    destruct (octets (rev c0) (rev c1) 0 0 R0 R1) as (-> & _ & _); [lia|lia|].
    eexists. split; [done|]. rewrite quad_encode_1, S0, S1 by done.
    by rewrite (is_pad_eq c2 P2), (is_pad_eq c3 P3).
  - destruct s; [|done]. destruct (Z.eqb_spec (rev c2) 255) as [|N2]; [done|].
    destruct (symbol_rev c2 N2) as [S2 R2]. rewrite (land_low _ 2) in H by done.
    change (2 ^ 2) with 4 in H.
    destruct (Z.eqb_spec (rev c2 mod 4) 0) as [Hz|]; [|done]. cbn [negb] in H. injection H as <-.
    destruct (octets (rev c0) (rev c1) (rev c2) 0 R0 R1 R2) as (-> & -> & _); [lia|].
    eexists. split; [done|]. rewrite quad_encode_2, S0, S1, S2 by done.
    by rewrite (is_pad_eq c3 P3).
  - destruct (Z.eqb_spec (rev c2) 255) as [|N2]; [done|].
    destruct (Z.eqb_spec (rev c3) 255) as [|N3]; [done|].
    destruct (symbol_rev c2 N2) as [S2 R2]. destruct (symbol_rev c3 N3) as [S3 R3].
    destruct (octets (rev c0) (rev c1) (rev c2) (rev c3) R0 R1 R2 R3) as (O0 & O1 & O2).
    rewrite O0, O1, O2 in H. apply IH in H as (d' & -> & ->); [|simpl in Hn; lia].
    eexists. rewrite <-app_assoc. split; [done|].
    cbn [app]. by rewrite quad_encode, S0, S1, S2, S3.
Qed.

(** Base64 is strict.  The decoder accepts a text exactly when the encoder
    writes it, and returns what was encoded: the round trip holds for every
    byte string, and misplaced padding, foreign characters, a length that is not a
    multiple of four and non-zero dropped bits are all refused. *)
Theorem base64_decode_iff s d : base64_decode s = Some d <-> s = base64_encode d.
Proof.
  unfold base64_decode. split.
  - destruct (negb _); [done|]. intros H.
    apply (decode_quads_inv (length s)) in H as (d' & -> & ->); done.
  - intros ->. rewrite (length_encode (length d)) by done. simpl.
    by apply (decode_encode_quads (length d)).
Qed.

Example base64_examples :
  base64_encode "Man" = str "TWFu" /\ base64_encode "M" = str "TQ==" /\
  base64_decode "TR==" = None /\ base64_decode "T=Fu" = None.
Proof. by vm_compute. Qed.
