(* ===== verification/Compat.v ===== *)
(** * The JSON value codec

    The compatibility half of [src/serialize.cpp]: the numeric helpers over
    [std::from_chars] and [std::to_chars], [json_encode_fields]/[json_encode_cell]
    and the [JsonDecoder].

    Doubles are 64-bit patterns.  [from_chars] rounds the decimal token correctly
    (to nearest, ties to even) and reports tokens beyond the finite range or
    below the least subnormal; [to_chars] is the shortest digit string that reads
    back, in the shorter of fixed and scientific notation. *)

From S2P Require Import Prelude Schema Value Gate Utf8 Binary Native Json Base64.

(** ** Integers in text *)

(** [std::from_chars] over the whole of [text]: decimal digits, at least one. *)
Fixpoint decimal (s : bytes) (acc : Z) : option Z :=
  match s with
  | [] => Some acc
  | c :: s => if is_digit c then decimal s (10 * acc + (octet c - 48)) else None
  end.
Definition decimal1 (s : bytes) : option Z :=
  match s with [] => None | _ => decimal s 0 end.

Definition in_range (lo hi : Z) (v : Z) : option Z :=
  if (lo <=? v) && (v <=? hi) then Some v else None.

Definition json_parse_int64 (text : bytes) : option Z :=
  match text with
  | [] => None
  | c :: text' =>
      if bool_decide (c = "-"%char)
      then v ← decimal1 text'; in_range (- 2 ^ 63) (2 ^ 63 - 1) (- v)
      else v ← decimal1 text; in_range (- 2 ^ 63) (2 ^ 63 - 1) v
  end.

Definition json_parse_u32 (text : bytes) : option Z :=
  v ← decimal1 text; in_range 0 (2 ^ 32 - 1) v.

(** The hexadecimal loop of [json_parse_content_id]. *)
Fixpoint hex_value (text : bytes) (v : Z) : option Z :=
  match text with
  | [] => Some v
  | ch :: text =>
      match hex_digit ch with
      | Some d => hex_value text (Z.lor (u64 (Z.shiftl v 4)) d)
      | None => None
      end
  end.

Definition json_parse_content_id (text : bytes) : option Z :=
  let text := match text with
              | z :: x :: rest =>
                  if bool_decide (z = "0"%char) &&
                     (bool_decide (x = "x"%char) || bool_decide (x = "X"%char))
                  then rest else text
              | _ => text
              end in
  if bool_decide (text = []) || (16 <? length text)%nat then None else hex_value text 0.

Definition format_content_id (id : Z) : bytes :=
  str "0x" ++ map (fun shift => hex_char (Z.land (Z.shiftr id shift) 0xF))
    [60; 56; 52; 48; 44; 40; 36; 32; 28; 24; 20; 16; 12; 8; 4; 0].

(** [std::to_chars] of a 64-bit signed integer. *)
Definition to_chars_int (v : Z) : bytes :=
  if v <? 0 then "-"%char :: to_string (- v) else to_string v.

(** ** Doubles in text *)

(** [num / den] to the nearest integer, ties to even. *)
Definition round_half_even (num den : Z) : Z :=
  let q := num / den in
  let r := num mod den in
  if 2 * r <? den then q else if 2 * r >? den then q + 1 else if Z.even q then q else q + 1.

(** The magnitude bits of the double nearest to the positive ratio [num / den];
    [None] when it overflows or rounds to zero. *)
Definition binary64_of_ratio (num den : Z) : option Z :=
  let e0 := Z.log2 num - Z.log2 den in
  let below := if e0 >=? 0 then num <? den * 2 ^ e0 else num * 2 ^ (- e0) <? den in
  let lg := if below then e0 - 1 else e0 in
  let e := Z.max (lg - 52) (-1074) in
  let m := if e >=? 0 then round_half_even num (den * 2 ^ e)
           else round_half_even (num * 2 ^ (- e)) den in
  let b := (e + 1074) * 2 ^ 52 + m in
  if (m =? 0) || (b >=? 0x7FF0000000000000) then None else Some b.

(** The parts of a number token: sign, digits before and after the point, and
    the exponent. *)
Fixpoint span_digits (s : bytes) : bytes * bytes :=
  match s with
  | c :: s' => if is_digit c then let '(d, r) := span_digits s' in (c :: d, r) else ([], s)
  | [] => ([], [])
  end.

Definition token_parts (text : bytes) : bool * bytes * bytes * Z :=
  let '(neg, s) := match text with
                   | c :: s => if bool_decide (c = "-"%char) then (true, s) else (false, text)
                   | [] => (false, [])
                   end in
  let '(int, s) := span_digits s in
  let '(frac, s) := match s with
                    | c :: s' => if bool_decide (c = "."%char) then span_digits s' else ([], s)
                    | [] => ([], [])
                    end in
  let exp := match s with
             | _ :: c :: s' =>
                 if bool_decide (c = "-"%char) then - default 0 (decimal s' 0)
                 else if bool_decide (c = "+"%char) then default 0 (decimal s' 0)
                 else default 0 (decimal (c :: s') 0)
             | _ => 0
             end in
  (neg, int, frac, exp).

(** [std::from_chars] of a [double].  The text is a number token of the JSON
    reader ([parse_json_total]); what else [from_chars] accepts, the spellings of
    infinities and NaNs, never reaches it. *)
Definition json_parse_double (text : bytes) : option Z :=
  match text with
  | [] => None
  | _ =>
      let '(neg, int, frac, exp) := token_parts text in
      mant ← decimal (int ++ frac) 0;
      let k := exp - zlen frac in
      mag ← (if mant =? 0 then Some 0
             else if k >=? 0 then binary64_of_ratio (mant * 10 ^ k) 1
             else binary64_of_ratio mant (10 ^ (- k)));
      Some (if neg : bool then mag + 2 ^ 63 else mag)
  end.

(** The ratio a non-zero finite magnitude stands for. *)
Definition ratio_of_binary64 (mag : Z) : Z * Z :=
  let ex := mag / 2 ^ 52 in
  let man := mag mod 2 ^ 52 in
  let '(m, e) := if ex =? 0 then (man, -1074) else (man + 2 ^ 52, ex - 1075) in
  if e >=? 0 then (m * 2 ^ e, 1) else (m, 2 ^ (- e)).

(** [c * 10 ^ k] as a ratio. *)
Definition scaled (c k : Z) : Z * Z :=
  if k >=? 0 then (c * 10 ^ k, 1) else (c, 10 ^ (- k)).

Definition reads_as (c k mag : Z) : bool :=
  bool_decide (uncurry binary64_of_ratio (scaled c k) = Some mag).

(** The greatest [e] among four candidates with [10 ^ e <= num / den]. *)
Definition log10_floor (num den : Z) : Z :=
  let t := (Z.log2 num - Z.log2 den) * 30103 / 100000 - 1 in
  let le e := if e >=? 0 then den * 10 ^ e <=? num else den <=? num * 10 ^ (- e) in
  if le (t + 3) then t + 3 else if le (t + 2) then t + 2 else if le (t + 1) then t + 1 else t.

(** The fewest digits, from [n] on, that read back: digits and exponent. *)
Fixpoint shortest (fuel : nat) (n : Z) (mag num den e10 : Z) : option (Z * Z) :=
  match fuel with
  | O => None
  | S fuel =>
      let k := e10 - n + 1 in
      let '(a, b) := if k >=? 0 then (num, den * 10 ^ k) else (num * 10 ^ (- k), den) in
      let f := a / b in
      let r := a mod b in
      match reads_as f k mag, reads_as (f + 1) k mag with
      | true, true =>
          Some (if 2 * r <? b then f else if 2 * r >? b then f + 1
                else if Z.even f then f else f + 1, k)
      | true, false => Some (f, k)
      | false, true => Some (f + 1, k)
      | false, false => shortest fuel (n + 1) mag num den e10
      end
  end.

Fixpoint strip_zeros (fuel : nat) (c k : Z) : Z * Z :=
  match fuel with
  | O => (c, k)
  | S fuel => if c mod 10 =? 0 then strip_zeros fuel (c / 10) (k + 1) else (c, k)
  end.

(** Decimal digits of any integer a [double] can be. *)
Definition big_digits (n : Z) : bytes := dec_digits 320 n [].

Definition scientific (ds : bytes) (e : Z) : bytes :=
  let ex := big_digits (Z.abs e) in
  match ds with
  | d :: rest =>
      d :: (if bool_decide (rest = []) then [] else "."%char :: rest) ++
      "e"%char :: (if e <? 0 then "-"%char else "+"%char) ::
      (if (length ex <? 2)%nat then "0"%char :: ex else ex)
  | [] => []
  end.

Definition fixed (ds : bytes) (k num den : Z) : bytes :=
  let n := zlen ds in
  if k >=? 0 then big_digits (num / den)
  else if n + k >? 0
  then take (Z.to_nat (n + k)) ds ++ "."%char :: drop (Z.to_nat (n + k)) ds
  else str "0." ++ replicate (Z.to_nat (- (n + k))) "0"%char ++ ds.

(** [std::to_chars] of a finite [double]; seventeen digits always read back. *)
Definition to_chars_double (bits : Z) : bytes :=
  let mag := bits mod 2 ^ 63 in
  let text :=
    if mag =? 0 then str "0"
    else
      let '(num, den) := ratio_of_binary64 mag in
      match shortest 17 1 mag num den (log10_floor num den) with
      | None => []
      | Some (c, k) =>
          let '(c, k) := strip_zeros 20 c k in
          let ds := big_digits c in
          let s := scientific ds (k + zlen ds - 1) in
          let f := fixed ds k num den in
          if (length f <=? length s)%nat then f else s
      end in
  if bits >=? 2 ^ 63 then "-"%char :: text else text.

Example doubles :
  json_parse_double "0.1" = Some 0x3FB999999999999A /\
  json_parse_double "-2.5e-1" = Some 0xBFD0000000000000 /\
  json_parse_double "5e-324" = Some 1 /\ json_parse_double "2e-324" = None /\
  json_parse_double "1.7976931348623157e308" = Some 0x7FEFFFFFFFFFFFFF /\
  json_parse_double "1.8e308" = None /\
  to_chars_double 0x3FB999999999999A = str "0.1" /\
  to_chars_double 0x4340000000000000 = str "9007199254740992" /\
  to_chars_double 0x7FEFFFFFFFFFFFFF = str "1.7976931348623157e+308" /\
  to_chars_double 1 = str "5e-324" /\ to_chars_double 0x8000000000000000 = str "-0" /\
  to_chars_double 0x44B52D02C7E14AF6 = str "1e+23".
Proof. by vm_compute. Qed.

(** ** Encoder *)

Definition json_encode_int (v : Z) (out : bytes) : bytes :=
  ((out ++ [kQuote]) ++ to_chars_int v) ++ [kQuote].

Definition is_inf_bits (b : Z) : bool := b mod 2 ^ 63 =? 0x7FF0000000000000.

Definition json_encode_float (v : Z) (out : bytes) : bytes :=
  if is_nan_bits v then out ++ kQuote :: str "NaN" ++ [kQuote]
  else if is_inf_bits v
  then out ++ (if v >=? 2 ^ 63 then kQuote :: str "-Infinity" ++ [kQuote]
               else kQuote :: str "Infinity" ++ [kQuote])
  else out ++ to_chars_double v.

Fixpoint json_encode_cell (c : Cell) (out : bytes) {struct c} : bytes :=
  match c with
  | CInt v => json_encode_int v out
  | CFloat b => json_encode_float b out
  | CText s => json_quote s out
  | CBool b => out ++ str (if b then "true" else "false")
  | CBytes b => json_quote (base64_encode b) out
  | CMessage (Some nested) => json_encode_fields nested out
  | CMessage None => out ++ str "null"
  | CList a =>
      (fix each (first : bool) (a : list Cell) (out : bytes) : bytes :=
         match a with
         | [] => out
         | e :: a =>
             each false a (json_encode_cell e (if first then out else out ++ [","%char]))
         end) true a (out ++ ["["%char]) ++ ["]"%char]
  end
with json_encode_fields (v : Value) (out : bytes) {struct v} : bytes :=
  match v with
  | mkValue schema slots =>
      (fix each (first : bool) (slots : list (option Cell)) (fields : list Field) (out : bytes)
         : bytes :=
         match fields, slots with
         | f :: fields, o :: slots =>
             match o with
             | None => each first slots fields out
             | Some c =>
                 let out := if first then out else out ++ [","%char] in
                 each false slots fields
                   (json_encode_cell c (json_quote (fname f) out ++ [":"%char]))
             end
         | _, _ => out
         end) true slots (Schema_fields schema) (out ++ ["{"%char]) ++ ["}"%char]
  end.

(** ** Decoder *)

Definition json_type_name (v : JsonValue) : bytes :=
  match v with
  | JNull => "json:null" | JBool _ => "json:bool" | JNumber _ => "json:number"
  | JString _ => "json:string" | JArray _ => "json:array" | JObject _ => "json:object"
  end.

Definition kInfinityBits : Z := 0x7FF0000000000000.

(** [stop()]: the first error ends a decode that does not collect all. *)
Definition stop (all : bool) (errs : list Error) : bool :=
  negb all && negb (bool_decide (length errs = 0%nat)).

Definition push (errs : list Error) (kind : ErrorKind) (path expected actual detail : bytes)
  : list Error := errs ++ [mkError kind path expected actual detail].

Section decoder.
Context (all : bool).

(** The leading loop of [fields]: members no field declares.  Its flag says
    that [fields] returned. *)
Fixpoint unknown_members (door : Schema) (members : list (bytes * JsonValue)) (base : bytes)
    (errs : list Error) : bool * list Error :=
  match members with
  | [] => (false, errs)
  | m :: members =>
      if stop all errs then (true, errs)
      else match Schema_find door m.1 with
           | Some _ => unknown_members door members base errs
           | None =>
               unknown_members door members base
                 (push errs UnknownField (join_path base m.1) "(a declared field)" m.1
                    "the door does not declare this field")
           end
  end.

Definition members_of (v : JsonValue) : list (bytes * JsonValue) :=
  match v with JObject members => members | _ => [] end.

Fixpoint json_cell (t : TypeRef) (node : JsonValue) (path : bytes) (errs : list Error) {struct t}
    : result (list Error * option Cell) :=
  match t with
  | mkTypeRef k m e =>
      let mismatch expected :=
        Ok (push errs TypeMismatch path expected (json_type_name node) [], None) in
      match k with
      | KInt =>
          match node with
          | JString text =>
              match json_parse_int64 text with
              | Some v => Ok (errs, Some (CInt v))
              | None => Ok (push errs MalformedField path "Int" "json:string"
                              "not a base-10 64-bit integer", None)
              end
          | _ => mismatch (str "Int")
          end
      | KFloat =>
          match node with
          | JNumber text =>
              match json_parse_double text with
              | Some d => Ok (errs, Some (CFloat d))
              | None => Ok (push errs MalformedField path "Float" "json:number"
                              "unparseable number", None)
              end
          | JString text =>
              if bool_decide (text = str "NaN") then Ok (errs, Some (CFloat kCanonicalNaNBits))
              else if bool_decide (text = str "Infinity")
              then Ok (errs, Some (CFloat kInfinityBits))
              else if bool_decide (text = str "-Infinity")
              then Ok (errs, Some (CFloat (kInfinityBits + 2 ^ 63)))
              else Ok (push errs MalformedField path "Float" "json:string"
                         "not a number or NaN/Infinity token", None)
          | _ => mismatch (str "Float")
          end
      | KText =>
          match node with
          | JString text =>
              if valid_utf8 text then Ok (errs, Some (CText text))
              else Ok (push errs MalformedField path "Text" "json:string" "invalid UTF-8", None)
          | _ => mismatch (str "Text")
          end
      | KBool =>
          match node with
          | JBool b => Ok (errs, Some (CBool b))
          | _ => mismatch (str "Bool")
          end
      | KBytes =>
          match node with
          | JString text =>
              match base64_decode text with
              | Some b => Ok (errs, Some (CBytes b))
              | None => Ok (push errs MalformedField path "Bytes" "json:string"
                              "invalid base64", None)
              end
          | _ => mismatch (str "Bytes")
          end
      | KMessage =>
          match node with
          | JObject _ =>
              nested ← Value_new m;
              match m with
              | None => UB
              | Some s =>
                  '(errs, nested) ← json_fields s node nested path errs;
                  Ok (errs, Some (CMessage (Some nested)))
              end
          | _ => l ← type_label t; mismatch l
          end
      | KList =>
          match node with
          | JArray items =>
              (fix each (i : Z) (items : list JsonValue) (arr : list Cell) (errs : list Error)
                 : result (list Error * option Cell) :=
                 match items with
                 | [] => Ok (errs, Some (CList arr))
                 | item :: items =>
                     if stop all errs then Ok (errs, Some (CList arr)) else
                     match e with
                     | None => UB
                     | Some el =>
                         '(errs, ec) ← json_cell el item (index_path path i) errs;
                         each (i + 1) items
                           (match ec with Some c => arr ++ [c] | None => arr end) errs
                     end
                 end) 0 items [] errs
          | _ => l ← type_label t; mismatch l
          end
      end
  end
with json_fields (door : Schema) (obj : JsonValue) (out : Value) (base : bytes)
    (errs : list Error) {struct door} : result (list Error * Value) :=
  match door with
  | mkSchema _ _ fields _ =>
      let '(returned, errs) := unknown_members door (members_of obj) base errs in
      if returned then Ok (errs, out) else
      (fix each (fields : list Field) (out : Value) (errs : list Error)
         : result (list Error * Value) :=
         match fields with
         | [] => Ok (errs, out)
         | f :: fields =>
             if stop all errs then Ok (errs, out) else
             match JsonValue_find obj (fname f) with
             | None => each fields out errs
             | Some node =>
                 '(errs, c) ← json_cell (ftype f) node (join_path base (fname f)) errs;
                 match c with
                 | Some c => out ← Value_set out (fname f) c; each fields out errs
                 | None => each fields out errs
                 end
             end
         end) fields out errs
  end.
End decoder.

(** ** The tree of a value, and the encoder as its text *)

Definition float_tree (b : Z) : JsonValue :=
  if is_nan_bits b then JString "NaN"
  else if is_inf_bits b then JString (if b >=? 2 ^ 63 then "-Infinity" else "Infinity")
  else JNumber (to_chars_double b).

Fixpoint cell_tree (c : Cell) : JsonValue :=
  match c with
  | CInt v => JString (to_chars_int v)
  | CFloat b => float_tree b
  | CText s => JString s
  | CBool b => JBool b
  | CBytes b => JString (base64_encode b)
  | CMessage (Some v) => value_tree v
  | CMessage None => JNull
  | CList a => JArray (map cell_tree a)
  end
with value_tree (v : Value) : JsonValue :=
  match v with
  | mkValue schema slots =>
      JObject
        ((fix each (slots : list (option Cell)) (fields : list Field) : list (bytes * JsonValue) :=
            match fields, slots with
            | f :: fields, o :: slots =>
                match o with
                | None => each slots fields
                | Some c => (fname f, cell_tree c) :: each slots fields
                end
            | _, _ => []
            end) slots (Schema_fields schema))
  end.

Fixpoint members_tree (slots : list (option Cell)) (fields : list Field) : list (bytes * JsonValue) :=
  match fields, slots with
  | f :: fields, o :: slots =>
      match o with
      | None => members_tree slots fields
      | Some c => (fname f, cell_tree c) :: members_tree slots fields
      end
  | _, _ => []
  end.

Lemma value_tree_eq s slots : value_tree (mkValue s slots) = JObject (members_tree slots (Schema_fields s)).
Proof. reflexivity. Qed.

Fixpoint encode_items (first : bool) (a : list Cell) (out : bytes) : bytes :=
  match a with
  | [] => out
  | e :: a => encode_items false a (json_encode_cell e (if first then out else out ++ [","%char]))
  end.

Fixpoint encode_members (first : bool) (slots : list (option Cell)) (fields : list Field)
    (out : bytes) : bytes :=
  match fields, slots with
  | f :: fields, o :: slots =>
      match o with
      | None => encode_members first slots fields out
      | Some c =>
          let out := if first then out else out ++ [","%char] in
          encode_members false slots fields (json_encode_cell c (json_quote (fname f) out ++ [":"%char]))
      end
  | _, _ => out
  end.

Lemma json_encode_list a out :
  json_encode_cell (CList a) out = encode_items true a (out ++ ["["%char]) ++ ["]"%char].
Proof. done. Qed.

Lemma json_encode_fields_eq s slots out :
  json_encode_fields (mkValue s slots) out =
  encode_members true slots (Schema_fields s) (out ++ ["{"%char]) ++ ["}"%char].
Proof.
  reflexivity.
Qed.

(** Characters that [json_quote] leaves alone. *)
Definition plain (s : bytes) : Prop := Forall (fun c => quote_char c = [c]) s.

Lemma quoted_plain s : plain s -> quoted s = kQuote :: s ++ [kQuote].
Proof.
  intros Hs. unfold quoted. do 2 f_equal. induction Hs as [|c s Hc _ IH]; [done|].
  simpl. by rewrite Hc, IH.
Qed.

Lemma dec_digits_digits fuel n acc :
  0 <= n -> Forall (fun c => is_digit c = true) acc ->
  Forall (fun c => is_digit c = true) (dec_digits fuel n acc).
Proof.
  revert n acc. induction fuel as [|fuel IH]; intros n acc Hn Hacc; [done|]. simpl.
  assert (is_digit (chr (48 + n mod 10)) = true).
  { apply is_digit_octet. pose proof (Z.mod_pos_bound n 10). rewrite octet_chr, Z.mod_small; lia. }
  case_match; [by constructor|]. apply IH; [apply Z.div_pos; lia|by constructor].
Qed.

Lemma digit_plain c : is_digit c = true -> quote_char c = [c].
Proof. by destruct c as [[] [] [] [] [] [] [] []]. Qed.

Lemma to_chars_int_plain v : plain (to_chars_int v).
Proof.
  unfold to_chars_int, plain. destruct (Z.ltb_spec v 0).
  - constructor; [done|]. eapply Forall_impl; [|apply digit_plain]. by apply dec_digits_digits; [lia|].
  - eapply Forall_impl; [|apply digit_plain]. by apply dec_digits_digits.
Qed.

Lemma encode_items_text a first out :
  Forall (fun c => forall out, json_encode_cell c out = out ++ json_text (cell_tree c)) a ->
  encode_items first a out ++ ["]"%char] =
  out ++ match first, map cell_tree a with
         | true, v :: items => json_text v ++ items_tail items
         | _, items => items_tail items
         end.
Proof.
  intros Ha. revert first out. induction Ha as [|c a Hc _ IH]; intros first out.
  { by destruct first. }
  cbn [encode_items map]. rewrite IH, Hc.
  destruct first; cbn [items_tail]; by rewrite <-!app_assoc.
Qed.

Lemma encode_members_text slots first fields out :
  Forall (fun o => forall c, o = Some c -> forall out,
    json_encode_cell c out = out ++ json_text (cell_tree c)) slots ->
  encode_members first slots fields out ++ ["}"%char] =
  out ++ match first, members_tree slots fields with
         | true, (k, v) :: members => quoted k ++ ":"%char :: json_text v ++ members_tail members
         | _, members => members_tail members
         end.
Proof.
  intros Hs. revert first fields out. induction Hs as [|o slots Ho _ IH]; intros first [|f fields] out;
    try (by destruct first). cbn [encode_members members_tree].
  destruct o as [c|]; [|apply IH]. rewrite IH, (Ho c eq_refl), json_quote_spec.
  destruct first; cbn [members_tail]; by rewrite <-!app_assoc.
Qed.

Lemma json_encode_text :
  (forall c out, json_encode_cell c out = out ++ json_text (cell_tree c)) /\
  (forall v out, json_encode_fields v out = out ++ json_text (value_tree v)).
Proof.
  apply cell_value_ind.
  - intros z out. cbn [json_encode_cell cell_tree json_text]. unfold json_encode_int.
    rewrite quoted_plain by apply to_chars_int_plain. by rewrite <-!app_assoc.
  - intros b out. cbn [json_encode_cell cell_tree]. unfold json_encode_float, float_tree.
    destruct (is_nan_bits b); [done|]. destruct (is_inf_bits b); [|done]. by destruct (b >=? 2 ^ 63).
  - intros s out. apply json_quote_spec.
  - done.
  - intros b out. apply json_quote_spec.
  - done.
  - intros v IH out. apply IH.
  - intros a IH out. rewrite json_encode_list, encode_items_text by done. rewrite <-app_assoc.
    cbn [cell_tree]. destruct (map cell_tree a) as [|v items]; [done|]. by rewrite json_text_array.
  - intros s slots IH out. rewrite json_encode_fields_eq, encode_members_text, value_tree_eq by done.
    rewrite <-app_assoc. destruct (members_tree slots (Schema_fields s)) as [|[k v] members]; [done|].
    by rewrite json_text_object.
Qed.

(** ** Numbers read back *)

Lemma digit_value d : 0 <= d < 10 ->
  is_digit (chr (48 + d)) = true /\ octet (chr (48 + d)) - 48 = d.
Proof. intros Hd. rewrite is_digit_octet, octet_chr, Z.mod_small by lia. lia. Qed.

Lemma decimal_dec_digits fuel : forall n acc,
  0 <= n < 10 ^ Z.of_nat fuel -> decimal (dec_digits fuel n acc) 0 = decimal acc n.
Proof.
  induction fuel as [|fuel IH]; intros n acc Hn.
  { change (10 ^ Z.of_nat 0) with 1 in Hn. by replace n with 0 by lia. }
  simpl dec_digits. destruct (digit_value (n mod 10)) as [Hd Hv]; [apply Z.mod_pos_bound; lia|].
  destruct (Z.ltb_spec n 10).
  - cbn [decimal]. rewrite Hd, Hv. by rewrite Z.mod_small by lia.
  - rewrite IH.
    + cbn [decimal]. rewrite Hd, Hv. f_equal. pose proof (Z.div_mod n 10). lia.
    + rewrite Nat2Z.inj_succ, Z.pow_succ_r in Hn by lia.
      split; [apply Z.div_pos; lia|apply Z.div_lt_upper_bound; lia].
Qed.

Lemma dec_digits_nonempty fuel n acc : acc <> [] -> dec_digits fuel n acc <> [].
Proof.
  revert n acc. induction fuel as [|fuel IH]; intros n acc Hacc; [done|]. simpl.
  case_match; [done|]. by apply IH.
Qed.

Lemma to_string_nonempty n : to_string n <> [].
Proof.
  unfold to_string. assert (forall f, dec_digits (S f) n [] <> []) as H; [|apply H].
  intros f. simpl. case_match; [done|]. by apply dec_digits_nonempty.
Qed.

Lemma decimal_to_string n : 0 <= n < 10 ^ 20 -> decimal1 (to_string n) = Some n.
Proof.
  intros Hn. unfold decimal1. pose proof (to_string_nonempty n) as Hne.
  destruct (to_string n) as [|c s] eqn:E; [done|]. rewrite <-E. by apply decimal_dec_digits.
Qed.

Lemma to_string_head n : 0 <= n -> exists c s, to_string n = c :: s /\ is_digit c = true.
Proof.
  intros Hn. pose proof (dec_digits_digits 20 n [] Hn ltac:(constructor)) as Hd.
  change (dec_digits 20 n []) with (to_string n) in Hd. pose proof (to_string_nonempty n) as Hne.
  destruct (to_string n) as [|c s]; [done|]. apply Forall_cons in Hd as [Hc _]. eauto.
Qed.

Lemma in_range_Some lo hi v : lo <= v <= hi -> in_range lo hi v = Some v.
Proof.
  intros H. unfold in_range. by rewrite (proj2 (Z.leb_le _ _)), (proj2 (Z.leb_le _ _)) by lia.
Qed.

Lemma json_parse_int64_to_chars v : in_i64 v -> json_parse_int64 (to_chars_int v) = Some v.
Proof.
  unfold in_i64, to_chars_int. intros Hv. destruct (Z.ltb_spec v 0).
  - cbn [json_parse_int64]. rewrite bool_decide_true by done.
    rewrite decimal_to_string by lia. simpl. rewrite Z.opp_involutive. by apply in_range_Some; lia.
  - destruct (to_string_head v ltac:(lia)) as (c & s & E & Hc).
    unfold json_parse_int64. rewrite E. rewrite bool_decide_false by (by intros ->).
    rewrite <-E, decimal_to_string by lia. simpl. by apply in_range_Some; lia.
Qed.

Lemma json_parse_u32_to_string v : in_u32 v -> json_parse_u32 (to_string v) = Some v.
Proof.
  unfold in_u32, json_parse_u32. intros Hv. rewrite decimal_to_string by lia. simpl.
  by apply in_range_Some; lia.
Qed.

Lemma hex_digit_char d : 0 <= d < 16 -> hex_digit (hex_char d) = Some d.
Proof.
  intros Hd. assert (d = 0 \/ d = 1 \/ d = 2 \/ d = 3 \/ d = 4 \/ d = 5 \/ d = 6 \/ d = 7 \/ d = 8 \/
    d = 9 \/ d = 10 \/ d = 11 \/ d = 12 \/ d = 13 \/ d = 14 \/ d = 15) as H by lia.
  repeat (destruct H as [->|H]; [done|]). by subst.
Qed.

Lemma hex_value_step id shift rest :
  in_u64 id -> 0 <= shift -> shift < 64 ->
  hex_value (hex_char (Z.land (Z.shiftr id shift) 0xF) :: rest) (Z.shiftr id (shift + 4)) =
  hex_value rest (Z.shiftr id shift).
Proof.
  intros Hid Hs Hs'. cbn [hex_value]. change 0xF with (Z.ones 4). rewrite Z.land_ones by lia.
  rewrite hex_digit_char by (apply Z.mod_pos_bound; lia).
  assert (u64 (Z.shiftl (Z.shiftr id (shift + 4)) 4) = Z.shiftl (Z.shiftr id (shift + 4)) 4) as ->.
  { apply u64_small. unfold in_u64 in *. rewrite Z.shiftl_mul_pow2, Z.shiftr_div_pow2 by lia.
    assert (0 < 2 ^ shift) by (apply Z.pow_pos_nonneg; lia).
    rewrite Z.pow_add_r by lia. change (2 ^ 4) with 16.
    pose proof (Z.div_pos id (2 ^ shift * 16) ltac:(lia) ltac:(lia)).
    pose proof (Z.mul_div_le id (2 ^ shift * 16) ltac:(lia)). nia. }
  f_equal. rewrite Z.lor_comm, lor_shiftl_add by (lia || (apply Z.mod_pos_bound; lia)).
  rewrite <-Z.shiftr_shiftr by lia. rewrite (Z.shiftr_div_pow2 (Z.shiftr id shift) 4) by lia.
  pose proof (Z.div_mod (Z.shiftr id shift) (2 ^ 4)). lia.
Qed.

Lemma json_parse_content_id_format id :
  in_u64 id -> json_parse_content_id (format_content_id id) = Some id.
Proof.
  intros Hid. unfold format_content_id. cbn [map].
  match goal with |- json_parse_content_id (str "0x" ++ ?l) = _ =>
    change (json_parse_content_id (str "0x" ++ l)) with (hex_value l 0) end.
  assert (0 = Z.shiftr id (60 + 4)) as E.
  { symmetry. apply Z.shiftr_eq_0; unfold in_u64 in Hid; [lia|].
    destruct (Z.eq_dec id 0) as [->|]; [done|]. apply Z.log2_lt_pow2; lia. }
  match goal with |- hex_value ?l 0 = _ =>
    transitivity (hex_value l (Z.shiftr id (60 + 4))); [by rewrite <-E|] end.
  clear E. do 16 (rewrite hex_value_step by (done || lia); cbn [Z.add]).
  by rewrite Z.shiftr_0_r.
Qed.

(** ** The decoder's loops, named *)

Fixpoint json_list (all : bool) (el : TypeRef) (path : bytes) (i : Z) (items : list JsonValue)
    (arr : list Cell) (errs : list Error) : result (list Error * option Cell) :=
  match items with
  | [] => Ok (errs, Some (CList arr))
  | item :: items =>
      if stop all errs then Ok (errs, Some (CList arr)) else
      '(errs, ec) ← json_cell all el item (index_path path i) errs;
      json_list all el path (i + 1) items (match ec with Some c => arr ++ [c] | None => arr end) errs
  end.

Fixpoint json_door_fields (all : bool) (obj : JsonValue) (base : bytes) (fields : list Field)
    (out : Value) (errs : list Error) : result (list Error * Value) :=
  match fields with
  | [] => Ok (errs, out)
  | f :: fields =>
      if stop all errs then Ok (errs, out) else
      match JsonValue_find obj (fname f) with
      | None => json_door_fields all obj base fields out errs
      | Some node =>
          '(errs, c) ← json_cell all (ftype f) node (join_path base (fname f)) errs;
          match c with
          | Some c => out ← Value_set out (fname f) c; json_door_fields all obj base fields out errs
          | None => json_door_fields all obj base fields out errs
          end
      end
  end.

Lemma json_cell_list all el items path errs :
  json_cell all (mkTypeRef KList None (Some el)) (JArray items) path errs =
  json_list all el path 0 items [] errs.
Proof.
  cbn [json_cell]. match goal with |- ?F _ _ _ _ = _ =>
    enough (forall items i arr errs, F i items arr errs = json_list all el path i items arr errs) as H
      by apply H end.
  intros its. induction its as [|x its IH]; intros i arr es; [done|]. cbn [json_list].
  destruct (stop all es); [done|].
  destruct (json_cell all el x _ es) as [[es' c]| |]; cbn [mbind result_bind]; done.
Qed.

Lemma json_fields_eq all n ver fields cid obj out base errs :
  json_fields all (mkSchema n ver fields cid) obj out base errs =
  let '(returned, errs) := unknown_members all (mkSchema n ver fields cid) (members_of obj) base errs in
  if returned then Ok (errs, out) else json_door_fields all obj base fields out errs.
Proof.
  cbn [json_fields]. destruct (unknown_members all _ _ base errs) as [[] es]; [done|].
  match goal with |- ?F _ _ _ = _ =>
    enough (forall fs out errs, F fs out errs = json_door_fields all obj base fs out errs) as H
      by apply H end.
  intros fs. induction fs as [|f fs IH]; intros o es'; [done|]. cbn [json_door_fields].
  destruct (stop all es'); [done|]. destruct (JsonValue_find obj (fname f)); [|done].
  destruct (json_cell all (ftype f) _ _ es') as [[es'' [c|]]| |]; cbn [mbind result_bind]; try done.
  destruct (Value_set o (fname f) c); cbn [mbind result_bind]; done.
Qed.

(** ** Totality

    A decode returns; errors are only appended; what it fills is a value of the
    door with one slot per field. *)

Definition appends {A} (errs : list Error) (P : A -> Prop) (m : result (list Error * A)) : Prop :=
  exists es a, m = Ok (errs ++ es, a) /\ P a.

Lemma appends_ok {A} errs (P : A -> Prop) a : P a -> appends errs P (Ok (errs, a)).
Proof. intros H. exists [], a. by rewrite app_nil_r. Qed.

Lemma appends_push {A} errs (P : A -> Prop) k p e a d x :
  P x -> appends errs P (Ok (push errs k p e a d, x)).
Proof. intros H. by exists [mkError k p e a d], x. Qed.

Lemma appends_bind {A B} errs (P : A -> Prop) (Q : B -> Prop) m (f : list Error * A -> result (list Error * B)) :
  appends errs P m -> (forall errs' a, P a -> appends errs' Q (f (errs', a))) ->
  appends errs Q (m ≫= f).
Proof.
  intros (es & a & -> & Ha) Hf. destruct (Hf (errs ++ es) a Ha) as (es' & b & E & Hb).
  exists (es ++ es'), b. simpl. by rewrite E, <-app_assoc.
Qed.

Lemma unknown_members_appends all door members base errs :
  exists r es, unknown_members all door members base errs = (r, errs ++ es).
Proof.
  revert errs. induction members as [|m members IH]; intros errs; simpl.
  { exists false, []. by rewrite app_nil_r. }
  destruct (stop all errs); [exists true, []; by rewrite app_nil_r|].
  destruct (Schema_find door m.1); [apply IH|].
  match goal with |- context [push ?a ?b ?c ?d ?e ?f] => destruct (IH (push a b c d e f)) as (r & es & ->) end.
  exists r. unfold push. rewrite <-app_assoc. eauto.
Qed.

Definition filled (door : Schema) (v : Value) : Prop := Value_schema v = door /\ aligned v.

Lemma json_decode_appends all :
  (forall t, wf_type t -> forall node path errs,
     appends errs (fun _ => True) (json_cell all t node path errs)) /\
  (forall door, wf_schema door -> forall obj out base errs, filled door out ->
     appends errs (filled door) (json_fields all door obj out base errs)).
Proof.
  apply wf_type_schema_ind.
  - intros k [Hm Hl] node path errs.
    destruct k; try done; cbn [json_cell]; destruct node; try (by apply appends_push);
      repeat case_match; by (apply appends_push || apply appends_ok).
  - intros s Hs IH node path errs. cbn [json_cell]. cbn [type_label deref mbind result_bind].
    destruct node; try (by apply appends_push). cbn [Value_new mbind result_bind].
    eapply appends_bind; [apply IH|intros errs' v _; by apply appends_ok].
    split; [done|]. unfold aligned. simpl. by rewrite length_replicate.
  - intros el Hel IH node path errs.
    destruct node as [| | | |items|]; [..|rewrite json_cell_list|];
      cbn [json_cell]; rewrite ?type_label_ok by (by constructor); cbn [mbind result_bind];
      try (by apply appends_push).
    generalize 0, (@nil Cell). revert errs. induction items as [|x items IHi]; intros errs i arr;
      [by apply appends_ok|]. cbn [json_list]. destruct (stop all errs); [by apply appends_ok|].
    eapply appends_bind; [apply IH|]. intros errs' ec _. apply IHi.
  - intros n ver fs cid Hwf Hfs obj out base errs Hout. rewrite json_fields_eq.
    destruct (unknown_members_appends all (mkSchema n ver fs cid) (members_of obj) base errs)
      as (r & es & ->).
    assert (forall errs', appends errs' (filled (mkSchema n ver fs cid)) (if r
      then Ok (errs', out) else json_door_fields all obj base fs out errs')) as Hrest.
    2: { destruct (Hrest (errs ++ es)) as (es' & v & -> & Hv). exists (es ++ es'), v.
         by rewrite <-app_assoc. }
    intros errs'. destruct r; [by apply appends_ok|].
    assert (fs ⊆ fs) as Hsub by done. revert Hsub. generalize fs at 1 4 as todo.
    intros todo. revert out errs' Hout. induction todo as [|f todo IH]; intros out errs' Hout Hsub;
      [by apply appends_ok|].
    cbn [json_door_fields]. destruct (stop all errs'); [by apply appends_ok|].
    assert (f ∈ fs) as Hf by (apply Hsub; by left).
    assert (todo ⊆ fs) as Hsub' by (intros g Hg; apply Hsub; by right).
    destruct (JsonValue_find obj (fname f)) as [node|]; [|by apply IH].
    rewrite Forall_forall in Hfs. eapply appends_bind; [by apply Hfs|].
    intros errs'' [c|] _; [|by apply IH]. destruct Hout as [Hs Ha].
    destruct (Value_set_get out (fname f) c Ha) as [Hset _].
    rewrite Hs in Hset. destruct Hset as (out' & -> & Hs' & Ha' & _); [by apply list_elem_of_fmap_2|].
    cbn [mbind result_bind]. apply IH; [|done]. by split; [rewrite Hs'|].
Qed.

(** ** Round trip through the tree *)

(** The doubles whose text is a JSON number that reads back as the same bits:
    infinities and NaNs by name, the others by [to_chars]. *)
Definition float_ok (b : Z) : Prop :=
  in_u64 b /\
  (is_nan_bits b = true \/ is_inf_bits b = true \/
   number_grammar (to_chars_double b) /\ json_parse_double (to_chars_double b) = Some b).

(** The values the compatibility format carries at a type or a door. *)
Fixpoint compat_cell (t : TypeRef) (c : Cell) {struct t} : Prop :=
  match t with
  | mkTypeRef k m e =>
      match k, c with
      | KInt, CInt v => in_i64 v
      | KFloat, CFloat b => float_ok b
      | KText, CText s => valid_utf8 s = true
      | KBool, CBool _ => True
      | KBytes, CBytes _ => True
      | KMessage, CMessage (Some v) =>
          match m with Some s => compat_value s v | None => False end
      | KList, CList a =>
          match e with Some el => Forall (compat_cell el) a | None => False end
      | _, _ => False
      end
  end
with compat_value (door : Schema) (v : Value) {struct door} : Prop :=
  Value_schema v = door /\
  match door with
  | mkSchema _ _ fields _ =>
      (fix each (fields : list Field) (slots : list (option Cell)) : Prop :=
         match fields, slots with
         | [], [] => True
         | f :: fields, o :: slots =>
             match o with Some c => compat_cell (ftype f) c | None => True end /\ each fields slots
         | _, _ => False
         end) fields (Value_slots v)
  end.

Definition compat_slot (f : Field) (o : option Cell) : Prop :=
  match o with Some c => compat_cell (ftype f) c | None => True end.

Lemma compat_value_slots door v :
  compat_value door v <->
  Value_schema v = door /\ Forall2 compat_slot (Schema_fields door) (Value_slots v).
Proof.
  destruct door as [n ver fields cid]. simpl. apply and_iff_compat_l.
  generalize (Value_slots v). induction fields as [|f fields IH]; intros slots.
  - destruct slots; split; try done. by intros H%Forall2_nil_cons_inv.
  - destruct slots as [|o slots]; [split; [done|by intros H%Forall2_cons_nil_inv]|].
    rewrite Forall2_cons, IH. done.
Qed.

Lemma float_tree_reads all path errs b :
  float_ok b ->
  json_cell all (mkTypeRef KFloat None None) (float_tree b) path errs =
    Ok (errs, Some (CFloat (canonical_bits b))).
Proof.
  intros [Hu Hb]. unfold float_tree, canonical_bits. destruct (is_nan_bits b); [done|].
  destruct (is_inf_bits b) eqn:Ei.
  - unfold is_inf_bits in Ei. bool_to_prop. unfold in_u64 in Hu.
    destruct (Z.geb_spec b (2 ^ 63)).
    + assert (b = kInfinityBits + 2 ^ 63) as -> by (unfold kInfinityBits; euclid). done.
    + assert (b = kInfinityBits) as ->; [|done].
      rewrite Z.mod_small in Ei by lia. done.
  - destruct Hb as [|[|[_ Hb]]]; [done|done|]. cbn [json_cell]. by rewrite Hb.
Qed.

Lemma find_members_tree fields : forall slots i f,
  NoDup (fname <$> fields) -> length slots = length fields -> fields !! i = Some f ->
  find_member (members_tree slots fields) (fname f) = cell_tree <$> mjoin (slots !! i).
Proof.
  assert (forall fields slots name, name ∉ fname <$> fields ->
    find_member (members_tree slots fields) name = None) as Hnone.
  { clear. induction fields as [|f fields IH]; intros [|o slots] name Hn; try done.
    rewrite fmap_cons, not_elem_of_cons in Hn. destruct Hn as [Hne Hn]. cbn [members_tree].
    destruct o as [c|]; [|by apply IH]. cbn [find_member fst]. rewrite bool_decide_false by congruence.
    by apply IH. }
  induction fields as [|g fields IH]; intros [|o slots] i f Hnd Hlen Hi; try done.
  rewrite fmap_cons, NoDup_cons in Hnd. destruct Hnd as [Hg Hnd]. simpl in Hlen.
  cbn [members_tree]. destruct i as [|i]; simpl in Hi.
  - apply (inj Some) in Hi. subst g. destruct o as [c|]; [|by apply Hnone].
    cbn [find_member fst snd]. by rewrite bool_decide_true.
  - assert (fname g <> fname f) as Hne.
    { intros Heq. apply Hg. rewrite Heq. by eapply list_elem_of_fmap_2, list_elem_of_lookup_2. }
    destruct o as [c|]; cbn [find_member fst snd]; rewrite ?bool_decide_false by done;
      apply (IH slots i f); auto; lia.
Qed.

Lemma members_tree_keys slots : forall fields, (members_tree slots fields).*1 `sublist_of` fname <$> fields.
Proof.
  induction slots as [|o slots IH]; intros [|f fields]; try apply sublist_nil_l.
  cbn [members_tree]. destruct o as [c|]; rewrite !fmap_cons; cbn [fst];
    [by apply sublist_skip|by apply sublist_cons].
Qed.

Lemma Schema_find_declared s name :
  name ∈ fname <$> Schema_fields s -> exists f, Schema_find s name = Some f.
Proof.
  unfold Schema_find. induction (Schema_fields s) as [|f fs IH]; [by intros ?%not_elem_of_nil|].
  rewrite fmap_cons, elem_of_cons. simpl. case_bool_decide; [eauto|].
  intros [Heq|Hin]; [by subst|by apply IH].
Qed.

Lemma unknown_members_none all door members base errs :
  stop all errs = false -> (forall k, k ∈ members.*1 -> k ∈ fname <$> Schema_fields door) ->
  unknown_members all door members base errs = (false, errs).
Proof.
  intros Hst. induction members as [|m members IH]; intros Hk; [done|]. cbn [unknown_members].
  rewrite Hst. destruct (Schema_find_declared door m.1) as [f ->]; [apply Hk; by left|].
  apply IH. intros k Hin. apply Hk. by right.
Qed.

Lemma json_door_fields_tree all base obj s (fields : list Field) :
  NoDup (fname <$> Schema_fields s) -> forall done slots pre errs,
  stop all errs = false ->
  Schema_fields s = done ++ fields -> length pre = length done ->
  Forall2 (fun f o => JsonValue_find obj (fname f) = cell_tree <$> o /\
    forall c, o = Some c -> forall path,
      json_cell all (ftype f) (cell_tree c) path errs = Ok (errs, Some (canon_cell c))) fields slots ->
  json_door_fields all obj base fields (mkValue s (pre ++ replicate (length fields) None)) errs =
    Ok (errs, mkValue s (pre ++ canon_slots slots)).
Proof.
  intros Hnd dn slots pre errs Hst. revert dn slots pre.
  induction fields as [|f fields IH]; intros dn slots pre Hall Hpre HF.
  { apply Forall2_nil_inv_l in HF as ->. done. }
  apply Forall2_cons_inv_l in HF as (o & slots' & [Hf Hc] & HF & ->).
  cbn [json_door_fields]. rewrite Hst, Hf.
  assert (forall o', json_door_fields all obj base fields
    (mkValue s (pre ++ o' :: replicate (length fields) None)) errs =
    Ok (errs, mkValue s (pre ++ o' :: canon_slots slots'))) as Hnext.
  { intros o'. specialize (IH (dn ++ [f]) slots' (pre ++ [o'])). rewrite <-!app_assoc in IH.
    apply IH; [done|rewrite !length_app; simpl; lia|done]. }
  destruct o as [c|]; cbn [fmap option_fmap option_map].
  - rewrite (Hc c eq_refl). cbn [mbind result_bind].
    rewrite (Value_set_ok _ _ _ (length dn)); cbn [Value_schema Value_slots mbind result_bind].
    + rewrite <-Hpre, insert_app_r_alt, Nat.sub_diag by lia. cbn [length replicate insert list_insert].
      by rewrite Hnext.
    + apply field_index_lookup; [done|]. rewrite Hall. by apply list_lookup_middle.
  - cbn [length replicate]. by rewrite Hnext.
Qed.

Lemma json_tree_roundtrip all errs :
  stop all errs = false ->
  (forall t, wf_type t -> forall c path, compat_cell t c ->
     json_cell all t (cell_tree c) path errs = Ok (errs, Some (canon_cell c))) /\
  (forall door, wf_schema door -> forall v base, compat_value door v ->
     json_fields all door (value_tree v)
       (mkValue door (replicate (length (Schema_fields door)) None)) base errs =
       Ok (errs, canon_value v)).
Proof.
  intros Hst. apply wf_type_schema_ind.
  - intros k [Hm Hl] c path Hc. destruct k, c as [| | | | |[]|]; try done.
    + cbn [json_cell cell_tree]. by rewrite json_parse_int64_to_chars.
    + by apply float_tree_reads.
    + cbn [json_cell cell_tree]. simpl in Hc. by rewrite Hc.
    + cbn [json_cell cell_tree]. by rewrite (proj2 (base64_decode_iff _ b) eq_refl).
  - intros s Hs IH c path Hc. destruct c as [| | | | |[v|]|]; try done.
    cbn [json_cell cell_tree]. simpl in Hc. destruct v as [sch slots] eqn:Ev. rewrite <-Ev in *.
    assert (exists ms, value_tree v = JObject ms) as [ms Ems] by (subst v; rewrite value_tree_eq; eauto).
    rewrite Ems, <-Ems. cbn [Value_new mbind result_bind]. by rewrite IH.
  - intros el Hel IH c path Hc. destruct c as [| | | | | |a]; try done. simpl in Hc.
    cbn [cell_tree]. rewrite json_cell_list.
    enough (forall i arr, json_list all el path i (map cell_tree a) arr errs =
      Ok (errs, Some (CList (arr ++ map canon_cell a)))) as H by apply H.
    induction Hc as [|c a Hc _ IHa]; intros i arr; [by rewrite app_nil_r|].
    cbn [map json_list]. rewrite Hst, IH by done. cbn [mbind result_bind].
    by rewrite IHa, <-app_assoc.
  - intros n ver fs cid Hwf Hfs v base (Hsch & Hslots)%compat_value_slots.
    destruct v as [sch slots]. simpl in Hsch, Hslots. subst sch.
    pose proof (wf_schema_nodup _ Hwf) as Hnd. simpl in Hnd.
    rewrite json_fields_eq, value_tree_eq. cbn [members_of Schema_fields].
    rewrite unknown_members_none; [|done|].
    2: { intros k Hk. eapply elem_of_sublist; [exact Hk|apply members_tree_keys]. }
    rewrite (json_door_fields_tree all base _ (mkSchema n ver fs cid) fs Hnd [] slots [] errs Hst);
      [done|done|done|].
    apply Forall2_same_length_lookup. pose proof (Forall2_length _ _ _ Hslots) as Hlen.
    split; [done|]. intros i f o Hf Ho. split.
    + cbn [JsonValue_find]. rewrite (find_members_tree fs slots i f Hnd ltac:(lia) Hf). by rewrite Ho.
    + intros c -> path. rewrite Forall_forall in Hfs.
      apply Hfs; [by eapply list_elem_of_lookup_2|].
      exact (Forall2_lookup_lr _ _ _ i _ _ Hslots Hf Ho).
Qed.

(** ** Properties *)

(** The compatibility encoder writes the compact JSON text of the value's
    tree: one member per present field, under the field's name and in the
    schema's order; integers as decimal strings, bytes as base64, infinities and
    NaN by name, a null message as [null].  It never throws, whatever the cells
    hold. *)
Theorem compat_encode_text v out :
  json_encode_fields v out = out ++ json_text (value_tree v).
Proof. apply json_encode_text. Qed.

(** The compatibility decoder is total.  On every tree, in both modes, at a
    constructed door, it returns a candidate of the door's schema with one slot per
    field, and only adds errors to those already there; it never throws and never
    follows a null pointer. *)
Theorem compat_decode_total all door obj base errs :
  wf_schema door ->
  exists es v, json_fields all door obj
    (mkValue door (replicate (length (Schema_fields door)) None)) base errs = Ok (errs ++ es, v) /\
    Value_schema v = door /\ aligned v.
Proof.
  intros Hd. apply (proj2 (json_decode_appends all) door Hd).
  split; [done|]. unfold aligned. simpl. by rewrite length_replicate.
Qed.

(** The compatibility round trip.  For a value the format carries, whose tree
    is within the reader's nesting cap, parsing the encoder's text succeeds and
    decoding the tree, in both modes and without an earlier error, returns the
    value with its NaNs made canonical and records no error. *)
Theorem compat_roundtrip all door v base :
  wf_schema door -> compat_value door v -> tree_ok kMaxJsonDepth 0 (value_tree v) ->
  exists tree, parse_json (json_encode_fields v []) kMaxJsonDepth = mkJsonParse true tree [] /\
    json_fields all door tree (mkValue door (replicate (length (Schema_fields door)) None)) base [] =
      Ok ([], canon_value v).
Proof.
  intros Hd Hv Ht. exists (value_tree v). rewrite compat_encode_text. cbn [app].
  split; [by apply parse_json_roundtrip|].
  apply (proj2 (json_tree_roundtrip all [] ltac:(by destruct all)) door Hd v base Hv).
Qed.

(** ** Witnesses *)

Lemma ami_compat : compat_value player ami.
Proof.
  apply compat_value_slots. split; [done|]. constructor; [|constructor; [|constructor]].
  - cbn. unfold in_i64. lia.
  - reflexivity.
Qed.

Lemma ami_tree : value_tree ami = JObject [(str "hp", JString "30"); (str "name", JString "Ami")].
Proof. reflexivity. Qed.

Lemma compat_decode_total_witness :
  exists es v, json_fields true player (JObject [(str "hp", JString "oops")])
    (mkValue player [None; None]) [] [] = Ok (es, v) /\ length es = 1%nat.
Proof.
  destruct (compat_decode_total true player (JObject [(str "hp", JString "oops")]) [] [] player_wf)
    as (es & v & H & _).
  exists es, v. split; [exact H|]. vm_compute in H. injection H as <- _. reflexivity.
Defined.

Lemma compat_roundtrip_witness :
  exists tree, parse_json (json_encode_fields ami []) 64 = mkJsonParse true tree [] /\
    json_fields false player tree (mkValue player [None; None]) [] [] = Ok ([], ami).
Proof.
  destruct (compat_roundtrip false player ami [] player_wf ami_compat) as (tree & H1 & H2).
  - rewrite ami_tree. apply tree_ok_object. split; [vm_compute; discriminate|].
    split; [|by repeat constructor]. constructor; [by rewrite list_elem_of_singleton|].
    constructor; [apply not_elem_of_nil|constructor].
  - exists tree. split; [exact H1|exact H2].
Defined.

(** A finite double that satisfies [float_ok]. *)
Example float_ok_example : float_ok 0x3FB999999999999A.
Proof.
  split; [unfold in_u64; lia|]. right. right. split; [|by vm_compute].
  exists [], (str "0"), (str ".1"), []. split; [by vm_compute|]. split; [by left|].
  split; [by left|]. split; [|by left]. right. exists (str "1"). split; [done|].
  split; [done|]. by constructor.
Qed.
