(* ===== verification/Serialize.v ===== *)
(** * Serialization and the persistence gate

    [include/zen/serialize.hpp] and the envelope half of [src/serialize.cpp]:
    the native and the compatibility envelope, [Unverified], and both overloads
    of [admit], which decode under the door and run the one structural validator.

    The gate-call counter of [src/gate.cpp] is threaded as [g]: an admission that
    leaves it unchanged has not run the validator. *)

From S2P Require Import Prelude Schema Value Registry Gate Utf8 Binary Native Json Compat.

(** ** State *)

Definition kBinMagic0 : Z := 0x5A.
Definition kBinMagic1 : Z := 0x4E.
Definition kBinFormatVersion : Z := 1.
Definition kJsonEnvelopeVersion : Z := 1.

Inductive Format : Set := FNative | FJson.

Record Impl : Type := mkImpl {
  im_ok : bool; im_envelope_error : Error; im_format : Format;
  im_name : bytes; im_version : Z; im_has_content_id : bool; im_content_id : Z;
  im_body : bytes; im_json_fields : JsonValue
}.

Definition malformed_error (why : bytes) : Error := mkError MalformedBytes [] [] [] why.

(** A freshly made [Impl] of a format. *)
Definition Impl_new (format : Format) : Impl :=
  mkImpl false (malformed_error "not parsed") format [] 0 false 0 [] JNull.

(** The [malformed] lambda of both parsers: it leaves the claim as it is. *)
Definition malformed (impl : Impl) (why : bytes) : Impl :=
  mkImpl false (malformed_error why) (im_format impl) (im_name impl) (im_version impl)
    (im_has_content_id impl) (im_content_id impl) (im_body impl) (im_json_fields impl).

(** [impl_], null in a default-constructed [Unverified]. *)
Abbreviation Unverified := (option Impl).

Definition well_formed (u : Unverified) : bool :=
  match u with Some impl => im_ok impl | None => false end.
Definition claimed_name (u : Unverified) : bytes :=
  match u with Some impl => im_name impl | None => [] end.
Definition claimed_version (u : Unverified) : Z :=
  match u with Some impl => im_version impl | None => 0 end.

Definition envelope_error_of (u : Unverified) : Error :=
  match u with Some impl => im_envelope_error impl | None => malformed_error "empty" end.

(** ** The native envelope *)

Definition serialize (value : Value) : result bytes :=
  let s := Value_schema value in
  if zlen (Schema_name s) >? 0xFFFF
  then Throw (invalid_argument "serialize: schema name exceeds 65535 bytes")
  else
    let out := put_u8 [] kBinMagic0 in
    let out := put_u8 out kBinMagic1 in
    let out := put_u8 out kBinFormatVersion in
    let out := put_u16le out (u16 (zlen (Schema_name s))) in
    let out := out ++ Schema_name s in
    let out := put_u32le out (Schema_version s) in
    let out := put_u64le out (Schema_content_id s) in
    bin_encode_body value out.

Definition parse (input : bytes) : Unverified :=
  let impl := Impl_new FNative in
  let bad why := Some (malformed impl why) in
  let r := mkReader input 0 in
  match r_u8 r with
  | None => bad (str "truncated magic")
  | Some (m0, r) =>
  match r_u8 r with
  | None => bad (str "truncated magic")
  | Some (m1, r) =>
  if negb (m0 =? kBinMagic0) || negb (m1 =? kBinMagic1)
  then bad (str "bad magic (not a Zen native value)") else
  match r_u8 r with
  | None => bad (str "truncated format version")
  | Some (ver, r) =>
  if negb (ver =? kBinFormatVersion) then bad (str "unsupported native format version") else
  match r_u16le r with
  | None => bad (str "truncated schema-name length")
  | Some (name_len, r) =>
  match r_take r (Z.to_nat name_len) with
  | None => bad (str "truncated schema name")
  | Some (name_bytes, r) =>
  if negb (valid_utf8 name_bytes) then bad (str "schema name is not valid UTF-8") else
  match r_u32le r with
  | None => bad (str "truncated schema version")
  | Some (schema_version, r) =>
  match r_u64le r with
  | None => bad (str "truncated content id (mandatory in the native format)")
  | Some (content_id, r) =>
  let body := match r_take r (remaining r) with Some (b, _) => b | None => [] end in
  Some (mkImpl true (im_envelope_error impl) FNative name_bytes schema_version true content_id
          body JNull)
  end end end end end end end.

(** ** The compatibility envelope *)

Definition compat_serialize (value : Value) : bytes :=
  let s := Value_schema value in
  let out := str "{" ++ [kQuote] ++ str "zen" ++ [kQuote] ++ str ":" in
  let out := out ++ to_string kJsonEnvelopeVersion in
  let out := out ++ str "," ++ [kQuote] ++ str "schema" ++ [kQuote] ++ str ":" in
  let out := json_quote (Schema_name s) out in
  let out := out ++ str "," ++ [kQuote] ++ str "version" ++ [kQuote] ++ str ":" in
  let out := out ++ to_string (Schema_version s) in
  let out := out ++ str "," ++ [kQuote] ++ str "content_id" ++ [kQuote] ++ str ":" in
  let out := json_quote (format_content_id (Schema_content_id s)) out in
  let out := out ++ str "," ++ [kQuote] ++ str "fields" ++ [kQuote] ++ str ":" in
  json_encode_fields value out ++ str "}".

Definition envelope_keys : list bytes :=
  [str "zen"; str "schema"; str "version"; str "content_id"; str "fields"].

(** The first member outside the known set. *)
Fixpoint unknown_envelope (members : list (bytes * JsonValue)) : option bytes :=
  match members with
  | [] => None
  | m :: members => if bool_decide (m.1 ∈ envelope_keys) then unknown_envelope members else Some m.1
  end.

Definition compat_parse (input : bytes) : Unverified :=
  let impl := Impl_new FJson in
  let parsed := parse_json input kMaxJsonDepth in
  if negb (jp_ok parsed)
  then Some (malformed impl (str "not valid JSON: " ++ jp_error parsed)) else
  let root := jp_value parsed in
  let bad why := Some (malformed impl why) in
  match root with
  | JObject members =>
      match unknown_envelope members with
      | Some k => bad (str "unknown envelope member '" ++ k ++ str "'")
      | None =>
      match JsonValue_find root "zen" with
      | Some (JNumber zen) =>
          if negb (bool_decide (json_parse_int64 zen = Some kJsonEnvelopeVersion))
          then bad (str "unsupported envelope version") else
          match JsonValue_find root "schema" with
          | Some (JString schema) =>
              match JsonValue_find root "version" with
              | Some (JNumber version) =>
                  match json_parse_u32 version with
                  | None => bad (str "'version' is not a 32-bit unsigned integer")
                  | Some ver =>
                      match JsonValue_find root "fields" with
                      | Some (JObject _ as fields) =>
                          let impl := mkImpl (im_ok impl) (im_envelope_error impl) FJson schema ver
                                        (im_has_content_id impl) (im_content_id impl) [] JNull in
                          match JsonValue_find root "content_id" with
                          | None =>
                              Some (mkImpl true (im_envelope_error impl) FJson schema ver false 0 []
                                      fields)
                          | Some (JString text) =>
                              match json_parse_content_id text with
                              | Some cid =>
                                  Some (mkImpl true (im_envelope_error impl) FJson schema ver true cid
                                          [] fields)
                              | None =>
                                  Some (malformed impl (str "'content_id' is not a hex string"))
                              end
                          | Some _ =>
                              Some (malformed impl (str "'content_id' is not a hex string"))
                          end
                      | _ => bad (str "missing or non-object 'fields'")
                      end
                  end
              | _ => bad (str "missing or non-numeric 'version'")
              end
          | _ => bad (str "missing or non-string 'schema'")
          end
      | _ => bad (str "missing or non-numeric 'zen' envelope version")
      end
      end
  | _ => bad (str "top-level value is not an object")
  end.

(** ** The persistence gate *)

Definition finish (candidate : Value) (decode_errs : list Error) (fatal : bool) (door : Schema)
    (all : bool) (g : Z) : Z * result Admission :=
  if fatal then (g, Ok (Admission_reject decode_errs)) else
  let '(g, r) := validate_into candidate door all g in
  (g, verrs ← r;
      Ok (if negb all
          then
            match decode_errs, verrs with
            | e :: _, _ => Admission_reject_one e
            | [], e :: _ => Admission_reject_one e
            | [], [] => Admission_accept candidate
            end
          else
            let covered := e_path <$> decode_errs in
            let merged := decode_errs ++ filter (fun e => e_path e ∉ covered) verrs in
            match merged with
            | [] => Admission_accept candidate
            | _ => Admission_reject merged
            end)).

(** The decode of [admit_against], before [finish]. *)
Definition decode_native (body : bytes) (door : Schema) (candidate : Value)
  : result (BinaryDecoder * Value) :=
  '(dec, candidate) ← dec_body door candidate [] 0 (mkDecoder (mkReader body 0) [] false);
  Ok (if negb (d_fatal dec) && negb (at_end (d_r dec))
      then fail dec MalformedBytes [] [] "trailing bytes after the value" else dec, candidate).

Definition admit_against (impl : Impl) (door : Schema) (all : bool) (g : Z) : Z * result Admission :=
  if negb (bool_decide (im_name impl = Schema_name door)) ||
     negb (im_version impl =? Schema_version door)
  then (g, Ok (Admission_reject_one (mkError SchemaMismatch [] (version_label door)
          (im_name impl ++ str " v" ++ to_string (im_version impl))
          "the bytes claim a different schema than this door")))
  else if im_has_content_id impl && negb (im_content_id impl =? Schema_content_id door)
  then (g, Ok (Admission_reject_one (mkError SchemaMismatch []
          (format_content_id (Schema_content_id door)) (format_content_id (im_content_id impl))
          "the bytes were written against a different shape of this name and version")))
  else
    match Value_new (Some door) with
    | Ok candidate =>
        match im_format impl with
        | FNative =>
            match decode_native (im_body impl) door candidate with
            | Ok (dec, candidate) => finish candidate (d_errs dec) (d_fatal dec) door all g
            | Throw e => (g, Throw e)
            | UB => (g, UB)
            end
        | FJson =>
            match json_fields all door (im_json_fields impl) candidate [] [] with
            | Ok (errs, candidate) => finish candidate errs false door all g
            | Throw e => (g, Throw e)
            | UB => (g, UB)
            end
        end
    | Throw e => (g, Throw e)
    | UB => (g, UB)
    end.

(** [admit(const Unverified&, shared_ptr<const Schema>, Report)]. *)
Definition admit_door (u : Unverified) (door : option Schema) (report : Report) (g : Z)
  : Z * result Admission :=
  match door with
  | None => (g, Throw (invalid_argument "admit(Unverified, door): door must be non-null"))
  | Some door =>
      match u with
      | Some impl =>
          if im_ok impl then admit_against impl door (is_full report) g
          else (g, Ok (Admission_reject_one (envelope_error_of u)))
      | None => (g, Ok (Admission_reject_one (envelope_error_of u)))
      end
  end.

(** [admit(const Unverified&, const Registry&, Report)]. *)
Definition admit_registry (u : Unverified) (registry : Registry) (report : Report) (g : Z)
  : Z * result Admission :=
  match u with
  | Some impl =>
      if im_ok impl then
        match Registry_lookup registry (im_name impl) (im_version impl) with
        | None =>
            (g, Ok (Admission_reject_one (mkError UnknownSchema []
                  (im_name impl ++ str " v" ++ to_string (im_version impl)) []
                  "no such schema is registered")))
        | Some door => admit_against impl door (is_full report) g
        end
      else (g, Ok (Admission_reject_one (envelope_error_of u)))
  | None => (g, Ok (Admission_reject_one (envelope_error_of u)))
  end.

(** ** The native header *)

Definition native_header (name : bytes) (version content_id : Z) : bytes :=
  le_bytes 1 kBinMagic0 ++ le_bytes 1 kBinMagic1 ++ le_bytes 1 kBinFormatVersion ++
  le_bytes 2 (zlen name) ++ name ++ le_bytes 4 version ++ le_bytes 8 content_id.

(** The headers a native parse accepts. *)
Definition header_ok (name : bytes) (version content_id : Z) : Prop :=
  zlen name < 2 ^ 16 /\ valid_utf8 name = true /\ in_u32 version /\ in_u64 content_id.

Definition parsed_native (name : bytes) (version content_id : Z) (body : bytes) : Impl :=
  mkImpl true (malformed_error "not parsed") FNative name version true content_id body JNull.

Lemma serialize_header v :
  zlen (Schema_name (Value_schema v)) <= 0xFFFF ->
  serialize v = bin_encode_body v (native_header (Schema_name (Value_schema v))
    (Schema_version (Value_schema v)) (Schema_content_id (Value_schema v))).
Proof.
  intros Hn. unfold serialize. rewrite gtb_false by done. cbv zeta. f_equal. unfold native_header.
  rewrite put_u64le_spec, put_u32le_spec, put_u16le_spec, !put_u8_spec.
  unfold u16. pose proof (zlen_nonneg (Schema_name (Value_schema v))).
  rewrite Z.mod_small by lia. rewrite <-!app_assoc. done.
Qed.

Lemma parse_native name version content_id body :
  header_ok name version content_id ->
  parse (native_header name version content_id ++ body) =
    Some (parsed_native name version content_id body).
Proof.
  intros (Hn & Hu & Hv & Hc). unfold parse, native_header.
  set (input := _ ++ body).
  assert (rest (mkReader input 0) = le_bytes 1 kBinMagic0 ++ le_bytes 1 kBinMagic1 ++
    le_bytes 1 kBinFormatVersion ++ le_bytes 2 (zlen name) ++ name ++ le_bytes 4 version ++
    le_bytes 8 content_id ++ body) as Hr by (unfold rest, input; simpl; by rewrite <-!app_assoc).
  cbv zeta. pose proof (zlen_nonneg name) as Hn0.
  assert (0 <= kBinMagic0 < 2 ^ 8) as H0 by (unfold kBinMagic0; lia).
  destruct (codec_rest r_u8 (le_bytes 1) _ _ kBinMagic0 _ H0 Hr) as (r1 & -> & R1 & _).
  assert (0 <= kBinMagic1 < 2 ^ 8) as H1 by (unfold kBinMagic1; lia).
  destruct (codec_rest r_u8 (le_bytes 1) _ _ kBinMagic1 _ H1 R1) as (r2 & -> & R2 & _).
  rewrite !Z.eqb_refl. cbn [negb orb].
  assert (0 <= kBinFormatVersion < 2 ^ 8) as H2 by (unfold kBinFormatVersion; lia).
  destruct (codec_rest r_u8 (le_bytes 1) _ _ kBinFormatVersion _ H2 R2) as (r3 & -> & R3 & _).
  rewrite Z.eqb_refl. cbn [negb].
  assert (0 <= zlen name < 2 ^ 16) as H3 by lia.
  destruct (codec_rest r_u16le (le_bytes 2) _ _ (zlen name) _ H3 R3) as (r4 & -> & R4 & _).
  rewrite to_nat_zlen.
  destruct (r_take_prefix r4 name _ R4) as (r5 & -> & R5).
  rewrite Hu. cbn [negb].
  destruct (codec_rest r_u32le (le_bytes 4) _ _ version _ Hv R5) as (r6 & -> & R6 & _).
  destruct (codec_rest r_u64le (le_bytes 8) _ _ content_id _ Hc R6) as (r7 & -> & R7 & _).
  rewrite remaining_rest, R7. rewrite <-(app_nil_r body) in R7.
  by destruct (r_take_prefix r7 body _ R7) as (r8 & -> & R8).
Qed.

Lemma malformed_not_ok i why impl :
  Some (malformed i why) = Some impl -> im_ok impl = true -> False.
Proof. by intros [= <-]. Qed.

Lemma parse_native_inv input impl :
  parse input = Some impl -> im_ok impl = true ->
  exists name version content_id body,
    header_ok name version content_id /\ input = native_header name version content_id ++ body /\
    impl = parsed_native name version content_id body.
Proof.
  unfold parse. cbv zeta. intros H Hok.
  assert (input = rest (mkReader input 0)) as Hin by done. revert Hin H.
  generalize (mkReader input 0) as r0. intros r0 Hin H.
  destruct (r_u8 r0) as [[m0 r1]|] eqn:E0; [|by destruct (malformed_not_ok _ _ _ H Hok)].
  destruct (codec_outcome r_u8 (le_bytes 1) _ _ _ _ E0) as (B0 & _ & R0).
  destruct (r_u8 r1) as [[m1 r2]|] eqn:E1; [|by destruct (malformed_not_ok _ _ _ H Hok)].
  destruct (codec_outcome r_u8 (le_bytes 1) _ _ _ _ E1) as (B1 & _ & R1).
  destruct (negb (m0 =? kBinMagic0) || negb (m1 =? kBinMagic1)) eqn:Em; [by destruct (malformed_not_ok _ _ _ H Hok)|].
  destruct (r_u8 r2) as [[ver r3]|] eqn:E2; [|by destruct (malformed_not_ok _ _ _ H Hok)].
  destruct (codec_outcome r_u8 (le_bytes 1) _ _ _ _ E2) as (B2 & _ & R2).
  destruct (negb (ver =? kBinFormatVersion)) eqn:Ev; [by destruct (malformed_not_ok _ _ _ H Hok)|].
  destruct (r_u16le r3) as [[len r4]|] eqn:E3; [|by destruct (malformed_not_ok _ _ _ H Hok)].
  destruct (codec_outcome r_u16le (le_bytes 2) _ _ _ _ E3) as (B3 & _ & R3).
  destruct (r_take r4 (Z.to_nat len)) as [[name r5]|] eqn:E4; [|by destruct (malformed_not_ok _ _ _ H Hok)].
  destruct (codec_outcome (fun r => r_take r (Z.to_nat len)) _ _ _ _ _ E4) as (B4 & _ & R4).
  destruct (valid_utf8 name) eqn:Eu; [|by destruct (malformed_not_ok _ _ _ H Hok)]. cbn [negb] in H.
  destruct (r_u32le r5) as [[version r6]|] eqn:E5; [|by destruct (malformed_not_ok _ _ _ H Hok)].
  destruct (codec_outcome r_u32le (le_bytes 4) _ _ _ _ E5) as (B5 & _ & R5).
  destruct (r_u64le r6) as [[cid r7]|] eqn:E6; [|by destruct (malformed_not_ok _ _ _ H Hok)].
  destruct (codec_outcome r_u64le (le_bytes 8) _ _ _ _ E6) as (B6 & _ & R6).
  assert (r_take r7 (remaining r7) = Some (rest r7, advance r7 (remaining r7))) as Et.
  { rewrite remaining_rest. apply (codec_complete (Codec := take_codec (length (rest r7))) _ _ []); [done|].
    by rewrite app_nil_r. }
  rewrite Et in H. apply (inj Some) in H. subst impl. exists name, version, cid, (rest r7).
  apply orb_false_elim in Em as [Em0 Em1]. rewrite negb_false_iff, Z.eqb_eq in Em0, Em1, Ev. subst m0 m1 ver.
  assert (zlen name = len) as Hlen by (unfold zlen; lia).
  split; [split; [lia|done]|]. split; [|done].
  rewrite Hin, R0, R1, R2, R3, R4, R5, R6. unfold native_header. rewrite Hlen. by rewrite <-!app_assoc.
Qed.

(** ** The last step: decode errors and the one validator *)

Lemma finish_spec candidate errs door all g :
  wf_schema door ->
  exists a, finish candidate errs false door all g = (u64 (g + 1), Ok a) /\
    (errs = [] -> conforms candidate door -> a = Admission_accept candidate) /\
    (adm_ok a = true -> errs = [] /\ conforms candidate door /\ a = Admission_accept candidate) /\
    (adm_ok a = false -> adm_errors a <> []).
Proof.
  intros Hd. unfold finish. rewrite validate_into_offences by done. cbn [mbind result_bind].
  eexists. split; [done|]. rewrite <-(offences_nil candidate door Hd).
  destruct all; cbn [negb].
  - destruct errs as [|e errs]; simpl; [|naive_solver].
    destruct (offences candidate door) as [|o os]; [naive_solver|].
    rewrite filter_cons_True by apply not_elem_of_nil. simpl. naive_solver.
  - destruct errs as [|e errs]; simpl; [|naive_solver].
    destruct (offences candidate door); simpl; naive_solver.
Qed.

(** What a run of [admit_against] can do at a constructed door. *)
Definition gated (door : Schema) (g : Z) (r : Z * result Admission) : Prop :=
  exists g' a, r = (g', Ok a) /\ (g' = g \/ g' = u64 (g + 1)) /\
    (adm_ok a = true ->
       g' = u64 (g + 1) /\ exists v, a = Admission_accept v /\ conforms v door /\
         Value_schema v = door) /\
    (adm_ok a = false -> adm_errors a <> []).

Lemma gated_reject door g e : gated door g (g, Ok (Admission_reject_one e)).
Proof. do 2 eexists. split; [done|]. split; [by left|]. by split. Qed.

Lemma finish_gated candidate errs fatal door all g :
  wf_schema door -> Value_schema candidate = door -> (fatal = true -> errs <> []) ->
  gated door g (finish candidate errs fatal door all g).
Proof.
  intros Hd Hs Hf. destruct fatal.
  - specialize (Hf eq_refl). do 2 eexists. split; [done|]. split; [by left|]. by destruct errs.
  - destruct (finish_spec candidate errs door all g Hd) as (a & -> & _ & Hok & Hno).
    do 2 eexists. split; [done|]. split; [by right|]. split; [|done].
    intros Ha. destruct (Hok Ha) as (_ & Hc & ->). eauto.
Qed.

(** A candidate keeps the door's schema through the native decoder. *)
Lemma dec_fields_schema mask base depth fields : forall i out d d' v,
  dec_fields mask base depth i fields out d = Ok (d', v) -> Value_schema v = Value_schema out.
Proof.
  induction fields as [|f fields IH]; intros i out d d' v H; [by injection H as _ <-|].
  cbn [dec_fields] in H. destruct (d_fatal d); [by injection H as _ <-|].
  destruct (mask_bit mask i); [|by eapply IH].
  destruct (dec_value (ftype f) _ _ d) as [[d1 [c|]]| |]; try done; cbn [mbind result_bind] in H;
    [|by eapply IH].
  destruct (Value_set_cases out (fname f) c) as [(j & _ & E)|[_ E]]; rewrite E in H; [|done].
  apply IH in H. done.
Qed.

Lemma dec_body_schema door out base depth r es d v :
  dec_body door out base depth (mkDecoder r es false) = Ok (d, v) ->
  Value_schema v = Value_schema out.
Proof.
  destruct door as [n ver fs cid]. intros H.
  destruct (depth >? kMaxBinaryDepth) eqn:Ed.
  { cbn [dec_body d_fatal] in H. rewrite Ed in H. by injection H as _ <-. }
  rewrite dec_body_eq in H by done. cbv zeta in H.
  destruct (r_take r _) as [[mask r']|]; [|by injection H as _ <-].
  destruct (mask_padding _ _); [by injection H as _ <-|]. by eapply dec_fields_schema.
Qed.

Lemma decode_native_spec body door :
  wf_schema door ->
  exists d v, decode_native body door (mkValue door (replicate (length (Schema_fields door)) None)) =
      Ok (d, v) /\ Value_schema v = door /\
    (d_fatal d = true -> d_errs d <> []) /\
    (d_fatal d = false -> d_errs d = [] /\ wire_value 0 door v /\ body = enc_value v).
Proof.
  intros Hd. destruct (native_decode_total door [] 0 (mkReader body 0) [] Hd) as (d & v & H & Hcase).
  unfold decode_at in H. cbn [Value_new mbind result_bind] in H.
  pose proof (dec_body_schema _ _ _ _ _ _ _ _ H) as Hs.
  unfold decode_native. rewrite H. cbn [mbind result_bind]. do 2 eexists. split; [done|].
  split; [done|].
  destruct Hcase as [[Hf He]|[Hf (e & He)]]; rewrite Hf; cbn [negb andb].
  2: { split; [|by rewrite Hf]. intros _. by rewrite He. }
  destruct (at_end (d_r d)) eqn:Ee; cbn [negb].
  - split; [by rewrite Hf|]. intros _. split; [done|].
    destruct (proj1 (native_decode_canonical door [] 0 (mkReader body 0) [] d v Hd) (conj H Hf))
      as (Hw & Hr & _).
    split; [done|]. change (rest (mkReader body 0)) with body in Hr.
    unfold at_end in Ee. apply Nat.leb_le in Ee.
    unfold rest in Hr. rewrite drop_ge, app_nil_r in Hr by done. done.
  - split; [|done]. intros _. simpl. intros Hnil. by apply app_eq_nil in Hnil as [_ ?].
Qed.

Lemma admit_against_gated impl door all g : wf_schema door -> gated door g (admit_against impl door all g).
Proof.
  intros Hd. unfold admit_against. destruct (_ || _); [apply gated_reject|].
  destruct (_ && _); [apply gated_reject|]. cbn [Value_new]. destruct (im_format impl).
  - destruct (decode_native_spec (im_body impl) door Hd) as (d & v & -> & Hs & Hf & _).
    by apply finish_gated.
  - destruct (compat_decode_total all door (im_json_fields impl) [] [] Hd) as (es & v & -> & Hs & _).
    by apply finish_gated.
Qed.

Lemma admit_door_gated u door report g :
  wf_schema door -> gated door g (admit_door u (Some door) report g).
Proof.
  intros Hd. unfold admit_door. destruct u as [impl|]; [|apply gated_reject].
  destruct (im_ok impl); [by apply admit_against_gated|apply gated_reject].
Qed.

(** The two results of the bytes path at a constructed door. *)
Lemma admit_door_cases u door report g :
  wf_schema door ->
  exists g', (g' = g \/ g' = u64 (g + 1)) /\
    ((exists v, conforms v door /\ Value_schema v = door /\ g' = u64 (g + 1) /\
        admit_door u (Some door) report g = (g', Ok (Admission_accept v))) \/
     (exists e es, admit_door u (Some door) report g = (g', Ok (mkAdmission None (e :: es))))).
Proof.
  intros Hd. destruct (admit_door_gated u door report g Hd) as (g' & a & -> & Hg & Hok & Hno).
  exists g'. split; [done|]. destruct a as [[v|] es]; cbn [adm_ok adm_value adm_errors] in *.
  - destruct (Hok eq_refl) as (-> & w & [= -> ->] & Hc & Hs). left. by exists w.
  - specialize (Hno eq_refl). destruct es as [|e es]; [done|]. right. by exists e, es.
Qed.

(** ** Wire values are built, canonical and self-encoding *)

Lemma built_list a :
  zlen a < 2 ^ 64 -> Forall built_cell a -> built_cell (CList a).
Proof.
  intros Hl Ha. cbn [built_cell]. split; [done|]. clear Hl.
  induction Ha as [|c a Hc _ IH]; [exact I|]. by split.
Qed.

Lemma wire_built :
  (forall t, wf_type t -> forall depth c, wire_cell depth t c -> built_cell c /\ canon_cell c = c) /\
  (forall door, wf_schema door -> forall depth v, wire_value depth door v ->
     built_value v /\ canon_value v = v).
Proof.
  apply wf_type_schema_ind.
  - intros k [Hm Hl] depth c [_ Hc]. destruct k, c as [| | | | |[]|]; try done.
    + destruct Hc as [Hu Hcan]. split; [done|]. cbn [canon_cell]. by rewrite Hcan.
    + destruct Hc as [_ Hs]. split; [|done]. cbn [built_cell]. by eapply Z.le_lt_trans; [exact Hs|].
    + split; [|done]. cbn [built_cell]. by eapply Z.le_lt_trans; [exact Hc|].
  - intros s Hs IH depth c [_ Hc]. destruct c as [| | | | |[v|]|]; try done.
    destruct (IH _ _ Hc) as [Hb Hcan]. split; [done|]. cbn [canon_cell]. by rewrite Hcan.
  - intros el Hel IH depth c [_ Hc]. destruct c as [| | | | |[]|a]; try done.
    destruct Hc as [Hl Ha].
    assert (Forall (fun c => built_cell c /\ canon_cell c = c) a) as Hall
      by (eapply Forall_impl; [exact Ha|]; intros c Hc; by apply (IH (depth + 1))).
    split.
    + apply built_list; [by eapply Z.le_lt_trans; [exact Hl|]|].
      eapply Forall_impl; [exact Hall|]. by intros c [].
    + cbn [canon_cell]. f_equal. clear Hl Ha.
      induction Hall as [|c a [_ Hc] _ IHa]; [done|]. cbn [map]. by rewrite Hc, IHa.
  - intros n ver fs cid Hwf Hfs depth [s slots] (_ & Hs & Hslots)%wire_value_slots.
    simpl in Hs. subst s. cbn [Schema_fields Value_slots] in Hslots.
    assert (Forall (fun o => match o with Some c => built_cell c /\ canon_cell c = c | None => True end)
      slots) as Hall.
    { clear Hwf. revert slots Hslots. induction Hfs as [|f fs Hf _ IH]; intros slots Hslots.
      - apply Forall2_nil_inv_l in Hslots as ->. constructor.
      - apply Forall2_cons_inv_l in Hslots as (o & slots' & Ho & Hslots & ->).
        constructor; [|by apply IH]. destruct o as [c|]; [by eapply Hf|done]. }
    split.
    + apply built_value_slots. split; [done|]. split; [symmetry; by eapply Forall2_length|].
      eapply Forall_impl; [exact Hall|]. intros [c|]; [by intros []|done].
    + cbn [canon_value]. f_equal. clear Hslots.
      induction Hall as [|[c|] slots Ho _ IH]; cbn [map]; [done|..]; rewrite IH; [|done].
      by destruct Ho as [_ ->].
Qed.

(** The gate cannot tell a value from its canonical form. *)
Lemma Value_get_canon v name : Value_get (canon_value v) name = canon_cell <$> Value_get v name.
Proof.
  destruct v as [s slots]. unfold Value_get, Value_at. cbn [canon_value Value_schema Value_slots].
  destruct (field_index (Schema_fields s) name) as [i|]; [|done].
  change (map _ slots) with (canon_slots slots). unfold canon_slots.
  change (map ?f slots) with (f <$> slots). rewrite list_lookup_fmap.
  by destruct (slots !! i) as [[c|]|].
Qed.

Lemma canon_cell_kind c : Cell_kind (canon_cell c) = Cell_kind c.
Proof. by destruct c as [| | | | |[]|]. Qed.

Lemma canon_schema v : Value_schema (canon_value v) = Value_schema v.
Proof. by destruct v. Qed.

Lemma conforms_canon :
  (forall t, wf_type t -> forall c, conforms_cell t c -> conforms_cell t (canon_cell c)) /\
  (forall s, wf_schema s -> forall v, conforms_value s v -> conforms_value s (canon_value v)).
Proof.
  apply wf_type_schema_ind.
  - intros k [Hm Hl] c Hc. destruct k; try done; cbn in *; by rewrite canon_cell_kind.
  - intros s Hs IH c Hc. destruct c as [| | | | |[v|]|]; try done.
    destruct Hc as [Hid Hc]. split; [by rewrite canon_schema|by apply IH].
  - intros el Hel IH c Hc. destruct c as [| | | | | |a]; try done. cbn in *.
    change (map canon_cell a) with (canon_cell <$> a). rewrite Forall_fmap.
    eapply Forall_impl; [exact Hc|]. intros c Hc'. by apply IH.
  - intros n ver fs cid Hwf Hfs v Hv. rewrite conforms_value_fields in *. cbn [Schema_fields] in *.
    rewrite Forall_forall in *. intros f Hf. specialize (Hv f Hf). specialize (Hfs f Hf).
    unfold conforms_field in *. rewrite Value_get_canon.
    destruct (Value_get v (fname f)); simpl; auto.
Qed.

Lemma wf_schema_version s : wf_schema s -> in_u32 (Schema_version s).
Proof. by destruct 1. Qed.

(** ** Properties *)

(** The schemas the native envelope can name. *)
Definition nameable (s : Schema) : Prop :=
  zlen (Schema_name s) <= 0xFFFF /\ valid_utf8 (Schema_name s) = true.

Lemma nameable_header s :
  wf_schema s -> nameable s ->
  header_ok (Schema_name s) (Schema_version s) (Schema_content_id s).
Proof.
  intros Hs [Hn Hu]. split; [lia|]. split; [done|].
  split; [by apply wf_schema_version|by apply wf_schema_content_id].
Qed.

Lemma serialize_ok v :
  built_value v -> nameable (Value_schema v) -> encodes_value v = true ->
  serialize v = Ok (native_header (Schema_name (Value_schema v)) (Schema_version (Value_schema v))
    (Schema_content_id (Value_schema v)) ++ enc_value v).
Proof.
  intros Hb [Hn _] He. rewrite serialize_header by done.
  pose proof (bin_encode_writes) as [_ H]. specialize (H v (native_header
    (Schema_name (Value_schema v)) (Schema_version (Value_schema v))
    (Schema_content_id (Value_schema v))) Hb).
  by rewrite He in H.
Qed.

(** The header is self-describing.  [parse] never throws, and it is well
    formed on exactly the byte strings that start with a header naming a UTF-8
    schema name, a version and a content id; it then reveals that claim and keeps
    the rest opaque.  It reads no schema. *)
Theorem parse_wellformed_iff input :
  well_formed (parse input) = true <->
  exists name version content_id body,
    header_ok name version content_id /\ input = native_header name version content_id ++ body /\
    parse input = Some (parsed_native name version content_id body).
Proof.
  split.
  - intros H. unfold well_formed in H. destruct (parse input) as [impl|] eqn:E; [|done].
    destruct (parse_native_inv input impl E H) as (n & v & c & b & Hok & Hin & ->). eauto 10.
  - intros (n & v & c & b & _ & _ & E). by rewrite E.
Qed.

(** Writing, parsing and admitting at the value's own schema. *)
Lemma persist_admit v report g :
  built_value v -> nameable (Value_schema v) -> storable (Value_schema v) v ->
  conforms v (Value_schema v) ->
  exists w, serialize v = Ok w /\
    admit_door (parse w) (Some (Value_schema v)) report g =
      (u64 (g + 1), Ok (Admission_accept (canon_value v))) /\
    (forall registry,
       Registry_lookup registry (Schema_name (Value_schema v)) (Schema_version (Value_schema v)) =
         Some (Value_schema v) ->
       admit_registry (parse w) registry report g =
         (u64 (g + 1), Ok (Admission_accept (canon_value v)))).
Proof.
  intros Hb Hn Hs [_ Hc]. assert (wf_schema (Value_schema v)) as Hd by (destruct v; by destruct Hb).
  eexists. split; [apply serialize_ok; [done|done|by apply (proj2 wire_encodes _ Hd 0)]|].
  rewrite parse_native by (by apply nameable_header).
  assert (admit_against (parsed_native (Schema_name (Value_schema v)) (Schema_version (Value_schema v))
    (Schema_content_id (Value_schema v)) (enc_value v)) (Value_schema v) (is_full report) g =
    (u64 (g + 1), Ok (Admission_accept (canon_value v)))) as H.
  { unfold admit_against. cbn [parsed_native im_name im_version im_has_content_id im_content_id
      im_format im_body]. rewrite bool_decide_true, !Z.eqb_refl by done. cbn [negb orb andb Value_new].
    assert (rest (mkReader (enc_value v) 0) = enc_value (canon_value v) ++ []) as Hr
      by (by rewrite (proj2 enc_canon), app_nil_r).
    unfold decode_native. rewrite (proj2 decode_complete _ Hd _ 0 [] _ [] [] Hs Hr).
    cbn [mbind result_bind]. cbn [d_fatal d_r negb andb].
    assert (at_end (advance (mkReader (enc_value v) 0) (length (enc_value (canon_value v)))) = true) as ->
      by (rewrite (proj2 enc_canon); unfold at_end; simpl; by apply Nat.leb_le).
    cbn [negb d_errs d_fatal].
    destruct (finish_spec (canon_value v) [] (Value_schema v) (is_full report) g Hd)
      as (a & -> & Ha & _).
    rewrite Ha; [done|done|]. split; [by rewrite canon_schema|]. by apply conforms_canon. }
  split; [exact H|]. intros registry Hreg. unfold admit_registry.
  cbn [parsed_native im_ok im_name im_version]. by rewrite Hreg.
Qed.

(** C1: the native persistence round trip.  A storable, conforming value of a
    nameable schema serializes; parsing the bytes and admitting them at the
    value's schema, or at a registry that holds it, in either report mode, accepts
    that value with its NaNs made canonical, through one run of the validator. *)
Theorem native_persistence_roundtrip v report g :
  built_value v -> nameable (Value_schema v) -> storable (Value_schema v) v ->
  conforms v (Value_schema v) ->
  exists w, serialize v = Ok w /\
    admit_door (parse w) (Some (Value_schema v)) report g =
      (u64 (g + 1), Ok (Admission_accept (canon_value v))) /\
    (forall registry,
       Registry_lookup registry (Schema_name (Value_schema v)) (Schema_version (Value_schema v)) =
         Some (Value_schema v) ->
       admit_registry (parse w) registry report g =
         (u64 (g + 1), Ok (Admission_accept (canon_value v)))).
Proof. apply persist_admit. Qed.

(** What an admission of native bytes hands over. *)
Lemma admitted_wire w door report g g' a v :
  wf_schema door -> admit_door (parse w) (Some door) report g = (g', Ok a) -> adm_value a = Some v ->
  serialize v = Ok w /\ wire_value 0 door v /\ Value_schema v = door /\ nameable door.
Proof.
  intros Hd H Ha. unfold admit_door in H.
  destruct (parse w) as [impl|] eqn:Ep; [|by injection H as _ <-].
  destruct (im_ok impl) eqn:Eok; [|by injection H as _ <-].
  destruct (parse_native_inv w impl Ep Eok) as (n & ver & cid & body & (Hn & Hu & _ & _) & -> & ->).
  unfold admit_against in H.
  cbn [parsed_native im_name im_version im_has_content_id im_content_id im_format im_body] in H.
  destruct (_ || _) eqn:Eid in H; [by injection H as _ <-|].
  apply orb_false_elim in Eid as [E1 E2]. rewrite negb_false_iff in E1, E2.
  apply bool_decide_eq_true in E1. apply Z.eqb_eq in E2.
  cbn [andb] in H. destruct (Z.eqb_spec cid (Schema_content_id door)) as [E3|]; [|by injection H as _ <-].
  cbn [negb Value_new] in H.
  destruct (decode_native_spec body door Hd) as (d & c & E & Hs & Hf & Hok). rewrite E in H.
  destruct (d_fatal d); [injection H as _ <-; by destruct (d_errs d)|].
  destruct (Hok eq_refl) as (He & Hw & ->). rewrite He in H.
  destruct (finish_spec c [] door (is_full report) g Hd) as (a' & Efin & _ & Hacc & _).
  rewrite Efin in H. injection H as _ <-. destruct (Hacc ltac:(unfold adm_ok; by rewrite Ha)) as (_ & _ & ->).
  injection Ha as ->. destruct (proj2 wire_built door Hd 0 v Hw) as [Hb Hcan].
  assert (nameable (Value_schema v)) as Hnm by (unfold nameable; rewrite Hs, <-E1; split; [lia|done]).
  split; [|split; [exact Hw|split; [exact Hs|by rewrite <-Hs]]].
  rewrite serialize_ok; [by subst|done|done|].
  apply (proj2 wire_encodes door Hd 0). by rewrite Hcan.
Qed.

Lemma admitted_canonical w door report g g' a v :
  wf_schema door -> admit_door (parse w) (Some door) report g = (g', Ok a) -> adm_value a = Some v ->
  serialize v = Ok w.
Proof. intros Hd H Ha. by destruct (admitted_wire w door report g g' a v Hd H Ha). Qed.

(** C2: native bytes are content-addressable.  Whatever bytes are parsed, if they
    are admitted at a constructed door then serializing the admitted value gives
    those very bytes: no two byte strings are admitted as the same value. *)
Theorem admitted_bytes_are_canonical w door report g g' a v :
  wf_schema door -> admit_door (parse w) (Some door) report g = (g', Ok a) -> adm_value a = Some v ->
  serialize v = Ok w.
Proof. apply admitted_canonical. Qed.

(** C3: one gate.  Both overloads of [admit], for either format and any parsed
    state, return without an exception at a constructed door (the registry one at
    the door the claim names, refusing a claim it cannot resolve); they run the
    structural validator at most once, an acceptance always has, and what is
    accepted conforms to the door and carries its schema; a refusal carries an
    error.  A null door throws [std::invalid_argument]. *)
Theorem persistence_one_gate u door registry report g :
  wf_schema door -> map_Forall (fun _ s => wf_schema s) registry ->
  gated door g (admit_door u (Some door) report g) /\
  match Registry_lookup registry (claimed_name u) (claimed_version u) with
  | Some claimed => gated claimed g (admit_registry u registry report g)
  | None => exists e, admit_registry u registry report g = (g, Ok (Admission_reject_one e))
  end /\
  admit_door u None report g =
    (g, Throw (invalid_argument "admit(Unverified, door): door must be non-null")).
Proof.
  intros Hd Hreg. split; [|split; [|done]].
  - by apply admit_door_gated.
  - destruct u as [impl|]; cbn [claimed_name claimed_version admit_registry].
    + destruct (Registry_lookup registry (im_name impl) (im_version impl)) as [s|] eqn:E;
        destruct (im_ok impl); eauto; [|apply gated_reject].
      apply admit_against_gated. exact (Hreg _ _ E).
    + destruct (Registry_lookup registry [] 0); [apply gated_reject|eauto].
Qed.

(** ** The compatibility envelope as a tree *)

Definition envelope_tree (v : Value) : JsonValue :=
  let s := Value_schema v in
  JObject [(str "zen", JNumber (to_string kJsonEnvelopeVersion));
           (str "schema", JString (Schema_name s));
           (str "version", JNumber (to_string (Schema_version s)));
           (str "content_id", JString (format_content_id (Schema_content_id s)));
           (str "fields", value_tree v)].

Lemma compat_serialize_text v : compat_serialize v = json_text (envelope_tree v).
Proof.
  unfold compat_serialize. cbv zeta. rewrite (proj2 json_encode_text), !json_quote_spec.
  unfold envelope_tree. rewrite json_text_object. cbn [members_tail json_text].
  change (quoted (str "zen")) with ([kQuote] ++ str "zen" ++ [kQuote]).
  change (quoted (str "schema")) with ([kQuote] ++ str "schema" ++ [kQuote]).
  change (quoted (str "version")) with ([kQuote] ++ str "version" ++ [kQuote]).
  change (quoted (str "content_id")) with ([kQuote] ++ str "content_id" ++ [kQuote]).
  change (quoted (str "fields")) with ([kQuote] ++ str "fields" ++ [kQuote]).
  repeat (progress (rewrite <-?app_assoc; cbn [app str list_ascii_of_string])). reflexivity.
Qed.

(** A positive number has no leading zero. *)
Lemma dec_digits_head fuel : forall n acc,
  0 < n < 10 ^ Z.of_nat fuel -> forall w, dec_digits fuel n acc <> "0"%char :: w.
Proof.
  induction fuel as [|fuel IH]; intros n acc Hn w.
  { change (10 ^ Z.of_nat 0) with 1 in Hn. lia. }
  simpl dec_digits. destruct (Z.ltb_spec n 10).
  - intros [E _]%cons_eq_inv. apply (f_equal octet) in E. rewrite octet_chr in E.
    rewrite (Z.mod_small n 10), Z.mod_small in E by lia. change (octet "0"%char) with 48 in E. lia.
  - apply IH. rewrite Nat2Z.inj_succ, Z.pow_succ_r in Hn by lia.
    split; [apply Z.div_str_pos; lia|apply Z.div_lt_upper_bound; lia].
Qed.

Lemma to_string_grammar n : in_u32 n -> number_grammar (to_string n).
Proof.
  unfold in_u32. intros Hn. exists [], (to_string n), [], []. split; [by rewrite !app_nil_r|].
  split; [by left|]. split; [|split; by left].
  destruct (Z.eq_dec n 0) as [->|]; [by left|right]. split.
  - split; [apply to_string_nonempty|]. by apply dec_digits_digits; [lia|].
  - intros w. apply dec_digits_head. lia.
Qed.

Lemma envelope_tree_ok v :
  wf_schema (Value_schema v) -> tree_ok kMaxJsonDepth 1 (value_tree v) ->
  tree_ok kMaxJsonDepth 0 (envelope_tree v).
Proof.
  intros Hs Hv. apply tree_ok_object. split; [vm_compute; discriminate|]. split.
  - apply (bool_decide_unpack _). by vm_compute.
  - repeat constructor; cbn [snd tree_ok].
    + apply to_string_grammar. unfold in_u32, kJsonEnvelopeVersion. lia.
    + apply to_string_grammar. by apply wf_schema_version.
    + exact Hv.
Qed.

Lemma compat_parse_serialize v :
  wf_schema (Value_schema v) -> tree_ok kMaxJsonDepth 1 (value_tree v) ->
  compat_parse (compat_serialize v) =
    Some (mkImpl true (malformed_error "not parsed") FJson (Schema_name (Value_schema v))
      (Schema_version (Value_schema v)) true (Schema_content_id (Value_schema v)) [] (value_tree v)).
Proof.
  intros Hs Hv. unfold compat_parse. rewrite compat_serialize_text.
  rewrite (proj1 (parse_json_roundtrip _ _ (envelope_tree_ok v Hs Hv))).
  cbn [jp_ok jp_value negb]. cbv zeta. unfold envelope_tree.
  match goal with |- context [JObject ?l] => set (members := l) end.
  assert (unknown_envelope members = None) as -> by reflexivity.
  assert (JsonValue_find (JObject members) "zen" = Some (JNumber (to_string kJsonEnvelopeVersion)))
    as -> by reflexivity.
  assert (JsonValue_find (JObject members) "schema" = Some (JString (Schema_name (Value_schema v))))
    as -> by reflexivity.
  assert (JsonValue_find (JObject members) "version" =
    Some (JNumber (to_string (Schema_version (Value_schema v))))) as -> by reflexivity.
  assert (JsonValue_find (JObject members) "fields" = Some (value_tree v)) as -> by reflexivity.
  assert (JsonValue_find (JObject members) "content_id" =
    Some (JString (format_content_id (Schema_content_id (Value_schema v))))) as -> by reflexivity.
  change (json_parse_int64 (to_string kJsonEnvelopeVersion)) with (Some 1).
  rewrite bool_decide_true by done. cbn [negb].
  rewrite json_parse_u32_to_string by (by apply wf_schema_version).
  rewrite json_parse_content_id_format by (by apply wf_schema_content_id).
  by destruct v as [s slots]; rewrite value_tree_eq.
Qed.

(** C31: the compatibility round trip through the same gate.  For a conforming
    value the format carries, whose tree fits the reader's nesting cap, parsing
    [compat::serialize]'s text is well formed and claims the value's schema, and
    admitting it there accepts the value with its NaNs made canonical, in either
    report mode, through one run of the validator. *)
Theorem compat_persistence_roundtrip v report g :
  wf_schema (Value_schema v) -> compat_value (Value_schema v) v ->
  tree_ok kMaxJsonDepth 1 (value_tree v) -> conforms v (Value_schema v) ->
  claimed_name (compat_parse (compat_serialize v)) = Schema_name (Value_schema v) /\
  claimed_version (compat_parse (compat_serialize v)) = Schema_version (Value_schema v) /\
  admit_door (compat_parse (compat_serialize v)) (Some (Value_schema v)) report g =
    (u64 (g + 1), Ok (Admission_accept (canon_value v))).
Proof.
  intros Hd Hv Ht [_ Hc]. rewrite compat_parse_serialize by done. split; [done|]. split; [done|].
  unfold admit_door. cbn [im_ok]. unfold admit_against.
  cbn [im_name im_version im_has_content_id im_content_id im_format im_json_fields].
  rewrite bool_decide_true, !Z.eqb_refl by done. cbn [negb orb andb Value_new].
  rewrite (proj2 (json_tree_roundtrip (is_full report) [] ltac:(by destruct report)) _ Hd v [] Hv).
  destruct (finish_spec (canon_value v) [] (Value_schema v) (is_full report) g Hd)
    as (a & -> & Ha & _).
  rewrite Ha; [done|done|]. split; [by rewrite canon_schema|]. by apply conforms_canon.
Qed.

(** ** Witnesses *)

Lemma ami_nameable : nameable player.
Proof. split; [by vm_compute|by vm_compute]. Qed.

Lemma native_persistence_roundtrip_witness :
  exists w, serialize ami = Ok w /\
    admit_door (parse w) (Some player) Full 0 = (1, Ok (Admission_accept ami)).
Proof.
  destruct (native_persistence_roundtrip ami Full 0 ami_built ami_nameable ami_storable ami_conforms)
    as (w & H1 & H2 & _).
  exists w. split; [exact H1|exact H2].
Defined.

Definition ami_wire : bytes :=
  native_header "PlayerState" 1 12814600957391176662 ++ [chr 3; chr 60; chr 3] ++ str "Ami".

Lemma admitted_bytes_are_canonical_witness : serialize ami = Ok ami_wire.
Proof.
  apply (admitted_bytes_are_canonical ami_wire player FirstError 0 1 (Admission_accept ami) ami).
  - exact player_wf.
  - vm_compute. reflexivity.
  - reflexivity.
Defined.

Lemma persistence_one_gate_witness :
  gated player 7 (admit_door (parse "ZN") (Some player) Full 7).
Proof.
  apply (persistence_one_gate (parse "ZN") player ∅ Full 7 player_wf). apply map_Forall_empty.
Defined.

Lemma compat_persistence_roundtrip_witness :
  admit_door (compat_parse (compat_serialize ami)) (Some player) FirstError 0 =
    (1, Ok (Admission_accept ami)).
Proof.
  apply (compat_persistence_roundtrip ami FirstError 0 player_wf ami_compat).
  - apply tree_ok_object. split; [vm_compute; discriminate|]. split.
    + constructor; [by rewrite list_elem_of_singleton|]. constructor; [apply not_elem_of_nil|constructor].
    + by repeat constructor.
  - exact ami_conforms.
Defined.

(** A compatibility envelope whose content id is not hexadecimal is malformed and
    still reveals a name and a version. *)
Lemma malformed_keeps_claim :
  let u := compat_parse (str "{" ++ quoted "zen" ++ str ":1," ++ quoted "schema" ++ str ":" ++
    quoted "P" ++ str "," ++ quoted "version" ++ str ":7," ++ quoted "content_id" ++ str ":" ++
    quoted "zz" ++ str "," ++ quoted "fields" ++ str ":{}}") in
  well_formed u = false /\ claimed_name u = "P" /\ claimed_version u = 7.
Proof. by vm_compute. Qed.
