(* ===== verification/SchemaCodec.v ===== *)
(** * Schemas as values

    [include/zen/kernel/schema_codec.hpp]: a schema crosses a process or library
    boundary as a value of a fixed meta-schema.  A type reference is a flat list of
    tokens in prefix order; a nested schema is named by [(name, version)] and
    resolved in a registry of what was described before it.

    The theorems: describing a schema gives a value the gate admits at the
    meta-schema, and reconstruction gives the schema back; the same for a whole
    manifest, through the bytes; and reconstruction of any admitted description
    is safe, ending in a well-formed schema or in a clean exception. *)

From S2P Require Import Prelude Schema Value Registry Gate Utf8 Binary Native Serialize.

(** ** The meta-schemas *)

Definition type_token_schema : result Schema :=
  b ← builder_field "kind" KInt true (builder "zen.TypeToken" 1);
  b ← builder_field "ref_name" KText false b;
  b ← builder_field "ref_version" KInt false b;
  builder_build b.

Definition field_desc_schema : result Schema :=
  tok ← type_token_schema;
  t ← type_message (Some tok);
  b ← builder_field "name" KText true (builder "zen.Field" 1);
  b ← builder_field "required" KBool true b;
  builder_build (builder_list "type" t true b).

Definition schema_desc_schema : result Schema :=
  fd ← field_desc_schema;
  t ← type_message (Some fd);
  b ← builder_field "name" KText true (builder "zen.SchemaDesc" 1);
  b ← builder_field "version" KInt true b;
  builder_build (builder_list "fields" t true b).

Definition manifest_schema : result Schema :=
  sd ← schema_desc_schema;
  t ← type_message (Some sd);
  b ← builder_message "state" (Some sd) true
        (builder_list "accepted" t true (builder "zen.Manifest" 1));
  builder_build b.

(** What those builders make. *)
Definition prim (k : Kind) : TypeRef := mkTypeRef k None None.
Definition list_of (s : Schema) : TypeRef := type_list (mkTypeRef KMessage (Some s) None).

Definition token_door : Schema :=
  mkSchema "zen.TypeToken" 1
    [mkField (str "kind") (prim KInt) true; mkField (str "ref_name") (prim KText) false;
     mkField (str "ref_version") (prim KInt) false] 15969971421255292617.
Definition field_door : Schema :=
  mkSchema "zen.Field" 1
    [mkField (str "name") (prim KText) true; mkField (str "required") (prim KBool) true;
     mkField (str "type") (list_of token_door) true] 6403201817320944533.
Definition desc_door : Schema :=
  mkSchema "zen.SchemaDesc" 1
    [mkField (str "name") (prim KText) true; mkField (str "version") (prim KInt) true;
     mkField (str "fields") (list_of field_door) true] 4944321572103663187.
Definition manifest_door : Schema :=
  mkSchema "zen.Manifest" 1
    [mkField (str "accepted") (list_of desc_door) true;
     mkField (str "state") (mkTypeRef KMessage (Some desc_door) None) true] 6202598693622063135.

Lemma meta_schemas :
  type_token_schema = Ok token_door /\ field_desc_schema = Ok field_door /\
  schema_desc_schema = Ok desc_door /\ manifest_schema = Ok manifest_door.
Proof. vm_compute. done. Qed.

(** ** Encoding *)

Definition make_type_token (k : Kind) (ref : option Schema) : result Value :=
  s ← type_token_schema;
  tok ← Value_new (Some s);
  tok ← Value_set tok "kind" (CInt (i64 (kind_code k)));
  match ref with
  | Some r =>
      tok ← Value_set tok "ref_name" (CText (Schema_name r));
      Value_set tok "ref_version" (CInt (i64 (Schema_version r)))
  | None => Ok tok
  end.

Fixpoint encode_type (t : TypeRef) (tokens : list Cell) : result (list Cell) :=
  match t with
  | mkTypeRef KMessage m _ =>
      tok ← make_type_token KMessage m; Ok (tokens ++ [CMessage (Some tok)])
  | mkTypeRef KList _ e =>
      tok ← make_type_token KList None;
      match e with
      | None => UB
      | Some el => encode_type el (tokens ++ [CMessage (Some tok)])
      end
  | mkTypeRef k _ _ =>
      tok ← make_type_token k None; Ok (tokens ++ [CMessage (Some tok)])
  end.

Fixpoint encode_fields (fs : list Field) (acc : list Cell) : result (list Cell) :=
  match fs with
  | [] => Ok acc
  | f :: fs =>
      s ← field_desc_schema;
      fd ← Value_new (Some s);
      fd ← Value_set fd "name" (CText (fname f));
      fd ← Value_set fd "required" (CBool (required f));
      tokens ← encode_type (ftype f) [];
      fd ← Value_set fd "type" (CList tokens);
      encode_fields fs (acc ++ [CMessage (Some fd)])
  end.

Definition encode_schema (s : Schema) : result Value :=
  d ← schema_desc_schema;
  desc ← Value_new (Some d);
  desc ← Value_set desc "name" (CText (Schema_name s));
  desc ← Value_set desc "version" (CInt (i64 (Schema_version s)));
  fields ← encode_fields (Schema_fields s) [];
  Value_set desc "fields" (CList fields).

Fixpoint encode_accepted (accepted : list (option Schema)) (acc : list Cell) : result (list Cell) :=
  match accepted with
  | [] => Ok acc
  | p :: rest =>
      s ← deref p; v ← encode_schema s; encode_accepted rest (acc ++ [CMessage (Some v)])
  end.

Definition encode_manifest (accepted : list (option Schema)) (state : Schema) : result Value :=
  d ← manifest_schema;
  m ← Value_new (Some d);
  acc ← encode_accepted accepted [];
  m ← Value_set m "accepted" (CList acc);
  st ← encode_schema state;
  Value_set m "state" (CMessage (Some st)).

(** ** Decoding

    [i] is kept as the tokens still to read: [tokens.size() - i] of them. *)

Definition malformed_descriptor (why : bytes) : exn :=
  runtime_error (str "schema descriptor: " ++ why).

(** [static_cast<Kind>] of an integer from 0 to 6. *)
Definition kind_of_code (raw : Z) : Kind :=
  match raw with
  | 0 => KInt | 1 => KFloat | 2 => KText | 3 => KBool | 4 => KBytes | 5 => KMessage | _ => KList
  end.

(** [*c.as_message()]. *)
Definition message_of (c : Cell) : result Value := m ← as_message c; deref m.
(** [*v.get(name)], which must be there. *)
Definition field_of (v : Value) (name : bytes) : result Cell := deref (Value_get v name).

Definition decode_ref (tok : Value) (deps : Registry) : result TypeRef :=
  match Value_get tok "ref_name", Value_get tok "ref_version" with
  | Some ref_name, Some ref_version =>
      n ← as_text ref_name;
      v ← as_int ref_version;
      match Registry_lookup deps n (u32 v) with
      | None =>
          Throw (malformed_descriptor (str "unresolved nested schema '" ++ n ++ str "'"))
      | Some ref => type_message (Some ref)
      end
  | _, _ => Throw (malformed_descriptor "Message token missing its reference")
  end.

Fixpoint decode_type (tokens : list Cell) (deps : Registry) : result (TypeRef * list Cell) :=
  match tokens with
  | [] => Throw (malformed_descriptor "truncated type-token stream")
  | c :: tokens =>
      tok ← message_of c;
      k ← field_of tok "kind";
      raw ← as_int k;
      if (raw <? 0) || (raw >? 6) then Throw (malformed_descriptor "kind out of range") else
      match kind_of_code raw with
      | KMessage => t ← decode_ref tok deps; Ok (t, tokens)
      | KList =>
          el ← decode_type tokens deps;
          Ok (type_list el.1, el.2)
      | k => t ← type_of k; Ok (t, tokens)
      end
  end.

Fixpoint decode_fields (cells : list Cell) (deps : Registry) (rebuilt : list Field)
  : result (list Field) :=
  match cells with
  | [] => Ok rebuilt
  | c :: cells =>
      fd ← message_of c;
      n ← field_of fd "name"; n ← as_text n;
      r ← field_of fd "required"; r ← as_bool r;
      ty ← field_of fd "type"; tokens ← as_list ty;
      tt ← decode_type tokens deps;
      match tt.2 with
      | [] => decode_fields cells deps (rebuilt ++ [mkField n tt.1 r])
      | _ => Throw (malformed_descriptor "trailing type tokens")
      end
  end.

Definition decode_schema (desc : Value) (deps : Registry) : result Schema :=
  n ← field_of desc "name"; n ← as_text n;
  v ← field_of desc "version"; v ← as_int v;
  f ← field_of desc "fields"; fields ← as_list f;
  rebuilt ← decode_fields fields deps [];
  make_schema n (u32 v) rebuilt.

(** The reconstruction both hosts run on an admitted manifest: each accepted
    schema is decoded against what was registered before it and registered in
    turn, then the state schema. *)
Definition register_in (s : Schema) : M Registry Registration := fun r =>
  register_schema r (Some s).

Fixpoint rebuild_accepted (cells : list Cell) (acc : list Schema) : M Registry (list Schema) :=
  match cells with
  | [] => mret acc
  | c :: cells =>
      v ← lift (message_of c);
      deps ← gets (fun r : Registry => r);
      s ← lift (decode_schema v deps);
      _ ← register_in s;
      rebuild_accepted cells (acc ++ [s])
  end.

Definition rebuild_manifest (manifest : Value) : M Registry (list Schema * Schema) :=
  c ← lift (field_of manifest "accepted");
  cells ← lift (as_list c);
  accepted ← rebuild_accepted cells [];
  c ← lift (field_of manifest "state");
  v ← lift (message_of c);
  deps ← gets (fun r : Registry => r);
  state ← lift (decode_schema v deps);
  _ ← register_in state;
  mret (accepted, state).

(** ** The descriptions, explicitly *)

Definition token (k : Kind) (ref : option Schema) : Value :=
  mkValue token_door [Some (CInt (kind_code k)); CText ∘ Schema_name <$> ref;
                      CInt ∘ Schema_version <$> ref].

Fixpoint tokens_of (t : TypeRef) : list Cell :=
  match t with
  | mkTypeRef KMessage m _ => [CMessage (Some (token KMessage m))]
  | mkTypeRef KList _ e =>
      CMessage (Some (token KList None)) :: match e with Some el => tokens_of el | None => [] end
  | mkTypeRef k _ _ => [CMessage (Some (token k None))]
  end.

Definition field_value (f : Field) : Value :=
  mkValue field_door [Some (CText (fname f)); Some (CBool (required f));
                      Some (CList (tokens_of (ftype f)))].
Definition msg (v : Value) : Cell := CMessage (Some v).
Definition schema_value (s : Schema) : Value :=
  mkValue desc_door [Some (CText (Schema_name s)); Some (CInt (Schema_version s));
                     Some (CList (msg ∘ field_value <$> Schema_fields s))].
Definition manifest_value (accepted : list Schema) (state : Schema) : Value :=
  mkValue manifest_door [Some (CList (msg ∘ schema_value <$> accepted));
                         Some (msg (schema_value state))].

(** One computed step of a result. *)
Ltac run := erewrite bind_ok_l by reflexivity; cbv beta.

Lemma i64_u32 v : in_u32 v -> i64 v = v.
Proof. intros [? ?]. apply i64_small. unfold in_i64. lia. Qed.

Lemma i64_kind k : i64 (kind_code k) = kind_code k.
Proof. by destruct k. Qed.

Lemma make_type_token_eq k ref :
  match ref with Some s => in_u32 (Schema_version s) | None => True end ->
  make_type_token k ref = Ok (token k ref).
Proof.
  intros Hr. unfold make_type_token. destruct meta_schemas as [-> _].
  rewrite i64_kind. do 3 run. destruct ref as [r|]; [|done]. rewrite i64_u32 by done. by run.
Qed.

Lemma encode_type_eq t acc : wf_type t -> encode_type t acc = Ok (acc ++ tokens_of t).
Proof.
  revert acc. induction t as [k m|k m e IH] using TypeRef_element_ind; intros acc H%wf_type_inv;
    destruct k; destruct_and?; destruct_ex; destruct_and?; inv_eqs; try done;
    cbn [encode_type tokens_of]; rewrite make_type_token_eq by (try done; by apply wf_schema_version);
    try done.
  cbn [mbind result_bind]. rewrite IH by done. by rewrite <-app_assoc.
Qed.

Lemma encode_fields_eq fs acc :
  Forall (fun f => wf_type (ftype f)) fs ->
  encode_fields fs acc = Ok (acc ++ (msg ∘ field_value <$> fs)).
Proof.
  intros Hfs. revert acc. induction Hfs as [|f fs Hf Hfs IH]; intros acc; cbn [encode_fields].
  { by rewrite app_nil_r. }
  destruct meta_schemas as (_ & -> & _). do 4 run. rewrite encode_type_eq by done. do 2 run.
  rewrite IH. by rewrite <-app_assoc.
Qed.

Lemma encode_schema_eq s : wf_schema s -> encode_schema s = Ok (schema_value s).
Proof.
  intros Hs. unfold encode_schema. destruct meta_schemas as (_ & _ & -> & _).
  rewrite i64_u32 by (by apply wf_schema_version). do 4 run.
  rewrite encode_fields_eq by (by apply wf_schema_types). by run.
Qed.

Lemma encode_accepted_eq l acc :
  Forall wf_schema l -> encode_accepted (Some <$> l) acc = Ok (acc ++ (msg ∘ schema_value <$> l)).
Proof.
  intros Hl. revert acc. induction Hl as [|s l Hs Hl IH]; intros acc; cbn [fmap list_fmap encode_accepted].
  { by rewrite app_nil_r. }
  cbn [deref mbind result_bind]. rewrite encode_schema_eq by done. cbn [mbind result_bind].
  rewrite IH. by rewrite <-app_assoc.
Qed.

Lemma encode_manifest_eq accepted state :
  Forall wf_schema accepted -> wf_schema state ->
  encode_manifest (Some <$> accepted) state = Ok (manifest_value accepted state).
Proof.
  intros Ha Hs. unfold encode_manifest. destruct meta_schemas as (_ & _ & _ & ->).
  do 2 run. rewrite encode_accepted_eq by done. do 2 run. rewrite encode_schema_eq by done. by run.
Qed.

(** ** Descriptions pass the gate *)

Lemma token_conforms k ref : conforms (token k ref) token_door.
Proof.
  split; [done|]. apply conforms_value_fields. by destruct ref; repeat constructor.
Qed.

(** A message cell holding a value that conforms to [d]. *)
Definition conforming (d : Schema) : Cell -> Prop := conforms_cell (mkTypeRef KMessage (Some d) None).

Lemma conforming_msg d v : conforms v d -> conforming d (msg v).
Proof. done. Qed.

Lemma conforming_inv d c : conforming d c -> exists v, c = msg v /\ conforms v d.
Proof. destruct c as [| | | | |[v|]|]; try done. intros H. by exists v. Qed.

Lemma tokens_conform t : Forall (conforming token_door) (tokens_of t).
Proof.
  assert (forall k ref, conforming token_door (CMessage (Some (token k ref)))) as H
    by (intros; apply conforming_msg, token_conforms).
  induction t as [k m|k m e IH] using TypeRef_element_ind; destruct k; cbn [tokens_of];
    apply Forall_cons; (split; [apply H|]); try exact IH; apply Forall_nil_2.
Qed.

Lemma field_conforms f : conforms (field_value f) field_door.
Proof.
  split; [done|]. apply conforms_value_fields. constructor; [done|]. constructor; [done|].
  constructor; [|constructor]. exact (tokens_conform (ftype f)).
Qed.

Lemma schema_conforms s : conforms (schema_value s) desc_door.
Proof.
  split; [done|]. apply conforms_value_fields. constructor; [done|]. constructor; [done|].
  constructor; [|constructor]. cbn. apply Forall_fmap, Forall_true. intros f. apply field_conforms.
Qed.

Lemma manifest_conforms accepted state : conforms (manifest_value accepted state) manifest_door.
Proof.
  split; [done|]. apply conforms_value_fields. constructor.
  - cbn. apply Forall_fmap, Forall_true. intros s. apply schema_conforms.
  - constructor; [|constructor]. exact (schema_conforms state).
Qed.

(** ** Reconstruction inverts description *)

(** The nested schemas a reference names are the published ones. *)
Fixpoint resolves (deps : Registry) (t : TypeRef) : Prop :=
  match t with
  | mkTypeRef KMessage (Some s) _ => deps !! schema_key s = Some s
  | mkTypeRef KList _ (Some e) => resolves deps e
  | _ => True
  end.
Definition describable (deps : Registry) (s : Schema) : Prop :=
  wf_schema s /\ Forall (fun f => resolves deps (ftype f)) (Schema_fields s).

Lemma decode_tokens t deps rest :
  wf_type t -> resolves deps t -> decode_type (tokens_of t ++ rest) deps = Ok (t, rest).
Proof.
  induction t as [k m|k m e IH] using TypeRef_element_ind; intros H%wf_type_inv Hr;
    destruct k; destruct_and?; destruct_ex; destruct_and?; inv_eqs; try done.
  - cbn [tokens_of app decode_type]. do 3 run. cbn [kind_code].
    change ((5 <? 0) || (5 >? 6)) with false. cbn [kind_of_code].
    enough (decode_ref (token KMessage (Some x)) deps = Ok (mkTypeRef KMessage (Some x) None)) as -> by done.
    unfold decode_ref. change (Value_get (token KMessage (Some x)) "ref_name") with (Some (CText (Schema_name x))).
    change (Value_get (token KMessage (Some x)) "ref_version") with (Some (CInt (Schema_version x))).
    cbv iota. do 2 run. unfold u32. rewrite Z.mod_small by (by apply wf_schema_version).
    unfold Registry_lookup, snapshot. cbn [resolves] in Hr. unfold schema_key in Hr. by rewrite Hr.
  - cbn [tokens_of app decode_type]. do 3 run. cbn [kind_code].
    change ((6 <? 0) || (6 >? 6)) with false. cbn [kind_of_code].
    by rewrite IH.
Qed.

Lemma decode_fields_values fs deps acc :
  Forall (fun f => wf_type (ftype f)) fs -> Forall (fun f => resolves deps (ftype f)) fs ->
  decode_fields (msg ∘ field_value <$> fs) deps acc = Ok (acc ++ fs).
Proof.
  intros Hw. revert acc. induction Hw as [|f fs Hf Hw IH]; intros acc Hr; [by rewrite app_nil_r|].
  apply Forall_cons in Hr as [Hrf Hr]. cbn [fmap list_fmap decode_fields]. do 7 run.
  pose proof (decode_tokens (ftype f) deps [] Hf Hrf) as Hd. rewrite app_nil_r in Hd. rewrite Hd. run.
  cbn [fst snd]. rewrite IH by done. rewrite <-app_assoc. by destruct f.
Qed.

Lemma decode_schema_value s deps : describable deps s -> decode_schema (schema_value s) deps = Ok s.
Proof.
  intros [Hs Hr]. unfold decode_schema. do 6 run.
  rewrite decode_fields_values by (try done; by apply wf_schema_types). run.
  unfold u32. rewrite Z.mod_small by (by apply wf_schema_version). unfold make_schema.
  apply (Schema_new_iff (Schema_name s) (Schema_version s) (Schema_fields s)); [by apply wf_schema_version| |done].
  eapply Forall_impl; [by apply wf_schema_types|]. intros f Hf. by apply wf_type_messages_wf.
Qed.

(** ** Manifests *)

(** The registry after registering a schema that is new or already there. *)
Definition publish_schema (r : Registry) (s : Schema) : Registry := <[schema_key s := s]> r.
Definition agrees (r : Registry) (s : Schema) : Prop :=
  r !! schema_key s = None \/ r !! schema_key s = Some s.

(** Each schema can be described from those before it and clashes with none. *)
Fixpoint manifest_ok (r : Registry) (accepted : list Schema) (state : Schema) : Prop :=
  match accepted with
  | [] => describable r state /\ agrees r state
  | s :: rest => describable r s /\ agrees r s /\ manifest_ok (publish_schema r s) rest state
  end.

Lemma register_agrees r s :
  agrees r s -> exists reg, register_in s r = (publish_schema r s, Ok reg).
Proof.
  unfold register_in, publish_schema. cbn [register_schema]. intros [->|H]; [by eexists|].
  rewrite H, Z.eqb_refl. rewrite insert_id by done. by eexists.
Qed.

Lemma rebuild_accepted_values accepted : forall state acc r,
  manifest_ok r accepted state ->
  rebuild_accepted (msg ∘ schema_value <$> accepted) acc r =
    (foldl publish_schema r accepted, Ok (acc ++ accepted)) /\
  describable (foldl publish_schema r accepted) state /\ agrees (foldl publish_schema r accepted) state.
Proof.
  induction accepted as [|s rest IH]; intros state acc r Hm; cbn [fmap list_fmap rebuild_accepted foldl].
  { by rewrite app_nil_r. }
  destruct Hm as (Hd & Ha & Hm). destruct (register_agrees r s Ha) as [reg Er].
  destruct (IH state (acc ++ [s]) _ Hm) as (E & H1 & H2). split; [|done].
  rewrite (M_bind_ok (lift _) _ r r (schema_value s) eq_refl).
  rewrite (M_bind_ok (gets _) _ r r r eq_refl), decode_schema_value by done.
  rewrite (M_bind_ok (lift _) _ r r s eq_refl), (M_bind_ok _ _ _ _ _ Er), E. by rewrite <-app_assoc.
Qed.

Lemma rebuild_manifest_value accepted state r :
  manifest_ok r accepted state ->
  rebuild_manifest (manifest_value accepted state) r =
    (publish_schema (foldl publish_schema r accepted) state, Ok (accepted, state)).
Proof.
  intros Hm. destruct (rebuild_accepted_values accepted state [] r Hm) as (E & Hd & Ha).
  set (r' := foldl publish_schema r accepted) in *. destruct (register_agrees r' state Ha) as [reg Er].
  unfold rebuild_manifest.
  rewrite (M_bind_ok (lift (field_of (manifest_value accepted state) "accepted")) _ r r
    (CList (msg ∘ schema_value <$> accepted)) eq_refl).
  rewrite (M_bind_ok (lift (as_list (CList (msg ∘ schema_value <$> accepted)))) _ r r _ eq_refl), (M_bind_ok _ _ _ _ _ E).
  rewrite (M_bind_ok (lift (field_of (manifest_value accepted state) "state")) _ r' r'
    (msg (schema_value state)) eq_refl).
  rewrite (M_bind_ok (lift (message_of (msg (schema_value state)))) _ r' r' _ eq_refl).
  rewrite (M_bind_ok (gets _) _ r' r' r' eq_refl), decode_schema_value by done.
  by rewrite (M_bind_ok (lift _) _ r' r' state eq_refl), (M_bind_ok _ _ _ _ _ Er).
Qed.

(** ** Descriptions fit the wire *)

Definition text_fits (n : bytes) : Prop := valid_utf8 n = true /\ zlen n <= kMaxFieldBytes.

(** The names a reference's tokens carry. *)
Fixpoint type_fits (t : TypeRef) : Prop :=
  match t with
  | mkTypeRef KMessage (Some s) _ => text_fits (Schema_name s) /\ in_u32 (Schema_version s)
  | mkTypeRef KList _ (Some e) => type_fits e
  | _ => True
  end.
Definition field_fits (f : Field) : Prop :=
  text_fits (fname f) /\ type_fits (ftype f) /\ zlen (tokens_of (ftype f)) <= kMaxListCount.
Definition schema_fits (s : Schema) : Prop :=
  text_fits (Schema_name s) /\ in_u32 (Schema_version s) /\
  zlen (Schema_fields s) <= kMaxListCount /\ Forall field_fits (Schema_fields s).
Definition manifest_fits (accepted : list Schema) (state : Schema) : Prop :=
  zlen accepted <= kMaxListCount /\ Forall schema_fits accepted /\ schema_fits state.

Lemma zlen_fmap {A B} (f : A -> B) l : zlen (f <$> l) = zlen l.
Proof. unfold zlen. by rewrite length_fmap. Qed.

Lemma in_i64_u32 v : in_u32 v -> in_i64 v.
Proof. unfold in_u32, in_i64. lia. Qed.

Lemma in_i64_kind k : in_i64 (kind_code k).
Proof. unfold in_i64. destruct k; cbn [kind_code]; lia. Qed.

(** A message cell at [depth] holding a wire value of [d]. *)
Definition wired (depth : Z) (d : Schema) : Cell -> Prop :=
  wire_cell depth (mkTypeRef KMessage (Some d) None).

Lemma wired_msg depth d v : depth <= kMaxBinaryDepth -> wire_value (depth + 1) d v -> wired depth d (msg v).
Proof. by split. Qed.

Lemma wire_token depth k ref :
  depth <= kMaxBinaryDepth ->
  match ref with Some s => text_fits (Schema_name s) /\ in_u32 (Schema_version s) | None => True end ->
  wire_value depth token_door (token k ref).
Proof.
  intros Hd Hr. apply wire_value_slots. split; [done|]. split; [done|].
  constructor; [split; [done|apply in_i64_kind]|].
  destruct ref as [s|]; [destruct Hr as [Hn Hv]|].
  - constructor; [by split|]. constructor; [by split; [|apply in_i64_u32]|constructor].
  - by repeat constructor.
Qed.

Lemma wire_tokens depth t :
  depth < kMaxBinaryDepth -> type_fits t -> Forall (wired depth token_door) (tokens_of t).
Proof.
  intros Hd. assert (forall k, wired depth token_door (CMessage (Some (token k None)))) as H
    by (intros; apply wired_msg; [lia|apply wire_token; [lia|done]]).
  induction t as [k m|k m e IH] using TypeRef_element_ind; intros Hf; destruct k; cbn [tokens_of];
    apply Forall_cons; (split; [try apply H|]); try (apply IH; exact Hf); try apply Forall_nil_2;
    destruct m as [s|]; try apply H;
    apply wired_msg; try lia; apply wire_token; try lia; exact Hf.
Qed.

Lemma wire_field depth f :
  depth + 1 < kMaxBinaryDepth -> field_fits f -> wire_value depth field_door (field_value f).
Proof.
  intros Hd (Hn & Ht & Hl). apply wire_value_slots. split; [lia|]. split; [done|].
  constructor; [split; [lia|exact Hn]|]. constructor; [split; [lia|exact I]|].
  constructor; [|constructor]. split; [lia|]. split; [exact Hl|]. apply wire_tokens; [lia|done].
Qed.

Lemma wire_schema depth s :
  depth + 3 < kMaxBinaryDepth -> schema_fits s -> wire_value depth desc_door (schema_value s).
Proof.
  intros Hd (Hn & Hv & Hl & Hf). apply wire_value_slots. split; [lia|]. split; [done|].
  constructor; [split; [lia|exact Hn]|]. constructor; [split; [lia|by apply in_i64_u32]|].
  constructor; [|constructor]. split; [lia|]. split; [by rewrite zlen_fmap|].
  apply Forall_fmap. eapply Forall_impl; [exact Hf|]. intros f Hff.
  apply wired_msg; [lia|]. apply wire_field; [lia|done].
Qed.

Lemma wire_manifest accepted state :
  manifest_fits accepted state -> wire_value 0 manifest_door (manifest_value accepted state).
Proof.
  intros (Hl & Ha & Hs). assert (kMaxBinaryDepth = 64) as E by done.
  apply wire_value_slots. split; [lia|]. split; [done|]. constructor.
  - split; [lia|]. split; [by rewrite zlen_fmap|]. apply Forall_fmap.
    eapply Forall_impl; [exact Ha|]. intros s Hf. apply wired_msg; [lia|]. apply wire_schema; [lia|done].
  - constructor; [|constructor]. apply wired_msg; [lia|]. apply wire_schema; [lia|done].
Qed.

Lemma prim_wf k : primitive k -> wf_type (prim k).
Proof. by constructor. Qed.

Lemma list_of_wf s : wf_schema s -> wf_type (list_of s).
Proof. intros Hs. by apply wf_list, wf_message. Qed.

(** A closed schema is well formed by computation. *)
Ltac closed_schema :=
  constructor; [by vm_compute|apply (bool_decide_unpack _); by vm_compute|
    repeat (apply Forall_cons; split; [discriminate|]); apply Forall_nil_2|
    repeat (apply Forall_cons; split; cbn [ftype];
      [first [apply prim_wf; split; discriminate | apply list_of_wf | apply wf_message]|]);
    try apply Forall_nil_2
   |by vm_compute].

Lemma token_door_wf : wf_schema token_door.
Proof. closed_schema. Qed.
Lemma field_door_wf : wf_schema field_door.
Proof. closed_schema. apply token_door_wf. Qed.
Lemma desc_door_wf : wf_schema desc_door.
Proof. closed_schema. apply field_door_wf. Qed.
Lemma manifest_door_wf : wf_schema manifest_door.
Proof. closed_schema; apply desc_door_wf. Qed.

Lemma manifest_nameable : nameable manifest_door.
Proof. split; [by vm_compute|by vm_compute]. Qed.

Lemma manifest_crosses accepted state r report g :
  Forall wf_schema accepted -> wf_schema state ->
  manifest_ok r accepted state -> manifest_fits accepted state ->
  exists m w, encode_manifest (Some <$> accepted) state = Ok m /\ serialize m = Ok w /\
    admit_door (parse w) (Some manifest_door) report g = (u64 (g + 1), Ok (Admission_accept m)) /\
    rebuild_manifest m r =
      (publish_schema (foldl publish_schema r accepted) state, Ok (accepted, state)).
Proof.
  intros Ha Hs Hm Hf. exists (manifest_value accepted state).
  pose proof (wire_manifest accepted state Hf) as Hw.
  destruct (proj2 wire_built manifest_door manifest_door_wf 0 _ Hw) as [Hb Hc].
  destruct (persist_admit (manifest_value accepted state) report g Hb manifest_nameable) as (w & E1 & E2 & _).
  - unfold storable. by rewrite Hc.
  - apply manifest_conforms.
  - exists w. rewrite Hc in E2. split; [by apply encode_manifest_eq|]. split; [done|]. split; [exact E2|].
    by apply rebuild_manifest_value.
Qed.

(** C30: a manifest crosses the boundary intact.  For well-formed schemas whose
    nested schemas are described first, that clash with nothing published and
    whose names and counts fit the wire's caps: encoding and serializing the
    manifest succeeds; the gate admits the bytes at the meta-schema as the same
    manifest, through one run; and reconstruction returns exactly the accepted
    schemas and the state schema, having published each of them. *)
Theorem manifest_roundtrip accepted state r report g :
  Forall wf_schema accepted -> wf_schema state ->
  manifest_ok r accepted state -> manifest_fits accepted state ->
  exists m w, encode_manifest (Some <$> accepted) state = Ok m /\ serialize m = Ok w /\
    admit_door (parse w) (Some manifest_door) report g = (u64 (g + 1), Ok (Admission_accept m)) /\
    rebuild_manifest m r =
      (publish_schema (foldl publish_schema r accepted) state, Ok (accepted, state)).
Proof. apply manifest_crosses. Qed.

(** ** How deep a description makes the readers recurse *)

(** [decode_type] and [encode_type] call themselves once per [List] layer. *)
Fixpoint list_layers (t : TypeRef) : nat :=
  match t with mkTypeRef _ _ (Some e) => S (list_layers e) | _ => O end.

Fixpoint nest (n : nat) : TypeRef :=
  match n with O => prim KInt | S n => type_list (nest n) end.

Lemma nest_facts n :
  wf_type (nest n) /\ type_fits (nest n) /\ length (tokens_of (nest n)) = S n /\
  list_layers (nest n) = n /\ forall deps, resolves deps (nest n).
Proof.
  induction n as [|n (H1 & H2 & H3 & H4 & H5)]; [split; [by apply prim_wf|done]|].
  split; [by apply wf_list|]. split; [exact H2|]. split; [by cbn; rewrite H3|].
  split; [by cbn; rewrite H4|exact H5].
Qed.

Lemma wf_one_field n (f : Field) :
  fname f <> [] -> wf_type (ftype f) ->
  exists cid, wf_schema (mkSchema n 1 [f] cid).
Proof.
  intros Hn Ht.
  destruct (hash_fields_ok [f]) with (h := Fnv1a.fnv_u64 (Fnv1a.fnv_u64
    (Fnv1a.field Fnv1a.kFnvOffset n) 1) (u64 (zlen [f]))) as [h Hh].
  { by apply Forall_singleton, wf_type_valid. }
  exists h. constructor; [done|apply NoDup_singleton|by apply Forall_singleton|
    by apply Forall_singleton|]. unfold compute_content_id. by rewrite Hh.
Qed.

(** Nothing on the way to the readers bounds the nesting of a described
    type.  For every depth below the list cap of 2^20 there is a manifest that
    serializes, that the gate admits at the meta-schema from its bytes, and
    whose reconstruction recurses that deep and returns. *)
Theorem manifest_nesting_unbounded n :
  Z.of_nat n < kMaxListCount ->
  exists s f m w, Schema_fields s = [f] /\ list_layers (ftype f) = n /\
    encode_manifest [] s = Ok m /\ serialize m = Ok w /\
    admit_door (parse w) (Some manifest_door) FirstError 0 = (1, Ok (Admission_accept m)) /\
    (rebuild_manifest m ∅).2 = Ok ([], s).
Proof.
  intros Hn. destruct (nest_facts n) as (H1 & H2 & H3 & H4 & H5).
  set (f := mkField (str "deep") (nest n) true).
  destruct (wf_one_field "Deep" f ltac:(done) H1) as [cid Hs].
  set (s := mkSchema "Deep" 1 [f] cid) in *.
  assert (field_fits f) as Hf.
  { split; [done|]. split; [exact H2|]. unfold zlen. cbn [ftype f]. rewrite H3. lia. }
  destruct (manifest_crosses [] s ∅ FirstError 0) as (m & w & E1 & E2 & E3 & E4).
  - done.
  - done.
  - split; [split; [done|by apply Forall_singleton]|left; apply lookup_empty].
  - split; [done|]. split; [done|]. split; [done|]. split; [done|].
    split; [done|by apply Forall_singleton].
  - exists s, f, m, w. rewrite E4. by repeat split.
Qed.

(** ** Reconstruction of any admitted description is safe *)

(** Every published schema is a constructed one, filed under its key. *)
Definition deps_ok (deps : Registry) : Prop :=
  registry_ok deps /\ map_Forall (fun _ s => wf_schema s) deps.

(** A result that is good or an exception of the three kinds these functions
    throw on purpose; never undefined behaviour, never a bad variant access. *)
Definition cleanly {A} (P : A -> Prop) (r : result A) : Prop :=
  match r with
  | Ok a => P a
  | Throw (runtime_error _) | Throw (invalid_argument _) | Throw (SchemaConflict _ _ _ _) => True
  | _ => False
  end.

Lemma cleanly_bind {A B} (P : A -> Prop) (Q : B -> Prop) (m : result A) (f : A -> result B) :
  cleanly P m -> (forall a, P a -> cleanly Q (f a)) -> cleanly Q (m ≫= f).
Proof. destruct m as [a|[]|]; cbn; auto; done. Qed.

Lemma cleanly_weaken {A} (P Q : A -> Prop) (r : result A) :
  (forall a, P a -> Q a) -> cleanly P r -> cleanly Q r.
Proof. destruct r as [a|[]|]; cbn; auto. Qed.

(** The fields of an admitted value: a required one holds a conforming cell. *)
Lemma conforms_field_of d v f :
  conforms v d -> f ∈ Schema_fields d ->
  if required f then exists c, Value_get v (fname f) = Some c /\ conforms_cell (ftype f) c
  else forall c, Value_get v (fname f) = Some c -> conforms_cell (ftype f) c.
Proof.
  intros [_ Hc] Hf. rewrite conforms_value_fields, Forall_forall in Hc.
  specialize (Hc f Hf). unfold conforms_field in Hc.
  destruct (Value_get v (fname f)) as [c|].
  - destruct (required f); [by eauto|]. by intros ? [= <-].
  - by rewrite Hc.
Qed.

Lemma conforms_int c : conforms_cell (prim KInt) c -> exists v, c = CInt v.
Proof. destruct c; try done. eauto. Qed.
Lemma conforms_text c : conforms_cell (prim KText) c -> exists v, c = CText v.
Proof. destruct c; try done. eauto. Qed.
Lemma conforms_bool c : conforms_cell (prim KBool) c -> exists v, c = CBool v.
Proof. destruct c; try done. eauto. Qed.
Lemma conforms_list d c : conforms_cell (list_of d) c -> exists a, c = CList a /\ Forall (conforming d) a.
Proof. destruct c; try done. eauto. Qed.

Lemma decode_ref_clean tok deps :
  conforms tok token_door -> deps_ok deps -> cleanly wf_type (decode_ref tok deps).
Proof.
  intros Ht [_ Hwf]. unfold decode_ref.
  pose proof (conforms_field_of token_door tok (mkField (str "ref_name") (prim KText) false) Ht
    ltac:(right; left)) as Hn.
  pose proof (conforms_field_of token_door tok (mkField (str "ref_version") (prim KInt) false) Ht
    ltac:(right; right; left)) as Hv.
  cbn [required fname ftype] in Hn, Hv.
  destruct (Value_get tok "ref_name") as [c1|]; [|done].
  destruct (Value_get tok "ref_version") as [c2|]; [|done].
  destruct (conforms_text c1 (Hn c1 eq_refl)) as [n ->].
  destruct (conforms_int c2 (Hv c2 eq_refl)) as [v ->]. cbn [as_text as_int mbind result_bind].
  unfold Registry_lookup, snapshot. destruct (deps !! (n, u32 v)) as [s|] eqn:E; [|done].
  cbn. apply wf_message. by eapply Hwf.
Qed.

Lemma type_of_clean k : k <> KMessage -> k <> KList -> cleanly wf_type (type_of k).
Proof. intros H1 H2. destruct k; try done; by apply prim_wf. Qed.

(** The remaining tokens are fewer, and still token messages. *)
Definition type_read (tokens : list Cell) (x : TypeRef * list Cell) : Prop :=
  wf_type x.1 /\ Forall (conforming token_door) x.2 /\ (length x.2 < length tokens)%nat.

Lemma decode_type_clean tokens deps :
  Forall (conforming token_door) tokens -> deps_ok deps ->
  cleanly (type_read tokens) (decode_type tokens deps).
Proof.
  intros Hts Hdeps. induction Hts as [|c tokens Hc Hts IH]; [done|]. cbn [decode_type].
  destruct (conforming_inv _ _ Hc) as (tok & -> & Ht). cbn [message_of as_message deref mbind result_bind msg].
  destruct (conforms_field_of token_door tok (mkField (str "kind") (prim KInt) true) Ht ltac:(left))
    as (ck & Ek & Hk). cbn [fname ftype] in *. destruct (conforms_int _ Hk) as [raw ->].
  unfold field_of. rewrite Ek. cbn [deref as_int mbind result_bind].
  destruct (_ || _); [done|]. destruct (kind_of_code raw) eqn:Ekind.
  6: { eapply cleanly_bind; [by apply decode_ref_clean|]. intros t Hwt. cbn. by repeat split; [..|cbn; lia]. }
  6: { eapply cleanly_bind; [exact IH|]. intros [t rest] (Hwt & Hr & Hl). cbn [cleanly fst snd].
       split; [by apply wf_list|]. split; [done|]. cbn in *. lia. }
  all: eapply cleanly_bind; [by apply type_of_clean|]; intros t Hwt; cbn; by repeat split; [..|cbn; lia].
Qed.

Lemma decode_fields_clean cells deps : forall acc,
  Forall (conforming field_door) cells -> deps_ok deps ->
  Forall (fun f => wf_type (ftype f)) acc ->
  cleanly (Forall (fun f => wf_type (ftype f))) (decode_fields cells deps acc).
Proof.
  induction cells as [|c cells IH]; intros acc Hcs Hdeps Hacc; [done|].
  apply Forall_cons in Hcs as [Hc Hcs]. destruct (conforming_inv _ _ Hc) as (fd & -> & Hf).
  destruct (conforms_field_of field_door fd (mkField (str "name") (prim KText) true) Hf ltac:(left))
    as (c1 & E1 & H1).
  destruct (conforms_field_of field_door fd (mkField (str "required") (prim KBool) true) Hf
    ltac:(right; left)) as (c2 & E2 & H2).
  destruct (conforms_field_of field_door fd (mkField (str "type") (list_of token_door) true) Hf
    ltac:(right; right; left)) as (c3 & E3 & H3).
  cbn [fname ftype] in *. destruct (conforms_text _ H1) as [n ->].
  destruct (conforms_bool _ H2) as [req ->]. destruct (conforms_list _ _ H3) as (tokens & -> & Hts).
  cbn [decode_fields message_of as_message deref mbind result_bind msg]. unfold field_of.
  rewrite E1, E2, E3. cbn [deref as_text as_bool as_list mbind result_bind].
  eapply cleanly_bind; [by apply decode_type_clean|]. intros [t [|]] (Ht & _ & _); [|done].
  cbn [snd fst]. apply IH; [done..|]. apply Forall_app. split; [done|]. by constructor.
Qed.

Lemma make_schema_clean n v fs :
  in_u32 v -> Forall (fun f => wf_type (ftype f)) fs -> cleanly wf_schema (make_schema n v fs).
Proof.
  intros Hv Hfs. unfold make_schema.
  assert (Forall (fun f => messages_wf (ftype f)) fs) as Hm
    by (eapply Forall_impl; [exact Hfs|]; intros f Hf; by apply wf_type_messages_wf).
  destruct (Schema_new_iff n v fs Hv Hm) as [Hub Hok].
  unfold Schema_new in *. destruct (check_fields ∅ fs) as [[]|e|] eqn:Ec.
  - destruct (compute_content_id n v fs) as [cid|e|] eqn:Ei; cbn in *; [by apply Hok| |done].
    destruct (hash_fields_ok fs) with (h := Fnv1a.fnv_u64 (Fnv1a.fnv_u64
      (Fnv1a.field Fnv1a.kFnvOffset n) v) (u64 (zlen fs))) as [h Hh].
    { eapply Forall_impl; [exact Hfs|]. intros f Hf. by apply wf_type_valid. }
    unfold compute_content_id in Ei. by rewrite Hh in Ei.
  - cbn. clear -Ec Hfs. revert Ec. generalize (∅ : gset bytes). induction Hfs as [|f fs Hf Hfs IH];
      intros seen; cbn [check_fields]; [done|]. case_bool_decide; [by intros [= <-]|].
    case_bool_decide; [by intros [= <-]|]. rewrite wf_type_valid by done. cbn. apply IH.
  - done.
Qed.

Lemma decode_schema_clean desc deps :
  conforms desc desc_door -> deps_ok deps -> cleanly wf_schema (decode_schema desc deps).
Proof.
  intros Hc Hdeps.
  destruct (conforms_field_of desc_door desc (mkField (str "name") (prim KText) true) Hc ltac:(left))
    as (c1 & E1 & H1).
  destruct (conforms_field_of desc_door desc (mkField (str "version") (prim KInt) true) Hc
    ltac:(right; left)) as (c2 & E2 & H2).
  destruct (conforms_field_of desc_door desc (mkField (str "fields") (list_of field_door) true) Hc
    ltac:(right; right; left)) as (c3 & E3 & H3).
  cbn [fname ftype] in *. destruct (conforms_text _ H1) as [n ->].
  destruct (conforms_int _ H2) as [v ->]. destruct (conforms_list _ _ H3) as (fields & -> & Hfs).
  unfold decode_schema, field_of. rewrite E1, E2, E3. cbn [deref as_text as_int as_list mbind result_bind].
  eapply cleanly_bind; [by apply decode_fields_clean|]. intros rebuilt Hr.
  apply make_schema_clean; [|done]. unfold in_u32, u32. by apply Z.mod_pos_bound.
Qed.

(** The key of a reconstructed schema resolves to its published twin. *)
Definition published (r : Registry) (s : Schema) : Prop :=
  exists e, r !! schema_key s = Some e /\ Schema_content_id e = Schema_content_id s.

Lemma published_grows r r' s : r ⊆ r' -> published r s -> published r' s.
Proof. intros Hr (e & He & Hc). exists e. split; [by eapply lookup_weaken|done]. Qed.

(** A computation on the registry that only adds well-formed schemas and ends
    cleanly. *)
Definition safely {A : Type} (P : Registry -> A -> Prop) (m : M Registry A) (r : Registry) : Prop :=
  deps_ok r -> deps_ok (m r).1 /\ r ⊆ (m r).1 /\ cleanly (P (m r).1) (m r).2.

Lemma safely_bind {A B : Type} (P : Registry -> A -> Prop) (Q : Registry -> B -> Prop)
    (m : M Registry A) (f : A -> M Registry B) r :
  safely P m r ->
  (forall a r', deps_ok r' -> r ⊆ r' -> P r' a -> safely Q (f a) r') ->
  safely Q (m ≫= f) r.
Proof.
  intros Hm Hf Hr. unfold mbind, M_bind. destruct (Hm Hr) as (H1 & H2 & H3).
  destruct (m r) as [r' [a|e|]]; cbn in *; [|by destruct e|done].
  destruct (Hf a r' H1 H2 H3 H1) as (K1 & K2 & K3). split; [done|]. split; [by etrans|done].
Qed.

Lemma safely_ext {A : Type} (P : Registry -> A -> Prop) (m m' : M Registry A) r :
  m r = m' r -> safely P m' r -> safely P m r.
Proof. unfold safely. by intros ->. Qed.

Lemma safely_weaken {A : Type} (P Q : Registry -> A -> Prop) (m : M Registry A) r :
  (forall r a, P r a -> Q r a) -> safely P m r -> safely Q m r.
Proof.
  intros HPQ Hm Hr. destruct (Hm Hr) as (H1 & H2 & H3). split; [done|]. split; [done|].
  eapply cleanly_weaken; [|exact H3]. auto.
Qed.

Lemma safely_lift {A : Type} (P : A -> Prop) (x : result A) r :
  cleanly P x -> safely (fun _ => P) (lift x) r.
Proof. intros Hx Hr. by split. Qed.

Lemma safely_read r : safely (fun r' deps => deps = r /\ r' = r) (gets (fun r : Registry => r)) r.
Proof. intros Hr. by split. Qed.

Lemma register_safely s r :
  wf_schema s -> safely (fun r' _ => published r' s) (register_in s) r.
Proof.
  intros Hs [Hok Hwf]. unfold register_in.
  split; [split; [by apply register_ok|]|split; [apply register_grows|]]; cbn [register_schema].
  - destruct (r !! schema_key s); [by case_match|]. cbn [fst]. by apply map_Forall_insert_2.
  - destruct (r !! schema_key s) as [e|] eqn:E.
    + destruct (Z.eqb_spec (Schema_content_id e) (Schema_content_id s)); [|done]. by exists e.
    + cbn [fst snd cleanly]. exists s. by rewrite lookup_insert_eq.
Qed.

(** One step of both loops: a described schema is decoded and published. *)
Definition rebuilt (r : Registry) (s : Schema) : Prop := wf_schema s /\ published r s.

Lemma rebuilt_grows r r' s : r ⊆ r' -> rebuilt r s -> rebuilt r' s.
Proof. intros Hr [? ?]. split; [done|]. by eapply published_grows. Qed.

Definition rebuild_one (v : Value) : M Registry Schema :=
  deps ← gets (fun r : Registry => r);
  s ← lift (decode_schema v deps);
  _ ← register_in s;
  mret s.

Lemma rebuild_one_safely v r : conforms v desc_door -> safely rebuilt (rebuild_one v) r.
Proof.
  intros Hv. eapply safely_bind; [apply safely_read|]. intros deps r1 Hr1 _ [-> ->].
  eapply safely_bind; [by apply safely_lift, decode_schema_clean|]. intros s r2 _ _ Hs.
  eapply safely_bind; [by apply register_safely|]. intros ? r3 Hr3 _ Hp. by intros _.
Qed.

Lemma rebuild_accepted_safely cells : forall acc r,
  Forall (conforming desc_door) cells -> Forall (rebuilt r) acc ->
  safely (fun r' l => Forall (rebuilt r') l) (rebuild_accepted cells acc) r.
Proof.
  induction cells as [|c cells IH]; intros acc r Hcs Hacc; [by intros ?|].
  apply Forall_cons in Hcs as [Hc Hcs]. destruct (conforming_inv _ _ Hc) as (v & -> & Hv).
  assert (rebuild_accepted (msg v :: cells) acc r =
    (rebuild_one v ≫= fun s => rebuild_accepted cells (acc ++ [s])) r) as E.
  { cbn [rebuild_accepted]. rewrite (M_bind_ok (lift _) _ r r v eq_refl). unfold rebuild_one.
    rewrite (M_bind_ok (gets _) _ r r r eq_refl). unfold mbind, M_bind, lift, gets.
    destruct (decode_schema v r) as [s| |]; [|done..]. by destruct (register_in s r) as [? []]. }
  eapply safely_ext; [exact E|]. eapply safely_bind; [by apply rebuild_one_safely|].
  intros s r' _ Hrr Hs. apply IH; [done|]. apply Forall_app. split; [|by constructor].
  eapply Forall_impl; [exact Hacc|]. intros x. by apply rebuilt_grows.
Qed.

(** An admitted manifest has its two parts. *)
Lemma manifest_parts m :
  conforms m manifest_door ->
  exists cells st, field_of m "accepted" = Ok (CList cells) /\ field_of m "state" = Ok (msg st) /\
    Forall (conforming desc_door) cells /\ conforms st desc_door.
Proof.
  intros Hm.
  destruct (conforms_field_of manifest_door m (mkField (str "accepted") (list_of desc_door) true) Hm
    ltac:(left)) as (c1 & E1 & H1).
  destruct (conforms_field_of manifest_door m
    (mkField (str "state") (mkTypeRef KMessage (Some desc_door) None) true) Hm
    ltac:(right; left)) as (c2 & E2 & H2).
  cbn [fname ftype] in *. destruct (conforms_list _ _ H1) as (cells & -> & Hcs).
  destruct (conforming_inv _ _ H2) as (st & -> & Hst).
  exists cells, st. unfold field_of. by rewrite E1, E2.
Qed.

Lemma rebuild_manifest_eq m cells st r :
  field_of m "accepted" = Ok (CList cells) -> field_of m "state" = Ok (msg st) ->
  rebuild_manifest m r = (l ← rebuild_accepted cells []; s ← rebuild_one st; mret (l, s)) r.
Proof.
  intros E1 E2. unfold rebuild_manifest, rebuild_one. rewrite E1, E2.
  rewrite (M_bind_ok (lift _) _ r r (CList cells) eq_refl), (M_bind_ok (lift _) _ r r cells eq_refl).
  unfold mbind, M_bind. destruct (rebuild_accepted cells [] r) as [r' [l| |]]; [|done..].
  cbn [lift message_of msg as_message deref mbind result_bind gets].
  destruct (decode_schema st r') as [s| |]; [|done..]. by destruct (register_in s r') as [? []].
Qed.

Lemma rebuild_manifest_safely (m : Value) (r : Registry) :
  conforms m manifest_door ->
  safely (fun r' x => Forall (rebuilt r') (x.1 ++ [x.2])) (rebuild_manifest m) r.
Proof.
  intros Hm.
  destruct (manifest_parts m Hm) as (cells & st & E1 & E2 & Hcs & Hst).
  eapply (safely_ext _ _ (l ← rebuild_accepted cells []; s ← rebuild_one st; mret (l, s))).
  { by apply rebuild_manifest_eq. }
  eapply safely_bind; [by apply rebuild_accepted_safely|]. intros l r1 _ _ Hl.
  eapply safely_bind; [by apply rebuild_one_safely|]. intros s r2 _ H12 Hs ?.
  split; [done|]. split; [done|]. apply Forall_app. split; [|by constructor].
  eapply Forall_impl; [exact Hl|]. intros x. by apply rebuilt_grows.
Qed.

(** Reconstruction of whatever description the gate admitted is safe.  It
    ends, without undefined behaviour or a bad variant access, either in an
    exception thrown on purpose or in well-formed schemas each of which agrees
    with the one now published under its name and version; and in both cases the
    registry only grew, by well-formed schemas. *)
Theorem rebuild_manifest_safe (m : Value) (r : Registry) :
  conforms m manifest_door -> deps_ok r ->
  deps_ok (rebuild_manifest m r).1 /\
  r ⊆ (rebuild_manifest m r).1 /\
  cleanly (fun x => Forall (rebuilt (rebuild_manifest m r).1) (x.1 ++ [x.2]))
    (rebuild_manifest m r).2.
Proof. intros Hm Hr. by apply rebuild_manifest_safely. Qed.

(** ** Witnesses: a roster of players, described after the player it names *)

Definition roster : Schema :=
  mkSchema "Roster" 1 [mkField (str "players") (list_of player) true] 14911295699683298016.

Lemma roster_wf : wf_schema roster.
Proof. closed_schema. apply player_wf. Qed.

Lemma roster_manifest : manifest_ok ∅ [player] roster /\ manifest_fits [player] roster.
Proof.
  split.
  - split; [split; [apply player_wf|by repeat constructor]|].
    split; [left; by vm_compute|]. split; [split; [apply roster_wf|]|left; by vm_compute].
    apply Forall_singleton. by vm_compute.
  - assert (schema_fits player) as Hp.
    { split; [by vm_compute|]. split; [done|]. split; [by vm_compute|].
      repeat (apply Forall_cons; split; [by vm_compute|]). apply Forall_nil_2. }
    split; [by vm_compute|]. split; [by apply Forall_singleton|].
    split; [by vm_compute|]. split; [done|]. split; [by vm_compute|].
    apply Forall_singleton. by vm_compute.
Qed.

Lemma manifest_roundtrip_witness :
  exists m w, encode_manifest [Some player] roster = Ok m /\ serialize m = Ok w /\
    admit_door (parse w) (Some manifest_door) Full 0 = (1, Ok (Admission_accept m)) /\
    rebuild_manifest m ∅ = (publish_schema (publish_schema ∅ player) roster, Ok ([player], roster)).
Proof.
  apply (manifest_roundtrip [player] roster ∅ Full 0).
  - apply Forall_singleton, player_wf.
  - apply roster_wf.
  - apply roster_manifest.
  - apply roster_manifest.
Defined.

Lemma manifest_nesting_unbounded_witness :
  exists s f m w, Schema_fields s = [f] /\ list_layers (ftype f) = 1000%nat /\
    encode_manifest [] s = Ok m /\ serialize m = Ok w /\
    admit_door (parse w) (Some manifest_door) FirstError 0 = (1, Ok (Admission_accept m)) /\
    (rebuild_manifest m ∅).2 = Ok ([], s).
Proof. apply (manifest_nesting_unbounded 1000). by vm_compute. Defined.

(** A description naming a schema nobody described is refused cleanly. *)
Lemma rebuild_manifest_safe_witness :
  deps_ok (rebuild_manifest (manifest_value [roster] player) ∅).1 /\
  (rebuild_manifest (manifest_value [roster] player) ∅).2 =
    Throw (malformed_descriptor "unresolved nested schema 'PlayerState'").
Proof.
  split; [|by vm_compute].
  refine (proj1 (rebuild_manifest_safe (manifest_value [roster] player) ∅ _ _)).
  - apply manifest_conforms.
  - split; [apply registry_ok_empty|apply map_Forall_empty].
Defined.
