(* ===== verification/Protocol.v ===== *)
(** * The parent-child wire protocol

    [include/zen/isolation/protocol.hpp]: frame operations, the little-endian
    append helpers and [Cursor], the reader over a frame payload.  An access of a
    [string_view] past its end is undefined behaviour, kept as the result [UB];
    the theorems show that no sequence of cursor reads reaches it, and that each
    field is read back exactly when it was written. *)

From S2P Require Import Prelude Binary.

(** ** Operations and caps *)

(** [enum class Op : std::uint8_t]; a received octet is cast to it, so it may
    hold any octet. *)
Definition Op_Hello : Z := 1.
Definition Op_Emit : Z := 2.
Definition Op_Snapshot : Z := 3.
Definition Op_Deliver : Z := 16.
Definition Op_Revive : Z := 17.
Definition Op_Shutdown : Z := 18.

Definition kMaxFrameLen : Z := 64 * 1024 * 1024.
Definition kEmitSend : Z := 0.
Definition kEmitPublish : Z := 1.

(** ** Append helpers

    [put_u8] is the one of [Binary]; the two word writers run the same loop. *)

Definition put_u32 (out : bytes) (v : Z) : bytes :=
  fold_left (fun out s => out ++ [chr (Z.land (Z.shiftr v s) 0xFF)]) [0; 8; 16; 24] out.
Definition put_u64 (out : bytes) (v : Z) : bytes :=
  fold_left (fun out s => out ++ [chr (Z.land (Z.shiftr v s) 0xFF)])
    [0; 8; 16; 24; 32; 40; 48; 56] out.
Definition put_bytes (out b : bytes) : bytes := put_u32 out (u32 (zlen b)) ++ b.

(** ** The cursor *)

Record Cursor : Type := mkCursor { c_data : bytes; c_i : Z }.
Definition Cursor_new (data : bytes) : Cursor := mkCursor data 0.

Definition c_remaining (c : Cursor) : Z := u64 (zlen (c_data c) - c_i c).

(** [data_[i_++]], as an octet. *)
Definition next_octet : M Cursor Z := fun c =>
  match c_data c !! Z.to_nat (c_i c) with
  | Some ch => (mkCursor (c_data c) (u64 (c_i c + 1)), Ok (octet ch))
  | None => (c, UB)
  end.

(** The bool the methods return and the value they store are one option. *)
Definition Cursor_u8 : M Cursor (option Z) :=
  n ← gets c_remaining;
  if n <? 1 then mret None else v ← next_octet; mret (Some v).

Fixpoint word_loop (width : Z) (shifts : list Z) (v : Z) : M Cursor Z :=
  match shifts with
  | [] => mret v
  | s :: shifts =>
      b ← next_octet; word_loop width shifts (Z.lor v (Z.shiftl b s mod 2 ^ width))
  end.
Definition Cursor_u32 : M Cursor (option Z) :=
  n ← gets c_remaining;
  if n <? 4 then mret None else v ← word_loop 32 [0; 8; 16; 24] 0; mret (Some v).
Definition Cursor_u64 : M Cursor (option Z) :=
  n ← gets c_remaining;
  if n <? 8 then mret None
  else v ← word_loop 64 [0; 8; 16; 24; 32; 40; 48; 56] 0; mret (Some v).

(** [data_.substr(pos, n)], which throws past the end. *)
Definition substr (s : bytes) (pos : Z) (n : Z) : result bytes :=
  if pos >? zlen s then Throw (out_of_range "basic_string_view::substr")
  else Ok (take (Z.to_nat n) (drop (Z.to_nat pos) s)).

Definition Cursor_bytes : M Cursor (option bytes) :=
  n ← Cursor_u32;
  match n with
  | None => mret None
  | Some n =>
      r ← gets c_remaining;
      if r <? n then mret None else
      c ← gets (fun c => c);
      v ← lift (substr (c_data c) (c_i c) n);
      _ ← modify (fun c => mkCursor (c_data c) (u64 (c_i c + n)));
      mret (Some v)
  end.

(** [rest()] : [substr(i_)] to the end. *)
Definition Cursor_rest : M Cursor bytes :=
  c ← gets (fun c => c);
  v ← lift (substr (c_data c) (c_i c) (zlen (c_data c)));
  _ ← modify (fun c => mkCursor (c_data c) (zlen (c_data c)));
  mret v.

(** [a(x) && b(y)], as the callers chain reads. *)
Definition both {A B : Type} (ra : M Cursor (option A)) (rb : M Cursor (option B))
  : M Cursor (option (A * B)) :=
  a ← ra;
  match a with
  | None => mret None
  | Some a => b ← rb; mret (pair a <$> b)
  end.

(** ** The writers append the little-endian form *)

Lemma put_u32_spec out v : put_u32 out v = out ++ le_bytes 4 v.
Proof. apply put_u32le_spec. Qed.
Lemma put_u64_spec out v : put_u64 out v = out ++ le_bytes 8 v.
Proof. apply put_u64le_spec. Qed.
Lemma put_bytes_spec out b : zlen b < 2 ^ 32 -> put_bytes out b = out ++ le_bytes 4 (zlen b) ++ b.
Proof.
  intros Hb. unfold put_bytes. rewrite put_u32_spec, <-app_assoc. unfold u32.
  rewrite Z.mod_small by (pose proof (zlen_nonneg b); lia). done.
Qed.

(** ** The unread part, and what each read does to it *)

Lemma substr_ok s pos n :
  pos <= zlen s -> substr s pos n = Ok (take (Z.to_nat n) (drop (Z.to_nat pos) s)).
Proof. intros H. unfold substr. by rewrite gtb_false. Qed.

Definition cursor_ok (c : Cursor) : Prop := 0 <= c_i c <= zlen (c_data c) /\ zlen (c_data c) < 2 ^ 64.
Definition unread (c : Cursor) : bytes := drop (Z.to_nat (c_i c)) (c_data c).

(** The cursor advanced over the prefix [p] of what was unread. *)
Definition consumed (c : Cursor) (p : bytes) (c' : Cursor) : Prop :=
  cursor_ok c' /\ c_data c' = c_data c /\ unread c = p ++ unread c'.

Lemma consumed_refl c : cursor_ok c -> consumed c [] c.
Proof. done. Qed.

Lemma consumed_trans c1 c2 c3 p q : consumed c1 p c2 -> consumed c2 q c3 -> consumed c1 (p ++ q) c3.
Proof.
  intros (_ & E1 & H1) (Hok & E2 & H2). split; [done|]. split; [congruence|].
  by rewrite H1, H2, app_assoc.
Qed.

Lemma Cursor_new_ok s : zlen s < 2 ^ 64 -> cursor_ok (Cursor_new s) /\ unread (Cursor_new s) = s.
Proof. intros Hs. split; [|done]. split; [|done]. pose proof (zlen_nonneg s). simpl. lia. Qed.

Lemma c_remaining_unread c : cursor_ok c -> c_remaining c = zlen (unread c).
Proof.
  intros [Hi Hs]. unfold c_remaining, unread. rewrite u64_small by (unfold in_u64; lia).
  unfold zlen in *. rewrite length_drop. lia.
Qed.

(** One octet forward. *)
Lemma next_octet_spec c ch s :
  cursor_ok c -> unread c = ch :: s ->
  exists c', next_octet c = (c', Ok (octet ch)) /\ consumed c [ch] c' /\ unread c' = s.
Proof.
  intros [Hi Hs] Hu. unfold next_octet. unfold unread in Hu. rewrite (drop_lookup_head _ _ _ _ Hu).
  assert (c_i c < zlen (c_data c)) as Hlt.
  { apply (f_equal length) in Hu. rewrite length_drop in Hu. cbn in Hu. unfold zlen. lia. }
  rewrite u64_small by (unfold in_u64; lia). eexists. split; [done|].
  assert (unread (mkCursor (c_data c) (c_i c + 1)) = s) as E.
  { unfold unread. cbn [c_data c_i]. replace (Z.to_nat (c_i c + 1)) with (Z.to_nat (c_i c) + 1)%nat by lia.
    by rewrite <-drop_drop, Hu. }
  split; [|done]. split; [split; cbn; lia|]. split; [done|]. unfold unread in E |- *. by rewrite E, Hu.
Qed.

(** The loop over [k] more octets of which [w] were read so far. *)
Lemma word_loop_spec width k : forall c w p s j,
  8 * Z.of_nat (j + k) <= width -> zlen w = Z.of_nat j ->
  cursor_ok c -> unread c = p ++ s -> length p = k ->
  exists c', word_loop width (map (fun k => 8 * Z.of_nat k) (seq j k)) (le_value w) c =
    (c', Ok (le_value (w ++ p))) /\ consumed c p c' /\ unread c' = s.
Proof.
  induction k as [|k IH]; intros c w p s j Hw Hj Hok Hu Hp.
  { destruct p; [|done]. exists c. by rewrite app_nil_r. }
  destruct p as [|ch p]; [done|]. injection Hp as Hp. cbn [seq map word_loop].
  destruct (next_octet_spec c ch (p ++ s) Hok Hu) as (c1 & E1 & H1 & U1).
  rewrite (M_bind_ok _ _ _ _ _ E1).
  assert (Z.lor (le_value w) (Z.shiftl (octet ch) (8 * Z.of_nat j) mod 2 ^ width) =
    le_value (w ++ [ch])) as ->.
  { rewrite le_value_snoc, Hj. pose proof (octet_range ch). pose proof (le_value_range w) as Hr.
    rewrite Hj in Hr. rewrite Z.mod_small; [by apply lor_shiftl_add; [lia|]|].
    rewrite Z.shiftl_mul_pow2 by lia. split; [nia|].
    apply Z.lt_le_trans with (2 ^ (8 + 8 * Z.of_nat j)).
    - rewrite Z.pow_add_r by lia. nia.
    - apply Z.pow_le_mono_r; lia. }
  destruct (IH c1 (w ++ [ch]) p s (S j)) as (c2 & E2 & H2 & U2); try done.
  - lia.
  - rewrite zlen_app, Hj. unfold zlen. simpl. lia.
  - apply H1.
  - exists c2. rewrite E2, <-app_assoc. split; [done|]. split; [|done].
    by apply (consumed_trans _ _ _ [ch] p H1).
Qed.

(** ** Fields

    [Field read enc ok]: from a cursor within its data, [read] never reaches
    undefined behaviour and never throws; it returns a value exactly when the
    unread part starts with that value's encoding, which it then consumes. *)
Class Field {A : Type} (read : M Cursor (option A)) (enc : A -> bytes) (ok : A -> Prop) : Prop := {
  field_run c : cursor_ok c ->
    exists c' r, read c = (c', Ok r) /\
      match r with
      | Some x => ok x /\ consumed c (enc x) c'
      | None => cursor_ok c' /\ c_data c' = c_data c /\ forall x s, ok x -> unread c <> enc x ++ s
      end;
  field_prefix x y s t : ok x -> ok y -> enc x ++ s = enc y ++ t -> x = y /\ s = t
}.

Lemma field_read {A : Type} (read : M Cursor (option A)) enc ok `{!Field read enc ok} c x s :
  cursor_ok c -> ok x -> unread c = enc x ++ s ->
  exists c', read c = (c', Ok (Some x)) /\ consumed c (enc x) c' /\ unread c' = s.
Proof.
  intros Hc Hx Hu. destruct (field_run c Hc) as (c' & [y|] & E & H).
  - destruct H as (Hy & Hk). pose proof Hk as (_ & _ & Hu'). rewrite Hu in Hu'.
    destruct (field_prefix x y _ _ Hx Hy Hu') as [<- ->]. by exists c'.
  - by destruct H as (_ & _ & []%(fun H => H x s Hx)).
Qed.

Lemma field_inv {A : Type} (read : M Cursor (option A)) enc ok `{!Field read enc ok} c c' x :
  cursor_ok c -> read c = (c', Ok (Some x)) -> ok x /\ consumed c (enc x) c'.
Proof.
  intros Hc E. destruct (field_run c Hc) as (c1 & r & E1 & H). rewrite E in E1.
  by injection E1 as -> <-.
Qed.

(** A word of [k] octets. *)
Definition read_word (k : nat) : M Cursor (option Z) :=
  n ← gets c_remaining;
  if n <? Z.of_nat k then mret None
  else v ← word_loop (8 * Z.of_nat k) (map (fun k => 8 * Z.of_nat k) (seq 0 k)) 0; mret (Some v).

#[export] Instance word_field k :
  Field (read_word k) (le_bytes k) (fun v => 0 <= v < 2 ^ (8 * Z.of_nat k)).
Proof.
  split; [|intros x y s t; by apply le_bytes_app_inj].
  intros c Hc. unfold read_word. rewrite (M_bind_ok (gets _) _ c c _ eq_refl), c_remaining_unread by done.
  destruct (Z.ltb_spec (zlen (unread c)) (Z.of_nat k)) as [Hlt|Hge].
  - exists c, None. split; [done|]. split; [done|]. split; [done|]. intros x s _ E.
    rewrite E, zlen_app in Hlt. unfold zlen in Hlt at 1. rewrite length_le_bytes in Hlt.
    pose proof (zlen_nonneg s). lia.
  - assert (length (take k (unread c)) = k) as Hl by (rewrite length_take; unfold zlen in Hge; lia).
    destruct (word_loop_spec (8 * Z.of_nat k) k c [] (take k (unread c)) (drop k (unread c)) 0)
      as (c' & E & H & U); try done.
    + by rewrite take_drop.
    + rewrite le_value_nil in E. rewrite (M_bind_ok _ _ _ _ _ E). exists c', (Some (le_value (take k (unread c)))).
      split; [done|]. split.
      * pose proof (le_value_range (take k (unread c))) as Hr. unfold zlen in Hr. by rewrite Hl in Hr.
      * rewrite <-Hl at 1. by rewrite le_bytes_le_value.
Qed.

#[export] Instance Cursor_u32_field : Field Cursor_u32 (le_bytes 4) in_u32.
Proof. exact (word_field 4). Qed.
#[export] Instance Cursor_u64_field : Field Cursor_u64 (le_bytes 8) in_u64.
Proof. exact (word_field 8). Qed.

Lemma Cursor_u8_word c : cursor_ok c -> Cursor_u8 c = read_word 1 c.
Proof.
  intros Hc. unfold Cursor_u8, read_word. rewrite !(M_bind_ok (gets _) _ c c _ eq_refl).
  change (Z.of_nat 1) with 1. destruct (_ <? 1); [done|]. cbn [seq map word_loop].
  unfold mbind, M_bind, next_octet. destruct (c_data c !! _) as [ch|]; [|done].
  cbn [mret M_ret]. change (8 * Z.of_nat 0) with 0. rewrite Z.shiftl_0_r, Z.lor_0_l.
  rewrite Z.mod_small; [done|]. apply octet_range.
Qed.

#[export] Instance Cursor_u8_field : Field Cursor_u8 (le_bytes 1) (fun v => 0 <= v < 2 ^ 8).
Proof.
  split; [|exact (field_prefix (Field := word_field 1))].
  intros c Hc. rewrite Cursor_u8_word by done. exact (field_run (Field := word_field 1) c Hc).
Qed.

Definition bytes_enc (b : bytes) : bytes := le_bytes 4 (zlen b) ++ b.

#[export] Instance Cursor_bytes_field : Field Cursor_bytes bytes_enc (fun b => zlen b < 2 ^ 32).
Proof.
  split.
  - intros c Hc. unfold Cursor_bytes.
    destruct (field_run (read := Cursor_u32) c Hc) as (c1 & [n|] & E & H); rewrite (M_bind_ok _ _ _ _ _ E).
    2: { exists c1, None. destruct H as (? & ? & H). do 3 (split; [done|]). intros x s Hx.
         unfold bytes_enc. rewrite <-app_assoc. apply H. unfold in_u32. pose proof (zlen_nonneg x). lia. }
    destruct H as ([Hn0 Hn] & H). destruct H as (H1 & D1 & U1).
    rewrite (M_bind_ok (gets _) _ c1 c1 _ eq_refl), c_remaining_unread by done.
    destruct (Z.ltb_spec (zlen (unread c1)) n) as [Hlt|Hge].
    + exists c1, None. split; [done|]. split; [done|]. split; [done|]. intros x s Hx Hu.
      unfold bytes_enc in Hu. rewrite U1, <-app_assoc in Hu.
      apply le_bytes_app_inj in Hu as [-> Hu]; [|done|pose proof (zlen_nonneg x); simpl; lia].
      rewrite Hu, zlen_app in Hlt. pose proof (zlen_nonneg s). lia.
    + rewrite (M_bind_ok (gets _) _ c1 c1 _ eq_refl). unfold substr.
      destruct H1 as [Hi Hs]. rewrite gtb_false by lia.
      rewrite (M_bind_ok (lift _) _ c1 c1 _ eq_refl).
      set (b := take (Z.to_nat n) (drop (Z.to_nat (c_i c1)) (c_data c1))).
      assert (zlen (unread c1) = zlen (c_data c1) - c_i c1) as Hu.
      { unfold unread, zlen in *. rewrite length_drop. lia. }
      assert (zlen b = n) as Hb.
      { unfold b, zlen in *. rewrite length_take. unfold unread in Hge. lia. }
      eexists _, (Some b). split; [reflexivity|]. split; [lia|].
      rewrite u64_small by (unfold in_u64; lia).
      split; [split; cbn [c_data c_i]; lia|]. split; [done|].
      rewrite U1. unfold bytes_enc. rewrite Hb, <-app_assoc. f_equal.
      unfold unread at 2. cbn [c_data c_i]. rewrite Z2Nat.inj_add, <-drop_drop by lia.
      symmetry. apply take_drop.
  - intros x y s t Hx Hy. unfold bytes_enc. rewrite <-!app_assoc. intros H.
    apply le_bytes_app_inj in H as [E H]; [|pose proof (zlen_nonneg x); simpl; lia
      |pose proof (zlen_nonneg y); simpl; lia].
    apply app_eq_length in H as [-> ->]; [done|]. unfold zlen in E. lia.
Qed.

#[export] Instance both_field {A B : Type} (ra : M Cursor (option A)) (rb : M Cursor (option B))
    ea eb oka okb :
  Field ra ea oka -> Field rb eb okb ->
  Field (both ra rb) (fun x => ea x.1 ++ eb x.2) (fun x => oka x.1 /\ okb x.2).
Proof.
  intros Ha Hb. split.
  - intros c Hc. unfold both. destruct (field_run (Field := Ha) c Hc) as (c1 & [a|] & E & H);
      rewrite (M_bind_ok _ _ _ _ _ E).
    + destruct H as [Hoka H1]. pose proof H1 as (Hc1 & D1 & U1).
      destruct (field_run (Field := Hb) c1 Hc1) as (c2 & [b|] & E2 & H2); rewrite (M_bind_ok _ _ _ _ _ E2).
      * exists c2, (Some (a, b)). destruct H2 as [Hokb H2]. split; [done|]. split; [done|].
        by eapply consumed_trans.
      * exists c2, None. destruct H2 as (? & ? & H2). split; [done|]. split; [done|]. split; [congruence|].
        intros [x y] s [Hx Hy] Hu. cbn [fst snd] in Hu, Hx, Hy. rewrite U1, <-app_assoc in Hu.
        apply field_prefix in Hu as [-> Hu]; [|done..]. by apply (H2 y s Hy).
    + exists c1, None. destruct H as (? & ? & H). split; [done|]. split; [done|]. split; [done|].
      intros [x y] s [Hx Hy]. cbn [fst snd]. rewrite <-app_assoc. by apply H.
  - intros [x y] [x' y'] s t [Hx Hy] [Hx' Hy']. cbn [fst snd] in *. rewrite <-!app_assoc. intros H.
    apply field_prefix in H as [-> H]; [|done..]. apply field_prefix in H as [-> ->]; done.
Qed.

(** The unread rest is always there. *)
Lemma Cursor_rest_spec c :
  cursor_ok c ->
  exists c', Cursor_rest c = (c', Ok (unread c)) /\ consumed c (unread c) c' /\ unread c' = [].
Proof.
  intros [Hi Hs]. unfold Cursor_rest. rewrite (M_bind_ok (gets _) _ c c _ eq_refl). unfold substr.
  rewrite gtb_false by lia. rewrite (M_bind_ok (lift _) _ c c _ eq_refl).
  assert (take (Z.to_nat (zlen (c_data c))) (drop (Z.to_nat (c_i c)) (c_data c)) = unread c) as ->.
  { unfold unread. apply take_ge. rewrite length_drop. unfold zlen. lia. }
  eexists. split; [reflexivity|].
  assert (unread (mkCursor (c_data c) (zlen (c_data c))) = []) as E.
  { unfold unread. cbn. apply drop_ge. unfold zlen. lia. }
  split; [|done]. split; [split; cbn; lia|]. split; [done|]. by rewrite E, app_nil_r.
Qed.

(** A whole payload, read from its start: the fields of [read], then the rest. *)
Definition parse_payload {A : Type} (read : M Cursor (option A)) (payload : bytes)
  : result (option (A * bytes)) :=
  ((x ← read;
    match x with
    | None => mret None
    | Some x => r ← Cursor_rest; mret (Some (x, r))
    end) (Cursor_new payload)).2.

Lemma parse_payload_spec {A : Type} (read : M Cursor (option A)) enc ok `{!Field read enc ok} payload :
  zlen payload < 2 ^ 64 ->
  exists r, parse_payload read payload = Ok r /\
    forall x s, r = Some (x, s) <-> ok x /\ payload = enc x ++ s.
Proof.
  intros Hs. unfold parse_payload. destruct (Cursor_new_ok payload Hs) as [Hc Hu].
  destruct (field_run (read := read) _ Hc) as (c1 & [y|] & E & H); rewrite (M_bind_ok _ _ _ _ _ E).
  - destruct H as (Hy & Hc1 & D1 & U1). rewrite Hu in U1.
    destruct (Cursor_rest_spec c1 Hc1) as (c2 & E2 & _ & _). rewrite (M_bind_ok _ _ _ _ _ E2).
    eexists. split; [reflexivity|]. intros x s. split.
    + intros [= <- <-]. done.
    + intros [Hx Hp]. rewrite U1 in Hp. by apply field_prefix in Hp as [-> ->].
  - exists None. split; [done|]. intros x s. split; [done|]. intros [Hx Hp].
    destruct H as (_ & _ & H). rewrite Hu in H. by apply H in Hp.
Qed.
