(* ===== verification/Channel.v ===== *)
(** * The framed channel

    [src/isolation/channel.cpp]: the parent's end of the socket to a child.  The
    socket is outside the program: what [send] and [recv] return is an input, a
    list of results read in order, one per call; [None] means the list ended while
    the code still had a call to make.  The bytes the kernel takes from [send] are
    an output, the wire.

    The theorems: whatever the chunking, the receiver gets a prefix of the frames
    queued at the other end, in order and intact, and all of them once the wire is
    drained; polling any bytes at all ends without undefined behaviour; the caps
    hold on everything buffered except, as [outbox_unbounded] shows, on the part
    of the outbox already sent. *)

From S2P Require Import Prelude Binary Protocol.

(** ** State *)

Record Incoming : Type := mkIncoming { in_op : Z; in_payload : bytes }.

Record Channel : Type := mkChannel {
  fd : Z; outbox : bytes; out_pos : Z; inbox : bytes; failed : bool; eof : bool
}.

Definition Channel_new (fd : Z) : Channel := mkChannel fd [] 0 [] false false.

Definition set_out (o : bytes) (p : Z) (ch : Channel) : Channel :=
  mkChannel (fd ch) o p (inbox ch) (failed ch) (eof ch).
Definition set_inbox (b : bytes) (ch : Channel) : Channel :=
  mkChannel (fd ch) (outbox ch) (out_pos ch) b (failed ch) (eof ch).
Definition set_failed (ch : Channel) : Channel :=
  mkChannel (fd ch) (outbox ch) (out_pos ch) (inbox ch) true (eof ch).
Definition set_eof (ch : Channel) : Channel :=
  mkChannel (fd ch) (outbox ch) (out_pos ch) (inbox ch) (failed ch) true.

Definition Channel_done (ch : Channel) : bool := failed ch || eof ch.

Definition kMaxBacklog : Z := 64 * 1024 * 1024.

(** What the kernel answers. *)
Inductive Errno : Set := EAGAIN | EINTR | EOther.
Inductive SendResult : Type := Sent (n : Z) | SendError (e : Errno).
Inductive RecvResult : Type := Got (b : bytes) | RecvError (e : Errno).

(** ** Sending *)

Definition queue (op : Z) (payload : bytes) (ch : Channel) : Channel :=
  if failed ch then ch else
  if zlen payload >? kMaxFrameLen then set_failed ch else
  let o := put_u32 (outbox ch) (u32 (zlen payload)) in
  let o := put_u8 o op in
  let o := o ++ payload in
  let ch := set_out o (out_pos ch) ch in
  if u64 (zlen (outbox ch) - out_pos ch) >? kMaxBacklog then set_failed ch else ch.

(** The [while] loop; [wire] grows by what each call sent. *)
Fixpoint flush_loop (io : list SendResult) (ch : Channel) (wire : bytes)
  : option (Channel * bytes * list SendResult) :=
  if out_pos ch <? zlen (outbox ch) then
    match io with
    | [] => None
    | Sent n :: io =>
        if n >? 0 then
          flush_loop io (set_out (outbox ch) (u64 (out_pos ch + n)) ch)
            (wire ++ take (Z.to_nat n) (drop (Z.to_nat (out_pos ch)) (outbox ch)))
        else Some (set_failed ch, wire, io)
    | SendError EAGAIN :: io => Some (ch, wire, io)
    | SendError EINTR :: io => flush_loop io ch wire
    | SendError EOther :: io => Some (set_failed ch, wire, io)
    end
  else Some (ch, wire, io).

Definition flush (io : list SendResult) (ch : Channel) : option (Channel * bytes * list SendResult) :=
  if failed ch || (fd ch <? 0) then Some (ch, [], io) else
  match flush_loop io ch [] with
  | None => None
  | Some (ch, wire, io) =>
      let ch := if failed ch then ch
                else if out_pos ch =? zlen (outbox ch) then set_out [] 0 ch else ch in
      Some (ch, wire, io)
  end.

(** ** Receiving *)

(** The [recv] loop; the bool says whether [poll] goes on to cut frames. *)
Fixpoint recv_loop (io : list RecvResult) (ch : Channel) : option (Channel * bool * list RecvResult) :=
  match io with
  | [] => None
  | Got b :: io =>
      if zlen b >? 0 then
        let ch := set_inbox (inbox ch ++ b) ch in
        if zlen (inbox ch) >? kMaxBacklog then Some (set_failed ch, false, io)
        else recv_loop io ch
      else Some (set_eof ch, true, io)
  | RecvError EAGAIN :: io => Some (ch, true, io)
  | RecvError EINTR :: io => recv_loop io ch
  | RecvError EOther :: io => Some (set_failed ch, false, io)
  end.

(** The two header reads, whose bools are ignored. *)
Definition read_header : M Cursor (Z * Z) :=
  len ← Cursor_u32;
  op ← Cursor_u8;
  mret (default 0 len, default 0 op).

(** The frame loop: whether the channel failed, the position reached, the frames.
    A round consumes five octets or more, so [length inbox] rounds are enough
    ([frames_loop_spec]). *)
Fixpoint frames_loop (rounds : nat) (inbox : bytes) (pos : Z) (out : list Incoming)
  : result (bool * Z * list Incoming) :=
  match rounds with
  | O => Ok (false, pos, out)
  | S rounds =>
      if u64 (zlen inbox - pos) >=? 5 then
        header ← substr inbox pos 5;
        h ← (read_header (Cursor_new header)).2;
        let '(len, op) := (h : Z * Z) in
        if len >? kMaxFrameLen then Ok (true, pos, out)
        else if u64 (zlen inbox - pos) <? u64 (5 + len) then Ok (false, pos, out)
        else
          payload ← substr inbox (u64 (pos + 5)) len;
          frames_loop rounds inbox (u64 (pos + u64 (5 + len))) (out ++ [mkIncoming op payload])
      else Ok (false, pos, out)
  end.

Definition poll (io : list RecvResult) (ch : Channel)
  : option (Channel * result (list Incoming) * list RecvResult) :=
  if failed ch || (fd ch <? 0) then Some (ch, Ok [], io) else
  match recv_loop io ch with
  | None => None
  | Some (ch, false, io) => Some (ch, Ok [], io)
  | Some (ch, true, io) =>
      match frames_loop (S (length (inbox ch))) (inbox ch) 0 [] with
      | Ok (bad, pos, out) =>
          let ch := if (bad : bool) then set_failed ch else ch in
          let ch := if pos >? 0 then set_inbox (drop (Z.to_nat pos) (inbox ch)) ch else ch in
          Some (ch, Ok out, io)
      | Throw e => Some (ch, Throw e, io)
      | UB => Some (ch, UB, io)
      end
  end.

(** ** Frames and streams *)

Definition frame (f : Incoming) : bytes :=
  le_bytes 4 (zlen (in_payload f)) ++ le_bytes 1 (in_op f) ++ in_payload f.
Definition stream (fs : list Incoming) : bytes := mjoin (frame <$> fs).

Definition frame_ok (f : Incoming) : Prop := 0 <= in_op f < 2 ^ 8 /\ zlen (in_payload f) <= kMaxFrameLen.

Lemma stream_app fs gs : stream (fs ++ gs) = stream fs ++ stream gs.
Proof. unfold stream. by rewrite fmap_app, join_app. Qed.
Lemma stream_one f : stream [f] = frame f.
Proof. unfold stream. simpl. apply app_nil_r. Qed.

Lemma frame_header f s :
  frame f ++ s = le_bytes 4 (zlen (in_payload f)) ++ le_bytes 1 (in_op f) ++ in_payload f ++ s.
Proof. unfold frame. by rewrite <-!app_assoc. Qed.

Lemma zlen_le_bytes n v : zlen (le_bytes n v) = Z.of_nat n.
Proof. unfold zlen. by rewrite length_le_bytes. Qed.

Lemma zlen_frame f : zlen (frame f) = 5 + zlen (in_payload f).
Proof. unfold frame. rewrite !zlen_app, !zlen_le_bytes. lia. Qed.

(** Frames are self-delimiting. *)
Lemma header_inj l o s l' o' s' :
  in_u32 l -> in_u32 l' -> 0 <= o < 2 ^ 8 -> 0 <= o' < 2 ^ 8 ->
  le_bytes 4 l ++ le_bytes 1 o ++ s = le_bytes 4 l' ++ le_bytes 1 o' ++ s' ->
  l = l' /\ o = o' /\ s = s'.
Proof.
  intros ? ? ? ? H. apply le_bytes_app_inj in H as [-> H]; [|done..].
  apply le_bytes_app_inj in H as [-> ->]; done.
Qed.

Lemma frame_len_u32 f : frame_ok f -> in_u32 (zlen (in_payload f)).
Proof. intros [_ H]. unfold kMaxFrameLen in H. pose proof (zlen_nonneg (in_payload f)). unfold in_u32. lia. Qed.

Lemma frame_inj f g s t : frame_ok f -> frame_ok g -> frame f ++ s = frame g ++ t -> f = g /\ s = t.
Proof.
  intros Hf Hg. rewrite !frame_header. intros H.
  apply header_inj in H as (E1 & E2 & H); [|by apply frame_len_u32..|apply Hf|apply Hg].
  apply app_eq_length in H as [E3 ->]; [|unfold zlen in E1; lia].
  destruct f, g; cbn in *. by subst.
Qed.

(** What is left of a buffer once its complete frames are cut off. *)
Definition incomplete (s : bytes) : Prop :=
  zlen s < 5 \/
  exists l o t, s = le_bytes 4 l ++ le_bytes 1 o ++ t /\ 0 <= l <= kMaxFrameLen /\
    0 <= o < 2 ^ 8 /\ zlen t < l.
Definition oversized (s : bytes) : Prop :=
  exists l o t, s = le_bytes 4 l ++ le_bytes 1 o ++ t /\ kMaxFrameLen < l /\ in_u32 l /\ 0 <= o < 2 ^ 8.

Lemma incomplete_frame f s : frame_ok f -> ~ incomplete (frame f ++ s).
Proof.
  intros Hf [H|(l & o & t & E & Hl & Ho & Ht)].
  - rewrite zlen_app, zlen_frame in H. pose proof (zlen_nonneg s). pose proof (zlen_nonneg (in_payload f)). lia.
  - rewrite frame_header in E. apply header_inj in E as (E1 & E2 & E3).
    + subst. rewrite zlen_app in Ht. pose proof (zlen_nonneg s). lia.
    + by apply frame_len_u32.
    + unfold in_u32. unfold kMaxFrameLen in Hl. lia.
    + apply Hf.
    + done.
Qed.

Lemma incomplete_nil : incomplete [].
Proof. by left. Qed.

(** Streams decode uniquely. *)
Lemma stream_prefix ds : forall qs rest,
  Forall frame_ok ds -> Forall frame_ok qs -> stream ds ++ rest `prefix_of` stream qs -> ds `prefix_of` qs.
Proof.
  induction ds as [|d ds IH]; intros qs rest Hds Hqs [x Hx]; [apply prefix_nil|].
  apply Forall_cons in Hds as [Hd Hds]. destruct qs as [|q qs].
  { apply (f_equal zlen) in Hx. change (d :: ds) with ([d] ++ ds) in Hx.
    rewrite stream_app, stream_one, !zlen_app, zlen_frame in Hx. change (zlen (stream [])) with 0 in Hx.
    pose proof (zlen_nonneg (in_payload d)). pose proof (zlen_nonneg (stream ds)).
    pose proof (zlen_nonneg rest). pose proof (zlen_nonneg x). lia. }
  apply Forall_cons in Hqs as [Hq Hqs].
  change (q :: qs) with ([q] ++ qs) in Hx. change (d :: ds) with ([d] ++ ds) in Hx.
  rewrite !stream_app, !stream_one, <-!app_assoc in Hx.
  apply frame_inj in Hx as [-> Hx]; [|done..]. apply prefix_cons, (IH qs rest); [done..|].
  exists x. by rewrite Hx, app_assoc.
Qed.

Lemma stream_complete ds qs rest :
  Forall frame_ok ds -> Forall frame_ok qs -> incomplete rest -> stream ds ++ rest = stream qs ->
  ds = qs /\ rest = [].
Proof.
  intros Hds Hqs Hr E. destruct (stream_prefix ds qs rest Hds Hqs) as [x ->]; [by rewrite E|].
  rewrite stream_app in E. apply app_inv_head in E as ->.
  destruct x as [|q x]; [by rewrite app_nil_r|]. exfalso.
  apply Forall_app in Hqs as [_ [Hq _]%Forall_cons].
  change (q :: x) with ([q] ++ x) in Hr. rewrite stream_app, stream_one in Hr.
  by eapply incomplete_frame.
Qed.

(** ** The frame loop cuts the complete frames *)

Lemma header_split s :
  5 <= zlen s ->
  exists l o t, in_u32 l /\ 0 <= o < 2 ^ 8 /\ s = le_bytes 4 l ++ le_bytes 1 o ++ t /\
    take 5 s = le_bytes 4 l ++ le_bytes 1 o.
Proof.
  intros Hs. exists (le_value (take 4 s)), (le_value (take 1 (drop 4 s))), (drop 5 s).
  assert (length (take 4 s) = 4%nat /\ length (take 1 (drop 4 s)) = 1%nat) as [L1 L2].
  { unfold zlen in Hs. rewrite !length_take, length_drop. lia. }
  pose proof (le_value_range (take 4 s)) as R1. pose proof (le_value_range (take 1 (drop 4 s))) as R2.
  unfold zlen in R1, R2. rewrite L1 in R1. rewrite L2 in R2.
  split; [exact R1|]. split; [exact R2|].
  pose proof (le_bytes_le_value (take 4 s)) as B1. rewrite L1 in B1.
  pose proof (le_bytes_le_value (take 1 (drop 4 s))) as B2. rewrite L2 in B2.
  rewrite B1, B2. replace (drop 5 s) with (drop 1 (drop 4 s)) by by rewrite drop_drop.
  split; [by rewrite !take_drop|]. by rewrite (take_take_drop s 4 1).
Qed.

Lemma read_header_spec l o :
  in_u32 l -> 0 <= o < 2 ^ 8 -> (read_header (Cursor_new (le_bytes 4 l ++ le_bytes 1 o))).2 = Ok (l, o).
Proof.
  intros Hl Ho. destruct (Cursor_new_ok (le_bytes 4 l ++ le_bytes 1 o)) as [Hc Hu].
  { by rewrite zlen_app, !zlen_le_bytes. }
  unfold read_header.
  destruct (field_read Cursor_u32 (le_bytes 4) in_u32 _ l _ Hc Hl Hu) as (c1 & E1 & [Hc1 _] & U1).
  destruct (field_read Cursor_u8 (le_bytes 1) _ c1 o [] Hc1 Ho) as (c2 & E2 & _).
  { by rewrite app_nil_r. }
  by rewrite (M_bind_ok _ _ _ _ _ E1), (M_bind_ok _ _ _ _ _ E2).
Qed.

(** One round, by what is at the position. *)
Lemma frames_round n b pos out :
  0 <= pos <= zlen b -> zlen b < 2 ^ 62 ->
  let s := drop (Z.to_nat pos) b in
  (incomplete s /\ frames_loop (S n) b pos out = Ok (false, pos, out)) \/
  (oversized s /\ frames_loop (S n) b pos out = Ok (true, pos, out)) \/
  exists f t, frame_ok f /\ s = frame f ++ t /\
    frames_loop (S n) b pos out = frames_loop n b (pos + zlen (frame f)) (out ++ [f]).
Proof.
  intros Hp Hb s.
  assert (zlen s = zlen b - pos) as Hs by (unfold s, zlen in *; rewrite length_drop; lia).
  cbn [frames_loop]. rewrite <-Hs, u64_small by (unfold in_u64; lia).
  destruct (Z.geb_spec (zlen s) 5) as [H5|H5]; [|left; split; [by left|done]].
  destruct (header_split s H5) as (l & o & t & Hl & Ho & E & Et).
  rewrite (substr_ok b pos 5) by lia. cbn [mbind result_bind].
  change (Z.to_nat 5) with 5%nat. fold s. rewrite Et, read_header_spec by done. cbn [mbind result_bind].
  destruct (Z.gtb_spec l kMaxFrameLen) as [Hbig|Hsmall].
  { right. left. split; [|done]. by exists l, o, t. }
  unfold in_u32 in Hl. rewrite (u64_small (5 + l)) by (unfold in_u64; lia).
  assert (zlen t = zlen s - 5) as Ht by (rewrite E, !zlen_app, !zlen_le_bytes; lia).
  destruct (Z.ltb_spec (zlen s) (5 + l)) as [Hlt|Hge].
  { left. split; [|done]. right. exists l, o, t. split; [done|]. split; [lia|]. split; [done|lia]. }
  right. right. rewrite (u64_small (pos + 5)), (u64_small (pos + (5 + l))) by (unfold in_u64; lia).
  set (p := take (Z.to_nat l) t). assert (zlen p = l) as Hpl by (unfold p, zlen in *; rewrite length_take; lia).
  exists (mkIncoming o p), (drop (Z.to_nat l) t). split; [split; cbn; [done|lia]|].
  split. { rewrite frame_header. cbn [in_op in_payload]. rewrite Hpl. unfold p. by rewrite take_drop. }
  rewrite substr_ok by lia. cbn [mbind result_bind].
  replace (take (Z.to_nat l) (drop (Z.to_nat (pos + 5)) b)) with p.
  { rewrite zlen_frame. cbn [in_payload]. rewrite Hpl. done. }
  unfold p. f_equal. replace (Z.to_nat (pos + 5)) with (Z.to_nat pos + 5)%nat by lia.
  rewrite <-drop_drop. fold s. rewrite E, app_assoc. symmetry. apply drop_app_length'.
  by rewrite length_app, !length_le_bytes.
Qed.

Lemma frames_loop_spec n : forall b pos out,
  0 <= pos <= zlen b -> zlen b < 2 ^ 62 -> zlen b - pos < Z.of_nat n ->
  exists bad pos' fs, frames_loop n b pos out = Ok (bad, pos', out ++ fs) /\
    pos <= pos' <= zlen b /\ Forall frame_ok fs /\
    drop (Z.to_nat pos) b = stream fs ++ drop (Z.to_nat pos') b /\
    if bad : bool then oversized (drop (Z.to_nat pos') b) else incomplete (drop (Z.to_nat pos') b).
Proof.
  induction n as [|n IH]; intros b pos out Hp Hb Hn; [lia|].
  destruct (frames_round n b pos out Hp Hb) as [[Hi E]|[[Ho E]|(f & t & Hf & E & ->)]].
  - exists false, pos, []. rewrite app_nil_r. split; [done|]. split; [lia|]. by split.
  - exists true, pos, []. rewrite app_nil_r. split; [done|]. split; [lia|]. by split.
  - assert (pos + zlen (frame f) <= zlen b) as Hle.
    { apply (f_equal zlen) in E. rewrite zlen_app in E. unfold zlen at 1 in E.
      rewrite length_drop in E. pose proof (zlen_nonneg t). unfold zlen in *. lia. }
    assert (drop (Z.to_nat (pos + zlen (frame f))) b = t) as Et.
    { rewrite Z2Nat.inj_add by (pose proof (zlen_nonneg (frame f)); lia). rewrite <-drop_drop, E.
      apply drop_app_length'. unfold zlen. lia. }
    pose proof (zlen_frame f). pose proof (zlen_nonneg (in_payload f)).
    destruct (IH b (pos + zlen (frame f)) (out ++ [f])) as (bad & pos' & fs & E' & Hp' & Hfs & Hd & Hend);
      [lia..|].
    exists bad, pos', (f :: fs). rewrite E', <-app_assoc. split; [done|]. split; [lia|].
    split; [by constructor|]. split; [|done].
    rewrite E, <-Et, Hd. change (f :: fs) with ([f] ++ fs). by rewrite stream_app, stream_one, app_assoc.
Qed.

(** ** Polling *)

(** The bytes a script of results hands over, and the results that end badly. *)
Definition data (io : list RecvResult) : bytes :=
  mjoin ((fun r => match r with Got b => b | RecvError _ => [] end) <$> io).

Lemma data_cons r io : data (r :: io) = (match r with Got b => b | RecvError _ => [] end) ++ data io.
Proof. done. Qed.
Lemma data_app a b : data (a ++ b) = data a ++ data b.
Proof. induction a as [|r a IH]; [done|]. cbn [app]. by rewrite !data_cons, IH, app_assoc. Qed.

(** Why a channel that was sound may fail while it receives. *)
Inductive receive_fault (pre : list RecvResult) (buffered : bytes) : Prop :=
| fault_socket : RecvError EOther ∈ pre -> receive_fault pre buffered
| fault_backlog : kMaxBacklog < zlen buffered -> receive_fault pre buffered
| fault_oversized : oversized buffered -> receive_fault pre buffered.

Lemma recv_loop_spec io : forall ch ch' go io',
  recv_loop io ch = Some (ch', go, io') ->
  exists pre, io = pre ++ io' /\ inbox ch' = inbox ch ++ data pre /\
    outbox ch' = outbox ch /\ out_pos ch' = out_pos ch /\ fd ch' = fd ch /\
    if go : bool then failed ch' = failed ch /\
        (zlen (inbox ch) <= kMaxBacklog -> zlen (inbox ch') <= kMaxBacklog)
    else failed ch' = true /\ (RecvError EOther ∈ pre \/ kMaxBacklog < zlen (inbox ch')).
Proof.
  assert (forall b s t : bytes, b ++ s ++ t = (b ++ s) ++ t) as assoc by (intros; apply app_assoc).
  induction io as [|r io IH]; intros ch ch' go io' H; [done|]. cbn [recv_loop] in H.
  destruct r as [b|[]].
  - destruct (Z.gtb_spec (zlen b) 0) as [Hb|Hb].
    + destruct (Z.gtb_spec (zlen (inbox (set_inbox (inbox ch ++ b) ch))) kMaxBacklog) as [Hbig|Hsm].
      * injection H as <- <- <-. exists [Got b]. cbn. rewrite app_nil_r. by repeat split; [..|right].
      * destruct (IH _ _ _ _ H) as (pre & -> & E & ? & ? & ? & Hgo). exists (Got b :: pre).
        rewrite data_cons, assoc. split; [done|]. split; [exact E|]. split; [done|]. split; [done|].
        split; [done|]. destruct go.
        -- destruct Hgo as [? Hl]. split; [done|]. intros _. by apply Hl.
        -- destruct Hgo as [? [?|?]]; (split; [done|]); [left; by right|by right].
    + injection H as <- <- <-. exists [Got b]. assert (b = []) as ->.
      { destruct b; [done|]. rewrite zlen_cons in Hb. pose proof (zlen_nonneg b). lia. }
      cbn. by rewrite app_nil_r.
  - injection H as <- <- <-. exists [RecvError EAGAIN]. cbn. by rewrite app_nil_r.
  - destruct (IH _ _ _ _ H) as (pre & -> & E & ? & ? & ? & Hgo). exists (RecvError EINTR :: pre).
    split; [done|]. split; [exact E|]. split; [done|]. split; [done|]. split; [done|].
    destruct go; [done|]. destruct Hgo as [? [?|?]]; (split; [done|]); [left; by right|by right].
  - injection H as <- <- <-. exists [RecvError EOther]. cbn. rewrite app_nil_r.
    repeat split; try done. left. by left.
Qed.

(** A sound channel: what it still has to send and what it received are within
    the caps, and no complete frame is left uncut. *)
Record chan_ok (ch : Channel) : Prop := {
  out_range : 0 <= out_pos ch <= zlen (outbox ch);
  out_capped : zlen (outbox ch) - out_pos ch <= kMaxBacklog;
  in_capped : zlen (inbox ch) <= kMaxBacklog;
  in_cut : incomplete (inbox ch)
}.

(** The part of the outbox not sent yet. *)
Definition unsent (ch : Channel) : bytes := drop (Z.to_nat (out_pos ch)) (outbox ch).

Lemma Channel_new_chan_ok fd : chan_ok (Channel_new fd).
Proof. split; try done. apply incomplete_nil. Qed.

Lemma poll_run io ch ch' r io' :
  (failed ch = false -> chan_ok ch) -> poll io ch = Some (ch', r, io') ->
  exists pre fs, io = pre ++ io' /\ r = Ok fs /\ Forall frame_ok fs /\
    inbox ch ++ data pre = stream fs ++ inbox ch' /\
    outbox ch' = outbox ch /\ out_pos ch' = out_pos ch /\ fd ch' = fd ch /\
    (failed ch' = false -> failed ch = false /\ chan_ok ch') /\
    (failed ch = false -> failed ch' = true -> receive_fault pre (inbox ch')).
Proof.
  intros Hok H. unfold poll in H.
  destruct (failed ch) eqn:Ef; [|destruct (fd ch <? 0)]; cbn [orb] in H.
  1,2: injection H as <- <- <-; exists [], []; rewrite app_nil_r; cbn [app];
    rewrite Ef; do 7 (split; [done|]); split; try done; try (intros _; split; [done|by apply Hok]).
  destruct (recv_loop io ch) as [[[c go] io1]|] eqn:E; [|done].
  destruct (recv_loop_spec _ _ _ _ _ E) as (pre & -> & Ei & Eo & Ep & Efd & Hgo).
  specialize (Hok eq_refl). destruct go.
  2: { injection H as <- <- <-. exists pre, []. destruct Hgo as [-> Hf].
       do 3 (split; [done|]). split; [by rewrite Ei|]. do 4 (split; [done|]).
       intros _ _. destruct Hf; [by apply fault_socket|by apply fault_backlog]. }
  destruct Hgo as [Hf Hcap]. specialize (Hcap (in_capped _ Hok)).
  destruct (frames_loop_spec (S (length (inbox c))) (inbox c) 0 []) as (bad & pos & fs & El & Hp & Hfs & Hs & Hend).
  { pose proof (zlen_nonneg (inbox c)). lia. }
  { unfold kMaxBacklog in Hcap. lia. }
  { unfold zlen. lia. }
  rewrite El in H. change (drop (Z.to_nat 0) (inbox c)) with (inbox c) in Hs. injection H as <- <- <-.
  set (c1 := if bad then set_failed c else c).
  assert (inbox (if pos >? 0 then set_inbox (drop (Z.to_nat pos) (inbox c1)) c1 else c1) =
    drop (Z.to_nat pos) (inbox c)) as Ein.
  { assert (inbox c1 = inbox c) as -> by (unfold c1; by destruct bad).
    destruct (Z.gtb_spec pos 0); [done|]. replace pos with 0 by lia. unfold c1. by destruct bad. }
  assert (forall A (g : Channel -> A), (forall b c, g (set_inbox b c) = g c) ->
    g (if pos >? 0 then set_inbox (drop (Z.to_nat pos) (inbox c1)) c1 else c1) = g c1) as Hset
    by (intros A g Hg; destruct (pos >? 0); auto).
  rewrite Ein. rewrite (Hset _ outbox), (Hset _ out_pos), (Hset _ fd), (Hset _ failed) by done.
  exists pre, fs. split; [done|]. split; [done|]. split; [done|]. split; [rewrite <-Ei; exact Hs|].
  split; [by unfold c1; destruct bad|]. split; [by unfold c1; destruct bad|].
  split; [by unfold c1; destruct bad|]. unfold c1 in *. clear c1. destruct bad; cbn [failed set_failed].
  - split; [done|]. intros _ _. by apply fault_oversized.
  - rewrite Hf. split; [|congruence]. intros _. split; [congruence|].
    assert (zlen (drop (Z.to_nat pos) (inbox c)) <= zlen (inbox c)) as Hle
      by (unfold zlen; rewrite length_drop; lia).
    split; rewrite ?Ein, ?(Hset _ outbox), ?(Hset _ out_pos) by done; rewrite ?Eo, ?Ep.
    + apply Hok.
    + apply Hok.
    + lia.
    + done.
Qed.

(** A capped inbox is enough for [poll] to run. *)
Lemma poll_capped io ch ch' r io' :
  (failed ch = false -> zlen (inbox ch) <= kMaxBacklog) -> poll io ch = Some (ch', r, io') ->
  exists fs, r = Ok fs /\ Forall frame_ok fs /\ fd ch' = fd ch /\
    (failed ch' = false -> zlen (inbox ch') <= kMaxBacklog).
Proof.
  intros Hok H. unfold poll in H. destruct (failed ch) eqn:Ef; [|destruct (fd ch <? 0)]; cbn [orb] in H.
  1,2: injection H as <- <- _; exists []; rewrite ?Ef; by do 3 (split; [done|]).
  destruct (recv_loop io ch) as [[[c go] io1]|] eqn:E; [|done].
  destruct (recv_loop_spec _ _ _ _ _ E) as (pre & _ & Ei & _ & _ & Efd & Hgo). destruct go.
  2: { injection H as <- <- _. exists []. destruct Hgo as [Hf _]. rewrite Hf. by do 3 (split; [done|]). }
  destruct Hgo as [Hf Hcap]. specialize (Hcap (Hok eq_refl)).
  destruct (frames_loop_spec (S (length (inbox c))) (inbox c) 0 []) as (bad & pos & fs & El & _ & Hfs & _).
  { pose proof (zlen_nonneg (inbox c)). lia. }
  { unfold kMaxBacklog in Hcap. lia. }
  { unfold zlen. lia. }
  rewrite El in H. injection H as <- <- _. exists fs. split; [done|]. split; [done|].
  assert (forall b : bool, zlen (if b then drop (Z.to_nat pos) (inbox c) else inbox c) <= kMaxBacklog) as Hz.
  { intros []; [|done]. unfold zlen in *. rewrite length_drop. lia. }
  destruct bad, (pos >? 0) eqn:Ep; cbn; (split; [done|]); intros _; try (specialize (Hz (pos >? 0)); by rewrite Ep in Hz).
Qed.

(** ** Flushing *)

(** The kernel never takes more than it was offered. *)
Fixpoint sends_within (offered : Z) (io : list SendResult) : Prop :=
  match io with
  | Sent n :: io => n <= offered /\ sends_within (offered - n) io
  | SendError EINTR :: io => sends_within offered io
  | _ => True
  end.

Lemma flush_loop_spec io : forall ch wire ch' w io',
  0 <= out_pos ch <= zlen (outbox ch) -> zlen (outbox ch) < 2 ^ 62 ->
  sends_within (zlen (outbox ch) - out_pos ch) io ->
  flush_loop io ch wire = Some (ch', w, io') ->
  exists w', w = wire ++ w' /\ unsent ch = w' ++ unsent ch' /\
    out_pos ch <= out_pos ch' <= zlen (outbox ch) /\ outbox ch' = outbox ch /\
    inbox ch' = inbox ch /\ fd ch' = fd ch /\ (failed ch' = false -> failed ch = false).
Proof.
  induction io as [|r io IH]; intros ch wire ch' w io' Hp Hb Hio H; cbn [flush_loop] in H.
  { destruct (Z.ltb_spec (out_pos ch) (zlen (outbox ch))); [done|]. injection H as <- <- <-.
    exists []. rewrite app_nil_r. repeat split; try done; lia. }
  destruct (Z.ltb_spec (out_pos ch) (zlen (outbox ch))) as [Hlt|Hge].
  2: { injection H as <- <- <-. exists []. rewrite app_nil_r. repeat split; try done; lia. }
  destruct r as [n|[]].
  - cbn [sends_within] in Hio. destruct Hio as [Hn Hio]. destruct (Z.gtb_spec n 0) as [Hpos|Hneg].
    2: { injection H as <- <- <-. exists []. rewrite app_nil_r. repeat split; try done; cbn; lia. }
    rewrite u64_small in H by (unfold in_u64; lia). set (c1 := set_out _ _ _) in *.
    destruct (IH c1 _ _ _ _ ltac:(cbn; lia) Hb ltac:(cbn; by replace (zlen (outbox ch) - (out_pos ch + n))
      with (zlen (outbox ch) - out_pos ch - n) by lia) H) as (w' & -> & Hu & Hp' & ? & ? & ? & ?).
    eexists. rewrite <-app_assoc. split; [reflexivity|]. rewrite <-app_assoc, <-Hu.
    split; [|repeat split; try done; cbn in *; lia].
    unfold unsent, c1. cbn [outbox out_pos set_out]. rewrite Z2Nat.inj_add, <-drop_drop by lia.
    symmetry. apply take_drop.
  - injection H as <- <- <-. exists []. rewrite app_nil_r. repeat split; try done; lia.
  - by apply IH with (1 := Hp) in H.
  - injection H as <- <- <-. exists []. rewrite app_nil_r. repeat split; try done; cbn; lia.
Qed.

Lemma flush_run io ch ch' w io' :
  (failed ch = false -> chan_ok ch) -> zlen (outbox ch) < 2 ^ 62 ->
  sends_within (zlen (outbox ch) - out_pos ch) io -> flush io ch = Some (ch', w, io') ->
  (failed ch = true -> w = [] /\ ch' = ch) /\
  (failed ch = false -> unsent ch = w ++ unsent ch') /\
  inbox ch' = inbox ch /\ fd ch' = fd ch /\
  (failed ch' = false -> failed ch = false /\ chan_ok ch').
Proof.
  intros Hok Hb Hio H. unfold flush in H.
  destruct (failed ch) eqn:Ef; [|destruct (fd ch <? 0)]; cbn [orb] in H.
  1,2: injection H as <- <- <-; rewrite ?Ef; do 4 (split; [done|]); try done;
    try (intros _; split; [done|by apply Hok]).
  specialize (Hok eq_refl).
  destruct (flush_loop io ch []) as [[[c w1] io1]|] eqn:E; [|done]. injection H as <- <- <-.
  destruct (flush_loop_spec _ _ _ _ _ _ (out_range _ Hok) Hb Hio E) as (w' & -> & Hu & Hp & Eo & Ei & Efd & Hf).
  cbn [app]. split; [done|]. destruct (failed c) eqn:Efc.
  { do 3 (split; [done|]). by rewrite Efc. }
  destruct (Z.eqb_spec (out_pos c) (zlen (outbox c))) as [Eq|Ne].
  - split; [|split; [done|split; [done|]]].
    + intros _. rewrite Hu. f_equal. unfold unsent. cbn. apply drop_ge. rewrite Eq. unfold zlen. lia.
    + intros _. split; [done|]. split; cbn; rewrite ?Ei; try apply Hok; lia || done.
  - split; [done|]. split; [done|]. split; [done|]. intros _. split; [done|].
    pose proof (out_capped _ Hok). pose proof (out_range _ Hok).
    split; rewrite ?Eo, ?Ei; [lia|lia|apply Hok..].
Qed.

Lemma queue_run op p ch :
  (failed ch = false -> chan_ok ch) -> zlen (outbox ch) < 2 ^ 62 -> 0 <= op < 2 ^ 8 ->
  let ch' := queue op p ch in
  fd ch' = fd ch /\ inbox ch' = inbox ch /\
  (failed ch' = false -> failed ch = false /\ chan_ok ch' /\ frame_ok (mkIncoming op p) /\
     unsent ch' = unsent ch ++ frame (mkIncoming op p)) /\
  (failed ch = false -> failed ch' = (zlen p >? kMaxFrameLen) ||
     (zlen (unsent ch) + 5 + zlen p >? kMaxBacklog)).
Proof.
  intros Hok Hb Hop. unfold queue. destruct (failed ch) eqn:Ef; [by rewrite Ef|]. specialize (Hok eq_refl).
  destruct (Z.gtb_spec (zlen p) kMaxFrameLen) as [Hbig|Hsm]; [done|]. pose proof (zlen_nonneg p) as Hp0.
  assert (put_u8 (put_u32 (outbox ch) (u32 (zlen p))) op ++ p = outbox ch ++ frame (mkIncoming op p)) as ->.
  { rewrite put_u8_spec, put_u32_spec, <-!app_assoc. unfold u32.
    rewrite Z.mod_small by (unfold kMaxFrameLen in Hsm; lia). done. }
  pose proof (out_range _ Hok) as Hr. pose proof (out_capped _ Hok) as Hc.
  set (c := set_out _ _ _). assert (zlen (outbox c) = zlen (outbox ch) + 5 + zlen p) as El.
  { cbn. rewrite zlen_app, zlen_frame. cbn. lia. }
  assert (zlen (unsent ch) = zlen (outbox ch) - out_pos ch) as Eu
    by (unfold unsent, zlen in *; rewrite length_drop; lia).
  change (out_pos c) with (out_pos ch).
  rewrite El, u64_small by (unfold in_u64; unfold kMaxBacklog in Hc; unfold kMaxFrameLen in Hsm; lia).
  rewrite Eu. cbn [orb].
  replace (zlen (outbox ch) - out_pos ch + 5 + zlen p) with (zlen (outbox ch) + 5 + zlen p - out_pos ch) by lia.
  destruct (Z.gtb_spec (zlen (outbox ch) + 5 + zlen p - out_pos ch) kMaxBacklog) as [Hover|Hin].
  { by cbn [fd inbox failed set_failed]. }
  split; [done|]. split; [done|]. split; [|by rewrite <-Ef]. intros _. split; [done|]. split.
  - split; try apply Hok; rewrite El; cbn [out_pos c set_out]; lia.
  - split; [by split|]. unfold unsent, c. cbn [outbox out_pos set_out].
    rewrite drop_app_le; [done|]. unfold zlen in Hr. lia.
Qed.

(** ** A connection: both ends and the bytes between them

    The steps of the two ends interleave freely.  [conn_queued] are the frames the
    sender accepted, [conn_got] those the receiver's polls returned. *)

Record Conn : Type := mkConn {
  tx : Channel; rx : Channel; transit : bytes; conn_queued : list Incoming; conn_got : list Incoming
}.
Definition conn_init (fd1 fd2 : Z) : Conn := mkConn (Channel_new fd1) (Channel_new fd2) [] [] [].

Inductive conn_step (k : Conn) : Conn -> Prop :=
| conn_queue op p :
    0 <= op < 2 ^ 8 -> zlen (outbox (tx k)) < 2 ^ 62 ->
    let t := queue op p (tx k) in
    conn_step k (mkConn t (rx k) (transit k)
      (if failed t then conn_queued k else conn_queued k ++ [mkIncoming op p]) (conn_got k))
| conn_flush io t w io' :
    zlen (outbox (tx k)) < 2 ^ 62 -> sends_within (zlen (outbox (tx k)) - out_pos (tx k)) io ->
    flush io (tx k) = Some (t, w, io') ->
    conn_step k (mkConn t (rx k) (transit k ++ w) (conn_queued k) (conn_got k))
| conn_poll pre io' r fs left :
    poll (pre ++ io') (rx k) = Some (r, Ok fs, io') -> transit k = data pre ++ left ->
    conn_step k (mkConn (tx k) r left (conn_queued k) (conn_got k ++ fs)).

Record conn_ok (k : Conn) : Prop := {
  tx_ok : failed (tx k) = false -> chan_ok (tx k);
  rx_ok : failed (rx k) = false -> chan_ok (rx k);
  queued_ok : Forall frame_ok (conn_queued k);
  got_ok : Forall frame_ok (conn_got k);
  conserved : exists ahead,
    stream (conn_got k) ++ inbox (rx k) ++ transit k ++ ahead = stream (conn_queued k) /\
    (failed (tx k) = false -> ahead = unsent (tx k))
}.

Lemma conn_init_ok fd1 fd2 : conn_ok (conn_init fd1 fd2).
Proof. split; try done; try (intros _; apply Channel_new_chan_ok). by exists []. Qed.

Lemma conn_queue_ok k op p :
  conn_ok k -> 0 <= op < 2 ^ 8 -> zlen (outbox (tx k)) < 2 ^ 62 ->
  let t := queue op p (tx k) in
  conn_ok (mkConn t (rx k) (transit k)
    (if failed t then conn_queued k else conn_queued k ++ [mkIncoming op p]) (conn_got k)).
Proof.
  intros [Ht Hr Hq Hg (a & E & Ha)] Hop Hb t.
  destruct (queue_run op p (tx k) Ht Hb Hop) as (_ & _ & Hs & _). fold t in Hs.
  split; cbn [tx rx transit conn_queued conn_got]; try done.
  - intros Hf. by destruct (Hs Hf) as (_ & ? & _).
  - destruct (failed t); [done|]. apply Forall_app. split; [done|]. apply Forall_singleton.
    by destruct (Hs eq_refl) as (_ & _ & ? & _).
  - destruct (failed t) eqn:Ef; [by exists a|]. destruct (Hs eq_refl) as (Hf & _ & _ & Hu).
    exists (unsent t). split; [|done]. rewrite stream_app, stream_one, <-E, (Ha Hf), Hu.
    by rewrite <-!app_assoc.
Qed.

Lemma conn_flush_ok k io t w io' :
  conn_ok k -> zlen (outbox (tx k)) < 2 ^ 62 ->
  sends_within (zlen (outbox (tx k)) - out_pos (tx k)) io -> flush io (tx k) = Some (t, w, io') ->
  conn_ok (mkConn t (rx k) (transit k ++ w) (conn_queued k) (conn_got k)).
Proof.
  intros [Ht Hr Hq Hg (a & E & Ha)] Hb Hio H.
  destruct (flush_run _ _ _ _ _ Ht Hb Hio H) as (H1 & H2 & _ & _ & H3).
  split; cbn [tx rx transit conn_queued conn_got]; try done.
  - intros Hf. by apply H3.
  - destruct (failed (tx k)) eqn:Ef.
    + destruct (H1 eq_refl) as [-> ->]. exists a. rewrite app_nil_r. split; [done|]. by rewrite Ef.
    + exists (unsent t). split; [|done]. by rewrite <-E, (Ha eq_refl), (H2 eq_refl), <-!app_assoc.
Qed.

Lemma conn_poll_ok k pre io' r fs left :
  conn_ok k -> poll (pre ++ io') (rx k) = Some (r, Ok fs, io') -> transit k = data pre ++ left ->
  conn_ok (mkConn (tx k) r left (conn_queued k) (conn_got k ++ fs)).
Proof.
  intros [Ht Hr Hq Hg (a & E & Ha)] H Hl.
  destruct (poll_run _ _ _ _ _ Hr H) as (pre' & fs' & Epre & Efs & Hfs & Hd & _ & _ & _ & Hok & _).
  apply app_inv_tail in Epre as <-. injection Efs as <-.
  split; cbn [tx rx transit conn_queued conn_got]; try done.
  - intros Hf. by apply Hok.
  - by apply Forall_app.
  - exists a. split; [|done]. rewrite stream_app, <-E, Hl.
    enough (inbox (rx k) ++ data pre ++ left ++ a = stream fs ++ inbox r ++ left ++ a) as K
      by (by rewrite <-!app_assoc, K).
    by rewrite (app_assoc (inbox (rx k))), Hd, <-app_assoc.
Qed.

Lemma conn_step_ok k k' : conn_ok k -> conn_step k k' -> conn_ok k'.
Proof.
  intros Hk [op p Hop Hb t|io t w io' Hb Hio H|pre io' r fs left H Hl].
  - by apply conn_queue_ok.
  - by eapply conn_flush_ok.
  - by eapply conn_poll_ok.
Qed.

Lemma conn_steps_ok k k' : rtc conn_step k k' -> conn_ok k -> conn_ok k'.
Proof. induction 1; eauto using conn_step_ok. Qed.

Lemma conn_reachable_ok fd1 fd2 k : rtc conn_step (conn_init fd1 fd2) k -> conn_ok k.
Proof. intros H. by eapply conn_steps_ok, conn_init_ok. Qed.

(** C29: a connection delivers in order.  However the calls of the two ends
    interleave, whatever sizes the kernel sends and receives in and wherever it
    interrupts or defers, what the receiver got is a prefix of the frames queued,
    each with its operation and payload intact; and once a connection that has not
    failed is drained, it is all of them, with nothing left in the inbox. *)
Theorem conn_in_order fd1 fd2 k :
  rtc conn_step (conn_init fd1 fd2) k ->
  conn_got k `prefix_of` conn_queued k /\
  (failed (tx k) = false -> failed (rx k) = false -> unsent (tx k) = [] -> transit k = [] ->
   conn_got k = conn_queued k /\ inbox (rx k) = []).
Proof.
  intros Hk%conn_reachable_ok. destruct Hk as [_ Hr Hq Hg (a & E & Ha)]. split.
  - eapply (stream_prefix _ _ (inbox (rx k))); [done..|]. exists (transit k ++ a).
    by rewrite <-E, <-app_assoc.
  - intros Ht Hf Hu Htr. rewrite Htr, (Ha Ht), Hu, !app_nil_r in E.
    destruct (stream_complete _ _ _ Hg Hq (in_cut _ (Hr Hf)) E). done.
Qed.

(** What a channel that has not failed holds is bounded: at most
    [kMaxBacklog] octets wait to be sent and at most [kMaxBacklog] wait for the
    rest of their frame, whatever the peer does; and no frame the receiver hands
    out carries more than [kMaxFrameLen] octets. *)
Theorem conn_bounded fd1 fd2 k :
  rtc conn_step (conn_init fd1 fd2) k ->
  (failed (tx k) = false -> zlen (unsent (tx k)) <= kMaxBacklog) /\
  (failed (rx k) = false -> zlen (inbox (rx k)) <= kMaxBacklog) /\
  Forall (fun f => zlen (in_payload f) <= kMaxFrameLen) (conn_got k).
Proof.
  intros Hk%conn_reachable_ok. destruct Hk as [Ht Hr _ Hg _]. split; [|split].
  - intros Hf. specialize (Ht Hf). pose proof (out_capped _ Ht). pose proof (out_range _ Ht).
    unfold unsent, zlen in *. rewrite length_drop. lia.
  - intros Hf. apply (in_capped _ (Hr Hf)).
  - eapply Forall_impl; [exact Hg|]. by intros f [_ ?].
Qed.

(** A script that lets [poll] return. *)
Definition settles (io : list RecvResult) : Prop :=
  Exists (fun r => r = RecvError EAGAIN \/ r = RecvError EOther \/ r = Got []) io.

Lemma recv_loop_returns io ch : settles io -> exists x, recv_loop io ch = Some x.
Proof.
  intros H. revert ch. induction H as [r io Hr|r io Hr IH]; intros ch.
  - destruct Hr as [->|[->| ->]]; eexists; reflexivity.
  - cbn [recv_loop]. destruct r as [b|[]]; eauto. destruct (zlen b >? 0); [|eauto].
    destruct (zlen _ >? kMaxBacklog); eauto.
Qed.

(** Polling survives any peer.  Whatever bytes arrive, in whatever pieces, on a
    sound or a failed channel, [poll] returns, without undefined behaviour and
    without an exception; the frames it returns, followed by what it keeps, spell
    exactly the bytes that came; and a sound channel either stays sound or fails
    for one of three reasons: a socket error, an overfull inbox, an oversized
    frame. *)
Theorem poll_safe io ch :
  (failed ch = false -> chan_ok ch) -> settles io ->
  exists ch' fs pre io', poll io ch = Some (ch', Ok fs, io') /\ io = pre ++ io' /\
    Forall frame_ok fs /\ inbox ch ++ data pre = stream fs ++ inbox ch' /\
    (failed ch' = false -> failed ch = false /\ chan_ok ch') /\
    (failed ch = false -> failed ch' = true -> receive_fault pre (inbox ch')).
Proof.
  intros Hok Hio. assert (exists x, poll io ch = Some x) as [[[ch' r] io'] E].
  { unfold poll. destruct (failed ch || (fd ch <? 0)); [eauto|].
    destruct (recv_loop_returns io ch Hio) as [[[c go] io1] ->]. destruct go; [|eauto].
    destruct (frames_loop _ _ _ _) as [[[bad pos] out]| |]; eauto. }
  destruct (poll_run _ _ _ _ _ Hok E) as (pre & fs & -> & -> & ? & ? & _ & _ & _ & ? & ?).
  by exists ch', fs, pre, io'.
Qed.

(** ** The sent part of the outbox is kept until everything is sent

    [flush] drops what was sent only when nothing is left to send.  A peer that
    always leaves a few octets unread makes it keep everything it ever took. *)

Definition short_frame : Incoming := mkIncoming Op_Shutdown [].

(** One turn: the host queues a five-octet frame and the peer takes five octets. *)
Lemma slow_turn k :
  conn_ok k -> failed (tx k) = false -> 0 <= fd (tx k) -> zlen (unsent (tx k)) = 5 ->
  zlen (outbox (tx k)) + 5 < 2 ^ 62 ->
  exists k', rtc conn_step k k' /\ failed (tx k') = false /\ fd (tx k') = fd (tx k) /\
    zlen (unsent (tx k')) = 5 /\ zlen (outbox (tx k')) = zlen (outbox (tx k)) + 5.
Proof.
  intros Hk Hf Hfd Hu Hb. pose proof (tx_ok _ Hk Hf) as Hok. pose proof (out_range _ Hok) as Hr.
  assert (out_pos (tx k) = zlen (outbox (tx k)) - 5) as Hp.
  { unfold unsent, zlen in *. rewrite length_drop in Hu. lia. }
  set (o := outbox (tx k) ++ frame short_frame). set (p := out_pos (tx k)) in *.
  set (c1 := set_out o p (tx k)). set (c2 := set_out o (p + 5) (tx k)).
  assert (zlen o = zlen (outbox (tx k)) + 5) as Ho by (unfold o; by rewrite zlen_app).
  assert (queue Op_Shutdown [] (tx k) = c1) as Eq.
  { unfold queue. rewrite Hf. change (zlen ([] : bytes) >? kMaxFrameLen) with false. cbv iota.
    assert (put_u8 (put_u32 (outbox (tx k)) (u32 (zlen ([] : bytes)))) Op_Shutdown ++ [] = o) as ->
      by (rewrite put_u8_spec, put_u32_spec, <-!app_assoc; done).
    fold p. fold c1. change (outbox c1) with o. change (out_pos c1) with p.
    rewrite Ho, u64_small by (unfold in_u64; lia).
    by replace (zlen (outbox (tx k)) + 5 - p) with 10 by lia. }
  assert (flush [Sent 5; SendError EAGAIN] c1 = Some (c2, take 5 (drop (Z.to_nat p) o), [])) as Ef.
  { unfold flush. change (failed c1) with (failed (tx k)). change (fd c1) with (fd (tx k)). rewrite Hf.
    rewrite (proj2 (Z.ltb_ge _ _) Hfd). cbn [orb flush_loop]. change (outbox c1) with o.
    change (out_pos c1) with p. rewrite (proj2 (Z.ltb_lt p (zlen o))) by lia.
    change (5 >? 0) with true. cbv iota. rewrite u64_small by (unfold in_u64; lia).
    change (set_out o (p + 5) c1) with c2. cbn [flush_loop]. change (outbox c2) with o.
    change (out_pos c2) with (p + 5). rewrite (proj2 (Z.ltb_lt (p + 5) (zlen o))) by lia.
    change (failed c2) with (failed (tx k)). rewrite Hf. cbv iota.
    change (outbox c2) with o. change (out_pos c2) with (p + 5).
    by rewrite (proj2 (Z.eqb_neq (p + 5) (zlen o))) by lia. }
  eexists. split.
  { eapply rtc_l; [apply (conn_queue k Op_Shutdown []); [done|lia]|]. rewrite Eq.
    eapply rtc_once, (conn_flush _ [Sent 5; SendError EAGAIN] c2 _ []); cbn [tx].
    - change (outbox c1) with o. lia.
    - change (outbox c1) with o. change (out_pos c1) with p. cbn. lia.
    - exact Ef. }
  cbn [tx]. split; [exact Hf|]. split; [done|]. split; [|exact Ho].
  unfold unsent, c2. cbn [outbox out_pos set_out]. unfold zlen in *. rewrite length_drop. lia.
Qed.

Lemma slow_turns n : 5 * Z.of_nat n + 5 < 2 ^ 62 ->
  exists k, rtc conn_step (conn_init 3 4) k /\ failed (tx k) = false /\ fd (tx k) = 3 /\
    zlen (unsent (tx k)) = 5 /\ zlen (outbox (tx k)) = 5 * Z.of_nat n + 5.
Proof.
  induction n as [|n IH]; intros Hn.
  - eexists. split; [apply rtc_once, (conn_queue _ Op_Shutdown []); done|]. by vm_compute.
  - destruct IH as (k & Hk & Hf & Hfd & Hu & Ho); [lia|].
    destruct (slow_turn k) as (k' & Hs & Hf' & Hfd' & Hu' & Ho');
      [by eapply conn_reachable_ok|done|lia|done|lia|].
    exists k'. split; [by etrans|]. split; [done|]. split; [congruence|]. split; [done|lia].
Qed.

(** The outbox is not bounded.  For every size there is a run in which the
    sender never has more than five octets left to send and never fails, and in
    which its outbox has grown beyond that size. *)
Theorem outbox_unbounded n :
  0 <= n < 2 ^ 61 ->
  exists k, rtc conn_step (conn_init 3 4) k /\ failed (tx k) = false /\
    zlen (unsent (tx k)) = 5 /\ n <= zlen (outbox (tx k)).
Proof.
  intros Hn. pose proof (Z.div_mod n 5 ltac:(lia)). pose proof (Z.mod_pos_bound n 5 ltac:(lia)).
  destruct (slow_turns (Z.to_nat (n / 5))) as (k & Hk & Hf & _ & Hu & Ho); [lia|].
  exists k. do 3 (split; [done|]). lia.
Qed.

(** A payload of exactly the documented cap can never be sent: with its header it
    exceeds the backlog. *)
Lemma full_frame_fails op p ch :
  chan_ok ch -> failed ch = false -> zlen (outbox ch) < 2 ^ 62 -> 0 <= op < 2 ^ 8 ->
  zlen p = kMaxFrameLen -> failed (queue op p ch) = true.
Proof.
  intros Hok Hf Hb Hop Hp. destruct (queue_run op p ch (fun _ => Hok) Hb Hop) as (_ & _ & _ & H).
  rewrite (H Hf), Hp. pose proof (zlen_nonneg (unsent ch)). unfold kMaxFrameLen, kMaxBacklog.
  rewrite orb_true_iff. right. apply Z.gtb_lt. lia.
Qed.

(** ** Witnesses: one frame sent in two pieces and received in two polls *)

Definition hi : Incoming := mkIncoming Op_Deliver "hi".
Definition conn1 : Conn :=
  mkConn (queue Op_Deliver "hi" (Channel_new 3)) (Channel_new 4) [] [hi] [].
Definition conn2 : Conn := mkConn (Channel_new 3) (Channel_new 4) (frame hi) [hi] [].
Definition conn3 : Conn :=
  mkConn (Channel_new 3) (set_inbox (take 6 (frame hi)) (Channel_new 4)) (drop 6 (frame hi)) [hi] [].
Definition done_conn : Conn := mkConn (Channel_new 3) (Channel_new 4) [] [hi] [hi].

Lemma done_conn_reached : rtc conn_step (conn_init 3 4) done_conn.
Proof.
  apply (rtc_l _ _ conn1); [exact (conn_queue (conn_init 3 4) Op_Deliver "hi" ltac:(done) eq_refl)|].
  apply (rtc_l _ _ conn2).
  { exact (conn_flush conn1 [Sent 4; SendError EINTR; Sent 3] (Channel_new 3) (frame hi) []
      eq_refl ltac:(by vm_compute) ltac:(by vm_compute)). }
  apply (rtc_l _ _ conn3).
  { exact (conn_poll conn2 [Got (take 6 (frame hi)); RecvError EAGAIN] []
      (rx conn3) [] (drop 6 (frame hi)) ltac:(by vm_compute) ltac:(by vm_compute)). }
  apply rtc_once.
  exact (conn_poll conn3 [Got (drop 6 (frame hi)); RecvError EAGAIN] [] (Channel_new 4) [hi] []
    ltac:(by vm_compute) ltac:(by vm_compute)).
Qed.

Lemma conn_in_order_witness :
  conn_got done_conn `prefix_of` conn_queued done_conn /\ inbox (rx done_conn) = [].
Proof.
  destruct (conn_in_order 3 4 done_conn done_conn_reached) as [H1 H2]. split; [exact H1|].
  apply H2; reflexivity.
Defined.

Lemma conn_bounded_witness :
  zlen (unsent (tx done_conn)) <= kMaxBacklog /\
  Forall (fun f => zlen (in_payload f) <= kMaxFrameLen) (conn_got done_conn).
Proof.
  destruct (conn_bounded 3 4 done_conn done_conn_reached) as (H1 & _ & H3). split; [|exact H3].
  apply H1. reflexivity.
Defined.

(** A peer that claims a four-gigabyte frame. *)
Lemma poll_safe_witness :
  exists ch' fs pre io',
    poll [Got (le_bytes 4 (2 ^ 32 - 1) ++ str "x"); RecvError EAGAIN] (Channel_new 4) =
      Some (ch', Ok fs, io') /\
    [Got (le_bytes 4 (2 ^ 32 - 1) ++ str "x"); RecvError EAGAIN] = pre ++ io' /\
    Forall frame_ok fs /\
    inbox (Channel_new 4) ++ data pre = stream fs ++ inbox ch' /\
    (failed ch' = false -> failed (Channel_new 4) = false /\ chan_ok ch') /\
    (failed (Channel_new 4) = false -> failed ch' = true -> receive_fault pre (inbox ch')).
Proof.
  apply (poll_safe [Got (le_bytes 4 (2 ^ 32 - 1) ++ str "x"); RecvError EAGAIN] (Channel_new 4)).
  - intros _. apply Channel_new_chan_ok.
  - apply Exists_cons. right. apply Exists_cons. left. left. reflexivity.
Defined.

Lemma outbox_unbounded_witness :
  exists k, rtc conn_step (conn_init 3 4) k /\ failed (tx k) = false /\
    zlen (unsent (tx k)) = 5 /\ 2 ^ 40 <= zlen (outbox (tx k)).
Proof. apply (outbox_unbounded (2 ^ 40)). split; [discriminate|reflexivity]. Defined.
