(* ===== verification/Grant.v ===== *)
(** * Messages and the capability grant

    [include/zen/switchboard/message.hpp], [bus.hpp] and [grant.hpp]: the routed
    envelope, tickets, and what a shard may do.  A [ShardId] and a [Ticket] are
    their 64-bit value; the zero of each is the invalid handle.  The abstract
    reading of a grant is the set of sends it authorizes, [authority]; the
    theorem on grants states how each builder call changes that set. *)

From S2P Require Import Prelude Schema Value.

(** ** Identities, tickets and messages *)

Abbreviation ShardId := Z.
Definition ShardId_valid (id : ShardId) : bool := negb (id =? 0).

Abbreviation Ticket := Z.
Definition Ticket_valid (t : Ticket) : bool := negb (t =? 0).

Record Message : Type := mkMessage {
  payload : Value; sender : ShardId; reply_to : ShardId; correlation : Z
}.

(** [msg.sender = as_sender]. *)
Definition set_sender (msg : Message) (as_sender : ShardId) : Message :=
  mkMessage (payload msg) as_sender (reply_to msg) (correlation msg).

(** ** Capabilities *)

Definition cap_None : Z := 0.
Definition cap_Network : Z := Z.shiftl 1 0.
Definition cap_SpawnProcess : Z := Z.shiftl 1 1.

Inductive FsAccess : Set := FsNone | ReadOnly | WriteScoped | WriteNoExec | WriteAnywhere.

#[export] Instance FsAccess_eq_dec : EqDecision FsAccess.
Proof. solve_decision. Defined.

Definition fs_access_name (level : FsAccess) : bytes :=
  match level with
  | FsNone => "none" | ReadOnly => "read-only" | WriteScoped => "write-scoped"
  | WriteNoExec => "write-no-exec" | WriteAnywhere => "write-anywhere"
  end.

Record SendRule : Type := mkRule {
  any_shape : bool; shape_name : bytes; shape_version : Z; any_target : bool; rule_target : ShardId
}.

Record ResourceLimits : Set := mkLimits {
  memory_bytes : Z; pids : Z; cpu_weight : Z; unlimited : bool
}.

Record Grant : Type := mkGrant {
  rules : list SendRule; os_ : Z; fs_ : FsAccess; fs_path_ : bytes; res_ : ResourceLimits
}.

(** The default-constructed grant. *)
Definition nothing : Grant := mkGrant [] 0 FsNone [] (mkLimits 0 0 0 false).

Definition push_rule (g : Grant) (r : SendRule) : Grant :=
  mkGrant (rules g ++ [r]) (os_ g) (fs_ g) (fs_path_ g) (res_ g).

Definition allow (g : Grant) (shape_name : bytes) (shape_version : Z) (target : ShardId) : Grant :=
  push_rule g (mkRule false shape_name shape_version false target).
Definition allow_to_any (g : Grant) (shape_name : bytes) (shape_version : Z) : Grant :=
  push_rule g (mkRule false shape_name shape_version true 0).
Definition allow_any_to (g : Grant) (target : ShardId) : Grant :=
  push_rule g (mkRule true [] 0 false target).
Definition allow_any (g : Grant) : Grant :=
  push_rule g (mkRule true [] 0 true 0).

Definition with_os_capabilities (g : Grant) (caps : Z) : Grant :=
  mkGrant (rules g) (Z.lor (os_ g) caps) (fs_ g) (fs_path_ g) (res_ g).
Definition with_filesystem (g : Grant) (level : FsAccess) (scoped_path : bytes) : Grant :=
  mkGrant (rules g) (os_ g) level scoped_path (res_ g).
Definition with_resources (g : Grant) (limits : ResourceLimits) : Grant :=
  mkGrant (rules g) (os_ g) (fs_ g) (fs_path_ g) limits.
Definition with_unlimited_resources (g : Grant) : Grant :=
  mkGrant (rules g) (os_ g) (fs_ g) (fs_path_ g)
    (mkLimits (memory_bytes (res_ g)) (pids (res_ g)) (cpu_weight (res_ g)) true).

Definition rule_permits (r : SendRule) (name : bytes) (version : Z) (target : ShardId) : bool :=
  let shape_ok := any_shape r ||
    (bool_decide (shape_name r = name) && (shape_version r =? version)) in
  let target_ok := any_target r || (rule_target r =? target) in
  shape_ok && target_ok.

Fixpoint permits_loop (rs : list SendRule) (name : bytes) (version : Z) (target : ShardId) : bool :=
  match rs with
  | [] => false
  | r :: rs => if rule_permits r name version target then true else permits_loop rs name version target
  end.
Definition permits (g : Grant) (name : bytes) (version : Z) (target : ShardId) : bool :=
  permits_loop (rules g) name version target.

Definition has_os_capability (g : Grant) (cap : Z) : bool :=
  negb (cap =? 0) && (Z.land (os_ g) cap =? cap).

(** ** Specification: a grant as the set of sends it authorizes *)

Definition authority (g : Grant) (name : bytes) (version : Z) (target : ShardId) : Prop :=
  exists r, r ∈ rules g /\
    (any_shape r = true \/ (shape_name r = name /\ shape_version r = version)) /\
    (any_target r = true \/ rule_target r = target).

Lemma permits_loop_existsb rs n v t :
  permits_loop rs n v t = existsb (fun r => rule_permits r n v t) rs.
Proof. induction rs as [|r rs IH]; simpl; [done|]. rewrite IH. by destruct (rule_permits _ _ _ _). Qed.

Lemma rule_permits_iff r n v t :
  rule_permits r n v t = true <->
  (any_shape r = true \/ (shape_name r = n /\ shape_version r = v)) /\
  (any_target r = true \/ rule_target r = t).
Proof.
  unfold rule_permits. cbv zeta. rewrite andb_true_iff, !orb_true_iff, andb_true_iff.
  by rewrite bool_decide_eq_true, !Z.eqb_eq.
Qed.

Lemma permits_iff g n v t : permits g n v t = true <-> authority g n v t.
Proof.
  unfold permits, authority. rewrite permits_loop_existsb, existsb_exists.
  setoid_rewrite rule_permits_iff. by setoid_rewrite <-list_elem_of_In.
Qed.

Lemma permits_push g r n v t :
  permits (push_rule g r) n v t = permits g n v t || rule_permits r n v t.
Proof.
  unfold permits. rewrite !permits_loop_existsb. cbn [push_rule rules].
  rewrite existsb_app. simpl. by rewrite orb_false_r.
Qed.

Lemma has_os_capability_bits g cap :
  0 <= cap ->
  has_os_capability g cap = true <->
  cap <> 0 /\ forall i, 0 <= i -> Z.testbit cap i = true -> Z.testbit (os_ g) i = true.
Proof.
  intros Hc. unfold has_os_capability. rewrite andb_true_iff, negb_true_iff, Z.eqb_neq, Z.eqb_eq.
  split; intros [Hn H]; (split; [done|]).
  - intros i Hi Hb. rewrite <-H, Z.land_spec in Hb. by apply andb_prop in Hb as [Hb _].
  - apply Z.bits_inj'. intros i Hi. rewrite Z.land_spec. specialize (H i Hi).
    destruct (Z.testbit cap i); [rewrite H by done|]; by rewrite ?andb_false_r.
Qed.

(** Minimal authority by default, widened only as stated: the empty grant
    permits no send and holds no capability; each [allow] form adds exactly the
    sends it names, to any grant; and the filesystem, resource and capability
    settings never change which sends are permitted, nor do sends change the
    capabilities. *)
Theorem grant_authority g n v t :
  (permits g n v t = true <-> authority g n v t) /\
  permits nothing n v t = false /\ (forall cap, 0 <= cap -> has_os_capability nothing cap = false) /\
  (forall n' v' t', permits (allow g n' v' t') n v t = true <->
     permits g n v t = true \/ (n', v', t') = (n, v, t)) /\
  (forall n' v', permits (allow_to_any g n' v') n v t = true <->
     permits g n v t = true \/ (n', v') = (n, v)) /\
  (forall t', permits (allow_any_to g t') n v t = true <-> permits g n v t = true \/ t' = t) /\
  permits (allow_any g) n v t = true /\
  (forall caps level path limits,
     permits (with_os_capabilities g caps) n v t = permits g n v t /\
     permits (with_filesystem g level path) n v t = permits g n v t /\
     permits (with_resources g limits) n v t = permits g n v t /\
     permits (with_unlimited_resources g) n v t = permits g n v t) /\
  (forall caps cap, 0 <= caps -> 0 <= cap ->
     (has_os_capability (with_os_capabilities g caps) cap = true <->
      cap <> 0 /\ forall i, 0 <= i -> Z.testbit cap i = true ->
        Z.testbit (os_ g) i = true \/ Z.testbit caps i = true)).
Proof.
  split; [apply permits_iff|]. split; [done|]. split.
  { intros cap Hc. apply not_true_is_false. rewrite has_os_capability_bits by done.
    intros [Hn H]. apply Hn, Z.bits_inj'. intros i Hi. rewrite Z.bits_0.
    apply not_true_is_false. intros Hb. specialize (H i Hi Hb). by rewrite Z.bits_0 in H. }
  do 4 (split; [intros; unfold allow, allow_to_any, allow_any_to, allow_any;
    rewrite permits_push, orb_true_iff, rule_permits_iff; simpl; naive_solver|]).
  split; [done|]. intros caps cap H1 H2. rewrite has_os_capability_bits by done.
  cbn [with_os_capabilities os_]. by setoid_rewrite Z.lor_spec; setoid_rewrite orb_true_iff.
Qed.

(** [Ping v1] to shard 2 and nothing else. *)
Definition ping_to_2 : Grant := allow nothing "Ping" 1 2.

Example ping_to_2_permits :
  (permits ping_to_2 "Ping" 1 2, permits ping_to_2 "Ping" 1 3, permits ping_to_2 "Ping" 2 2)
  = (true, false, false).
Proof. reflexivity. Qed.

(** ** Witnesses *)

Lemma grant_authority_witness :
  permits (allow_to_any ping_to_2 "Pong" 3) "Pong" 3 9 = true /\
  has_os_capability (with_os_capabilities nothing cap_Network) cap_Network = true.
Proof.
  destruct (grant_authority ping_to_2 "Pong" 3 9) as (_ & _ & _ & _ & H & _).
  split; [apply H; right; reflexivity|].
  destruct (grant_authority nothing [] 0 0) as (_ & _ & _ & _ & _ & _ & _ & _ & Hc).
  apply Hc; [discriminate|discriminate|]. split; [discriminate|]. intros i _ Hi. right. exact Hi.
Defined.
