(* ===== verification/Bus.v ===== *)
(** * The bus vocabulary and the shard contract

    The data of [include/zen/switchboard/switchboard.hpp] (refusals, outcomes,
    events, revival outcomes, the lifecycle-policy grammar) and the interfaces of
    [bus.hpp] and [shard.hpp].

    A shard and an observer are code outside the switchboard: a type with its
    operations, given as the classes [ShardOps] and [ObserverOps].  A shard's
    [handle] receives the abstract [Bus], so it is an interaction with that
    interface, a [Handler]: it may send, publish, return or throw, and what it
    does next may depend on the tickets and counts it got back; [self] is the
    shard's state at that point, which is what is left if the call throws.
    [Crash] is undefined behaviour in the shard's own code.  The kernel's
    adapter also keeps the [Switchboard] to resolve schemas and runs the gate on
    what its library emits; those two are steps of a [Handler] too. *)

From S2P Require Import Prelude Schema Value Gate Serialize Grant.

(** ** Refusals and outcomes *)

Inductive RefusalReason : Set :=
| RR_None | NoSuchTarget | TargetUnavailable | NotAccepted | GateRefused | CapabilityDenied.

#[export] Instance RefusalReason_eq_dec : EqDecision RefusalReason.
Proof. solve_decision. Defined.

Definition RefusalReason_name_of (r : RefusalReason) : bytes :=
  match r with
  | RR_None => "None" | NoSuchTarget => "NoSuchTarget" | TargetUnavailable => "TargetUnavailable"
  | NotAccepted => "NotAccepted" | GateRefused => "GateRefused"
  | CapabilityDenied => "CapabilityDenied"
  end.

Record Refusal : Type := mkRefusal { reason : RefusalReason; error : Error }.

Definition Refusal_default : Refusal := mkRefusal RR_None Error_default.
(** [Refusal{r, {}}]. *)
Definition refusal_of (r : RefusalReason) : Refusal := mkRefusal r Error_default.

Definition Refusal_message (r : Refusal) : bytes :=
  match reason r with
  | RR_None => "no refusal"
  | NoSuchTarget => "no such target shard"
  | TargetUnavailable => "target shard is dead (awaiting revival)"
  | NotAccepted => "target does not accept this schema"
  | GateRefused => str "gate refused: " ++ Error_message (error r)
  | CapabilityDenied => "sender's grant does not permit this shape to this target"
  end.

Inductive Disposition : Set := Pending | Delivered | Refused.

Record DeliveryOutcome : Type := mkOutcome { disposition : Disposition; refusal : Refusal }.

Definition DeliveryOutcome_default : DeliveryOutcome := mkOutcome Pending Refusal_default.

(** ** Events and revival outcomes *)

Inductive EventKind : Set := EvDelivered | EvRefused | EvDied | EvRevived.

Record BusEvent : Type := mkEvent {
  ev_kind : EventKind; ev_seq : Z; ev_target : ShardId; ev_sender : ShardId;
  ev_schema_name : bytes; ev_schema_version : Z; ev_refusal : Refusal;
  ev_from_last_known_good : bool; ev_payload : option Value
}.

Record ReviveOutcome : Type := mkRevive {
  revived : bool; from_last_known_good : bool; reloads_exhausted : bool;
  policy_malformed : bool; ro_refusal : Refusal
}.

Definition ReviveOutcome_default : ReviveOutcome :=
  mkRevive false false false false Refusal_default.

(** ** The lifecycle-policy grammar *)

Definition lifecycle_policy_schema : result Schema :=
  b ← builder_field "max_reloads" KInt true (builder "LifecyclePolicy" 1);
  b ← builder_field "revive_from_last_good" KBool true b;
  builder_build b.

(** The schema that builder makes. *)
Definition policy_door : Schema :=
  mkSchema "LifecyclePolicy" 1
    [mkField (str "max_reloads") (mkTypeRef KInt None None) true;
     mkField (str "revive_from_last_good") (mkTypeRef KBool None None) true] 17894987941091917682.

Lemma lifecycle_policy_schema_ok : lifecycle_policy_schema = Ok policy_door.
Proof. vm_compute. reflexivity. Qed.

(** ** The interfaces *)

Inductive Handler (A : Type) : Type :=
| Done (self : A)
| SendTo (self : A) (target : ShardId) (msg : Message) (k : Ticket -> Handler A)
| PublishAll (self : A) (msg : Message) (k : Z -> Handler A)
| Resolve (name : bytes) (version : Z) (k : option Schema -> Handler A)
| Admit (u : Unverified) (door : option Schema) (k : result Admission -> Handler A)
| Raise (self : A) (e : exn)
| Crash (self : A).
Arguments Done {A} _.
Arguments SendTo {A} _ _ _ _.
Arguments PublishAll {A} _ _ _.
Arguments Resolve {A} _ _ _.
Arguments Admit {A} _ _ _.
Arguments Raise {A} _ _.
Arguments Crash {A} _.

(** [class Shard].  [const] methods do not change the shard; every method may
    throw. *)
Class ShardOps (Sh : Type) : Type := {
  accepted_schemas : Sh -> result (list (option Schema));
  handle : Sh -> Message -> Handler Sh;
  shard_snapshot : Sh -> result Value;
  policy : Sh -> result Value;
  revive : Sh -> Value -> Sh * result unit
}.

(** What the language guarantees of the schemas a shard can hand out: a [Schema]
    object exists only if its constructor accepted it. *)
Class ShardLaws (Sh : Type) `{ShardOps Sh} : Prop := {
  accepted_wf sh l s : accepted_schemas sh = Ok l -> Some s ∈ l -> wf_schema s;
  snapshot_wf sh v : shard_snapshot sh = Ok v -> wf_schema (Value_schema v)
}.

(** The same of one shard. *)
Definition lawful {Sh : Type} `{ShardOps Sh} (sh : Sh) : Prop :=
  (forall l s, accepted_schemas sh = Ok l -> Some s ∈ l -> wf_schema s) /\
  (forall v, shard_snapshot sh = Ok v -> wf_schema (Value_schema v)).

Lemma shards_lawful {Sh : Type} `{ShardLaws Sh} (sh : Sh) : lawful sh.
Proof. split; [intros l s; apply accepted_wf|apply snapshot_wf]. Qed.

(** [std::function<void(const BusEvent&)>]: an observer has a state of its own,
    and may call the enqueuing operations of the switchboard and [stop]. *)
Inductive HostAction : Type :=
| HStop
| HSend (target : ShardId) (msg : Message)
| HPublish (msg : Message)
| HSendAs (as_sender target : ShardId) (msg : Message)
| HPublishAs (as_sender : ShardId) (msg : Message).

Class ObserverOps (O : Type) : Type :=
  notify : O -> BusEvent -> (O * list HostAction) * result unit.

(** ** Facts about the policy grammar *)

Lemma policy_door_wf : wf_schema policy_door.
Proof.
  unfold policy_door. constructor.
  - done.
  - apply (bool_decide_unpack _). by vm_compute.
  - repeat constructor; discriminate.
  - repeat constructor; discriminate.
  - by vm_compute.
Qed.

(** A policy that passed the gate has the two fields the switchboard reads. *)
Lemma policy_fields v :
  conforms v policy_door ->
  exists n b, Value_get v "max_reloads" = Some (CInt n) /\
    Value_get v "revive_from_last_good" = Some (CBool b).
Proof.
  intros [_ Hc]. apply conforms_value_fields in Hc.
  cbn [Schema_fields policy_door] in Hc. rewrite !Forall_cons in Hc. destruct Hc as (H1 & H2 & _).
  unfold conforms_field in *. cbn [fname ftype required conforms_cell] in *.
  destruct (Value_get v "max_reloads") as [[]|], (Value_get v "revive_from_last_good") as [[]|];
    try done. eauto.
Qed.

Example refusal_message_denied :
  Refusal_message (refusal_of CapabilityDenied) =
    "sender's grant does not permit this shape to this target".
Proof. reflexivity. Qed.
