(* ===== verification/Switchboard.v ===== *)
(** * The switchboard

    [src/switchboard/switchboard.cpp]: the state of the bus and its operations,
    registration, enqueuing, gated delivery, the dispatch loop, the journal,
    observers and the lifecycle operations.

    The state is one record.  [shards_] is the ordered map, iterated in ascending
    id; [journal_] is indexed by delivery number, slot 0 unused; [gate_calls] is
    the process-wide counter of [src/gate.cpp].  A pointer the code keeps into
    [shards_] is a lookup at the time of use. *)

From S2P Require Import Prelude Schema Value Registry Gate Serialize Grant Bus.

(** ** State *)

Record ShardRecord (Sh : Type) : Type := mkRecord {
  rec_id : ShardId; rec_shard : Sh; accept : list Schema; state_schema : Schema;
  last_known_good : Value; rec_grant : Grant; reloads_used : Z; rec_alive : bool
}.
Arguments mkRecord {Sh} _ _ _ _ _ _ _ _.
Arguments rec_id {Sh} _.
Arguments rec_shard {Sh} _.
Arguments accept {Sh} _.
Arguments state_schema {Sh} _.
Arguments last_known_good {Sh} _.
Arguments rec_grant {Sh} _.
Arguments reloads_used {Sh} _.
Arguments rec_alive {Sh} _.

Record Envelope : Type := mkEnvelope {
  env_msg : Message; env_target : ShardId; env_seq : Z; env_gated : bool
}.

Record Switchboard (Sh Ob : Type) : Type := mkSwitchboard {
  registry : Registry;
  shards : gmap Z (ShardRecord Sh);
  next_shard_id : Z;
  queue : list Envelope;
  journal : list DeliveryOutcome;
  next_seq : Z;
  observers : list (Z * option Ob);
  next_observer_id : Z;
  in_dispatch : bool;
  stop_requested : bool;
  gate_calls : Z
}.
Arguments mkSwitchboard {Sh Ob} _ _ _ _ _ _ _ _ _ _ _.
Arguments registry {Sh Ob} _.
Arguments shards {Sh Ob} _.
Arguments next_shard_id {Sh Ob} _.
Arguments queue {Sh Ob} _.
Arguments journal {Sh Ob} _.
Arguments next_seq {Sh Ob} _.
Arguments observers {Sh Ob} _.
Arguments next_observer_id {Sh Ob} _.
Arguments in_dispatch {Sh Ob} _.
Arguments stop_requested {Sh Ob} _.
Arguments gate_calls {Sh Ob} _.

(** A [std::map] in iteration order. *)
Definition key_le {A} (x y : Z * A) : Prop := x.1 <= y.1.

#[export] Instance key_le_dec A : RelDecision (@key_le A).
Proof. intros x y. unfold key_le. apply _. Defined.
#[export] Instance key_le_total A : Total (@key_le A).
Proof. intros x y. unfold key_le. lia. Qed.
#[export] Instance key_le_trans A : Transitive (@key_le A).
Proof. intros x y z. unfold key_le. lia. Qed.

Definition ascending {A} (m : gmap Z A) : list (Z * A) := merge_sort key_le (map_to_list m).

Section switchboard.
Context {Sh Ob : Type} `{ShardOps Sh} `{ObserverOps Ob}.

Abbreviation Bus := (Switchboard Sh Ob).
Abbreviation Rec := (ShardRecord Sh).

(** Field updates. *)
Definition set_registry (r : Registry) (b : Bus) : Bus :=
  mkSwitchboard r (shards b) (next_shard_id b) (queue b) (journal b) (next_seq b)
    (observers b) (next_observer_id b) (in_dispatch b) (stop_requested b) (gate_calls b).
Definition set_shards (m : gmap Z Rec) (b : Bus) : Bus :=
  mkSwitchboard (registry b) m (next_shard_id b) (queue b) (journal b) (next_seq b)
    (observers b) (next_observer_id b) (in_dispatch b) (stop_requested b) (gate_calls b).
Definition set_next_shard_id (n : Z) (b : Bus) : Bus :=
  mkSwitchboard (registry b) (shards b) n (queue b) (journal b) (next_seq b)
    (observers b) (next_observer_id b) (in_dispatch b) (stop_requested b) (gate_calls b).
Definition set_deliveries (q : list Envelope) (j : list DeliveryOutcome) (n : Z) (b : Bus) : Bus :=
  mkSwitchboard (registry b) (shards b) (next_shard_id b) q j n
    (observers b) (next_observer_id b) (in_dispatch b) (stop_requested b) (gate_calls b).
Definition set_observers (l : list (Z * option Ob)) (n : Z) (b : Bus) : Bus :=
  mkSwitchboard (registry b) (shards b) (next_shard_id b) (queue b) (journal b) (next_seq b)
    l n (in_dispatch b) (stop_requested b) (gate_calls b).
Definition set_flags (dispatch stop : bool) (b : Bus) : Bus :=
  mkSwitchboard (registry b) (shards b) (next_shard_id b) (queue b) (journal b) (next_seq b)
    (observers b) (next_observer_id b) dispatch stop (gate_calls b).
Definition set_gate_calls (n : Z) (b : Bus) : Bus :=
  mkSwitchboard (registry b) (shards b) (next_shard_id b) (queue b) (journal b) (next_seq b)
    (observers b) (next_observer_id b) (in_dispatch b) (stop_requested b) n.

Definition set_queue (q : list Envelope) (b : Bus) : Bus :=
  set_deliveries q (journal b) (next_seq b) b.
Definition set_journal (j : list DeliveryOutcome) (b : Bus) : Bus :=
  set_deliveries (queue b) j (next_seq b) b.

(** A write through a pointer to a record of [shards_]. *)
Definition update_shard (id : ShardId) (f : Rec -> Rec) (b : Bus) : Bus :=
  set_shards (alter f id (shards b)) b.

Definition rec_set_shard (sh : Sh) (r : Rec) : Rec :=
  mkRecord (rec_id r) sh (accept r) (state_schema r) (last_known_good r) (rec_grant r)
    (reloads_used r) (rec_alive r).
Definition rec_set_life (lkg : Value) (used : Z) (is_alive : bool) (r : Rec) : Rec :=
  mkRecord (rec_id r) (rec_shard r) (accept r) (state_schema r) lkg (rec_grant r) used is_alive.

(** Construction: slot 0 of the journal is unused. *)
Definition Switchboard_new (gate_calls : Z) : Bus :=
  mkSwitchboard ∅ ∅ 1 [] [DeliveryOutcome_default] 1 [] 1 false false gate_calls.

(** ** Lookup *)

Definition find (id : ShardId) (b : Bus) : option Rec := shards b !! id.

Fixpoint match_schema (l : list Schema) (name : bytes) (version : Z) : option Schema :=
  match l with
  | [] => None
  | s :: l =>
      if bool_decide (Schema_name s = name) && (Schema_version s =? version) then Some s
      else match_schema l name version
  end.
Definition accept_match (rec : Rec) (name : bytes) (version : Z) : option Schema :=
  match_schema (accept rec) name version.

(** ** Enqueuing *)

Definition push_delivery (target : ShardId) (msg : Message) (gated : bool) (b : Bus) : Bus :=
  set_deliveries (queue b ++ [mkEnvelope msg target (next_seq b) gated])
    (journal b ++ [DeliveryOutcome_default]) (u64 (next_seq b + 1)) b.

Definition enqueue_directed (target : ShardId) (msg : Message) (gated : bool) (b : Bus)
  : Bus * Ticket :=
  (push_delivery target msg gated b, next_seq b).

Fixpoint fanout_loop (entries : list (Z * Rec)) (name : bytes) (version : Z) (msg : Message)
    (gated : bool) (recipients : Z) (b : Bus) : Bus * Z :=
  match entries with
  | [] => (b, recipients)
  | (_, rec) :: rest =>
      if negb (rec_alive rec) then fanout_loop rest name version msg gated recipients b
      else match accept_match rec name version with
      | None => fanout_loop rest name version msg gated recipients b
      | Some _ =>
          let b := push_delivery (rec_id rec) msg gated b in
          fanout_loop rest name version msg gated (u64 (recipients + 1)) b
      end
  end.

Definition fanout (msg : Message) (gated : bool) (b : Bus) : Bus * Z :=
  let name := Schema_name (Value_schema (payload msg)) in
  let version := Schema_version (Value_schema (payload msg)) in
  fanout_loop (ascending (shards b)) name version msg gated 0 b.

Definition send (target : ShardId) (msg : Message) (b : Bus) : Bus * Ticket :=
  enqueue_directed target msg false b.
Definition publish (msg : Message) (b : Bus) : Bus * Z := fanout msg false b.
Definition send_as (as_sender target : ShardId) (msg : Message) (b : Bus) : Bus * Ticket :=
  enqueue_directed target (set_sender msg as_sender) true b.
Definition publish_as (as_sender : ShardId) (msg : Message) (b : Bus) : Bus * Z :=
  fanout (set_sender msg as_sender) true b.

(** ** Observers and the journal *)

Definition stop (b : Bus) : Bus := set_flags (in_dispatch b) true b.

Definition host_action (b : Bus) (a : HostAction) : Bus :=
  match a with
  | HStop => stop b
  | HSend target msg => (send target msg b).1
  | HPublish msg => (publish msg b).1
  | HSendAs s target msg => (send_as s target msg b).1
  | HPublishAs s msg => (publish_as s msg b).1
  end.

Definition call_observer (i : nat) (event : BusEvent) : M Bus unit := fun b =>
  match observers b !! i with
  | Some (id, Some o) =>
      let '(o, actions, r) := notify o event in
      let b := set_observers (<[i := (id, Some o)]> (observers b)) (next_observer_id b) b in
      (fold_left host_action actions b, r)
  | _ => (b, Ok tt)
  end.

Fixpoint emit_loop (i n : nat) (event : BusEvent) : M Bus unit :=
  match n with
  | O => mret tt
  | S n => _ ← call_observer i event; emit_loop (S i) n event
  end.

Definition emit (event : BusEvent) : M Bus unit := fun b =>
  emit_loop 0 (length (observers b)) event b.

Definition add_observer (obs : option Ob) (b : Bus) : Bus * Z :=
  let id := next_observer_id b in
  (set_observers (observers b ++ [(id, obs)]) (u64 (id + 1)) b, id).

Fixpoint erase_observer (l : list (Z * option Ob)) (id : Z) : list (Z * option Ob) :=
  match l with
  | [] => []
  | (i, o) :: l => if i =? id then l else (i, o) :: erase_observer l id
  end.
Definition remove_observer (id : Z) (b : Bus) : Bus :=
  set_observers (erase_observer (observers b) id) (next_observer_id b) b.

Definition record (seq : Z) (d : Disposition) (r : Refusal) (b : Bus) : Bus :=
  if seq <? zlen (journal b)
  then set_journal (<[Z.to_nat seq := mkOutcome d r]> (journal b)) b else b.

Definition outcome (t : Ticket) (b : Bus) : DeliveryOutcome :=
  if (t =? 0) || (t >=? zlen (journal b)) then DeliveryOutcome_default
  else default DeliveryOutcome_default (journal b !! Z.to_nat t).

(** ** Registration *)

Definition register_schema_at (s : option Schema) : M Bus Registration := fun b =>
  let '(r, res) := register_schema (registry b) s in (set_registry r b, res).

(** A computation of the gate, which counts its runs. *)
Definition gate {A} (f : Z -> Z * result A) : M Bus A := fun b =>
  let '(g, r) := f (gate_calls b) in (set_gate_calls g b, r).

Fixpoint accept_loop (declared : list (option Schema)) (acc : list Schema) : M Bus (list Schema) :=
  match declared with
  | [] => mret acc
  | None :: _ =>
      lift (Throw (invalid_argument "register_shard: a declared accept schema is null"))
  | Some s :: rest =>
      r ← register_schema_at (Some s);
      accept_loop rest (acc ++ [reg_schema r])
  end.

Definition add_record (incoming : Sh) (acc : list Schema) (schema : Schema) (lkg : Value)
    (grant : Grant) : M Bus ShardId := fun b =>
  let id := next_shard_id b in
  let rec := mkRecord id incoming acc schema lkg grant 0 true in
  let b := set_next_shard_id (u64 (id + 1)) b in
  (* emplace keeps an existing entry *)
  (set_shards (match shards b !! id with Some _ => shards b | None => <[id := rec]> (shards b) end) b,
   Ok id).

Definition register_shard (incoming : option Sh) (grant : Grant) : M Bus ShardId :=
  match incoming with
  | None => lift (Throw (invalid_argument "register_shard: shard must be non-null"))
  | Some sh =>
      declared ← lift (accepted_schemas sh);
      acc ← accept_loop declared [];
      snap ← lift (shard_snapshot sh);
      let schema := Value_schema snap in
      _ ← register_schema_at (Some schema);
      seeded ← gate (admit_live snap schema FirstError);
      if negb (adm_ok seeded) then
        e ← lift (first_error seeded);
        lift (Throw (invalid_argument
          (str "register_shard: initial snapshot does not conform to its own schema: " ++
           Error_message e)))
      else
        lkg ← lift (Admission_value seeded);
        add_record sh acc schema lkg grant
  end.

(** The overload with the empty grant. *)
Definition register_shard_default (incoming : option Sh) : M Bus ShardId :=
  register_shard incoming nothing.

Definition unregister_shard (id : ShardId) (b : Bus) : Bus * option Sh :=
  match find id b with
  | None => (b, None)
  | Some rec => (set_shards (delete id (shards b)) b, Some (rec_shard rec))
  end.

(** ** Delivery *)

Definition resolve_schema (name : bytes) (version : Z) (b : Bus) : option Schema :=
  Registry_lookup (registry b) name version.

(** [ShardBus]: the handler's calls, stamped with the handling shard's identity
    and gated. *)
Fixpoint run_handler (self : ShardId) (h : Handler Sh) (b : Bus) : Bus * (Sh * result unit) :=
  match h with
  | Done sh => (b, (sh, Ok tt))
  | Raise sh e => (b, (sh, Throw e))
  | Crash sh => (b, (sh, UB))
  | SendTo _ target msg k => let '(b, t) := send_as self target msg b in run_handler self (k t) b
  | PublishAll _ msg k => let '(b, n) := publish_as self msg b in run_handler self (k n) b
  | Resolve name version k => run_handler self (k (resolve_schema name version b)) b
  | Admit u door k =>
      let '(g, a) := admit_door u door FirstError (gate_calls b) in
      run_handler self (k a) (set_gate_calls g b)
  end.

(** [rec->shard->handle(trusted, shard_bus)]. *)
Definition handle_at (id : ShardId) (trusted : Message) : M Bus unit := fun b =>
  match find id b with
  | None => (b, UB)
  | Some rec =>
      let '(b, (sh, r)) := run_handler id (handle (rec_shard rec) trusted) b in
      (update_shard id (rec_set_shard sh) b, r)
  end.

(** The event [deliver_one] fills in for an envelope. *)
Definition delivery_event (env : Envelope) (kind : EventKind) (r : Refusal) (p : option Value)
  : BusEvent :=
  let s := Value_schema (payload (env_msg env)) in
  mkEvent kind (env_seq env) (env_target env) (sender (env_msg env)) (Schema_name s)
    (Schema_version s) r false p.

(** The code's repeated refusal block: record, then tell the observers. *)
Definition refuse (env : Envelope) (r : Refusal) : M Bus unit :=
  _ ← modify (record (env_seq env) Refused r);
  emit (delivery_event env EvRefused r None).

Definition permitted (env : Envelope) (b : Bus) : bool :=
  let s := Value_schema (payload (env_msg env)) in
  match find (sender (env_msg env)) b with
  | Some rec => permits (rec_grant rec) (Schema_name s) (Schema_version s) (env_target env)
  | None => false
  end.

Definition deliver_one (env : Envelope) : M Bus unit :=
  let msg := env_msg env in
  let s := Value_schema (payload msg) in
  rec ← gets (find (env_target env));
  match rec with
  | None => refuse env (refusal_of NoSuchTarget)
  | Some rec =>
      if negb (rec_alive rec) then refuse env (refusal_of TargetUnavailable) else
      ok ← (if env_gated env then gets (permitted env) else mret true);
      if negb ok then refuse env (refusal_of CapabilityDenied) else
      match accept_match rec (Schema_name s) (Schema_version s) with
      | None => refuse env (refusal_of NotAccepted)
      | Some door =>
          a ← gate (admit_live (payload msg) door FirstError);
          if negb (adm_ok a) then
            e ← lift (first_error a); refuse env (mkRefusal GateRefused e)
          else
            v ← lift (Admission_value a);
            let trusted := mkMessage v (sender msg) (reply_to msg) (correlation msg) in
            _ ← handle_at (env_target env) trusted;
            _ ← modify (record (env_seq env) Delivered Refusal_default);
            emit (delivery_event env EvDelivered Refusal_default (Some v))
      end
  end.

(** ** The dispatch loop

    The loop runs until the queue drains, which the handlers decide: [fuel]
    bounds the deliveries, and [None] means it ran out. *)

Fixpoint drain (fuel : nat) (b : Bus) : option (Bus * result unit) :=
  match queue b with
  | [] => Some (b, Ok tt)
  | env :: rest =>
      if stop_requested b then Some (b, Ok tt) else
      match fuel with
      | O => None
      | S fuel =>
          match deliver_one env (set_queue rest b) with
          | (b, Ok _) => drain fuel b
          | (b, r) => Some (b, r)
          end
      end
  end.

Definition pump (fuel : nat) (b : Bus) : option (Bus * result unit) :=
  if in_dispatch b then Some (b, Ok tt) else
  match drain fuel (set_flags true false b) with
  | Some (b, Ok _) => Some (set_flags false (stop_requested b) b, Ok tt)
  | r => r
  end.

(** ** Lifecycle *)

Definition lifecycle_event (id : ShardId) (schema : Schema) (kind : EventKind) (r : Refusal)
    (from_lkg : bool) : BusEvent :=
  mkEvent kind 0 id 0 (Schema_name schema) (Schema_version schema) r from_lkg None.

Definition snapshot_bytes (id : ShardId) (b : Bus) : result bytes :=
  match find id b with
  | None => Throw (invalid_argument "snapshot_bytes: no such shard")
  | Some rec => v ← shard_snapshot (rec_shard rec); serialize v
  end.

Definition kill (id : ShardId) : M Bus unit :=
  rec ← gets (find id);
  match rec with
  | None => mret tt
  | Some rec =>
      _ ← modify (update_shard id (fun r => rec_set_life (last_known_good r) (reloads_used r) false r));
      emit (lifecycle_event id (state_schema rec) EvDied Refusal_default false)
  end.

(** [rec->shard->revive(state)]. *)
Definition revive_at (id : ShardId) (state : Value) : M Bus unit := fun b =>
  match find id b with
  | None => (b, UB)
  | Some rec =>
      let '(sh, r) := revive (rec_shard rec) state in (update_shard id (rec_set_shard sh) b, r)
  end.

Definition read_policy (v : Value) : result (Z * bool) :=
  c ← deref (Value_get v "max_reloads");
  max_reloads ← as_int c;
  c ← deref (Value_get v "revive_from_last_good");
  fallback ← as_bool c;
  Ok (max_reloads, fallback).

Definition reload (id : ShardId) (candidate_bytes : bytes) : M Bus ReviveOutcome :=
  rec ← gets (find id);
  match rec with
  | None => mret (mkRevive false false false false (refusal_of NoSuchTarget))
  | Some rec =>
      pv ← lift (policy (rec_shard rec));
      door ← lift lifecycle_policy_schema;
      pol ← gate (admit_live pv door FirstError);
      if negb (adm_ok pol) then
        e ← lift (first_error pol);
        mret (mkRevive false false false true (mkRefusal GateRefused e))
      else
      pv ← lift (Admission_value pol);
      p ← lift (read_policy pv);
      let '(max_reloads, revive_from_last_good) := (p : Z * bool) in
      if i64 (reloads_used rec) >=? max_reloads then
        mret (mkRevive false false true false Refusal_default)
      else
      let candidate := parse candidate_bytes in
      admitted ← gate (admit_door candidate (Some (state_schema rec)) FirstError);
      if adm_ok admitted then
        state ← lift (Admission_value admitted);
        _ ← revive_at id state;
        _ ← modify (update_shard id (fun r => rec_set_life state (u64 (reloads_used r + 1)) true r));
        _ ← emit (lifecycle_event id (state_schema rec) EvRevived Refusal_default false);
        mret (mkRevive true false false false Refusal_default)
      else
      e ← lift (first_error admitted);
      let refused := mkRefusal GateRefused e in
      if revive_from_last_good then
        _ ← revive_at id (last_known_good rec);
        _ ← modify (update_shard id
              (fun r => rec_set_life (last_known_good r) (u64 (reloads_used r + 1)) true r));
        _ ← emit (lifecycle_event id (state_schema rec) EvRevived refused true);
        mret (mkRevive true true false false refused)
      else
        _ ← emit (lifecycle_event id (state_schema rec) EvRefused refused false);
        mret (mkRevive false false false false refused)
  end.

Definition swap_state (id : ShardId) (candidate_bytes : bytes) : M Bus ReviveOutcome :=
  rec ← gets (find id);
  match rec with
  | None => mret (mkRevive false false false false (refusal_of NoSuchTarget))
  | Some rec =>
      let candidate := parse candidate_bytes in
      admitted ← gate (admit_door candidate (Some (state_schema rec)) FirstError);
      if negb (adm_ok admitted) then
        e ← lift (first_error admitted);
        let refused := mkRefusal GateRefused e in
        _ ← emit (lifecycle_event id (state_schema rec) EvRefused refused false);
        mret (mkRevive false false false false refused)
      else
        state ← lift (Admission_value admitted);
        _ ← revive_at id state;
        _ ← modify (update_shard id (fun r => rec_set_life state (reloads_used r) true r));
        _ ← emit (lifecycle_event id (state_schema rec) EvRevived Refusal_default false);
        mret (mkRevive true false false false Refusal_default)
  end.

(** ** Queries *)

Definition list_shards (b : Bus) : list ShardId :=
  (fun e => rec_id e.2) <$> ascending (shards b).
Definition accepted_by (id : ShardId) (b : Bus) : list Schema :=
  match find id b with Some rec => accept rec | None => [] end.
Definition shard (id : ShardId) (b : Bus) : option Sh := rec_shard <$> find id b.
Definition alive (id : ShardId) (b : Bus) : bool :=
  match find id b with Some rec => rec_alive rec | None => false end.
Definition pending (b : Bus) : Z := zlen (queue b).

End switchboard.
