(* ===== verification/Enqueue.v ===== *)
(** * Enqueuing

    Everything a handler or an observer can do to the bus is a sequence of
    pushes at the back of the queue.  This file gives that sequence explicitly
    for [send], [publish] and their identity-stamped forms, for a whole handler
    run and for a round of observers: [push_all] for the first three, the
    preorder [grows] for observers, which may also request a stop. *)

From S2P Require Import Prelude Schema Value Registry Gate Serialize Grant Bus Switchboard.

Section enqueue.
Context {Sh Ob : Type} `{ShardOps Sh} `{ObserverOps Ob}.
Abbreviation Bus := (Switchboard Sh Ob).
Abbreviation Rec := (ShardRecord Sh).

(** ** A sequence of pushes *)

(** Where to, what, and whether it is gated. *)
Definition Order : Type := ShardId * Message * bool.

Definition push (b : Bus) (x : Order) : Bus := push_delivery x.1.1 x.1.2 x.2 b.
Definition push_all (l : list Order) (b : Bus) : Bus := fold_left push l b.

Fixpoint number (n : Z) (l : list Order) : list Envelope :=
  match l with
  | [] => []
  | x :: l => mkEnvelope x.1.2 x.1.1 n x.2 :: number (u64 (n + 1)) l
  end.
Fixpoint number_after (n : Z) (l : list Order) : Z :=
  match l with
  | [] => n
  | _ :: l => number_after (u64 (n + 1)) l
  end.

Lemma push_all_eq l b :
  push_all l b = set_deliveries (queue b ++ number (next_seq b) l)
    (journal b ++ replicate (length l) DeliveryOutcome_default) (number_after (next_seq b) l) b.
Proof.
  revert b. induction l as [|x l IH]; intros b; cbn [push_all fold_left number length replicate].
  - rewrite !app_nil_r. by destruct b.
  - change (fold_left push l (push b x)) with (push_all l (push b x)). rewrite IH.
    unfold push, push_delivery. cbn. by rewrite <-!app_assoc.
Qed.

Lemma push_all_app l k b : push_all (l ++ k) b = push_all k (push_all l b).
Proof. apply fold_left_app. Qed.

Lemma length_number n l : length (number n l) = length l.
Proof. revert n. induction l; intros; simpl; auto. Qed.

Lemma number_targets n l : env_target <$> number n l = (fun x : Order => x.1.1) <$> l.
Proof. revert n. induction l; intros; simpl; f_equal; auto. Qed.

Lemma number_Forall (P : Envelope -> Prop) n l :
  Forall (fun x : Order => forall n, P (mkEnvelope x.1.2 x.1.1 n x.2)) l -> Forall P (number n l).
Proof. intros Hl. revert n. induction Hl; intros n; simpl; constructor; auto. Qed.

(** ** Fan-out *)

Definition accepts (rec : Rec) (s : Schema) : bool :=
  match accept_match rec (Schema_name s) (Schema_version s) with Some _ => true | None => false end.

(** The live accepting shards, in ascending id. *)
Definition recipients_of (s : Schema) (entries : list (Z * Rec)) : list ShardId :=
  omap (fun e : Z * Rec => if rec_alive e.2 && accepts e.2 s then Some (rec_id e.2) else None) entries.

Lemma fanout_loop_eq entries s msg gated n b :
  in_u64 n ->
  fanout_loop entries (Schema_name s) (Schema_version s) msg gated n b =
  (push_all ((fun id => (id, msg, gated)) <$> recipients_of s entries) b,
   u64 (n + zlen (recipients_of s entries))).
Proof.
  revert n b. induction entries as [|[k rec] entries IH]; intros n b Hn.
  - simpl. by rewrite Z.add_0_r, u64_small.
  - cbn [fanout_loop recipients_of omap list_omap snd]. unfold accepts.
    destruct (rec_alive rec); cbn [negb andb]; [|by rewrite IH].
    destruct (accept_match _ _ _); [|by rewrite IH].
    rewrite IH by auto with zen. f_equal. rewrite zlen_cons. unfold u64.
    rewrite Zplus_mod_idemp_l. f_equal. unfold recipients_of, accepts, omap. lia.
Qed.

Lemma fanout_eq msg gated b :
  fanout msg gated b =
  let l := recipients_of (Value_schema (payload msg)) (ascending (shards b)) in
  (push_all ((fun id => (id, msg, gated)) <$> l) b, u64 (zlen l)).
Proof. unfold fanout. by rewrite fanout_loop_eq. Qed.

(** ** Handlers *)

(** A handler's orders: gated, and stamped with the handling shard. *)
Definition stamped (self : ShardId) (x : Order) : Prop := x.2 = true /\ sender x.1.2 = self.

(** Pushing reads nothing of the gate's counter. *)
Lemma push_all_gate_calls l g b : push_all l (set_gate_calls g b) = set_gate_calls g (push_all l b).
Proof. by rewrite !push_all_eq. Qed.

Lemma run_handler_eq self h b :
  exists l g, Forall (stamped self) l /\ (run_handler self h b).1 = set_gate_calls g (push_all l b).
Proof.
  revert b. induction h as [sh|sh target msg k IH|sh msg k IH|n v k IH|u door k IH|sh e|sh]; intros b;
    cbn [run_handler].
  - exists [], (gate_calls b). split; [done|]. by destruct b.
  - unfold send_as, enqueue_directed.
    destruct (IH (next_seq b) (push_delivery target (set_sender msg self) true b)) as (l & g & Hl & E).
    exists ((target, set_sender msg self, true) :: l), g. split; [by constructor|]. exact E.
  - unfold publish_as. rewrite fanout_eq. cbv zeta.
    match goal with |- context [push_all ?l0 b] => set (l1 := l0) end.
    destruct (IH (u64 (zlen (recipients_of (Value_schema (payload (set_sender msg self)))
      (ascending (shards b))))) (push_all l1 b)) as (l & g & Hl & E).
    exists (l1 ++ l), g. split.
    + apply Forall_app. split; [|done]. unfold l1. apply Forall_fmap, Forall_true. done.
    + by rewrite E, push_all_app.
  - apply IH.
  - destruct (admit_door u door FirstError (gate_calls b)) as [g a].
    destruct (IH a (set_gate_calls g b)) as (l & g' & Hl & E).
    exists l, g'. split; [done|]. by rewrite E, push_all_gate_calls.
  - exists [], (gate_calls b). split; [done|]. by destruct b.
  - exists [], (gate_calls b). split; [done|]. by destruct b.
Qed.

(** ** Observers *)

(** What a round of observers may do: push, update the observers' states, and
    request a stop. *)
Definition grows (b b' : Bus) : Prop :=
  exists l obs stop, b' = set_observers obs (next_observer_id b)
    (set_flags (in_dispatch b) stop (push_all l b)) /\
    length obs = length (observers b) /\ (stop_requested b = true -> stop = true).

Lemma grows_push_all l b : grows b (push_all l b).
Proof.
  exists l, (observers b), (stop_requested b). split; [|done]. rewrite push_all_eq. by destruct b.
Qed.

#[global] Instance grows_refl : Reflexive grows.
Proof. intros b. exact (grows_push_all [] b). Qed.

#[global] Instance grows_trans : Transitive grows.
Proof.
  intros b ? ? (l1 & obs1 & s1 & -> & Hn1 & Hs1) (l2 & obs2 & s2 & -> & Hn2 & Hs2).
  exists (l1 ++ l2), obs2, s2. rewrite push_all_app, !push_all_eq. cbn in *.
  split; [done|]. split; [by rewrite Hn2|auto].
Qed.

Lemma host_action_grows b a : grows b (host_action b a).
Proof.
  destruct a as [|t m|m|s t m|s m]; cbn [host_action]; unfold publish, publish_as;
    rewrite ?fanout_eq; try apply grows_push_all.
  - exists [], (observers b), true. by destruct b.
  - apply (grows_push_all [(t, m, false)]).
  - apply (grows_push_all [(t, set_sender m s, true)]).
Qed.

Lemma call_observer_grows i ev b : grows b (call_observer i ev b).1.
Proof.
  unfold call_observer. destruct (observers b !! i) as [[id [o|]]|]; try done.
  destruct (notify o ev) as [[o' actions] r]. cbn [fst].
  trans (set_observers (<[i := (id, Some o')]> (observers b)) (next_observer_id b) b).
  - exists [], (<[i := (id, Some o')]> (observers b)), (stop_requested b).
    rewrite length_insert. by destruct b.
  - generalize (set_observers (<[i := (id, Some o')]> (observers b)) (next_observer_id b) b).
    induction actions as [|a actions IH]; intros c; simpl; [done|].
    by etrans; [apply host_action_grows|].
Qed.

Lemma emit_grows ev b : grows b (emit ev b).1.
Proof.
  unfold emit. generalize (length (observers b)) as n, 0%nat as i. intros n. revert b.
  induction n as [|n IH]; intros b i; cbn [emit_loop]; [done|].
  apply (M_bind_inv grows); [apply call_observer_grows|]. intros _ c. apply IH.
Qed.

(** What growing leaves alone. *)
Lemma grows_frame b b' :
  grows b b' ->
  registry b' = registry b /\ shards b' = shards b /\ next_shard_id b' = next_shard_id b /\
  gate_calls b' = gate_calls b /\ in_dispatch b' = in_dispatch b /\
  next_observer_id b' = next_observer_id b /\
  queue b `prefix_of` queue b' /\ journal b `prefix_of` journal b' /\
  (stop_requested b = true -> stop_requested b' = true).
Proof.
  intros (l & obs & s & -> & _ & Hs). rewrite push_all_eq. cbn.
  repeat split; try done; by eexists.
Qed.

End enqueue.
