(* ===== verification/Invariant.v ===== *)
(** * The switchboard's invariant

    The well-formedness of a bus, its preservation by every operation, and the
    finality of recorded outcomes.

    A delivery that has been dequeued and not yet recorded is in flight: the
    invariant carries the list of those, [[]] between operations.  Delivery
    numbers are 64-bit; what depends on their being distinct is stated while the
    journal has at most [2^64] entries. *)

From S2P Require Import Prelude Schema Value Registry Gate Serialize Grant Bus Switchboard Enqueue.

Section invariant.
Context {Sh Ob : Type} `{sh_ops : ShardOps Sh} `{sh_laws : !ShardLaws Sh} `{ob_ops : ObserverOps Ob}.
Abbreviation Bus := (Switchboard Sh Ob).
Abbreviation Rec := (ShardRecord Sh).

(** ** The invariant *)

(** A registered shard: its doors and its state schema are published, and its
    last-known-good state conforms to the latter. *)
Record record_ok (r : Registry) (rec : Rec) : Prop := {
  ok_accept : Forall (fun s => wf_schema s /\ r !! schema_key s = Some s) (accept rec);
  ok_state_wf : wf_schema (state_schema rec);
  ok_state : exists s, r !! schema_key (state_schema rec) = Some s /\
    Schema_content_id s = Schema_content_id (state_schema rec);
  ok_lkg : conforms (last_known_good rec) (state_schema rec)
}.

Record tables_ok (b : Bus) : Prop := {
  ok_registry : registry_ok (registry b);
  ok_schemas : map_Forall (fun _ s => wf_schema s) (registry b);
  ok_records : map_Forall (fun id rec =>
    rec_id rec = id /\ 1 <= id < next_shard_id b /\ record_ok (registry b) rec) (shards b);
  ok_next_id : 1 <= next_shard_id b < 2 ^ 64
}.

Definition awaits (b : Bus) (seq : Z) : Prop :=
  1 <= seq /\ journal b !! Z.to_nat seq = Some DeliveryOutcome_default.

(** The numbers of the deliveries yet to be recorded. *)
Definition unrecorded (flight : list Z) (b : Bus) : list Z := flight ++ (env_seq <$> queue b).

Record deliveries_ok (flight : list Z) (b : Bus) : Prop := {
  ok_next_seq : next_seq b = u64 (zlen (journal b));
  ok_nonempty : 1 <= zlen (journal b);
  ok_awaits : zlen (journal b) <= 2 ^ 64 ->
    StronglySorted Z.lt (unrecorded flight b) /\ Forall (awaits b) (unrecorded flight b)
}.

Definition bus_ok (flight : list Z) (b : Bus) : Prop := tables_ok b /\ deliveries_ok flight b.

(** Recorded outcomes are final. *)
Definition journal_le (j j' : list DeliveryOutcome) : Prop :=
  forall i o, j !! i = Some o ->
    exists o', j' !! i = Some o' /\ (disposition o <> Pending -> o' = o).

#[global] Instance journal_le_refl : Reflexive journal_le.
Proof. intros j i o Hi. eauto. Qed.

#[global] Instance journal_le_trans : Transitive journal_le.
Proof.
  intros j1 j2 j3 H1 H2 i o Hi. destruct (H1 i o Hi) as (o1 & Ho1 & E1).
  destruct (H2 i o1 Ho1) as (o2 & Ho2 & E2). exists o2. split; [done|]. intros Hp.
  specialize (E1 Hp) as ->. auto.
Qed.

Lemma journal_le_app j k : journal_le j (j ++ k).
Proof. intros i o Hi. exists o. split; [by apply lookup_app_l_Some|done]. Qed.

(** From a good bus with [flight] in flight to a good bus with [flight'],
    with the journal only growing. *)
Definition evolves (flight flight' : list Z) (b b' : Bus) : Prop :=
  bus_ok flight b ->
  bus_ok flight' b' /\ zlen (journal b) <= zlen (journal b') /\
  (zlen (journal b') <= 2 ^ 64 -> journal_le (journal b) (journal b')).

#[global] Instance evolves_refl fl : Reflexive (evolves fl fl).
Proof. intros b Hb. done. Qed.

Lemma evolves_trans f1 f2 f3 b1 b2 b3 : evolves f1 f2 b1 b2 -> evolves f2 f3 b2 b3 -> evolves f1 f3 b1 b3.
Proof.
  intros E1 E2 H1. destruct (E1 H1) as (H2 & L1 & J1). destruct (E2 H2) as (H3 & L2 & J2).
  split; [done|]. split; [lia|]. intros Hl. etrans; [apply J1; lia|by apply J2].
Qed.

#[global] Instance evolves_transitive fl : Transitive (evolves fl fl).
Proof. intros b1 b2 b3. apply evolves_trans. Qed.

(** Forgetting a delivery in flight (its handler threw). *)
Lemma bus_ok_drop fl b : bus_ok fl b -> bus_ok [] b.
Proof.
  intros [Ht [H1 H2 H3]]. split; [done|]. split; [done|done|]. intros Hl.
  destruct (H3 Hl) as [Hs Ha]. unfold unrecorded in *. simpl.
  split; [by eapply StronglySorted_app_1_r|]. by apply Forall_app in Ha as [_ Ha].
Qed.

Lemma evolves_drop fl fl' b b' : evolves fl fl' b b' -> evolves fl [] b b'.
Proof. intros E Hb. destruct (E Hb) as (H1 & H2). split; [by eapply bus_ok_drop|done]. Qed.

(** Changes that leave the deliveries alone. *)
Lemma evolves_tables fl b b' :
  queue b' = queue b -> journal b' = journal b -> next_seq b' = next_seq b ->
  (tables_ok b -> tables_ok b') -> evolves fl fl b b'.
Proof.
  intros Eq Ej En Ht [Hb [H1 H2 H3]]. rewrite Ej. split; [|done]. split; [auto|].
  split; rewrite ?En, ?Ej; [done..|]. unfold unrecorded, awaits. by rewrite Eq, Ej.
Qed.

(** ** Enqueuing *)

Lemma push_evolves fl b x : evolves fl fl b (push b x).
Proof.
  intros [[T1 T2 T3 T4] [H1 H2 H3]]. unfold push, push_delivery.
  assert (zlen (journal b ++ [DeliveryOutcome_default]) = zlen (journal b) + 1) as Hl
    by (by rewrite zlen_app).
  split; [split; [by split|]|]; cbn; rewrite ?Hl; [|split; [lia|intros; apply journal_le_app]].
  assert (next_seq b < 2 ^ 64) by (rewrite H1; apply u64_range).
  split; cbn; rewrite ?Hl; [|lia|].
  - rewrite H1. unfold u64. by rewrite Zplus_mod_idemp_l.
  - intros Hs. destruct H3 as [Hso Ha]; [lia|]. rewrite u64_small in H1 by (split; lia).
    unfold unrecorded in *. cbn. rewrite fmap_app, app_assoc. cbn.
    assert (Forall (fun q => q < next_seq b) (fl ++ (env_seq <$> queue b))) as Hlt.
    { eapply Forall_impl; [exact Ha|]. intros q [Hq Hj]. apply lookup_lt_Some in Hj.
      unfold zlen in *. lia. }
    split.
    + apply StronglySorted_app_2; [|done|repeat constructor]. intros q q' Hq Hq'.
      apply list_elem_of_singleton in Hq' as ->. by eapply Forall_forall in Hlt.
    + apply Forall_app. split.
      * eapply Forall_impl; [exact Ha|]. intros q [Hq Hj]. split; [done|]. cbn.
        by apply lookup_app_l_Some.
      * repeat constructor; [lia|]. cbn. rewrite lookup_app_r by (unfold zlen in *; lia).
        by replace (Z.to_nat (next_seq b) - length (journal b))%nat with 0%nat
          by (unfold zlen in *; lia).
Qed.

Lemma push_all_evolves fl l b : evolves fl fl b (push_all l b).
Proof.
  revert b. induction l as [|x l IH]; intros b; [done|].
  change (push_all (x :: l) b) with (push_all l (push b x)). etrans; [apply push_evolves|apply IH].
Qed.

Lemma grows_evolves fl b b' : grows b b' -> evolves fl fl b b'.
Proof.
  intros (l & obs & s & -> & _). etrans; [apply (push_all_evolves fl l)|].
  rewrite push_all_eq. apply evolves_tables; [done..|]. by intros [].
Qed.

Lemma emit_evolves fl ev b : evolves fl fl b (emit ev b).1.
Proof. apply grows_evolves, emit_grows. Qed.

(** ** Recording *)

Lemma StronglySorted_lt_NoDup (l : list Z) : StronglySorted Z.lt l -> NoDup l.
Proof.
  induction 1 as [|x l Hs IH Hx]; constructor; [|done]. intros Hin.
  rewrite Forall_forall in Hx. specialize (Hx x Hin). lia.
Qed.

Lemma record_evolves seq d r b : evolves [seq] [] b (record seq d r b).
Proof.
  intros [[T1 T2 T3 T4] [H1 H2 H3]]. unfold record.
  destruct (Z.ltb_spec seq (zlen (journal b))) as [Hlt|Hge].
  2: { split; [|done]. apply (bus_ok_drop [seq]). by split; split. }
  assert (zlen (<[Z.to_nat seq:=mkOutcome d r]> (journal b)) = zlen (journal b)) as Hl
    by (unfold zlen; by rewrite length_insert).
  split; [split; [by split|]|]; cbn; rewrite ?Hl.
  - split; cbn; rewrite ?Hl; [done..|]. intros Hs. destruct (H3 Hs) as [Hso Ha].
    unfold unrecorded in *. cbn in *. apply StronglySorted_inv in Hso as [Hso Hx].
    apply Forall_cons in Ha as [[Hseq _] Ha]. split; [done|].
    rewrite Forall_forall in *. intros q Hq. destruct (Ha q Hq) as [Hq1 Hj]. split; [done|].
    cbn. specialize (Hx q Hq). by rewrite list_lookup_insert_ne by lia.
  - split; [done|]. intros Hs i o Hi. destruct (H3 Hs) as [_ Ha].
    unfold unrecorded in *. cbn in *. apply Forall_cons in Ha as [[_ Hj] _].
    destruct (decide (i = Z.to_nat seq)) as [->|Hne].
    + rewrite list_lookup_insert_eq by (by eapply lookup_lt_Some).
      eexists. split; [done|]. rewrite Hj in Hi. injection Hi as <-. done.
    + rewrite list_lookup_insert_ne by done. eauto.
Qed.

(** ** The tables *)

Lemma tables_update id f b :
  (forall rec, shards b !! id = Some rec -> record_ok (registry b) rec ->
     rec_id (f rec) = rec_id rec /\ record_ok (registry b) (f rec)) ->
  tables_ok b -> tables_ok (update_shard id f b).
Proof.
  intros Hf [T1 T2 T3 T4]. split; [done..| |done]. cbn. intros i rec Hi.
  destruct (decide (i = id)) as [->|Hne].
  - rewrite lookup_alter_eq in Hi. destruct (shards b !! id) as [rec0|] eqn:E; [|done].
    injection Hi as <-. destruct (T3 id rec0 E) as (Hid & Hr & Hok).
    destruct (Hf rec0 eq_refl Hok) as [-> Hok']. done.
  - rewrite lookup_alter_ne in Hi by done. exact (T3 i rec Hi).
Qed.

Lemma update_evolves fl id f b :
  (forall rec, shards b !! id = Some rec -> record_ok (registry b) rec ->
     rec_id (f rec) = rec_id rec /\ record_ok (registry b) (f rec)) ->
  evolves fl fl b (update_shard id f b).
Proof. intros Hf. apply evolves_tables; [done..|]. by apply tables_update. Qed.

Lemma set_shard_evolves fl id sh b : evolves fl fl b (update_shard id (rec_set_shard sh) b).
Proof. apply update_evolves. intros rec _ []. by split. Qed.

Lemma set_life_evolves fl id (lkg : Rec -> Value) used a b :
  (forall rec, shards b !! id = Some rec -> record_ok (registry b) rec ->
     conforms (lkg rec) (state_schema rec)) ->
  evolves fl fl b (update_shard id (fun r => rec_set_life (lkg r) (used r) a r) b).
Proof.
  intros Hl. apply update_evolves. intros rec Hr Hok. split; [done|].
  specialize (Hl rec Hr Hok). by destruct Hok.
Qed.

Lemma gate_evolves {A} fl (f : Z -> Z * result A) b : evolves fl fl b (gate f b).1.
Proof. unfold gate. destruct (f (gate_calls b)). apply evolves_tables; [done..|]. by intros []. Qed.

Lemma lift_evolves {A} fl (r : result A) b : evolves fl fl b (lift r b).1.
Proof. done. Qed.

Lemma gets_evolves {A} fl (f : Bus -> A) b : evolves fl fl b (gets f b).1.
Proof. done. Qed.

Lemma revive_at_evolves fl id v b : evolves fl fl b (revive_at id v b).1.
Proof.
  unfold revive_at. destruct (find id b); [|done]. destruct (revive _ v). apply set_shard_evolves.
Qed.

Lemma handle_at_evolves fl id m b : evolves fl fl b (handle_at id m b).1.
Proof.
  unfold handle_at. destruct (find id b) as [rec|]; [|done].
  destruct (run_handler_eq id (handle (rec_shard rec) m) b) as (l & g & _ & E).
  destruct (run_handler id _ b) as [b1 [sh r]]. cbn [fst] in *. subst b1.
  etrans; [apply push_all_evolves|]. etrans; [|apply set_shard_evolves].
  apply (gate_evolves fl (fun _ => (g, Ok tt))).
Qed.

#[local] Hint Resolve push_all_evolves emit_evolves gate_evolves lift_evolves gets_evolves
  revive_at_evolves handle_at_evolves set_shard_evolves : zen.

(** Sequencing with a change of what is in flight. *)
Lemma bind_evolves {A B} f1 f2 f3 (m : M Bus A) (k : A -> M Bus B) :
  (forall b, evolves f1 f2 b (m b).1) -> (forall a b, evolves f2 f3 b (k a b).1) ->
  (forall b, bus_ok f2 b -> bus_ok f3 b) -> forall b, evolves f1 f3 b ((m ≫= k) b).1.
Proof.
  intros Hm Hk Hw b. unfold mbind, M_bind. specialize (Hm b).
  destruct (m b) as [b1 [a|e|]]; cbn [fst] in *; [by eapply evolves_trans| |];
    intros Hb; destruct (Hm Hb) as [H1 H2]; auto.
Qed.

Lemma bind_same {A B} fl (m : M Bus A) (k : A -> M Bus B) :
  (forall b, evolves fl fl b (m b).1) -> (forall a b, evolves fl fl b (k a b).1) ->
  forall b, evolves fl fl b ((m ≫= k) b).1.
Proof. intros Hm Hk. apply (bind_evolves fl fl fl); auto. Qed.

(** The same at one state, keeping what the first half returned. *)
Lemma bind_step {A B} fl (m : M Bus A) (k : A -> M Bus B) b :
  (bus_ok fl b -> evolves fl fl b (m b).1) ->
  (forall a b', bus_ok fl b -> m b = (b', Ok a) -> evolves fl fl b' (k a b').1) ->
  evolves fl fl b ((m ≫= k) b).1.
Proof.
  intros Hm Hk Hb. specialize (Hm Hb). unfold mbind, M_bind.
  destruct (m b) as [b1 [a|e|]]; cbn [fst] in *; [|exact (Hm Hb)..].
  exact (evolves_trans _ _ _ _ _ _ Hm (Hk a b1 Hb eq_refl) Hb).
Qed.

(** ** Delivery and dispatch *)

Lemma refuse_evolves env r b : evolves [env_seq env] [] b (refuse env r b).1.
Proof.
  unfold refuse. revert b. apply (bind_evolves [env_seq env] [] []); [|auto with zen|done].
  intros b. apply record_evolves.
Qed.

Lemma deliver_one_evolves env b : evolves [env_seq env] [] b (deliver_one env b).1.
Proof.
  assert (forall b, bus_ok [env_seq env] b -> bus_ok [] b) as Hdrop by (intros c; apply bus_ok_drop).
  unfold deliver_one. cbv zeta. revert b.
  apply (bind_evolves _ [env_seq env]); [auto with zen| |done]. intros [rec|] b; [|apply refuse_evolves].
  destruct (rec_alive rec); cbn [negb]; [|apply refuse_evolves]. revert b.
  apply (bind_evolves _ [env_seq env]); [by destruct (env_gated env)| |done].
  intros [] b; cbn [negb]; [|apply refuse_evolves].
  destruct (accept_match _ _ _) as [door|]; [|apply refuse_evolves]. revert b.
  apply (bind_evolves _ [env_seq env]); [auto with zen| |done]. intros a b.
  destruct (adm_ok a); cbn [negb]; revert b.
  2: { apply (bind_evolves _ [env_seq env]); [auto with zen| |done]. intros e b. apply refuse_evolves. }
  apply (bind_evolves _ [env_seq env]); [auto with zen| |done]. intros v.
  apply (bind_evolves _ [env_seq env]); [auto with zen| |done]. intros _.
  apply (bind_evolves _ []); [intros b; apply record_evolves|auto with zen|done].
Qed.

(** Dequeuing puts the head in flight. *)
Lemma dequeue_evolves env rest b :
  queue b = env :: rest -> evolves [] [env_seq env] b (set_queue rest b).
Proof.
  intros Hq [Ht [H1 H2 H3]]. split; [|done]. split; [by destruct Ht|]. split; [done..|].
  intros Hl. specialize (H3 Hl). unfold unrecorded in *. cbn in *. by rewrite Hq in H3.
Qed.

Lemma flags_evolves fl d s b : evolves fl fl b (set_flags d s b).
Proof. apply evolves_tables; [done..|]. by intros []. Qed.

Lemma drain_evolves fuel b b' r : drain fuel b = Some (b', r) -> evolves [] [] b b'.
Proof.
  revert b. induction fuel as [|fuel IH]; intros b; cbn [drain];
    destruct (queue b) as [|env rest] eqn:Hq; intros E; [by injection E as <- _| |by injection E as <- _|];
    destruct (stop_requested b); try (by injection E as <- _); try done.
  pose proof (deliver_one_evolves env (set_queue rest b)) as Hd.
  destruct (deliver_one env (set_queue rest b)) as [b1 [[]|e|]]; cbn [fst] in Hd.
  - apply IH in E. eapply evolves_trans; [by apply dequeue_evolves|]. by eapply evolves_trans.
  - injection E as <- _. by eapply evolves_trans; [by apply dequeue_evolves|].
  - injection E as <- _. by eapply evolves_trans; [by apply dequeue_evolves|].
Qed.

Lemma pump_evolves fuel b b' r : pump fuel b = Some (b', r) -> evolves [] [] b b'.
Proof.
  unfold pump. destruct (in_dispatch b); [by intros [= <- _]|].
  destruct (drain fuel _) as [[b1 r1]|] eqn:E; [|done]. apply drain_evolves in E.
  intros E'. trans b1; [by etrans; [apply (flags_evolves [] true false)|]|].
  destruct r1; injection E' as <- _; [apply flags_evolves|done..].
Qed.

(** ** Registration *)

Lemma record_ok_grow r r' rec : r ⊆ r' -> record_ok r rec -> record_ok r' rec.
Proof.
  intros Hr [H1 H2 (s & Hs & E) H4]. split; [|done| |done].
  - eapply Forall_impl; [exact H1|]. intros x [Hx Hk]. split; [done|]. by eapply lookup_weaken.
  - exists s. split; [|done]. by eapply lookup_weaken.
Qed.

Lemma register_schema_wf (r : Registry) s :
  wf_schema s -> map_Forall (fun _ s => wf_schema s) r ->
  map_Forall (fun _ s => wf_schema s) (register_schema r (Some s)).1.
Proof.
  intros Hs Hr. simpl. destruct (r !! schema_key s); [by case_match|]. by apply map_Forall_insert_2.
Qed.

Lemma register_schema_at_evolves fl s b :
  wf_schema s -> evolves fl fl b (register_schema_at (Some s) b).1.
Proof.
  intros Hs. unfold register_schema_at.
  pose proof (register_grows (registry b) (Some s)) as Hgrow.
  pose proof (register_ok (registry b) (Some s)) as Hok.
  pose proof (register_schema_wf (registry b) s Hs) as Hwf.
  destruct (register_schema (registry b) (Some s)) as [r res]. cbn [fst] in *.
  apply evolves_tables; [done..|]. intros [T1 T2 T3 T4]. split; cbn; auto.
  intros id rec Hi. destruct (T3 id rec Hi) as (Hid & Hr & Hrec).
  split; [done|]. split; [done|]. by eapply record_ok_grow.
Qed.

(** What a successful registration publishes. *)
Lemma register_schema_at_ok s b b' reg :
  tables_ok b -> wf_schema s -> register_schema_at (Some s) b = (b', Ok reg) ->
  wf_schema (reg_schema reg) /\ schema_key (reg_schema reg) = schema_key s /\
  registry b' !! schema_key s = Some (reg_schema reg) /\
  Schema_content_id (reg_schema reg) = Schema_content_id s /\ registry b ⊆ registry b'.
Proof.
  intros [T1 T2 _ _] Hs E. pose proof (register_grows (registry b) (Some s)) as Hgrow.
  unfold register_schema_at in E. cbn [register_schema] in *.
  destruct (registry b !! schema_key s) as [e|] eqn:Ee.
  - destruct (Z.eqb_spec (Schema_content_id e) (Schema_content_id s)); [|done].
    injection E as <- <-. cbn. split; [by eapply T2|]. split; [by apply T1|done].
  - injection E as <- <-. cbn. split; [done|]. split; [done|].
    split; [apply lookup_insert_eq|]. by split.
Qed.

Definition published (r : Registry) (s : Schema) : Prop := wf_schema s /\ r !! schema_key s = Some s.

Lemma published_grow r r' l : r ⊆ r' -> Forall (published r) l -> Forall (published r') l.
Proof.
  intros Hr Hl. eapply Forall_impl; [exact Hl|]. intros s [Hs Hk].
  split; [done|]. by eapply lookup_weaken.
Qed.

Lemma accept_loop_evolves declared : forall acc b,
  (forall s, Some s ∈ declared -> wf_schema s) ->
  evolves [] [] b (accept_loop declared acc b).1 /\
  forall b' l, accept_loop declared acc b = (b', Ok l) -> bus_ok [] b ->
    Forall (published (registry b)) acc -> Forall (published (registry b')) l.
Proof.
  induction declared as [|[s|] declared IH]; intros acc b Hd; cbn [accept_loop];
    [by split; [|intros b' l [= <- <-]]| |by split].
  assert (wf_schema s) as Hs by (apply Hd; left).
  assert (forall x, Some x ∈ declared -> wf_schema x) as Hd' by (intros x Hx; apply Hd; by right).
  split.
  - apply bind_step; [intros; by apply register_schema_at_evolves|]. intros reg b1 _ _.
    by apply IH.
  - intros b' l E Hb Hacc. unfold mbind, M_bind in E.
    pose proof (register_schema_at_evolves [] s b Hs Hb) as [Hb1 _].
    pose proof (register_schema_at_ok s b) as Hreg.
    destruct (register_schema_at (Some s) b) as [b1 [reg|e|]]; try done. cbn [fst] in *.
    destruct (Hreg b1 reg) as (R1 & R2 & R3 & _ & R5); [apply Hb|done..|].
    apply (proj2 (IH _ b1 Hd') b' l E Hb1). apply Forall_app. split.
    + by eapply published_grow.
    + repeat constructor; [done|]. by rewrite R2.
Qed.

Lemma add_record_evolves sh acc s lkg g b :
  next_shard_id b < 2 ^ 64 - 1 -> Forall (published (registry b)) acc -> wf_schema s ->
  (exists s', registry b !! schema_key s = Some s' /\ Schema_content_id s' = Schema_content_id s) ->
  conforms lkg s -> evolves [] [] b (add_record sh acc s lkg g b).1.
Proof.
  intros Hn Ha Hs Hreg Hl. apply evolves_tables; [done..|]. intros [T1 T2 T3 T4].
  unfold add_record. split; cbn; rewrite ?u64_small by (split; lia); [done..| |lia].
  assert (map_Forall (fun id rec => rec_id rec = id /\ 1 <= id < next_shard_id b + 1 /\
    record_ok (registry b) rec) (shards b)) as T3'.
  { intros id rec Hi. destruct (T3 id rec Hi) as (? & ? & ?). split; [done|]. split; [lia|done]. }
  destruct (shards b !! next_shard_id b); [done|].
  apply map_Forall_insert_2; [|done]. cbn. split; [done|]. split; [lia|]. by split.
Qed.

Lemma register_lawful_evolves incoming g b :
  (forall sh, incoming = Some sh -> lawful sh) ->
  next_shard_id b < 2 ^ 64 - 1 -> evolves [] [] b (register_shard incoming g b).1.
Proof.
  intros Hlaw Hn. destruct incoming as [sh|]; [|done]. destruct (Hlaw sh eq_refl) as [Hacc Hsnap]. clear Hlaw. cbn [register_shard].
  apply bind_step; [done|]. intros declared ? _ [= <- E1].
  assert (forall s, Some s ∈ declared -> wf_schema s) as Hd 
    by (intros s Hs; exact (Hacc declared s E1 Hs)).
  destruct (accept_loop_evolves declared [] b Hd) as [Hae Haok].
  apply bind_step; [done|]. intros acc b1 Hb E2. specialize (Haok b1 acc E2 Hb (Forall_nil_2 _)).
  assert (next_shard_id b1 < 2 ^ 64 - 1) as Hn1.
  { replace (next_shard_id b1) with (next_shard_id b); [done|]. clear -E2. revert E2.
    generalize (@nil Schema) as l. revert b.
    induction declared as [|[s|] declared IH]; intros b l E; cbn [accept_loop] in E; [by injection E as <- _| |done].
    unfold mbind, M_bind, register_schema_at in E. destruct (register_schema _ _) as [r [reg|e|]]; try done.
    by apply IH in E. }
  apply bind_step; [done|]. intros snap ? _ [= <- E3]. apply Hsnap in E3. cbv zeta.
  apply bind_step; [intros; by apply register_schema_at_evolves|]. intros reg b2 Hb1 E4.
  assert (next_shard_id b2 = next_shard_id b1) as Hn2.
  { unfold register_schema_at in E4. destruct (register_schema _ _). by injection E4 as <- _. }
  destruct (register_schema_at_ok _ b1 b2 reg ltac:(apply Hb1) E3 E4) as (_ & _ & Rs & Rc & Rg).
  apply bind_step; [auto with zen|]. intros a b3 _ E5. unfold gate in E5.
  destruct (admit_live_cases snap (Value_schema snap) (gate_calls b2) E3)
    as [[Hc Ea]|(_ & e & _ & Ea)]; rewrite Ea in E5; injection E5 as <- <-; cbn [adm_ok negb]; [|done].
  apply bind_step; [done|]. intros lkg ? _ [= <- <-].
  apply add_record_evolves; cbn; [lia|by eapply published_grow|done|by eauto|done].
Qed.

Lemma register_shard_evolves incoming g b :
  next_shard_id b < 2 ^ 64 - 1 -> evolves [] [] b (register_shard incoming g b).1.
Proof. apply register_lawful_evolves. intros sh _. apply shards_lawful. Qed.

Lemma unregister_evolves id b : evolves [] [] b (unregister_shard id b).1.
Proof.
  unfold unregister_shard. destruct (find id b); [|done]. apply evolves_tables; [done..|].
  intros [T1 T2 T3 T4]. split; cbn; [done..| |done]. by apply map_Forall_delete.
Qed.

(** ** Lifecycle *)

Lemma kill_evolves id b : evolves [] [] b (kill id b).1.
Proof.
  unfold kill. revert b. apply bind_same; [done|]. intros [rec|] b; [|done]. revert b.
  apply bind_same; [|auto with zen]. intros b.
  apply (set_life_evolves [] id (fun r => last_known_good r)). by intros rec' _ [].
Qed.

Lemma revive_at_state id v (b : Bus) rec :
  shards (revive_at id v b).1 !! id = Some rec ->
  exists rec0, shards b !! id = Some rec0 /\ state_schema rec = state_schema rec0 /\
    last_known_good rec = last_known_good rec0.
Proof.
  unfold revive_at, find. destruct (shards b !! id) as [rec0|] eqn:E; cbn.
  - destruct (revive _ v) as [sh r]. cbn. rewrite lookup_alter_eq, E. intros [= <-]. eauto.
  - by rewrite E.
Qed.

(** The common tail of every revival: revive, refresh the record, announce. *)
Lemma resume_evolves {A} id state (lkg : Rec -> Value) used ev (out : A) (b : Bus) :
  (forall rec, shards b !! id = Some rec -> record_ok (registry b) rec ->
     forall rec', last_known_good rec' = last_known_good rec -> conforms (lkg rec') (state_schema rec)) ->
  evolves [] [] b ((_ ← revive_at id state;
    _ ← modify (update_shard id (fun r => rec_set_life (lkg r) (used r) true r));
    _ ← emit ev; (mret out : M Bus A)) b).1.
Proof.
  intros Hl. apply bind_step; [auto with zen|]. intros ? b1 [Hb _] E.
  pose proof (revive_at_state id state b) as Hst. rewrite E in Hst. cbn [fst] in Hst.
  apply bind_step; [intros _|intros ? b2 _ ?; by apply bind_same; auto with zen].
  apply (set_life_evolves [] id lkg). intros rec Hr Hok. destruct (Hst rec Hr) as (rec0 & H0 & -> & Hlkg).
  apply (Hl rec0 H0); [|done]. by apply (ok_records _ Hb id).
Qed.

Lemma reload_evolves id w b : evolves [] [] b (reload id w b).1.
Proof.
  unfold reload. apply bind_step; [done|]. intros [rec|] ? Hb [= <- Hf]; [|done].
  destruct (ok_records _ (proj1 Hb) id rec Hf) as (_ & _ & Hrec).
  apply bind_step; [done|]. intros pv ? _ [= <- _]. apply bind_step; [auto with zen|].
  intros door ? _ [= <- _].
  apply bind_step; [auto with zen|]. intros pol b1 _ E1. destruct (adm_ok pol); cbn [negb]; [|by apply bind_same].
  apply bind_step; [done|]. intros pv' ? _ [= <- _]. apply bind_step; [auto with zen|].
  intros [n fallback] ? _ [= <- _]. destruct (_ >=? _); [done|]. cbv zeta.
  assert (shards b1 = shards b /\ registry b1 = registry b) as [Es Er].
  { unfold gate in E1. destruct (admit_live _ _ _ _). by injection E1 as <- _. }
  apply bind_step; [auto with zen|]. intros a b2 _ E2.
  unfold gate in E2. destruct (admit_door_cases (parse w) (state_schema rec) FirstError (gate_calls b1)
    ltac:(apply Hrec)) as (g' & _ & [(v & Hc & _ & _ & E)|(e & es & E)]); rewrite E in E2;
    injection E2 as <- <-; cbn [adm_ok adm_value].
  - apply bind_step; [done|]. intros ? ? _ [= <- <-].
    apply (resume_evolves _ _ (fun _ => v)). cbn. intros rec0. rewrite Es. unfold find in Hf.
    rewrite Hf. by intros [= <-].
  - apply bind_step; [done|]. intros ? ? _ [= <- <-]. destruct fallback.
    + apply (resume_evolves _ _ (fun r => last_known_good r)). cbn. intros rec0 _ [_ _ _ H0] rec' ->.
      done.
    + by apply bind_same; auto with zen.
Qed.

Lemma swap_state_evolves id w b : evolves [] [] b (swap_state id w b).1.
Proof.
  unfold swap_state. apply bind_step; [done|]. intros [rec|] ? Hb [= <- Hf]; [|done].
  destruct (ok_records _ (proj1 Hb) id rec Hf) as (_ & _ & Hrec). cbv zeta.
  apply bind_step; [auto with zen|]. intros a b2 _ E2.
  unfold gate in E2. destruct (admit_door_cases (parse w) (state_schema rec) FirstError (gate_calls b)
    ltac:(apply Hrec)) as (g' & _ & [(v & Hc & _ & _ & E)|(e & es & E)]); rewrite E in E2;
    injection E2 as <- <-; cbn [adm_ok adm_value negb].
  - apply bind_step; [done|]. intros ? ? _ [= <- <-].
    apply (resume_evolves _ _ (fun _ => v)). cbn. intros rec0. unfold find in Hf.
    rewrite Hf. by intros [= <-].
  - apply bind_step; [done|]. intros ? ? _ [= <- <-]. by apply bind_same; auto with zen.
Qed.

End invariant.
