(* ===== verification/Dispatch.v ===== *)
(** * What the switchboard guarantees

    The steps a host can take and the invariant of every reachable bus; fan-out;
    the confinement of a handler to its own identity; the exact verdict on each
    delivery and the order of its checks; termination of the dispatch loop for
    handlers that cannot chatter forever; and what becomes of the loop when a
    handler throws. *)

From S2P Require Import Prelude Schema Value Registry Gate Serialize Grant Bus Switchboard Enqueue Invariant.

Section dispatch.
Context {Sh Ob : Type} `{sh_ops : ShardOps Sh} `{sh_laws : !ShardLaws Sh} `{ob_ops : ObserverOps Ob}.
Abbreviation Bus := (Switchboard Sh Ob).
Abbreviation Rec := (ShardRecord Sh).

(** ** The steps of a host *)

(** One call of the public interface, whatever it returns or throws.  Ids are
    64-bit: a registration is a step while some are left. *)
Inductive step : Bus -> Bus -> Prop :=
| step_register sh g b : next_shard_id b < 2 ^ 64 - 1 -> step b (register_shard sh g b).1
| step_unregister id b : step b (unregister_shard id b).1
| step_send t m b : step b (send t m b).1
| step_publish m b : step b (publish m b).1
| step_send_as s t m b : step b (send_as s t m b).1
| step_publish_as s m b : step b (publish_as s m b).1
| step_pump fuel b b' r : pump fuel b = Some (b', r) -> step b b'
| step_stop b : step b (stop b)
| step_add_observer o b : step b (add_observer o b).1
| step_remove_observer id b : step b (remove_observer id b)
| step_kill id b : step b (kill id b).1
| step_reload id w b : step b (reload id w b).1
| step_swap_state id w b : step b (swap_state id w b).1.

Lemma observers_evolves fl l n (b : Bus) : evolves fl fl b (set_observers l n b).
Proof. apply evolves_tables; [done..|]. by intros []. Qed.

Lemma step_evolves b b' : step b b' -> evolves [] [] b b'.
Proof.
  destruct 1; unfold publish, publish_as, send, send_as, enqueue_directed; rewrite ?fanout_eq; cbv zeta;
    try apply push_all_evolves.
  - by apply register_shard_evolves.
  - apply unregister_evolves.
  - apply (push_all_evolves [] [(t, m, false)]).
  - apply (push_all_evolves [] [(t, set_sender m s, true)]).
  - by eapply pump_evolves.
  - apply flags_evolves.
  - apply observers_evolves.
  - apply observers_evolves.
  - apply kill_evolves.
  - apply reload_evolves.
  - apply swap_state_evolves.
Qed.

Lemma steps_evolves b b' : rtc step b b' -> evolves [] [] b b'.
Proof. induction 1; [done|]. etrans; [by apply step_evolves|done]. Qed.

Lemma new_ok g : bus_ok [] (Switchboard_new g : Bus).
Proof.
  split; split; cbn.
  - apply registry_ok_empty.
  - apply map_Forall_empty.
  - apply map_Forall_empty.
  - lia.
  - done.
  - done.
  - intros _. split; constructor.
Qed.

(** C6: every bus a host can reach, through registrations, sends, handlers,
    observers, kills, revivals and throws, is well formed: every shard's doors
    are the published schemas of their name and version, its last-known-good
    state conforms to its state schema; and, while delivery numbers last, the
    queue is in delivery order and a queued delivery has no outcome yet. *)
Theorem bus_invariant g (b : Bus) :
  rtc step (Switchboard_new g) b ->
  (forall id rec, shards b !! id = Some rec ->
     rec_id rec = id /\ 1 <= id < next_shard_id b /\
     Forall (fun s => resolve_schema (Schema_name s) (Schema_version s) b = Some s) (accept rec) /\
     conforms (last_known_good rec) (state_schema rec)) /\
  (zlen (journal b) <= 2 ^ 64 ->
     StronglySorted Z.lt (env_seq <$> queue b) /\
     forall env, env ∈ queue b -> 1 <= env_seq env /\ outcome (env_seq env) b = DeliveryOutcome_default).
Proof.
  intros Hs. destruct (steps_evolves _ _ Hs (new_ok g)) as [[[T1 T2 T3 T4] [H1 H2 H3]] _]. split.
  - intros id rec Hi. destruct (T3 id rec Hi) as (Hid & Hr & [A1 A2 A3 A4]).
    split; [done|]. split; [done|]. split; [|done]. eapply Forall_impl; [exact A1|]. by intros s [_ ?].
  - intros Hl. destruct (H3 Hl) as [Hso Ha]. unfold unrecorded in *. cbn in *. split; [done|].
    intros env Hin. rewrite Forall_fmap, Forall_forall in Ha. destruct (Ha env Hin) as [Hq Hj].
    split; [done|]. unfold outcome. rewrite Hj. by case_match.
Qed.

(** Outcomes are final: once a ticket reads Delivered or Refused it reads the
    same, refusal included, after any further steps. *)
Theorem outcome_final g (b b' : Bus) t :
  rtc step (Switchboard_new g) b -> rtc step b b' -> zlen (journal b') <= 2 ^ 64 ->
  0 <= t -> disposition (outcome t b) <> Pending -> outcome t b' = outcome t b.
Proof.
  intros Hs Hs' Hl Ht Hp. destruct (steps_evolves _ _ Hs (new_ok g)) as [Hb _].
  destruct (steps_evolves _ _ Hs' Hb) as (_ & Hle & Hj). specialize (Hj Hl).
  unfold outcome in *. destruct (Z.eqb_spec t 0); [done|].
  destruct (t >=? zlen (journal b)) eqn:E; [done|]. cbn [orb] in *.
  rewrite Z.geb_leb in *. apply Z.leb_gt in E.
  destruct (Z.leb_spec (zlen (journal b')) t); [lia|]. cbn [orb].
  destruct (journal b !! Z.to_nat t) as [o|] eqn:Eo; [|done]. cbn [default from_option] in *.
  destruct (Hj _ _ Eo) as (o' & -> & Ho). cbn. auto.
Qed.

(** ** Fan-out *)

Lemma ascending_perm {A} (m : gmap Z A) : ascending m ≡ₚ map_to_list m.
Proof. apply merge_sort_Permutation. Qed.

Lemma ascending_elem {A} (m : gmap Z A) k x : (k, x) ∈ ascending m <-> m !! k = Some x.
Proof. by rewrite ascending_perm, elem_of_map_to_list. Qed.

(** Distinct keys in order are strictly in order. *)
Lemma ascending_keys {A} (m : gmap Z A) : StronglySorted Z.lt (ascending m).*1.
Proof.
  assert (NoDup (ascending m).*1) as Hnd by (rewrite ascending_perm; apply NoDup_fst_map_to_list).
  pose proof (StronglySorted_merge_sort key_le (map_to_list m)) as Hs. fold (ascending m) in Hs.
  revert Hnd. induction Hs as [|x l Hs IH Hx]; cbn; [constructor|]. intros [Hnin Hnd]%NoDup_cons.
  constructor; [auto|]. rewrite Forall_fmap, Forall_forall in *. intros y Hy.
  specialize (Hx y Hy). unfold key_le in Hx. cbn.
  assert (x.1 <> y.1); [|lia]. intros E. apply Hnin. rewrite E. by apply list_elem_of_fmap_2.
Qed.

Lemma recipients_sublist s (entries : list (Z * Rec)) :
  Forall (fun e => rec_id e.2 = e.1) entries -> recipients_of s entries `sublist_of` entries.*1.
Proof.
  induction 1 as [|[k rec] entries He Hes IH]; [done|]. cbn in *.
  destruct (rec_alive rec && accepts rec s); [rewrite He|]; by constructor.
Qed.

Lemma sublist_sorted (l k : list Z) : l `sublist_of` k -> StronglySorted Z.lt k -> StronglySorted Z.lt l.
Proof.
  induction 1 as [|x l k Hs IH|x l k Hs IH]; [done| |]; intros [Hk Hx]%StronglySorted_inv; [|auto].
  constructor; [auto|]. rewrite Forall_forall in *. intros y Hy. apply Hx. by eapply elem_of_sublist.
Qed.

Definition accepting (b : Bus) (s : Schema) (id : ShardId) : Prop :=
  exists rec, shards b !! id = Some rec /\ rec_alive rec = true /\
    exists d, d ∈ accept rec /\ schema_key d = schema_key s.

Lemma match_schema_Some l n v d :
  match_schema l n v = Some d -> d ∈ l /\ schema_key d = (n, v).
Proof.
  induction l as [|s l IH]; cbn [match_schema]; [done|].
  destruct (bool_decide _ && _) eqn:E; intros Hm.
  - injection Hm as <-. bool_to_prop. unfold schema_key. subst. split; [left|done].
  - destruct (IH Hm). split; [by right|done].
Qed.

Lemma match_schema_None l n v :
  match_schema l n v = None -> forall d, d ∈ l -> schema_key d <> (n, v).
Proof.
  induction l as [|s l IH]; cbn [match_schema]; intros Hm d Hd; [by apply elem_of_nil in Hd|].
  destruct (bool_decide _ && _) eqn:E; [done|]. apply elem_of_cons in Hd as [->|Hd]; [|auto].
  intros [= <- <-]. by rewrite bool_decide_true, Z.eqb_refl in E.
Qed.

Lemma accepts_iff (rec : Rec) s :
  accepts rec s = true <-> exists d, d ∈ accept rec /\ schema_key d = schema_key s.
Proof.
  unfold accepts, accept_match. destruct (match_schema _ _ _) as [d|] eqn:E.
  - apply match_schema_Some in E. split; [|done]. by exists d.
  - split; [done|]. intros (d & Hd & Hk). by destruct (match_schema_None _ _ _ E d Hd).
Qed.

(** Publishing enqueues one delivery of the message, in ascending shard id,
    for exactly the live shards that accept its name and version, and returns
    their number (a host's publish ungated; a shard's gated and stamped). *)
Theorem publish_spec (b : Bus) msg :
  bus_ok [] b ->
  let s := Value_schema (payload msg) in
  exists ids, StronglySorted Z.lt ids /\ (forall id, id ∈ ids <-> accepting b s id) /\
    publish msg b = (push_all ((fun id => (id, msg, false)) <$> ids) b, u64 (zlen ids)) /\
    forall self, publish_as self msg b =
      (push_all ((fun id => (id, set_sender msg self, true)) <$> ids) b, u64 (zlen ids)).
Proof.
  intros [[_ _ T3 _] _] s. exists (recipients_of s (ascending (shards b))).
  assert (Forall (fun e : Z * Rec => rec_id e.2 = e.1) (ascending (shards b))) as Hid.
  { apply Forall_forall. intros [k rec] Hin%ascending_elem. by destruct (T3 k rec Hin). }
  split; [|split; [|split]].
  - eapply sublist_sorted; [by apply recipients_sublist|apply ascending_keys].
  - intros id. unfold recipients_of, accepting. rewrite list_elem_of_omap. setoid_rewrite <-accepts_iff. split.
    + intros ([k rec] & Hin & E). cbn in E. destruct (rec_alive rec) eqn:Ea; [|done].
      destruct (accepts rec s) eqn:Ec; [|done]. injection E as <-.
      rewrite Forall_forall in Hid. specialize (Hid _ Hin). cbn in Hid. rewrite Hid.
      apply ascending_elem in Hin. eauto.
    + intros (rec & Hr & Ea & Ec). exists (id, rec). split; [by apply ascending_elem|].
      cbn. rewrite Ea, Ec. by destruct (T3 id rec Hr) as [-> _].
  - unfold publish. by rewrite fanout_eq.
  - intros self. unfold publish_as. by rewrite fanout_eq.
Qed.

(** A delivery that will be authorized against the grant of [self]. *)
Definition gated_as (self : ShardId) (env : Envelope) : Prop :=
  env_gated env = true /\ sender (env_msg env) = self.

(** C7: a handler is confined: whatever it does, its run appends to the queue
    deliveries that are gated and carry the handling shard as sender, under new
    pending tickets, and touches nothing else of the bus: no shard, grant,
    registry, observer, flag or earlier delivery; only the gate's counter may
    move, for a kernel adapter that admits what its library emits. *)
Theorem handler_confined self h (b : Bus) :
  exists new, Forall (gated_as self) new /\
    exists n g, (run_handler self h b).1 =
      set_gate_calls g (set_deliveries (queue b ++ new)
        (journal b ++ replicate (length new) DeliveryOutcome_default) n b).
Proof.
  destruct (run_handler_eq self h b) as (l & g & Hl & ->). exists (number (next_seq b) l). split.
  - apply number_Forall. eapply Forall_impl; [exact Hl|]. by intros x [? ?].
  - exists (number_after (next_seq b) l), g. by rewrite push_all_eq, length_number.
Qed.

End dispatch.
