(* ===== verification/Delivery.v ===== *)
(** * Delivery and the dispatch loop

    The specification of a delivery is the relation [verdict]: the first
    obstacle an envelope meets, in the code's order (routing, liveness,
    capability, acceptance, gate), or none.  [deliver_one] implements it.  The
    loop's theorems follow: it terminates for handlers whose messages lose
    weight, and a throwing handler leaves it disabled. *)

From S2P Require Import Prelude Schema Value Registry Gate Serialize Grant Bus Switchboard Enqueue Invariant Dispatch.

Section delivery.
Context {Sh Ob : Type} `{sh_ops : ShardOps Sh} `{sh_laws : !ShardLaws Sh} `{ob_ops : ObserverOps Ob}.
Abbreviation Bus := (Switchboard Sh Ob).
Abbreviation Rec := (ShardRecord Sh).

(** ** The verdict on an envelope *)

Definition authorized (b : Bus) (env : Envelope) : Prop :=
  env_gated env = true ->
  exists rec, shards b !! sender (env_msg env) = Some rec /\
    authority (rec_grant rec) (Schema_name (Value_schema (payload (env_msg env))))
      (Schema_version (Value_schema (payload (env_msg env)))) (env_target env).

Inductive verdict (b : Bus) (env : Envelope) : option Refusal -> Prop :=
| v_missing :
    shards b !! env_target env = None -> verdict b env (Some (refusal_of NoSuchTarget))
| v_dead rec :
    shards b !! env_target env = Some rec -> rec_alive rec = false ->
    verdict b env (Some (refusal_of TargetUnavailable))
| v_denied rec :
    shards b !! env_target env = Some rec -> rec_alive rec = true -> ~ authorized b env ->
    verdict b env (Some (refusal_of CapabilityDenied))
| v_unaccepted rec :
    shards b !! env_target env = Some rec -> rec_alive rec = true -> authorized b env ->
    (forall d, d ∈ accept rec -> schema_key d <> schema_key (Value_schema (payload (env_msg env)))) ->
    verdict b env (Some (refusal_of NotAccepted))
| v_refused rec door e :
    shards b !! env_target env = Some rec -> rec_alive rec = true -> authorized b env ->
    door ∈ accept rec -> schema_key door = schema_key (Value_schema (payload (env_msg env))) ->
    ~ conforms (payload (env_msg env)) door -> head (offences (payload (env_msg env)) door) = Some e ->
    verdict b env (Some (mkRefusal GateRefused e))
| v_deliver rec door :
    shards b !! env_target env = Some rec -> rec_alive rec = true -> authorized b env ->
    door ∈ accept rec -> schema_key door = schema_key (Value_schema (payload (env_msg env))) ->
    conforms (payload (env_msg env)) door ->
    verdict b env None.

(** On a good bus a shard has at most one door of a name and version. *)
Lemma door_unique (b : Bus) id rec d d' :
  tables_ok b -> shards b !! id = Some rec -> d ∈ accept rec -> d' ∈ accept rec ->
  schema_key d = schema_key d' -> d = d'.
Proof.
  intros Ht Hr Hd Hd' Hk. destruct (ok_records _ Ht id rec Hr) as (_ & _ & [Ha _ _ _]).
  rewrite Forall_forall in Ha. destruct (Ha d Hd) as [_ E], (Ha d' Hd') as [_ E'].
  rewrite Hk, E' in E. congruence.
Qed.

Lemma verdict_unique b env v v' :
  tables_ok b -> verdict b env v -> verdict b env v' -> v = v'.
Proof.
  intros Ht H1 H2. destruct H1, H2; simplify_map_eq; try done; try congruence;
    match goal with
    | Hn : forall d, d ∈ accept ?rec -> _, Hd : ?d ∈ accept ?rec |- _ =>
        destruct (Hn d Hd); unfold schema_key; congruence
    | Hr : shards _ !! _ = Some ?rec, D1 : ?d ∈ accept ?rec, D2 : ?d' ∈ accept ?rec |- _ =>
        assert (d = d') by (eapply door_unique;
          [exact Ht|exact Hr|done..|unfold schema_key; congruence]); congruence
    end.
Qed.

Lemma authorized_iff b env :
  (env_gated env = true -> permitted env b = true) <-> authorized b env.
Proof.
  unfold authorized, permitted, find. split; intros Hp Hg; specialize (Hp Hg).
  - destruct (shards b !! _) as [rec|]; [|done]. apply permits_iff in Hp. eauto.
  - destruct Hp as (rec & -> & Ha). by apply permits_iff.
Qed.

(** ** Recording *)

Definition recorded (b b' : Bus) (seq : Z) (o : DeliveryOutcome) : Prop :=
  1 <= seq -> seq < zlen (journal b) -> outcome seq b' = o.

Lemma outcome_lookup (b : Bus) seq o :
  1 <= seq -> journal b !! Z.to_nat seq = Some o -> outcome seq b = o.
Proof.
  intros Hs Hj. pose proof (lookup_lt_Some _ _ _ Hj). unfold outcome.
  rewrite Hj. unfold zlen. destruct (Z.eqb_spec seq 0); [lia|].
  destruct (_ >=? _) eqn:E; [|done]. rewrite Z.geb_leb in E. apply Z.leb_le in E. lia.
Qed.

(** The effect of recording an outcome and announcing it. *)
Lemma record_emit_spec seq d r ev (b : Bus) :
  let b' := ((_ ← modify (record seq d r); emit ev) b).1 in
  shards b' = shards b /\ gate_calls b' = gate_calls b /\ in_dispatch b' = in_dispatch b /\
  (1 <= seq -> seq < zlen (journal b) -> outcome seq b' = mkOutcome d r).
Proof.
  cbv zeta. unfold mbind, M_bind, modify.
  assert (shards (record seq d r b) = shards b /\ gate_calls (record seq d r b) = gate_calls b /\
    in_dispatch (record seq d r b) = in_dispatch b) as (E1 & E2 & E3) by (unfold record; by case_match).
  destruct (grows_frame _ _ (emit_grows ev (record seq d r b)))
    as (_ & F2 & _ & F4 & F5 & _ & _ & [k F8] & _).
  split; [congruence|]. split; [congruence|]. split; [congruence|]. intros Hs Hl.
  apply outcome_lookup; [done|]. rewrite F8. apply lookup_app_l_Some. unfold record.
  destruct (Z.ltb_spec seq (zlen (journal b))); [|lia]. cbn.
  apply list_lookup_insert_eq. unfold zlen in *. lia.
Qed.

(** ** One delivery *)

(** What [deliver_one] does on each verdict. *)
Definition delivered_as (b : Bus) (env : Envelope) (v : option Refusal) (b' : Bus) (res : result unit)
  : Prop :=
  match v with
  | Some r =>
      shards b' = shards b /\ outcome (env_seq env) b' = mkOutcome Refused r /\
      gate_calls b' =
        (if bool_decide (reason r = GateRefused) then u64 (gate_calls b + 1) else gate_calls b)
  | None =>
      exists rec b2 sh hr, shards b !! env_target env = Some rec /\
        run_handler (env_target env) (handle (rec_shard rec) (env_msg env))
          (set_gate_calls (u64 (gate_calls b + 1)) b) = (b2, (sh, hr)) /\
        shards b' = <[env_target env := rec_set_shard sh rec]> (shards b) /\
        gate_calls b' = gate_calls b2 /\
        match hr with
        | Ok _ => outcome (env_seq env) b' = mkOutcome Delivered Refusal_default
        | Throw e => res = Throw e /\ outcome (env_seq env) b' = DeliveryOutcome_default
        | UB => res = UB /\ outcome (env_seq env) b' = DeliveryOutcome_default
        end
  end.

Lemma alter_insert_lookup {A} (f : A -> A) (m : gmap Z A) i x :
  m !! i = Some x -> alter f i m = <[i := f x]> m.
Proof.
  intros Hx. apply map_eq. intros j. destruct (decide (i = j)) as [->|Hne].
  - by rewrite lookup_alter_eq, lookup_insert_eq, Hx.
  - by rewrite lookup_alter_ne, lookup_insert_ne.
Qed.

(** The gate calls a verdict leaves. *)
Definition calls_after (b : Bus) (r : Refusal) : Z :=
  if bool_decide (reason r = GateRefused) then u64 (gate_calls b + 1) else gate_calls b.

Lemma set_gate_calls_same (b : Bus) : set_gate_calls (gate_calls b) b = b.
Proof. by destruct b. Qed.

(** Everything before the target's handler: a refusal, or the trusted payload. *)
Definition challenge (env : Envelope) : M Bus (Refusal + Value) :=
  let msg := env_msg env in
  let s := Value_schema (payload msg) in
  rec ← gets (find (env_target env));
  match rec with
  | None => mret (inl (refusal_of NoSuchTarget))
  | Some rec =>
      if negb (rec_alive rec) then mret (inl (refusal_of TargetUnavailable)) else
      ok ← (if env_gated env then gets (permitted env) else mret true);
      if negb ok then mret (inl (refusal_of CapabilityDenied)) else
      match accept_match rec (Schema_name s) (Schema_version s) with
      | None => mret (inl (refusal_of NotAccepted))
      | Some door =>
          a ← gate (admit_live (payload msg) door FirstError);
          if negb (adm_ok a) then
            e ← lift (first_error a); mret (inl (mkRefusal GateRefused e))
          else
            v ← lift (Admission_value a); mret (inr v)
      end
  end.

Lemma deliver_one_challenge env (b : Bus) :
  deliver_one env b =
  (c ← challenge env;
   match c with
   | inl r => refuse env r
   | inr v =>
       _ ← handle_at (env_target env)
             (mkMessage v (sender (env_msg env)) (reply_to (env_msg env)) (correlation (env_msg env)));
       _ ← modify (record (env_seq env) Delivered Refusal_default);
       emit (delivery_event env EvDelivered Refusal_default (Some v))
   end) b.
Proof.
  unfold deliver_one, challenge, gets, mbind, M_bind, mret, M_ret, lift. cbv zeta beta iota.
  destruct (find (env_target env) b) as [rec|]; [|done]. destruct (rec_alive rec); cbn [negb]; [|done].
  destruct (env_gated env); [destruct (permitted env b); cbn [negb]; [|done]|cbn [negb]];
    (destruct (accept_match _ _ _) as [door|]; [|done]); (destruct (gate _ b) as [b1 [a|e|]]; [|done..]);
    destruct (adm_ok a); cbn [negb]; first [by destruct (Admission_value a)|by destruct (first_error a)].
Qed.

Lemma challenge_run env (b : Bus) :
  tables_ok b ->
  (exists r, verdict b env (Some r) /\
     challenge env b = (set_gate_calls (calls_after b r) b, Ok (inl r))) \/
  (exists rec, verdict b env None /\ shards b !! env_target env = Some rec /\
     challenge env b = (set_gate_calls (u64 (gate_calls b + 1)) b, Ok (inr (payload (env_msg env))))).
Proof.
  intros Ht. unfold challenge. cbv zeta. rewrite (M_bind_ok (gets _) _ b b _ eq_refl).
  assert (forall r, reason r <> GateRefused ->
    (mret (inl r) : M Bus (Refusal + Value)) b = (set_gate_calls (calls_after b r) b, Ok (inl r))) as Hr.
  { intros r Hr. unfold calls_after. by rewrite bool_decide_false, set_gate_calls_same. }
  unfold find. destruct (shards b !! env_target env) as [rec|] eqn:Er.
  2: { left. eexists. split; [by apply v_missing|by apply Hr]. }
  destruct (rec_alive rec) eqn:Eal; cbn [negb].
  2: { left. eexists. split; [by eapply v_dead|by apply Hr]. }
  assert ((if env_gated env then gets (permitted env) else mret true) b =
    (b, Ok (if env_gated env then permitted env b else true))) as Eok by (by destruct (env_gated env)).
  rewrite (M_bind_ok _ _ _ _ _ Eok). clear Eok.
  destruct (if env_gated env then permitted env b else true) eqn:Eok; cbn [negb].
  2: { left. eexists. split; [eapply v_denied; [done|done|]|by apply Hr].
       rewrite <-authorized_iff. destruct (env_gated env); [|done]. rewrite Eok. naive_solver. }
  assert (authorized b env) as Hau
    by (apply authorized_iff; destruct (env_gated env); [by intros _|done]).
  destruct (accept_match rec _ _) as [door|] eqn:Ed.
  2: { left. eexists. split; [eapply v_unaccepted; [done..|]|by apply Hr].
       exact (match_schema_None _ _ _ Ed). }
  apply match_schema_Some in Ed as [Hin Hk].
  assert (wf_schema door) as Hd.
  { destruct (ok_records _ Ht _ rec Er) as (_ & _ & [Hacc _ _ _]). rewrite Forall_forall in Hacc.
    by destruct (Hacc door Hin). }
  destruct (admit_live_cases (payload (env_msg env)) door (gate_calls b) Hd)
    as [[Hc Ea]|(Hc & e & He & Ea)];
    (eassert (gate (admit_live (payload (env_msg env)) door FirstError) b =
       (set_gate_calls (u64 (gate_calls b + 1)) b, Ok _)) as Eg by (unfold gate; by rewrite Ea));
    rewrite (M_bind_ok _ _ _ _ _ Eg);
    cbn [adm_ok adm_value adm_errors negb Admission_accept Admission_value Admission_reject_one first_error];
    rewrite (M_bind_ok (lift _) _ _ _ _ eq_refl).
  - right. exists rec. split; [by eapply v_deliver|done].
  - left. exists (mkRefusal GateRefused e). split; [by eapply v_refused|].
    unfold calls_after. by rewrite bool_decide_true.
Qed.

(** [deliver_one], one verdict at a time. *)
Lemma deliver_one_run env (b : Bus) :
  tables_ok b ->
  (exists r, verdict b env (Some r) /\
     deliver_one env b = refuse env r (set_gate_calls (calls_after b r) b)) \/
  (exists rec b2 sh hr, verdict b env None /\ shards b !! env_target env = Some rec /\
     run_handler (env_target env) (handle (rec_shard rec) (env_msg env))
       (set_gate_calls (u64 (gate_calls b + 1)) b) = (b2, (sh, hr)) /\
     deliver_one env b =
       (_ ← (fun _ => (update_shard (env_target env) (rec_set_shard sh) b2, hr));
        _ ← modify (record (env_seq env) Delivered Refusal_default);
        emit (delivery_event env EvDelivered Refusal_default (Some (payload (env_msg env))))) b).
Proof.
  intros Ht. rewrite deliver_one_challenge.
  destruct (challenge_run env b Ht) as [(r & Hv & E)|(rec & Hv & Er & E)]; rewrite (M_bind_ok _ _ _ _ _ E).
  { left. by exists r. }
  right. destruct (run_handler (env_target env) (handle (rec_shard rec) (env_msg env))
    (set_gate_calls (u64 (gate_calls b + 1)) b)) as [b2 [sh hr]] eqn:Erun.
  exists rec, b2, sh, hr. split; [done|]. split; [done|]. split; [done|].
  assert (handle_at (env_target env) (mkMessage (payload (env_msg env)) (sender (env_msg env))
    (reply_to (env_msg env)) (correlation (env_msg env))) (set_gate_calls (u64 (gate_calls b + 1)) b) =
    (update_shard (env_target env) (rec_set_shard sh) b2, hr)) as Eh.
  { unfold handle_at, find. change (shards (set_gate_calls (u64 (gate_calls b + 1)) b)) with (shards b).
    rewrite Er. replace (mkMessage _ _ _ _) with (env_msg env) by (by destruct (env_msg env)).
    by rewrite Erun. }
  unfold mbind at 1 3, M_bind. by rewrite Eh.
Qed.

Lemma deliver_one_verdict env (b : Bus) :
  tables_ok b -> awaits b (env_seq env) ->
  exists v, verdict b env v /\ delivered_as b env v (deliver_one env b).1 (deliver_one env b).2.
Proof.
  intros Ht [Hs Hj]. pose proof (lookup_lt_Some _ _ _ Hj) as Hlt.
  destruct (deliver_one_run env b Ht) as [(r & Hv & E)|(rec & b2 & sh & hr & Hv & Er & Erun & E)];
    rewrite E; eexists; (split; [exact Hv|]).
  - destruct (record_emit_spec (env_seq env) Refused r (delivery_event env EvRefused r None)
      (set_gate_calls (calls_after b r) b)) as (E1 & E2 & _ & E4).
    split; [done|]. split; [|done]. apply E4; [done|]. unfold zlen. cbn. lia.
  - destruct (run_handler_eq (env_target env) (handle (rec_shard rec) (env_msg env))
      (set_gate_calls (u64 (gate_calls b + 1)) b)) as (l & g & _ & El).
    exists rec, b2, sh, hr. split; [done|]. split; [by rewrite Erun|].
    rewrite push_all_eq, Erun in *. cbn [fst snd] in *. clear E Erun.
    assert (shards (update_shard (env_target env) (rec_set_shard sh) b2) =
      <[env_target env := rec_set_shard sh rec]> (shards b)) as Esh.
    { subst b2. cbn. by apply alter_insert_lookup. }
    assert (journal (update_shard (env_target env) (rec_set_shard sh) b2) !! Z.to_nat (env_seq env) =
      Some DeliveryOutcome_default) as Hj2 by (subst b2; cbn; by apply lookup_app_l_Some).
    assert (gate_calls (update_shard (env_target env) (rec_set_shard sh) b2) = gate_calls b2)
      as Egc by done.
    revert Esh Hj2 Egc. generalize (update_shard (env_target env) (rec_set_shard sh) b2) as b3.
    intros b3 Esh Hj2 Egc. destruct hr as [[]|e|].
    + rewrite (M_bind_ok _ _ b b3 tt eq_refl).
      destruct (record_emit_spec (env_seq env) Delivered Refusal_default (delivery_event env EvDelivered
        Refusal_default (Some (payload (env_msg env)))) b3) as (E1 & E2 & _ & E4).
      split; [congruence|]. split; [congruence|]. apply E4; [done|].
      apply lookup_lt_Some in Hj2. unfold zlen. lia.
    + rewrite (M_bind_throw _ _ b b3 e eq_refl).
      split; [done|]. split; [done|]. split; [done|]. by apply outcome_lookup.
    + rewrite (M_bind_UB _ _ b b3 eq_refl).
      split; [done|]. split; [done|]. split; [done|]. by apply outcome_lookup.
Qed.

(** C5: one delivery, exactly.  On a good bus each envelope has one verdict, and
    [deliver_one] carries it out: a refusal changes no shard, is recorded under
    the ticket with that reason (for the gate, the first offence), and runs the
    gate only if routing, liveness, capability and acceptance all passed; else
    the handler of the target, and no other shard, runs on the very message,
    which conforms to its door, and the ticket reads Delivered unless the
    handler did not return. *)
Theorem deliver_one_spec env (b : Bus) :
  bus_ok [env_seq env] b -> zlen (journal b) <= 2 ^ 64 ->
  exists v, verdict b env v /\ (forall v', verdict b env v' -> v' = v) /\
    delivered_as b env v (deliver_one env b).1 (deliver_one env b).2.
Proof.
  intros [Ht [_ _ Ha]] Hl. destruct (Ha Hl) as [_ Haw]. unfold unrecorded in Haw.
  apply Forall_cons in Haw as [Haw _]. destruct (deliver_one_verdict env b Ht Haw) as (v & Hv & Hd).
  exists v. split; [done|]. split; [|done]. intros v' Hv'. by eapply verdict_unique.
Qed.

End delivery.
