(* ===== verification/Loop.v ===== *)
(** * The dispatch loop

    When [pump] returns, and what a throwing handler does to it.

    Termination is not automatic: two shards answering each other keep the loop
    busy for ever.  It is proved for handlers whose messages lose weight: every
    message a handler emits weighs less than the one it handles (a hop count, a
    decreasing counter), and one run emits at most [K] of them. *)

From S2P Require Import Prelude Schema Value Registry Gate Serialize Grant Bus Switchboard Enqueue Invariant Dispatch Delivery.

Section fuel.
Context {Sh Ob : Type} `{sh_ops : ShardOps Sh} `{ob_ops : ObserverOps Ob}.
Abbreviation Bus := (Switchboard Sh Ob).

(** More fuel gives the same answer. *)
Lemma drain_fuel fuel fuel' (b : Bus) x :
  drain fuel b = Some x -> (fuel <= fuel')%nat -> drain fuel' b = Some x.
Proof.
  revert fuel' b. induction fuel as [|fuel IH]; intros fuel' b E Hle.
  - destruct fuel'; cbn [drain] in *; destruct (queue b), (stop_requested b); done.
  - destruct fuel' as [|fuel']; [lia|]. cbn [drain] in *. destruct (queue b) as [|env rest]; [done|].
    destruct (stop_requested b); [done|]. destruct (deliver_one _ _) as [b1 [[]|e|]]; try done.
    apply IH; [done|lia].
Qed.

Lemma pump_fuel fuel fuel' (b : Bus) x :
  pump fuel b = Some x -> (fuel <= fuel')%nat -> pump fuel' b = Some x.
Proof.
  unfold pump. destruct (in_dispatch b); [done|].
  destruct (drain fuel _) as [y|] eqn:E; [|done]. intros Hx Hle. by rewrite (drain_fuel _ _ _ _ E Hle).
Qed.

(** ** What is kept outside the loop *)

(** Every operation but [pump] keeps the dispatch flag and the queued deliveries. *)
Definition keeps (b b' : Bus) : Prop :=
  in_dispatch b' = in_dispatch b /\ queue b `prefix_of` queue b'.

#[global] Instance keeps_refl : Reflexive keeps.
Proof. by intros b. Qed.
#[global] Instance keeps_trans : Transitive keeps.
Proof. intros b1 b2 b3 [E1 P1] [E2 P2]. split; [congruence|by etrans]. Qed.

Lemma push_all_keeps l b : keeps b (push_all l b).
Proof. rewrite push_all_eq. split; [done|]. by eexists. Qed.

Lemma emit_keeps ev b : keeps b (emit ev b).1.
Proof. destruct (grows_frame _ _ (emit_grows ev b)) as (_ & _ & _ & _ & E & _ & P & _). done. Qed.

Lemma gate_keeps {A} (f : Z -> Z * result A) b : keeps b (gate f b).1.
Proof. unfold gate. by destruct (f (gate_calls b)). Qed.

Lemma revive_at_keeps id v b : keeps b (revive_at id v b).1.
Proof. unfold revive_at. destruct (find id b); [|done]. by destruct (revive _ v). Qed.

Lemma lift_keeps {A} (r : result A) b : keeps b (lift r b).1.
Proof. done. Qed.

Lemma register_schema_at_keeps s b : keeps b (register_schema_at s b).1.
Proof. unfold register_schema_at. by destruct (register_schema _ s). Qed.

Ltac keeps :=
  repeat first
    [ done | apply emit_keeps | apply gate_keeps | apply revive_at_keeps | apply lift_keeps
    | apply register_schema_at_keeps
    | match goal with
      | |- keeps ?b ((?m ≫= ?f) ?b).1 =>
          revert b; apply (M_bind_inv keeps); [intros ?|intros ? ?]
      | |- context [match ?x with _ => _ end] => destruct x
      end ].

Lemma accept_loop_keeps declared : forall acc b, keeps b (accept_loop declared acc b).1.
Proof.
  induction declared as [|[s|] declared IH]; intros acc b; cbn [accept_loop]; [done| |done].
  revert b. apply (M_bind_inv keeps); [apply register_schema_at_keeps|intros; apply IH].
Qed.

Lemma register_shard_keeps sh g b : keeps b (register_shard sh g b).1.
Proof.
  destruct sh as [sh|]; [|done]. cbn [register_shard]. revert b.
  apply (M_bind_inv keeps); [done|]. intros declared. apply (M_bind_inv keeps); [apply accept_loop_keeps|].
  intros acc. apply (M_bind_inv keeps); [done|]. intros snap b. keeps.
Qed.

Lemma kill_keeps id b : keeps b (kill id b).1.
Proof. unfold kill. keeps. Qed.

Lemma reload_keeps id w b : keeps b (reload id w b).1.
Proof. unfold reload. keeps. Qed.

Lemma swap_state_keeps id w b : keeps b (swap_state id w b).1.
Proof. unfold swap_state. keeps. Qed.

(** A step leaves a dispatching bus dispatching, with its queue. *)
Lemma step_keeps b b' : step b b' -> in_dispatch b = true -> keeps b b'.
Proof.
  destruct 1; intros Hd; unfold publish, publish_as, send, send_as, enqueue_directed;
    rewrite ?fanout_eq; cbv zeta; try apply push_all_keeps; try done.
  - apply register_shard_keeps.
  - unfold unregister_shard. by destruct (find id b).
  - apply (push_all_keeps [(t, m, false)]).
  - apply (push_all_keeps [(t, set_sender m s, true)]).
  - unfold pump in *. rewrite Hd in *. by simplify_eq.
  - apply kill_keeps.
  - apply reload_keeps.
  - apply swap_state_keeps.
Qed.

Lemma steps_keep b b' : rtc step b b' -> in_dispatch b = true -> keeps b b'.
Proof.
  induction 1 as [|b1 b2 b3 Hs _ IH]; intros Hd; [done|].
  destruct (step_keeps _ _ Hs Hd) as [E P]. etrans; [by split|]. apply IH. congruence.
Qed.

Lemma deliver_one_dispatch env (b : Bus) : in_dispatch (deliver_one env b).1 = in_dispatch b.
Proof.
  set (R := fun b b' : Bus => in_dispatch b' = in_dispatch b).
  assert (Transitive R) by (intros ? ? ?; unfold R; congruence).
  assert (forall e b, R b (emit e b).1) as He.
  { intros e c. by destruct (emit_keeps e c). }
  assert (forall r b, R b (refuse env r b).1) as Hr.
  { intros r. apply (M_bind_inv R); [|auto]. intros c. unfold R, modify, record. cbn. by case_match. }
  assert (forall id m b, R b (handle_at id m b).1) as Hh.
  { intros id m c. unfold handle_at. destruct (find id c) as [rec|]; [|done].
    destruct (run_handler_eq id (handle (rec_shard rec) m) c) as (l & g & _ & E).
    destruct (run_handler _ _ c) as [c1 [sh r]]. cbn in *. subst c1. unfold R. by rewrite push_all_eq. }
  change (R b (deliver_one env b).1). unfold deliver_one. cbv zeta. revert b.
  apply (M_bind_inv R); [done|]. intros [rec|]; [|auto]. destruct (negb (rec_alive rec)); [auto|].
  apply (M_bind_inv R); [by destruct (env_gated env)|]. intros []; cbn [negb]; [|auto].
  destruct (accept_match _ _ _); [|auto].
  apply (M_bind_inv R); [intros c; by destruct (gate_keeps (admit_live (payload (env_msg env)) s FirstError) c)|].
  intros a. destruct (adm_ok a); cbn [negb]; [|by apply (M_bind_inv R)].
  apply (M_bind_inv R); [done|]. intros v. apply (M_bind_inv R); [auto|]. intros _.
  apply (M_bind_inv R); [|auto]. intros c. unfold R, modify, record. cbn. by case_match.
Qed.

Lemma drain_dispatch fuel : forall (b b' : Bus) r,
  drain fuel b = Some (b', r) -> in_dispatch b' = in_dispatch b.
Proof.
  induction fuel as [|fuel IH]; intros b b' r E; cbn [drain] in E;
    (destruct (queue b) as [|env rest]; [by injection E as <- _|]);
    (destruct (stop_requested b); [by injection E as <- _|]); [done|].
  pose proof (deliver_one_dispatch env (set_queue rest b)) as Hd.
  destruct (deliver_one env (set_queue rest b)) as [b1 [[]|e|]]; cbn [fst] in Hd.
  - apply IH in E. by rewrite E, Hd.
  - by injection E as <- _.
  - by injection E as <- _.
Qed.

(** [pump] returns at once, delivering nothing. *)
Definition disabled (b : Bus) : Prop :=
  in_dispatch b = true /\ forall fuel, pump fuel b = Some (b, Ok tt).

(** A handler that throws disables the bus.  When the exception leaves
    [pump], the dispatch flag is still set: from then on, whatever the host
    does, every [pump] returns at once having delivered nothing, and what is
    queued stays queued. *)
Theorem throw_disables_pump fuel (b b' : Bus) e :
  pump fuel b = Some (b', Throw e) ->
  forall b'', rtc step b' b'' -> disabled b'' /\ queue b' `prefix_of` queue b''.
Proof.
  intros Hp.
  assert (in_dispatch b' = true) as Hd.
  { unfold pump in Hp. destruct (in_dispatch b); [done|].
    destruct (drain fuel _) as [[b1 [[]|e1|]]|] eqn:E; try done. injection Hp as <- _.
    by rewrite (drain_dispatch _ _ _ _ E). }
  intros b'' Hs. destruct (steps_keep _ _ Hs Hd) as [E P]. split; [|done].
  rewrite Hd in E. split; [done|]. intros fuel'. unfold pump. by rewrite E.
Qed.
End fuel.

(** ** Termination *)

Section termination.
Context {Sh Ob : Type} `{sh_ops : ShardOps Sh} `{sh_laws : !ShardLaws Sh} `{ob_ops : ObserverOps Ob}.
Abbreviation Bus := (Switchboard Sh Ob).

(** Handlers emit at most [K] times, only messages lighter than their input, and
    do not throw; observers only watch. *)
Context (weight : Value -> nat) (K : nat).

Inductive lighter (w : nat) : nat -> Handler Sh -> Prop :=
| lighter_done k sh : lighter w k (Done sh)
| lighter_send k sh t m f :
    (weight (payload m) < w)%nat -> (forall n, lighter w k (f n)) -> lighter w (S k) (SendTo sh t m f)
| lighter_publish k sh m f :
    (weight (payload m) < w)%nat -> (forall n, lighter w k (f n)) -> lighter w (S k) (PublishAll sh m f)
| lighter_resolve k n v f : (forall s, lighter w k (f s)) -> lighter w k (Resolve n v f)
| lighter_admit k u d f : (forall a, lighter w k (f a)) -> lighter w k (Admit u d f).

Definition losing_weight : Prop :=
  forall sh m, lighter (weight (payload m)) K (handle sh m).
Definition watching : Prop := forall o ev, exists o', notify o ev = (o', [], Ok tt).

Context (Hlight : losing_weight) (Hwatch : watching).

Lemma emit_watching ev (b : Bus) :
  (emit ev b).2 = Ok tt /\ queue (emit ev b).1 = queue b /\
  stop_requested (emit ev b).1 = stop_requested b.
Proof.
  unfold emit. generalize (length (observers b)) as n, 0%nat as i. intros n. revert b.
  induction n as [|n IH]; intros b i; cbn [emit_loop]; [done|].
  assert (exists b1, call_observer i ev b = (b1, Ok tt) /\ queue b1 = queue b /\
    stop_requested b1 = stop_requested b) as (b1 & E & Eq & Es).
  { unfold call_observer. destruct (observers b !! i) as [[id [o|]]|]; [|by eauto..].
    destruct (Hwatch o ev) as [o' ->]. by eexists. }
  rewrite (M_bind_ok _ _ _ _ _ E), <-Eq, <-Es. apply IH.
Qed.

(** The weight of a queue: each envelope counts as many deliveries as it may
    cause in the end. *)
Definition base (n : nat) : nat := S (K * S n).
Definition cost (n : nat) (l : list Envelope) : nat :=
  sum_list ((fun env => base n ^ weight (payload (env_msg env)))%nat <$> l).

Lemma cost_cons n env l :
  cost n (env :: l) = (base n ^ weight (payload (env_msg env)) + cost n l)%nat.
Proof. done. Qed.

Lemma cost_app n l k : cost n (l ++ k) = (cost n l + cost n k)%nat.
Proof. unfold cost. by rewrite fmap_app, sum_list_with_app. Qed.

Lemma cost_number n c q l :
  Forall (fun x : Order => base n ^ weight (payload x.1.2) <= c)%nat l ->
  (cost n (number q l) <= length l * c)%nat.
Proof.
  intros Hl. revert q. induction Hl as [|x l Hx Hl IH]; intros q; [done|].
  specialize (IH (u64 (q + 1))). cbn in Hx. cbn [number length]. rewrite cost_cons. cbn [env_msg]. lia.
Qed.

Lemma recipients_length s (b : Bus) :
  (length (recipients_of s (ascending (shards b))) <= size (shards b))%nat.
Proof.
  rewrite <-(length_map_to_list (shards b)), <-(ascending_perm (shards b)). unfold recipients_of.
  induction (ascending (shards b)) as [|e l IH]; cbn; [done|].
  destruct (rec_alive e.2 && accepts e.2 s); cbn; lia.
Qed.

(** What one handler run enqueues. *)
Lemma lighter_run w k h self (b : Bus) :
  lighter w k h ->
  exists l g, (run_handler self h b).1 = set_gate_calls g (push_all l b) /\
    (run_handler self h b).2.2 = Ok tt /\
    (length l <= k * S (size (shards b)))%nat /\
    Forall (fun x : Order => weight (payload x.1.2) < w)%nat l.
Proof.
  intros Hh. revert b. induction Hh as [k sh|k sh t m f Hm _ IH|k sh m f Hm _ IH|k n v f _ IH|k u d f _ IH];
    intros b; cbn [run_handler].
  - exists [], (gate_calls b). split; [by destruct b|]. repeat split; [simpl; lia|constructor].
  - unfold send_as, enqueue_directed.
    destruct (IH (next_seq b) (push_delivery t (set_sender m self) true b)) as (l & g & E & Er & Hl & Hf).
    exists ((t, set_sender m self, true) :: l), g. split; [done|]. split; [done|].
    split; [cbn in *; lia|by constructor].
  - unfold publish_as. rewrite fanout_eq. cbv zeta.
    match goal with |- context [push_all ?l0 b] => set (l1 := l0) end.
    destruct (IH (u64 (zlen (recipients_of (Value_schema (payload (set_sender m self)))
      (ascending (shards b))))) (push_all l1 b)) as (l & g & E & Er & Hl & Hf).
    exists (l1 ++ l), g. rewrite push_all_app, length_app. split; [done|]. split; [done|]. split.
    + pose proof (recipients_length (Value_schema (payload (set_sender m self))) b).
      assert (shards (push_all l1 b) = shards b) as Es by (by rewrite push_all_eq).
      rewrite Es in Hl. unfold l1. rewrite length_fmap, Nat.mul_succ_l.
      etrans; [apply Nat.add_le_mono; [exact H|exact Hl]|lia].
    + apply Forall_app. split; [|done]. unfold l1. apply Forall_fmap, Forall_true. done.
  - apply IH.
  - destruct (admit_door u d FirstError (gate_calls b)) as [g a].
    destruct (IH a (set_gate_calls g b)) as (l & g' & E & Er & Hl & Hf).
    exists l, g'. rewrite E, push_all_gate_calls. by split_and!.
Qed.

Lemma base_pos n w : (0 < base n ^ w)%nat.
Proof. unfold base. pose proof (Nat.pow_nonzero (S (K * S n)) w). lia. Qed.

(** What one handler run enqueues costs less than what it handled. *)
Lemma light_cost n w q (l : list Order) :
  (length l <= K * S n)%nat -> Forall (fun x : Order => weight (payload x.1.2) < w)%nat l ->
  (cost n (number q l) < base n ^ w)%nat.
Proof.
  intros Hlen Hl. destruct w as [|w].
  - destruct Hl as [|x l Hx _]; [|lia]. pose proof (base_pos n 0). done.
  - apply Nat.le_lt_trans with (length l * base n ^ w)%nat.
    + apply cost_number. eapply Forall_impl; [exact Hl|]. cbn. intros x Hx.
      apply Nat.pow_le_mono_r; [unfold base; lia|lia].
    + rewrite Nat.pow_succ_r'. apply Nat.mul_lt_mono_pos_r; [apply base_pos|]. unfold base. lia.
Qed.

(** Recording and announcing, with observers that only watch. *)
Lemma record_watching seq d r ev (b : Bus) :
  exists b', (_ ← modify (record seq d r); emit ev) b = (b', Ok tt) /\
    shards b' = shards b /\ queue b' = queue b /\ stop_requested b' = stop_requested b.
Proof.
  destruct (record_emit_spec seq d r ev b) as (E1 & _). revert E1.
  rewrite (M_bind_ok (modify _) _ b (record seq d r b) tt eq_refl). intros E1.
  destruct (emit_watching ev (record seq d r b)) as (W1 & W2 & W3).
  destruct (emit ev (record seq d r b)) as [b' res]. cbn [fst snd] in *. subst res.
  exists b'. split; [done|]. split; [done|]. rewrite W2, W3. unfold record. by case_match.
Qed.

(** One delivery strictly lowers the cost of what is queued. *)
Lemma deliver_lowers env (b : Bus) :
  tables_ok b -> let n := size (shards b) in
  exists b', deliver_one env b = (b', Ok tt) /\ size (shards b') = n /\
    stop_requested b' = stop_requested b /\
    (cost n (queue b') < cost n (env :: queue b))%nat.
Proof.
  intros Ht n. pose proof (base_pos n (weight (payload (env_msg env)))) as Hpos.
  destruct (deliver_one_run env b Ht) as [(r & _ & ->)|(rec & b2 & sh & hr & _ & Er & Erun & ->)].
  - destruct (record_watching (env_seq env) Refused r (delivery_event env EvRefused r None)
      (set_gate_calls (calls_after b r) b)) as (b' & E & Es & Eq & Est).
    exists b'. unfold refuse. rewrite E, Es, Eq, Est. split; [done|]. split; [done|]. split; [done|].
    rewrite cost_cons. change (queue (set_gate_calls _ b)) with (queue b). lia.
  - destruct (lighter_run _ K _ (env_target env) (set_gate_calls (u64 (gate_calls b + 1)) b)
      (Hlight (rec_shard rec) (env_msg env))) as (l & g & El & Eh & Hlen & Hw).
    rewrite push_all_eq, Erun in *. cbn [fst snd] in *. subst hr. clear Erun.
    rewrite (M_bind_ok _ _ b _ tt eq_refl).
    destruct (record_watching (env_seq env) Delivered Refusal_default (delivery_event env EvDelivered
        Refusal_default (Some (payload (env_msg env)))) (update_shard (env_target env) (rec_set_shard sh) b2))
      as (b' & E & Es & Eq & Est).
    exists b'. rewrite E, Es, Eq, Est, El.
    cbn [update_shard set_shards set_deliveries set_gate_calls shards queue stop_requested next_seq].
    split; [done|]. split.
    { rewrite (alter_insert_lookup _ _ _ _ Er). by apply map_size_insert_Some. }
    split; [done|]. rewrite cost_app. pose proof (light_cost n _ (next_seq b) l Hlen Hw) as Hlc.
    rewrite cost_cons. unfold n in *. cbn in Hlc. lia.
Qed.

Lemma drain_terminates fuel : forall (b : Bus),
  bus_ok [] b -> stop_requested b = false -> (cost (size (shards b)) (queue b) <= fuel)%nat ->
  exists b', drain fuel b = Some (b', Ok tt) /\ queue b' = [].
Proof.
  induction fuel as [|fuel IH]; intros b Hb Hst Hc; cbn [drain];
    (destruct (queue b) as [|env rest] eqn:Hq; [by eauto|]); rewrite Hst.
  { pose proof (base_pos (size (shards b)) (weight (payload (env_msg env)))).
    rewrite cost_cons in Hc. lia. }
  destruct (dequeue_evolves env rest b Hq Hb) as [Hb1 _].
  destruct (deliver_lowers env (set_queue rest b) (proj1 Hb1)) as (b' & E & Es & Est & Hlow).
  destruct (deliver_one_evolves env _ Hb1) as [Hb2 _]. rewrite E in *.
  apply IH; [done|by rewrite Est|]. rewrite Es.
  change (queue (set_queue rest b)) with rest in Hlow.
  change (shards (set_queue rest b)) with (shards b) in *. lia.
Qed.

(** C8: the loop terminates.  With handlers that lose weight and observers that
    only watch, [pump] returns, with the queue drained and the dispatch flag
    clear, for every fuel from the cost of the queue up, so the bound on
    deliveries is never the reason it stops. *)
Theorem pump_terminates (b : Bus) :
  bus_ok [] b -> in_dispatch b = false ->
  exists b', queue b' = [] /\ in_dispatch b' = false /\
    forall fuel, (cost (size (shards b)) (queue b) <= fuel)%nat -> pump fuel b = Some (b', Ok tt).
Proof.
  intros Hb Hd.
  destruct (drain_terminates (cost (size (shards b)) (queue b)) (set_flags true false b))
    as (b1 & E & Hq); [by apply (flags_evolves [] true false)|done|done|].
  exists (set_flags false (stop_requested b1) b1). split; [done|]. split; [done|].
  intros fuel Hf. eapply pump_fuel; [|exact Hf]. unfold pump. by rewrite Hd, E.
Qed.
End termination.
