(* ===== verification/Lifecycle.v ===== *)
(** * Revival and intentional state swap

    [reload] and [swap_state] of [src/switchboard/switchboard.cpp] against their
    documented contract: the crash-revival path consults the shard's policy and
    spends its budget, with a fall back to last-known-good if the policy grants
    it; the swap consults nothing, spends nothing and never falls back.  Both
    hand the shard only states the gate admitted. *)

From S2P Require Import Prelude Schema Value Registry Gate Serialize Grant Bus Switchboard Enqueue Invariant Dispatch Delivery Loop.

Section lifecycle.
Context {Sh Ob : Type} `{sh_ops : ShardOps Sh} `{sh_laws : !ShardLaws Sh} `{ob_ops : ObserverOps Ob}.
Abbreviation Bus := (Switchboard Sh Ob).
Abbreviation Rec := (ShardRecord Sh).

(** ** The contract: what a revival does to the record *)

Inductive plan : Type :=
| Stay (out : ReviveOutcome)
| Resume (state lkg : Value) (used : Z) (out : ReviveOutcome).

(** The two fields of a well-formed policy. *)
Definition policy_says (pv : Value) (max_reloads : Z) (fallback : bool) : Prop :=
  conforms pv policy_door /\ Value_get pv "max_reloads" = Some (CInt max_reloads) /\
  Value_get pv "revive_from_last_good" = Some (CBool fallback).

(** The candidate bytes at the state schema, the gate counter being [g]. *)
Definition admitted_as (rec : Rec) (w : bytes) (g : Z) (v : Value) : Prop :=
  exists g', admit_door (parse w) (Some (state_schema rec)) FirstError g = (g', Ok (Admission_accept v)).
Definition refused_for (rec : Rec) (w : bytes) (g : Z) (e : Error) : Prop :=
  exists g' es, admit_door (parse w) (Some (state_schema rec)) FirstError g =
    (g', Ok (mkAdmission None (e :: es))).

Inductive reload_plan (rec : Rec) (pv : Value) (w : bytes) (g : Z) : plan -> Prop :=
| rp_malformed e :
    ~ conforms pv policy_door -> head (offences pv policy_door) = Some e ->
    reload_plan rec pv w g (Stay (mkRevive false false false true (mkRefusal GateRefused e)))
| rp_exhausted n fb :
    policy_says pv n fb -> n <= i64 (reloads_used rec) ->
    reload_plan rec pv w g (Stay (mkRevive false false true false Refusal_default))
| rp_revive n fb v :
    policy_says pv n fb -> i64 (reloads_used rec) < n -> admitted_as rec w g v ->
    reload_plan rec pv w g
      (Resume v v (u64 (reloads_used rec + 1)) (mkRevive true false false false Refusal_default))
| rp_fallback n e :
    policy_says pv n true -> i64 (reloads_used rec) < n -> refused_for rec w g e ->
    reload_plan rec pv w g
      (Resume (last_known_good rec) (last_known_good rec) (u64 (reloads_used rec + 1))
        (mkRevive true true false false (mkRefusal GateRefused e)))
| rp_refuse n e :
    policy_says pv n false -> i64 (reloads_used rec) < n -> refused_for rec w g e ->
    reload_plan rec pv w g (Stay (mkRevive false false false false (mkRefusal GateRefused e))).

Inductive swap_plan (rec : Rec) (w : bytes) (g : Z) : plan -> Prop :=
| sp_swap v :
    admitted_as rec w g v ->
    swap_plan rec w g
      (Resume v v (reloads_used rec) (mkRevive true false false false Refusal_default))
| sp_refuse e :
    refused_for rec w g e ->
    swap_plan rec w g (Stay (mkRevive false false false false (mkRefusal GateRefused e))).

(** [x] is the result of carrying out [p] for the shard [rec] at [id]: if its
    [revive] throws, the record keeps its state of life. *)
Definition carried_out (id : ShardId) (rec : Rec) (p : plan) (b : Bus) (x : Bus * result ReviveOutcome)
  : Prop :=
  keeps b x.1 /\
  match p with
  | Stay out =>
      shards x.1 = shards b /\ (forall o, x.2 = Ok o -> o = out) /\ (watching -> x.2 = Ok out)
  | Resume state lkg used out =>
      let '(sh, r) := revive (rec_shard rec) state in
      shards x.1 = <[id := match r with
                           | Ok _ => mkRecord (rec_id rec) sh (accept rec) (state_schema rec) lkg
                                       (rec_grant rec) used true
                           | _ => rec_set_shard sh rec
                           end]> (shards b) /\
      (forall o, x.2 = Ok o -> o = out /\ r = Ok tt) /\ (watching -> r = Ok tt -> x.2 = Ok out)
  end.

(** ** Carrying out *)

Lemma announce_spec {A} ev (out : A) (b : Bus) :
  let x := (_ ← emit ev; (mret out : M Bus A)) b in
  keeps b x.1 /\ shards x.1 = shards b /\ (forall o, x.2 = Ok o -> o = out) /\ (watching -> x.2 = Ok out).
Proof.
  cbv zeta. pose proof (emit_keeps ev b) as Hk. destruct (grows_frame _ _ (emit_grows ev b)) as (_ & Hs & _).
  pose proof (fun Hwatch : watching => emit_watching Hwatch ev b) as Hw. unfold mbind, M_bind.
  destruct (emit ev b) as [b' [[]|e|]] eqn:E; cbn in *; (split; [done|]); (split; [done|]);
    (split; [by intros ? [=]|]); intros Hwatch; [done|..];
    by destruct (Hw Hwatch).
Qed.

Lemma resume_spec {A} id state (lkg : Rec -> Value) used ev (out : A) (b : Bus) rec sh r :
  shards b !! id = Some rec -> revive (rec_shard rec) state = (sh, r) ->
  let x := (_ ← revive_at id state;
    _ ← modify (update_shard id (fun r => rec_set_life (lkg r) (used r) true r));
    _ ← emit ev; (mret out : M Bus A)) b in
  keeps b x.1 /\
  shards x.1 = <[id := match r with
    | Ok _ => rec_set_life (lkg (rec_set_shard sh rec)) (used (rec_set_shard sh rec)) true
                (rec_set_shard sh rec)
    | _ => rec_set_shard sh rec end]> (shards b) /\
  (forall o, x.2 = Ok o -> o = out /\ r = Ok tt) /\ (watching -> r = Ok tt -> x.2 = Ok out).
Proof.
  intros Hr Erev. cbv zeta.
  assert (revive_at id state b = (update_shard id (rec_set_shard sh) b, r)) as E
    by (unfold revive_at, find; by rewrite Hr, Erev).
  assert (shards (update_shard id (rec_set_shard sh) b) = <[id := rec_set_shard sh rec]> (shards b)) as Es
    by (cbn; by apply alter_insert_lookup).
  destruct r as [[]|e|].
  - rewrite (M_bind_ok _ _ _ _ _ E).
    match goal with |- context [modify ?f] => set (g := f) end.
    rewrite (M_bind_ok (modify g) _ _ (g (update_shard id (rec_set_shard sh) b)) tt eq_refl).
    destruct (announce_spec ev out (g (update_shard id (rec_set_shard sh) b))) as (H1 & H2 & H3 & H4).
    split; [exact H1|]. split; [|split; [intros o Ho; by split; [apply H3|]|by auto]].
    rewrite H2. unfold g, update_shard at 1. cbn [set_shards shards]. rewrite Es.
    rewrite (alter_insert_lookup _ _ id (rec_set_shard sh rec)) by (apply lookup_insert_eq).
    by rewrite insert_insert_eq.
  - rewrite (M_bind_throw _ _ _ _ _ E). cbn [fst snd].
    split; [done|]. split; [exact Es|]. by split.
  - rewrite (M_bind_UB _ _ _ _ E). cbn [fst snd].
    split; [done|]. split; [exact Es|]. by split.
Qed.

Lemma carried_stay id rec out (b : Bus) :
  carried_out id rec (Stay out) b (b, Ok out).
Proof. split; [done|]. split; [done|]. split; [by intros o [=]|done]. Qed.

Lemma carried_announce id rec ev out g (b : Bus) :
  carried_out id rec (Stay out) b ((_ ← emit ev; (mret out : M Bus ReviveOutcome)) (set_gate_calls g b)).
Proof. destruct (announce_spec ev out (set_gate_calls g b)) as (H1 & H2 & H3 & H4). by split. Qed.

(** ** Reload *)

Lemma policy_gate pv (b : Bus) :
  gate (admit_live pv policy_door FirstError) b =
    (set_gate_calls (u64 (gate_calls b + 1)) b, (admit_live pv policy_door FirstError (gate_calls b)).2).
Proof.
  unfold gate. by destruct (admit_live_cases pv policy_door (gate_calls b) policy_door_wf)
    as [[_ ->]|(_ & e & _ & ->)].
Qed.

Lemma reload_carried id w (b : Bus) rec pv :
  tables_ok b -> shards b !! id = Some rec -> policy (rec_shard rec) = Ok pv ->
  exists p, reload_plan rec pv w (u64 (gate_calls b + 1)) p /\ carried_out id rec p b (reload id w b).
Proof.
  intros Ht Hr Hp. destruct (ok_records _ Ht id rec Hr) as (_ & _ & Hrec).
  unfold reload. rewrite (M_bind_ok (gets _) _ b b _ eq_refl). unfold find. rewrite Hr, Hp.
  rewrite (M_bind_ok (lift _) _ b b _ eq_refl), lifecycle_policy_schema_ok.
  rewrite (M_bind_ok (lift _) _ b b _ eq_refl).
  set (b1 := set_gate_calls (u64 (gate_calls b + 1)) b).
  pose proof (policy_gate pv b) as Eg. fold b1 in Eg.
  destruct (admit_live_cases pv policy_door (gate_calls b) policy_door_wf)
    as [[Hc Ea]|(Hc & e & He & Ea)]; rewrite Ea in Eg; rewrite (M_bind_ok _ _ _ _ _ Eg); cbn [adm_ok
      adm_value adm_errors negb Admission_accept Admission_value Admission_reject_one first_error];
    rewrite (M_bind_ok (lift _) _ _ _ _ eq_refl).
  2: { eexists. split; [by apply rp_malformed|]. apply (carried_stay id rec _ b). }
  destruct (policy_fields pv Hc) as (n & fb & Hn & Hfb).
  assert (policy_says pv n fb) as Hsays by done.
  assert (read_policy pv = Ok (n, fb)) as -> by (unfold read_policy; rewrite Hn, Hfb; done).
  rewrite (M_bind_ok (lift _) _ _ _ _ eq_refl).
  destruct (i64 (reloads_used rec) >=? n) eqn:Eb.
  { rewrite Z.geb_leb in Eb. apply Z.leb_le in Eb. eexists. split; [by eapply rp_exhausted|].
    apply (carried_stay id rec _ b). }
  rewrite Z.geb_leb in Eb. apply Z.leb_gt in Eb. cbv zeta.
  destruct (admit_door_cases (parse w) (state_schema rec) FirstError (gate_calls b1)
    ltac:(apply Hrec)) as (g' & _ & [(v & _ & _ & _ & E)|(e & es & E)]);
    (eassert (gate (admit_door (parse w) (Some (state_schema rec)) FirstError) b1 =
       (set_gate_calls g' b1, Ok _)) as Eg2 by (unfold gate; by rewrite E));
    rewrite (M_bind_ok _ _ _ _ _ Eg2); cbn [adm_ok adm_value adm_errors Admission_accept
      Admission_value first_error];
    rewrite (M_bind_ok (lift _) _ _ _ _ eq_refl).
  - eexists. split; [eapply (rp_revive _ _ _ _ n fb v); [done|done|by exists g']|].
    unfold carried_out. destruct (revive (rec_shard rec) v) as [sh r] eqn:Erev.
    exact (resume_spec id v (fun _ => v) _ _ _ (set_gate_calls g' b1) rec sh r Hr Erev).
  - destruct fb.
    + eexists. split; [eapply (rp_fallback _ _ _ _ n e); [done|done|by exists g', es]|].
      unfold carried_out. destruct (revive (rec_shard rec) (last_known_good rec)) as [sh r] eqn:Erev.
      exact (resume_spec id _ (fun r => last_known_good r) _ _ _ (set_gate_calls g' b1) rec sh r Hr Erev).
    + eexists. split; [eapply (rp_refuse _ _ _ _ n e); [done|done|by exists g', es]|].
      exact (carried_announce id rec _ _ g' b1).
Qed.

(** C9: crash revival.  For a registered shard whose [policy()] returns a value,
    [reload] follows exactly one row of its contract: a malformed policy or an
    exhausted budget changes nothing; an admitted candidate revives the shard,
    becomes last-known-good and spends one reload; a refused candidate revives
    last-known-good and spends one reload if the policy grants it, and changes
    nothing otherwise.  No queued delivery is touched. *)
Theorem reload_spec id w (b : Bus) rec pv :
  bus_ok [] b -> shards b !! id = Some rec -> policy (rec_shard rec) = Ok pv ->
  exists p, reload_plan rec pv w (u64 (gate_calls b + 1)) p /\
    carried_out id rec p b (reload id w b).
Proof. intros [Ht _]. by apply reload_carried. Qed.

(** Intentional swap.  [swap_state] revives the shard with an admitted
    candidate, refreshes last-known-good and marks it alive, whatever the budget
    and the policy say, and leaves the budget as it was; a refused candidate
    changes nothing, with no fall back. *)
Theorem swap_state_spec id w (b : Bus) rec :
  bus_ok [] b -> shards b !! id = Some rec ->
  exists p, swap_plan rec w (gate_calls b) p /\ carried_out id rec p b (swap_state id w b).
Proof.
  intros [Ht _] Hr. destruct (ok_records _ Ht id rec Hr) as (_ & _ & Hrec).
  unfold swap_state. rewrite (M_bind_ok (gets _) _ b b _ eq_refl). unfold find. rewrite Hr. cbv zeta.
  destruct (admit_door_cases (parse w) (state_schema rec) FirstError (gate_calls b)
    ltac:(apply Hrec)) as (g' & _ & [(v & _ & _ & _ & E)|(e & es & E)]);
    (eassert (gate (admit_door (parse w) (Some (state_schema rec)) FirstError) b =
       (set_gate_calls g' b, Ok _)) as Eg2 by (unfold gate; by rewrite E));
    rewrite (M_bind_ok _ _ _ _ _ Eg2); cbn [adm_ok adm_value adm_errors negb Admission_accept
      Admission_value first_error];
    rewrite (M_bind_ok (lift _) _ _ _ _ eq_refl).
  - eexists. split; [apply (sp_swap _ _ _ v); by exists g'|].
    unfold carried_out. destruct (revive (rec_shard rec) v) as [sh r] eqn:Erev.
    exact (resume_spec id v (fun _ => v) (fun r => reloads_used r) _ _ (set_gate_calls g' b) rec sh r Hr Erev).
  - eexists. split; [apply (sp_refuse _ _ _ e); by exists g', es|].
    exact (carried_announce id rec _ _ g' b).
Qed.

(** ** The budget *)

(** A supervisor's attempts on one shard, and how many revived it. *)
Fixpoint revivals (id : ShardId) (ws : list bytes) (b : Bus) : Z :=
  match ws with
  | [] => 0
  | w :: ws =>
      let '(b', r) := reload id w b in
      (match r with Ok out => if revived out then 1 else 0 | _ => 0 end) + revivals id ws b'
  end.

(** Every policy the shard ever shows allows at most [n] reloads. *)
Definition allows_at_most (n : Z) : Prop :=
  forall sh pv m fb, policy sh = Ok pv -> policy_says pv m fb -> m <= n.

Lemma reload_used n id w (b : Bus) rec :
  allows_at_most n -> n < 2 ^ 63 -> bus_ok [] b -> shards b !! id = Some rec ->
  0 <= reloads_used rec -> (reloads_used rec <= Z.max 0 n) ->
  exists rec', shards (reload id w b).1 !! id = Some rec' /\ 0 <= reloads_used rec' <= Z.max 0 n /\
    match (reload id w b).2 with Ok out => if revived out then 1 else 0 | _ => 0 end
      <= reloads_used rec' - reloads_used rec.
Proof.
  intros Hn Hlt [Ht _] Hr H0 Hmax.
  destruct (policy (rec_shard rec)) as [pv|e|] eqn:Hp.
  2, 3: assert (exists r, reload id w b = (b, r) /\ is_ok r = false) as (r & -> & Hno)
    by (unfold reload; rewrite (M_bind_ok (gets _) _ b b _ eq_refl); unfold find; rewrite Hr, Hp;
        eexists; split; [reflexivity|done]);
    exists rec; cbn [fst snd]; split; [done|]; destruct r; [done|lia..].
  destruct (reload_carried id w b rec pv Ht Hr Hp) as (p & Hplan & _ & Hc).
  destruct (reload id w b) as [b' res]. cbn [fst snd] in *.
  assert (forall n' fb, policy_says pv n' fb -> i64 (reloads_used rec) < n' ->
    reloads_used rec < n /\ u64 (reloads_used rec + 1) = reloads_used rec + 1) as Hstep.
  { intros n' fb Hs Hi. specialize (Hn _ _ _ _ Hp Hs).
    rewrite i64_small in Hi by (unfold in_i64; lia). split; [lia|]. apply u64_small.
    unfold in_u64. lia. }
  assert (forall out, revived out = false -> (forall o, res = Ok o -> o = out) ->
    match res with Ok o => if revived o then 1 else 0 | _ => 0 end <= 0) as Hstay.
  { intros out Ho Hres. destruct res as [o|e|]; [|done..]. rewrite (Hres o eq_refl), Ho. done. }
  assert (forall state lkg used out, used = reloads_used rec + 1 -> used <= Z.max 0 n ->
    (let '(sh, r) := revive (rec_shard rec) state in
      shards b' = <[id := match r with
        | Ok _ => mkRecord (rec_id rec) sh (accept rec) (state_schema rec) lkg (rec_grant rec) used true
        | _ => rec_set_shard sh rec end]> (shards b) /\
      (forall o, res = Ok o -> o = out /\ r = Ok tt) /\ (watching -> r = Ok tt -> res = Ok out)) ->
    exists rec', shards b' !! id = Some rec' /\ 0 <= reloads_used rec' <= Z.max 0 n /\
      match res with Ok o => if revived o then 1 else 0 | _ => 0 end
        <= reloads_used rec' - reloads_used rec) as Hres.
  { intros state lkg used out Hu Hm. destruct (revive (rec_shard rec) state) as [sh r].
    intros (-> & Ho & _). rewrite lookup_insert_eq. eexists. split; [done|].
    destruct r as [[]|e|]; cbn.
    - split; [lia|]. destruct res as [o| |]; [destruct (revived o)|..]; lia.
    - split; [lia|]. destruct res as [o| |]; [by destruct (Ho o eq_refl)|lia..].
    - split; [lia|]. destruct res as [o| |]; [by destruct (Ho o eq_refl)|lia..]. }
  destruct Hplan as [e Hnc He|n' fb Hs Hi|n' fb v Hs Hi Ha|n' e Hs Hi Ha|n' e Hs Hi Ha].
  1, 2, 5: destruct Hc as (Hsh & Ho & _); exists rec; rewrite Hsh; split; [done|];
    split; [lia|]; rewrite Z.sub_diag; by eapply Hstay; [|exact Ho].
  - destruct (Hstep _ _ Hs Hi) as [Hl Hu]. eapply Hres; [exact Hu|lia|exact Hc].
  - destruct (Hstep _ _ Hs Hi) as [Hl Hu]. eapply Hres; [exact Hu|lia|exact Hc].
Qed.

(** C10: the revival budget.  If no policy the shard shows allows more than [n]
    reloads, then however often a supervisor reloads it, with whatever bytes, it
    is revived at most [n] times less the reloads already spent: a
    crash-thrashing shard cannot revive for ever. *)
Theorem reload_budget n id ws (b : Bus) rec :
  allows_at_most n -> n < 2 ^ 63 -> bus_ok [] b -> shards b !! id = Some rec ->
  0 <= reloads_used rec <= Z.max 0 n ->
  revivals id ws b <= Z.max 0 n - reloads_used rec.
Proof.
  intros Hn Hlt. revert b rec. induction ws as [|w ws IH]; intros b rec Hb Hr [H0 Hmax]; cbn [revivals]; [lia|].
  destruct (reload_used n id w b rec Hn Hlt Hb Hr H0 Hmax) as (rec' & Hr' & Hu & Hle).
  destruct (reload_evolves id w b Hb) as [Hb' _].
  destruct (reload id w b) as [b' res]. cbn [fst snd] in *.
  specialize (IH b' rec' Hb' Hr' Hu). lia.
Qed.

End lifecycle.
