(* ===== verification/Scenarios.v ===== *)
(** * Concrete runs of the switchboard

    Two kinds of shard, an observer that keeps a log, and the buses they give:
    the theorems about the switchboard applied at concrete states. *)

From S2P Require Import Prelude Schema Value Registry Gate Serialize Grant Bus Switchboard Enqueue Invariant Dispatch Delivery Loop Lifecycle.

(** ** Shards and an observer *)

(** A player with [n] hit points, used both as message and as state. *)
Definition hero (n : Z) : Value := mkValue player [Some (CInt n); Some (CText "Ami")].

Definition hp (v : Value) : Z :=
  match Value_get v "hp" with Some (CInt n) => n | _ => 0 end.

Definition two_lives : Value := mkValue policy_door [Some (CInt 2); Some (CBool true)].

(** Passes a message with hit points left on to [to], one point less. *)
Record Echo : Type := mkEcho { to : ShardId; state : Value }.

Definition echo_handle (sh : Echo) (m : Message) : Handler Echo :=
  if 0 <? hp (payload m)
  then SendTo sh (to sh) (mkMessage (hero (hp (payload m) - 1)) 0 0 0) (fun _ => Done sh)
  else Done sh.

#[export] Instance Echo_ops : ShardOps Echo := {
  accepted_schemas _ := Ok [Some player];
  handle := echo_handle;
  shard_snapshot sh := Ok (mkValue player (Value_slots (state sh)));
  policy _ := Ok two_lives;
  revive sh v := (mkEcho (to sh) v, Ok tt)
}.

#[export] Instance Echo_laws : ShardLaws Echo.
Proof.
  split.
  - intros sh l s [= <-] Hs%list_elem_of_singleton. injection Hs as ->. exact player_wf.
  - intros sh v [= <-]. exact player_wf.
Qed.

(** A shard whose handler throws. *)
Record Bomb : Type := mkBomb { }.

#[export] Instance Bomb_ops : ShardOps Bomb := {
  accepted_schemas _ := Ok [Some player];
  handle sh _ := Raise sh (runtime_error "boom");
  shard_snapshot _ := Ok ami;
  policy _ := Ok two_lives;
  revive sh _ := (sh, Ok tt)
}.

#[export] Instance Log_ops : ObserverOps (list BusEvent) :=
  fun log ev => ((log ++ [ev], []), Ok tt).

(** ** Buses *)

Definition Echoes : Type := Switchboard Echo (list BusEvent).

(** Two echo shards answering each other, with every send allowed, and a log. *)
Definition start : Echoes := Switchboard_new 0.
Definition one : Echoes := (register_shard (Some (mkEcho 2 (hero 7))) (allow_any nothing) start).1.
Definition two : Echoes := (register_shard (Some (mkEcho 1 (hero 9))) (allow_any nothing) one).1.
Definition logged : Echoes := (add_observer (Some []) two).1.
(** A message with two hit points is waiting for shard 1. *)
Definition waiting : Echoes := (send 1 (mkMessage (hero 2) 0 0 0) logged).1.

Definition pumped : Echoes := match pump 3 waiting with Some (b, _) => b | None => waiting end.

Lemma waiting_reached : rtc step (Switchboard_new 0) waiting.
Proof.
  eapply rtc_l; [apply (step_register (Some (mkEcho 2 (hero 7))) (allow_any nothing)); by vm_compute|].
  eapply rtc_l; [apply (step_register (Some (mkEcho 1 (hero 9))) (allow_any nothing)); by vm_compute|].
  eapply rtc_l; [apply (step_add_observer (Some []))|]. apply rtc_once, step_send.
Qed.

Lemma waiting_ok : bus_ok [] waiting.
Proof. exact (proj1 (steps_evolves _ _ waiting_reached (new_ok 0))). Qed.

Lemma pumped_step : step waiting pumped.
Proof. apply (step_pump 3 waiting pumped (Ok tt)). vm_compute. reflexivity. Qed.

Lemma log_watches : watching (Ob := list BusEvent).
Proof. intros o ev. by eexists. Qed.

Lemma echo_loses_weight : losing_weight (Sh := Echo) (fun v => Z.to_nat (hp v)) 1.
Proof.
  intros sh m. cbn [handle Echo_ops]. unfold echo_handle. destruct (Z.ltb_spec 0 (hp (payload m))).
  - constructor; [|constructor]. cbn [payload]. change (hp (hero (hp (payload m) - 1)))
      with (hp (payload m) - 1). lia.
  - constructor.
Qed.

(** Three deliveries: shard 1, shard 2, shard 1; the log saw each. *)
Example pumped_log :
  (match observers pumped with [(_, Some log)] => ev_target <$> log | _ => [] end, outcome 3 pumped, gate_calls pumped)
  = ([1; 2; 1], mkOutcome Delivered Refusal_default, 5).
Proof. vm_compute. reflexivity. Qed.

(** With the default grant the reply is denied before the gate. *)
Example denied_before_gate :
  let b := (register_shard_default (Some (mkEcho 2 (hero 7))) start).1 in
  let b := (register_shard_default (Some (mkEcho 1 (hero 9))) b).1 in
  let b := (send 1 (mkMessage (hero 2) 0 0 0) b).1 in
  match pump 9 b with
  | Some (b, r) => (r, outcome 1 b, reason (refusal (outcome 2 b)), gate_calls b)
  | None => (UB, DeliveryOutcome_default, RR_None, 0)
  end = (Ok tt, mkOutcome Delivered Refusal_default, CapabilityDenied, 3).
Proof. vm_compute. reflexivity. Qed.

(** ** Witnesses *)

Lemma bus_invariant_witness :
  StronglySorted Z.lt (env_seq <$> queue waiting) /\ length (queue waiting) = 1%nat.
Proof.
  destruct (bus_invariant 0 waiting waiting_reached) as [_ H].
  destruct H as [H _]; [vm_compute; discriminate|]. split; [exact H|reflexivity].
Defined.

Lemma outcome_final_witness :
  outcome 1 (kill 1 pumped).1 = mkOutcome Delivered Refusal_default.
Proof.
  rewrite (outcome_final 0 pumped (kill 1 pumped).1 1).
  - vm_compute. reflexivity.
  - exact (rtc_r _ _ _ waiting_reached pumped_step).
  - exact (rtc_once _ _ (step_kill 1 pumped)).
  - vm_compute. discriminate.
  - discriminate.
  - vm_compute. discriminate.
Defined.

Lemma publish_spec_witness :
  exists ids, (forall id, id ∈ ids <-> accepting waiting player id) /\
    (publish (mkMessage (hero 2) 0 0 0) waiting).2 = u64 (zlen ids) /\ 1 ∈ ids.
Proof.
  destruct (publish_spec waiting (mkMessage (hero 2) 0 0 0) waiting_ok) as (ids & _ & H & E & _).
  exists ids. split; [exact H|]. split; [rewrite E; reflexivity|]. apply H.
  eexists. split; [vm_compute; reflexivity|]. split; [reflexivity|]. exists player. split; [left|reflexivity].
Defined.

Definition first_env : Envelope := mkEnvelope (mkMessage (hero 2) 0 0 0) 1 1 false.

Lemma deliver_one_spec_witness :
  exists v, verdict (set_queue [] waiting) first_env v /\
    delivered_as (set_queue [] waiting) first_env v
      (deliver_one first_env (set_queue [] waiting)).1 (deliver_one first_env (set_queue [] waiting)).2.
Proof.
  destruct (deliver_one_spec first_env (set_queue [] waiting)) as (v & H1 & _ & H2).
  - exact (proj1 (dequeue_evolves first_env [] waiting eq_refl waiting_ok)).
  - vm_compute. discriminate.
  - exists v. split; [exact H1|exact H2].
Defined.

Lemma pump_terminates_witness :
  exists b', pump 16 waiting = Some (b', Ok tt) /\ queue b' = [].
Proof.
  destruct (pump_terminates _ _ echo_loses_weight log_watches waiting waiting_ok eq_refl)
    as (b' & Hq & _ & H).
  exists b'. split; [|exact Hq]. apply H. vm_compute. lia.
Defined.

Definition armed : Switchboard Bomb (list BusEvent) :=
  (send 1 (mkMessage (hero 2) 0 0 0)
    (register_shard (Some mkBomb) nothing (Switchboard_new 0)).1).1.
Definition blown : Switchboard Bomb (list BusEvent) :=
  match pump 2 armed with Some (b, _) => b | None => armed end.

Lemma blown_reached : pump 2 armed = Some (blown, Throw (runtime_error "boom")).
Proof. vm_compute. reflexivity. Qed.

Lemma throw_disables_pump_witness : disabled (send 1 (mkMessage (hero 1) 0 0 0) blown).1.
Proof.
  exact (proj1 (throw_disables_pump 2 armed blown (runtime_error "boom") blown_reached _
    (rtc_once _ _ (step_send 1 (mkMessage (hero 1) 0 0 0) blown)))).
Defined.

(** The record of shard 1. *)
Definition shard_1 : ShardRecord Echo :=
  mkRecord 1 (mkEcho 2 (hero 7)) [player] player (hero 7) (allow_any nothing) 0 true.

Lemma reload_spec_witness :
  exists p, reload_plan shard_1 two_lives ami_wire (u64 (gate_calls waiting + 1)) p /\
    carried_out 1 shard_1 p waiting (reload 1 ami_wire waiting).
Proof.
  apply (reload_spec 1 ami_wire waiting shard_1 two_lives waiting_ok).
  - vm_compute. reflexivity.
  - reflexivity.
Defined.

Lemma swap_state_spec_witness :
  exists p, swap_plan shard_1 ami_wire (gate_calls waiting) p /\
    carried_out 1 shard_1 p waiting (swap_state 1 ami_wire waiting).
Proof.
  apply (swap_state_spec 1 ami_wire waiting shard_1 waiting_ok). vm_compute. reflexivity.
Defined.

Lemma reload_budget_witness :
  revivals 1 [ami_wire; str "junk"; ami_wire; ami_wire] waiting <= 2.
Proof.
  apply (reload_budget 2 1 [ami_wire; str "junk"; ami_wire; ami_wire] waiting shard_1).
  - intros sh pv m fb [= <-] (_ & Hm & _). vm_compute in Hm. injection Hm as <-. discriminate.
  - reflexivity.
  - exact waiting_ok.
  - vm_compute. reflexivity.
  - cbn. split; discriminate.
Defined.

(** The third attempt finds the budget spent. *)
Example revivals_two :
  revivals 1 [ami_wire; str "junk"; ami_wire; ami_wire] waiting = 2.
Proof. vm_compute. reflexivity. Qed.
