(* ===== verification/Residents.v ===== *)
(** * What the bus never changes about the shards it holds

    A property of a shard that its own [handle] and [revive] keep is kept by every
    operation of the switchboard: the bus replaces a shard's state only by what
    those two return, and neither swaps shards nor moves them to other ids.  The
    kernel relies on it: an adapter stays bound to its library while the bus
    runs. *)

From S2P Require Import Prelude Schema Value Registry Gate Serialize Grant Bus Switchboard Enqueue Invariant Dispatch Delivery Loop.

Section residents.
Context {Sh Ob : Type} `{sh_ops : ShardOps Sh} `{ob_ops : ObserverOps Ob}.
Abbreviation Bus := (Switchboard Sh Ob).
Abbreviation Rec := (ShardRecord Sh).

(** Every way a handler can end leaves a shard with [Q]. *)
Fixpoint ends_in (Q : Sh -> Prop) (h : Handler Sh) : Prop :=
  match h with
  | Done sh | Raise sh _ | Crash sh => Q sh
  | SendTo _ _ _ k => forall t, ends_in Q (k t)
  | PublishAll _ _ k => forall n, ends_in Q (k n)
  | Resolve _ _ k => forall s, ends_in Q (k s)
  | Admit _ _ k => forall a, ends_in Q (k a)
  end.

Lemma run_handler_ends Q self h (b : Bus) : ends_in Q h -> Q (run_handler self h b).2.1.
Proof.
  revert b. induction h as [sh|sh t m k IH|sh m k IH|n v k IH|u d k IH|sh e|sh]; intros b Hh;
    cbn [run_handler ends_in] in *; try done.
  - unfold send_as, enqueue_directed. apply IH, Hh.
  - destruct (publish_as self m b). apply IH, Hh.
  - apply IH, Hh.
  - destruct (admit_door u d FirstError (gate_calls b)). apply IH, Hh.
Qed.

Section property.
Context (P : ShardId -> Sh -> Prop).
Context (P_handle : forall id sh m, P id sh -> ends_in (P id) (handle sh m)).
Context (P_revive : forall id sh v, P id sh -> P id (revive sh v).1).

Definition holds (b : Bus) : Prop := map_Forall (fun id rec => P id (rec_shard rec)) (shards b).

(** The same shards by id, the property kept, the id counter untouched. *)
Record stays (b b' : Bus) : Prop := {
  stays_holds : holds b -> holds b';
  stays_ids id : is_Some (shards b' !! id) <-> is_Some (shards b !! id);
  stays_next : next_shard_id b' = next_shard_id b
}.

#[global] Instance stays_refl : Reflexive stays.
Proof. by intros b. Qed.
#[global] Instance stays_trans : Transitive stays.
Proof.
  intros b1 b2 b3 [H1 I1 N1] [H2 I2 N2]. split; [auto| |congruence]. intros id. by rewrite I2, I1.
Qed.

Lemma stays_same (b b' : Bus) :
  shards b' = shards b -> next_shard_id b' = next_shard_id b -> stays b b'.
Proof. intros E1 E2. split; [|intros id|done]; unfold holds; by rewrite E1. Qed.

Lemma push_all_stays l b : stays b (push_all l b).
Proof. by rewrite push_all_eq. Qed.

Lemma emit_stays ev b : stays b (emit ev b).1.
Proof. destruct (grows_frame _ _ (emit_grows ev b)) as (_ & E1 & E2 & _). by apply stays_same. Qed.

Lemma gate_stays {A} (f : Z -> Z * result A) b : stays b (gate f b).1.
Proof. unfold gate. by destruct (f (gate_calls b)). Qed.

Lemma lift_stays {A} (r : result A) b : stays b (lift r b).1.
Proof. done. Qed.

(** Writing to one record a shard with the property. *)
Lemma update_stays id (f : Rec -> Rec) b :
  (forall rec, shards b !! id = Some rec -> P id (rec_shard rec) -> P id (rec_shard (f rec))) ->
  stays b (update_shard id f b).
Proof.
  intros Hf. split; [|intros k; cbn|done].
  - intros Hb k rec. cbn. rewrite lookup_alter_Some. intros [(<- & r & Hr & ->)|[_ Hr]]; [|by apply Hb].
    apply Hf; [done|by apply Hb].
  - destruct (decide (id = k)) as [->|Hne]; [rewrite lookup_alter_eq, fmap_is_Some; done|].
    by rewrite lookup_alter_ne.
Qed.

Lemma set_life_stays id lkg used a b :
  stays b (update_shard id (fun r => rec_set_life (lkg r) (used r) a r) b).
Proof. by apply update_stays. Qed.

Lemma modify_record_stays seq d r b : stays b (modify (record seq d r) b).1.
Proof. unfold modify, record. cbn. by case_match. Qed.

Lemma revive_at_stays id v b : stays b (revive_at id v b).1.
Proof.
  unfold revive_at, find. destruct (shards b !! id) as [rec|] eqn:E; [|done].
  destruct (revive (rec_shard rec) v) as [sh r] eqn:Er. cbn [fst]. apply update_stays.
  intros rec' Hr Hp. rewrite E in Hr. injection Hr as <-. cbn.
  change sh with (sh, r).1. rewrite <-Er. by apply P_revive.
Qed.

Lemma handle_at_stays id m b : stays b (handle_at id m b).1.
Proof.
  unfold handle_at, find. destruct (shards b !! id) as [rec|] eqn:E; [|done].
  destruct (run_handler_eq id (handle (rec_shard rec) m) b) as (l & g & _ & El).
  destruct (run_handler id (handle (rec_shard rec) m) b) as [b1 [sh r]] eqn:Er. cbn [fst] in *.
  assert (stays b b1) as Hb1 by (subst b1; rewrite push_all_eq; by apply stays_same).
  assert (shards b1 = shards b) as Es by (subst b1; by rewrite push_all_eq).
  etrans; [exact Hb1|]. apply update_stays. intros rec' Hr Hp. rewrite Es, E in Hr.
  injection Hr as <-. cbn. change sh with (b1, (sh, r)).2.1. rewrite <-Er.
  by apply run_handler_ends, P_handle.
Qed.

Ltac stays :=
  repeat first
    [ done | apply emit_stays | apply gate_stays | apply revive_at_stays | apply handle_at_stays
    | apply lift_stays | apply modify_record_stays | apply set_life_stays
    | match goal with
      | |- stays ?b ((?m ≫= ?f) ?b).1 =>
          revert b; apply (M_bind_inv stays); [intros ?|intros ? ?]
      | |- context [match ?x with _ => _ end] => destruct x
      end ].

Lemma refuse_stays env r b : stays b (refuse env r b).1.
Proof. unfold refuse. stays. Qed.

Lemma deliver_one_stays env b : stays b (deliver_one env b).1.
Proof. unfold deliver_one, refuse. cbv zeta. stays. Qed.

Lemma kill_stays id b : stays b (kill id b).1.
Proof. unfold kill. stays. Qed.

Lemma reload_stays id w b : stays b (reload id w b).1.
Proof. unfold reload. stays. Qed.

Lemma swap_state_stays id w b : stays b (swap_state id w b).1.
Proof. unfold swap_state. stays. Qed.

Lemma drain_stays fuel : forall b b' r, drain fuel b = Some (b', r) -> stays b b'.
Proof.
  induction fuel as [|fuel IH]; intros b b' r; cbn [drain];
    (destruct (queue b) as [|env rest]; [by intros [= <- _]|]);
    (destruct (stop_requested b); [by intros [= <- _]|]); [done|].
  pose proof (deliver_one_stays env (set_queue rest b)) as Hd.
  assert (stays b (set_queue rest b)) as Hq by (by apply stays_same).
  destruct (deliver_one env (set_queue rest b)) as [b1 [[]|e|]]; cbn [fst] in Hd; intros E.
  - apply IH in E. by etrans; [|etrans].
  - injection E as <- _. by etrans.
  - injection E as <- _. by etrans.
Qed.

Lemma pump_stays fuel b b' r : pump fuel b = Some (b', r) -> stays b b'.
Proof.
  unfold pump. destruct (in_dispatch b); [by intros [= <- _]|].
  destruct (drain fuel _) as [[b1 r1]|] eqn:E; [|done]. apply drain_stays in E.
  assert (stays b (set_flags true false b)) as Hs by (by apply stays_same). intros E'.
  destruct r1; injection E' as <- _; (etrans; [exact Hs|]); [|exact E..].
  etrans; [exact E|]. by apply stays_same.
Qed.

(** ** Registration adds one shard, under the next id *)

Lemma register_schema_at_stays s b : stays b (register_schema_at s b).1.
Proof. unfold register_schema_at. destruct (register_schema _ s). by apply stays_same. Qed.

Lemma accept_loop_stays declared : forall acc b, stays b (accept_loop declared acc b).1.
Proof.
  induction declared as [|[s|] declared IH]; intros acc b; cbn [accept_loop]; [done| |done].
  revert b. apply (M_bind_inv stays); [apply register_schema_at_stays|intros; apply IH].
Qed.

(** Either nothing was added, or the shard is now at [next_shard_id]. *)
Definition adds (sh : Sh) (b b' : Bus) (r : result ShardId) : Prop :=
  (stays b b' /\ (forall id, r <> Ok id)) \/
  exists b1 rec, stays b b1 /\ rec_shard rec = sh /\ r = Ok (next_shard_id b) /\
    next_shard_id b' = u64 (next_shard_id b + 1) /\
    shards b' = match shards b1 !! next_shard_id b with
                | Some _ => shards b1
                | None => <[next_shard_id b := rec]> (shards b1)
                end.

Lemma bind_adds {A} sh (m : M Bus A) (k : A -> M Bus ShardId) b :
  (forall b, stays b (m b).1) ->
  (forall a b, adds sh b (k a b).1 (k a b).2) ->
  adds sh b ((m ≫= k) b).1 ((m ≫= k) b).2.
Proof.
  intros Hm Hk. unfold mbind, M_bind. specialize (Hm b). destruct (m b) as [b1 [a|e|]]; cbn [fst] in Hm.
  - destruct (Hk a b1) as [[Hs Hr]|(b2 & rec & Hs & Hrec & Hr & Hn & Hsh)].
    + left. split; [by etrans|done].
    + right. exists b2, rec. rewrite <-(stays_next _ _ Hm). split; [by etrans|]. done.
  - left. by split.
  - left. by split.
Qed.

Lemma register_shard_adds sh g b :
  adds sh b (register_shard (Some sh) g b).1 (register_shard (Some sh) g b).2.
Proof.
  assert (forall (r : result ShardId) b, (forall id, r <> Ok id) -> adds sh b (lift r b).1 (lift r b).2)
    as Hlift by (intros r c Hr; left; split; [done|exact Hr]).
  cbn [register_shard]. apply bind_adds; [done|]. intros declared c.
  apply bind_adds; [apply accept_loop_stays|]. clear c. intros acc c.
  apply bind_adds; [done|]. clear c. intros snap c.
  apply bind_adds; [apply register_schema_at_stays|]. clear c. intros ? c.
  apply bind_adds; [intros; apply gate_stays|]. clear c. intros seeded c.
  destruct (adm_ok seeded); cbn [negb]; (apply bind_adds; [done|]); clear c; intros x c.
  - right. exists c, (mkRecord (next_shard_id c) sh acc (Value_schema snap) x g 0 true). by cbn.
  - by apply Hlift.
Qed.

End property.

(** Registering a lawful shard does not crash. *)

Lemma register_schema_at_runs s (b : Bus) : (register_schema_at (Some s) b).2 <> UB.
Proof.
  unfold register_schema_at. cbn [register_schema]. destruct (registry b !! schema_key s); [|done].
  by destruct (_ =? _).
Qed.

Lemma accept_loop_runs declared : forall acc (b : Bus), (accept_loop declared acc b).2 <> UB.
Proof.
  induction declared as [|[s|] declared IH]; intros acc b; cbn [accept_loop]; [done| |done].
  unfold mbind, M_bind. pose proof (register_schema_at_runs s b) as Hr.
  destruct (register_schema_at (Some s) b) as [b' [reg|e|]]; [apply IH|done|done].
Qed.

Lemma register_runs (sh : Sh) g (b : Bus) :
  lawful sh -> accepted_schemas sh <> UB -> shard_snapshot sh <> UB ->
  (register_shard (Some sh) g b).2 <> UB.
Proof.
  intros [_ Hlaw] Ha Hs. cbn [register_shard]. unfold mbind, M_bind, lift.
  destruct (accepted_schemas sh) as [declared|e|]; [|done|done].
  pose proof (accept_loop_runs declared [] b) as Hl.
  destruct (accept_loop declared [] b) as [b1 [acc|e|]]; [|done|done].
  destruct (shard_snapshot sh) as [snap|e|]; [|done|done]. cbv zeta.
  pose proof (register_schema_at_runs (Value_schema snap) b1) as Hr.
  destruct (register_schema_at (Some (Value_schema snap)) b1) as [b2 [reg|e|]]; [|done|done].
  unfold gate. destruct (admit_live_cases snap (Value_schema snap) (gate_calls b2) (Hlaw snap eq_refl))
    as [[_ ->]|(_ & e & _ & ->)]; done.
Qed.

(** ** The bus between two operations of its owner *)

(** The switchboard's own interface, registrations apart. *)
Inductive bus_step : Bus -> Bus -> Prop :=
| bs_send t m b : bus_step b (send t m b).1
| bs_publish m b : bus_step b (publish m b).1
| bs_send_as s t m b : bus_step b (send_as s t m b).1
| bs_publish_as s m b : bus_step b (publish_as s m b).1
| bs_pump fuel b b' r : pump fuel b = Some (b', r) -> bus_step b b'
| bs_stop b : bus_step b (stop b)
| bs_add_observer o b : bus_step b (add_observer o b).1
| bs_remove_observer id b : bus_step b (remove_observer id b)
| bs_kill id b : bus_step b (kill id b).1
| bs_reload id w b : bus_step b (reload id w b).1
| bs_swap_state id w b : bus_step b (swap_state id w b).1.

Lemma bus_step_quiet (P : ShardId -> Sh -> Prop) (b b' : Bus) :
  (forall id sh m, P id sh -> ends_in (P id) (handle sh m)) ->
  (forall id sh v, P id sh -> P id (revive sh v).1) ->
  bus_ok [] b -> bus_step b b' -> bus_ok [] b' /\ stays P b b'.
Proof.
  intros Hh Hr Hb Hs.
  assert (evolves [] [] b b' /\ stays P b b') as [He ?]; [|split; [by destruct (He Hb)|done]].
  destruct Hs; unfold publish, publish_as, send, send_as, enqueue_directed; rewrite ?fanout_eq; cbv zeta.
  - split; [apply (push_all_evolves [] [(t, m, false)])|apply (push_all_stays _ [(t, m, false)])].
  - split; [apply push_all_evolves|apply push_all_stays].
  - split; [apply (push_all_evolves [] [(t, set_sender m s, true)])|
      apply (push_all_stays _ [(t, set_sender m s, true)])].
  - split; [apply push_all_evolves|apply push_all_stays].
  - split; [by eapply pump_evolves|]. by eapply pump_stays.
  - split; [apply flags_evolves|by apply stays_same].
  - split; [apply observers_evolves|by apply stays_same].
  - split; [apply observers_evolves|by apply stays_same].
  - split; [apply kill_evolves|apply kill_stays].
  - split; [apply reload_evolves|by apply reload_stays].
  - split; [apply swap_state_evolves|by apply swap_state_stays].
Qed.
End residents.
