(* ===== verification/Abi.v ===== *)
(** * The C ABI of a shard library

    [include/zen/kernel/abi.h] and [include/zen/kernel/export.hpp].  A library is
    code outside the program: a type of instance states with the entry points of
    [ZenShardAbi], the class [LibraryOps].  Its [handle] is an interaction with the
    host's two callbacks, a [LibCall].

    [ZEN_EXPORT_SHARD] makes a library of any C++ shard: the thunks below turn its
    values into bytes and its exceptions into status codes, and the instance
    [Exported_ops] is the library they make. *)

From S2P Require Import Prelude Schema Value Registry Gate Serialize SchemaCodec Grant Bus.

(** ** Status codes *)

Definition ZEN_ABI_VERSION : Z := 1.
Definition ZEN_OK : Z := 0.
Definition ZEN_ERR : Z := -1.
Definition ZEN_ERR_REFUSED : Z := -2.
Definition ZEN_ERR_UNKNOWN_SCHEMA : Z := -3.
Definition ZEN_ERR_NO_TARGET : Z := -4.

(** ** The entry points *)

(** A run of [handle]: [self] is the instance at that point, the continuation
    takes the status the callback returned. *)
Inductive LibCall (I : Type) : Type :=
| LibReturn (self : I) (status : Z)
| LibSend (self : I) (target reply_to correlation : Z) (payload : bytes) (k : Z -> LibCall I)
| LibPublish (self : I) (reply_to correlation : Z) (payload : bytes) (k : Z -> LibCall I)
| LibCrash (self : I).
Arguments LibReturn {I} _ _.
Arguments LibSend {I} _ _ _ _ _ _.
Arguments LibPublish {I} _ _ _ _ _.
Arguments LibCrash {I} _.

(** What reaches the sink, and the status.  The three emitters read the
    instance. *)
Class LibraryOps (I : Type) : Type := {
  abi_describe : I -> result (bytes * Z);
  abi_snapshot : I -> result (bytes * Z);
  abi_policy : I -> result (bytes * Z);
  abi_revive : I -> bytes -> I * result Z;
  abi_handle : I -> Z -> Z -> Z -> bytes -> LibCall I
}.

(** The descriptor behind [zen_shard_abi()]: its version and [create]. *)
Record ZenShardAbi (I : Type) : Type := mkAbi { abi_version : Z; create : option I }.
Arguments mkAbi {I} _ _.
Arguments abi_version {I} _.
Arguments create {I} _.

(** ** The thunks of an exported shard

    The library has its own copy of the gate's counter, which nothing reads. *)

Record Exported (S : Type) : Type := mkExported { ex_shard : S }.
Arguments mkExported {S} _.
Arguments ex_shard {S} _.

Section export.
Context {S : Type} `{ShardOps S}.

(** [try { sink_write(sink, ...); return ZEN_OK; } catch (...) { return ZEN_ERR; }]. *)
Definition to_sink (m : result bytes) : result (bytes * Z) :=
  match m with
  | Ok w => Ok (w, ZEN_OK)
  | Throw _ => Ok ([], ZEN_ERR)
  | UB => UB
  end.

Definition do_create (made : result S) : option (Exported S) :=
  match made with Ok s => Some (mkExported s) | _ => None end.

Definition do_describe (s : S) : result (bytes * Z) :=
  to_sink (accepted ← accepted_schemas s;
           state ← shard_snapshot s;
           m ← encode_manifest accepted (Value_schema state);
           serialize m).
Definition do_snapshot (s : S) : result (bytes * Z) := to_sink (v ← shard_snapshot s; serialize v).
Definition do_policy (s : S) : result (bytes * Z) := to_sink (v ← policy s; serialize v).

Definition do_revive (s : S) (state : bytes) : S * result Z :=
  let u := parse state in
  match (probe ← shard_snapshot s; (admit_door u (Some (Value_schema probe)) FirstError 0).2) with
  | Ok a =>
      if negb (adm_ok a) then (s, Ok ZEN_ERR_REFUSED) else
      match Admission_value a with
      | Ok v =>
          match revive s v with
          | (s, Ok _) => (s, Ok ZEN_OK)
          | (s, Throw _) => (s, Ok ZEN_ERR)
          | (s, UB) => (s, UB)
          end
      | Throw _ => (s, Ok ZEN_ERR)
      | UB => (s, UB)
      end
  | Throw _ => (s, Ok ZEN_ERR)
  | UB => (s, UB)
  end.

(** [HostApiBus]: payloads cross as bytes, the tickets that come back are empty.
    A payload that does not serialize throws through the handler.  The
    switchboard's registry does not cross. *)
Fixpoint through_host (h : Handler S) : LibCall S :=
  match h with
  | Done s => LibReturn s ZEN_OK
  | Raise s _ => LibReturn s ZEN_ERR
  | Crash s => LibCrash s
  | SendTo s target msg k =>
      match serialize (payload msg) with
      | Ok w => LibSend s target (reply_to msg) (correlation msg) w (fun _ => through_host (k 0))
      | Throw _ => LibReturn s ZEN_ERR
      | UB => LibCrash s
      end
  | PublishAll s msg k =>
      match serialize (payload msg) with
      | Ok w => LibPublish s (reply_to msg) (correlation msg) w (fun _ => through_host (k 0))
      | Throw _ => LibReturn s ZEN_ERR
      | UB => LibCrash s
      end
  | Resolve _ _ k => through_host (k None)
  | Admit u door k => through_host (k (admit_door u door FirstError 0).2)
  end.

(** The search for the door; a null entry is dereferenced. *)
Fixpoint find_door (accepted : list (option Schema)) (name : bytes) (version : Z)
  : result (option Schema) :=
  match accepted with
  | [] => Ok None
  | sc :: accepted =>
      s ← deref sc;
      if bool_decide (Schema_name s = name) && (Schema_version s =? version) then Ok (Some s)
      else find_door accepted name version
  end.

Definition do_handle (s : S) (sender reply_to correlation : Z) (payload : bytes) : LibCall S :=
  let u := parse payload in
  match (accepted ← accepted_schemas s; find_door accepted (claimed_name u) (claimed_version u)) with
  | Ok None => LibReturn s ZEN_ERR_UNKNOWN_SCHEMA
  | Ok (Some door) =>
      match (admit_door u (Some door) FirstError 0).2 with
      | Ok a =>
          if negb (adm_ok a) then LibReturn s ZEN_ERR_REFUSED else
          match Admission_value a with
          | Ok v => through_host (handle s (mkMessage v sender reply_to correlation))
          | Throw _ => LibReturn s ZEN_ERR
          | UB => LibCrash s
          end
      | Throw _ => LibReturn s ZEN_ERR
      | UB => LibCrash s
      end
  | Throw _ => LibReturn s ZEN_ERR
  | UB => LibCrash s
  end.

End export.

(** The same run, on another representation of the instance. *)
Fixpoint lib_map {I J : Type} (f : I -> J) (c : LibCall I) : LibCall J :=
  match c with
  | LibReturn i st => LibReturn (f i) st
  | LibSend i t r c p k => LibSend (f i) t r c p (fun st => lib_map f (k st))
  | LibPublish i r c p k => LibPublish (f i) r c p (fun st => lib_map f (k st))
  | LibCrash i => LibCrash (f i)
  end.

Definition Exported_ops {S : Type} `{ShardOps S} : LibraryOps (Exported S) := {|
  abi_describe x := do_describe (ex_shard x);
  abi_snapshot x := do_snapshot (ex_shard x);
  abi_policy x := do_policy (ex_shard x);
  abi_revive x w := let '(s, r) := do_revive (ex_shard x) w in (mkExported s, r);
  abi_handle x sender reply_to correlation w :=
    lib_map mkExported (do_handle (ex_shard x) sender reply_to correlation w)
|}.
#[export] Existing Instance Exported_ops.
