(* ===== verification/Kernel.v ===== *)
(** * The kernel: shards loaded from libraries

    [src/kernel/kernel.cpp].  The adapter that makes a library instance a shard of
    the bus, the callbacks its library runs during [handle], and [Kernel]'s
    operations.

    The operating system's loader is outside the program: [disk] says what
    [dlopen] of a path gives at the time of the call, an error or a file with its
    exported symbol.  What the loader and the libraries hold is part of the state:
    the open handles and the live instances with the handle of their code.  A call
    into a closed library or of a dead instance, a second close and a second
    destruction are undefined behaviour, the result [UB]. *)

From S2P Require Import Prelude Schema Value Registry Gate Serialize SchemaCodec Grant Bus Switchboard Abi.

(** ** The adapter *)

Record HostAdapter (I : Type) : Type := mkAdapter {
  ha_lib : Z;                  (* the library of [abi_] *)
  ha_inst : Z;                 (* which instance [instance_] points to *)
  ha_state : I;                (* and what is there *)
  ha_accepted : list Schema;
  ha_state_schema : Schema;
  ha_self : ShardId
}.
Arguments mkAdapter {I} _ _ _ _ _ _.
Arguments ha_lib {I} _.
Arguments ha_inst {I} _.
Arguments ha_state {I} _.
Arguments ha_accepted {I} _.
Arguments ha_state_schema {I} _.
Arguments ha_self {I} _.

Definition set_instance {I : Type} (i : I) (a : HostAdapter I) : HostAdapter I :=
  mkAdapter (ha_lib a) (ha_inst a) i (ha_accepted a) (ha_state_schema a) (ha_self a).
Definition set_self {I : Type} (id : ShardId) (a : HostAdapter I) : HostAdapter I :=
  mkAdapter (ha_lib a) (ha_inst a) (ha_state a) (ha_accepted a) (ha_state_schema a) id.
Definition rebind {I : Type} (lib inst : Z) (i : I) (a : HostAdapter I) : HostAdapter I :=
  mkAdapter lib inst i (ha_accepted a) (ha_state_schema a) (ha_self a).

(** ** The callbacks of a running [handle]

    The library's bytes are parsed, their schema resolved on the switchboard and
    the gate run, before anything reaches the gated bus. *)
Section callbacks.
Context {A : Type}.

Definition host_emit (self : A) (payload : bytes) (emit : Value -> Handler A) (k : Z -> Handler A)
  : Handler A :=
  let u := parse payload in
  Resolve (claimed_name u) (claimed_version u) (fun door =>
    match door with
    | None => k ZEN_ERR_UNKNOWN_SCHEMA
    | Some door =>
        Admit u (Some door) (fun a =>
          match a with
          | Ok a =>
              if negb (adm_ok a) then k ZEN_ERR_REFUSED else
              match Admission_value a with
              | Ok v => emit v
              | _ => Crash self
              end
          | _ => Crash self
          end)
    end).

Definition zen_host_send (self : A) (target reply_to correlation : Z) (payload : bytes)
    (k : Z -> Handler A) : Handler A :=
  host_emit self payload
    (fun v => SendTo self target (mkMessage v 0 reply_to correlation) (fun _ => k ZEN_OK)) k.

Definition zen_host_publish (self : A) (reply_to correlation : Z) (payload : bytes)
    (k : Z -> Handler A) : Handler A :=
  host_emit self payload
    (fun v => PublishAll self (mkMessage v 0 reply_to correlation) (fun _ => k ZEN_OK)) k.
End callbacks.

Section adapter.
Context {I : Type} `{LibraryOps I}.

(** The library's run of [handle] over those callbacks; its status is dropped. *)
Fixpoint host_calls (a : HostAdapter I) (c : LibCall I) : Handler (HostAdapter I) :=
  match c with
  | LibReturn i _ => Done (set_instance i a)
  | LibSend i target reply_to correlation payload k =>
      zen_host_send (set_instance i a) target reply_to correlation payload
        (fun st => host_calls a (k st))
  | LibPublish i reply_to correlation payload k =>
      zen_host_publish (set_instance i a) reply_to correlation payload
        (fun st => host_calls a (k st))
  | LibCrash i => Crash (set_instance i a)
  end.

Definition HostAdapter_handle (a : HostAdapter I) (m : Message) : Handler (HostAdapter I) :=
  match serialize (payload m) with
  | Ok w => host_calls a (abi_handle (ha_state a) (sender m) (reply_to m) (correlation m) w)
  | Throw e => Raise a e
  | UB => Crash a
  end.

Definition status_failure (op : bytes) (st : Z) : exn :=
  DllBoundaryError (str "library " ++ op ++ str "() failed with status " ++ to_string_signed st).

(** The gate's counter is not the adapter's to see from a [const] method; the
    verdict does not depend on it. *)
Definition admit_bytes (w : bytes) (door : Schema) (op : bytes) : result Value :=
  a ← (admit_door (parse w) (Some door) FirstError 0).2;
  if negb (adm_ok a) then
    e ← first_error a;
    Throw (DllBoundaryError (str "library " ++ op ++ str " refused by the gate: " ++ Error_message e))
  else Admission_value a.

Definition HostAdapter_snapshot (a : HostAdapter I) : result Value :=
  r ← abi_snapshot (ha_state a);
  let '(w, st) := (r : bytes * Z) in
  if negb (st =? ZEN_OK) then Throw (status_failure "snapshot" st)
  else admit_bytes w (ha_state_schema a) "snapshot".

Definition HostAdapter_policy (a : HostAdapter I) : result Value :=
  r ← abi_policy (ha_state a);
  let '(w, st) := (r : bytes * Z) in
  if negb (st =? ZEN_OK) then Throw (status_failure "policy" st)
  else door ← lifecycle_policy_schema; admit_bytes w door "policy".

Definition HostAdapter_revive (a : HostAdapter I) (state : Value) : HostAdapter I * result unit :=
  match serialize state with
  | Ok w =>
      let '(i, st) := abi_revive (ha_state a) w in
      (set_instance i a,
       st ← st; if negb (st =? ZEN_OK) then Throw (status_failure "revive" st) else Ok tt)
  | Throw e => (a, Throw e)
  | UB => (a, UB)
  end.

Definition HostAdapter_ops : ShardOps (HostAdapter I) := {|
  accepted_schemas a := Ok (Some <$> ha_accepted a);
  handle := HostAdapter_handle;
  shard_snapshot := HostAdapter_snapshot;
  policy := HostAdapter_policy;
  revive := HostAdapter_revive
|}.
#[export] Existing Instance HostAdapter_ops.
End adapter.

(** ** A bus of native shards and adapters *)

Inductive Hosted (N I : Type) : Type :=
| Plain (sh : N)
| Adapted (a : HostAdapter I).
Arguments Plain {N I} _.
Arguments Adapted {N I} _.

Fixpoint handler_map {A B : Type} (f : A -> B) (h : Handler A) : Handler B :=
  match h with
  | Done a => Done (f a)
  | SendTo a t m k => SendTo (f a) t m (fun x => handler_map f (k x))
  | PublishAll a m k => PublishAll (f a) m (fun x => handler_map f (k x))
  | Resolve n v k => Resolve n v (fun x => handler_map f (k x))
  | Admit u d k => Admit u d (fun x => handler_map f (k x))
  | Raise a e => Raise (f a) e
  | Crash a => Crash (f a)
  end.

#[export] Instance Hosted_ops {N I : Type} `{ShardOps N} `{LibraryOps I} : ShardOps (Hosted N I) := {
  accepted_schemas x := match x with Plain s => accepted_schemas s | Adapted a => accepted_schemas a end;
  handle x m := match x with
                | Plain s => handler_map Plain (handle s m)
                | Adapted a => handler_map Adapted (handle a m)
                end;
  shard_snapshot x := match x with Plain s => shard_snapshot s | Adapted a => shard_snapshot a end;
  policy x := match x with Plain s => policy s | Adapted a => policy a end;
  revive x v := match x with
                | Plain s => let '(s, r) := revive s v in (Plain s, r)
                | Adapted a => let '(a, r) := revive a v in (Adapted a, r)
                end
}.

(** ** The kernel *)

(** What a path gives: the exported symbol if there is one, and what calling it
    returns, which may be null. *)
Record LibFile (I : Type) : Type := mkFile { exported_symbol : option (option (ZenShardAbi I)) }.
Arguments mkFile {I} _.
Arguments exported_symbol {I} _.

Record Loaded : Type := mkLoaded { ld_name : bytes; ld_lib : Z; ld_abi : Z; ld_id : ShardId }.

Record LoadResult : Type := mkLoad { load_ok : bool; load_id : ShardId; load_error : bytes }.
Record ReloadResult : Type := mkReload {
  reload_ok : bool; reloaded : bool; version_mismatch : bool; reload_error : bytes
}.

Record World (N I Ob : Type) : Type := mkWorld {
  kbus : Switchboard (Hosted N I) Ob;
  kregistry : Registry;
  libs : gmap bytes Loaded;
  open_libs : gset Z;
  instances : gmap Z Z;
  next_native : Z
}.
Arguments mkWorld {N I Ob} _ _ _ _ _ _.
Arguments kbus {N I Ob} _.
Arguments kregistry {N I Ob} _.
Arguments libs {N I Ob} _.
Arguments open_libs {N I Ob} _.
Arguments instances {N I Ob} _.
Arguments next_native {N I Ob} _.

Section kernel.
Context {N I Ob : Type} `{n_ops : ShardOps N} `{l_ops : LibraryOps I} `{ob_ops : ObserverOps Ob}.
Context (variant_what : bytes).

Abbreviation KWorld := (World N I Ob).
Abbreviation KBus := (Switchboard (Hosted N I) Ob).

Definition set_kbus (b : KBus) (w : KWorld) : KWorld :=
  mkWorld b (kregistry w) (libs w) (open_libs w) (instances w) (next_native w).
Definition set_kregistry (r : Registry) (w : KWorld) : KWorld :=
  mkWorld (kbus w) r (libs w) (open_libs w) (instances w) (next_native w).
Definition set_libs (l : gmap bytes Loaded) (w : KWorld) : KWorld :=
  mkWorld (kbus w) (kregistry w) l (open_libs w) (instances w) (next_native w).
Definition set_native (o : gset Z) (i : gmap Z Z) (n : Z) (w : KWorld) : KWorld :=
  mkWorld (kbus w) (kregistry w) (libs w) o i n.

Definition on_bus {A : Type} (m : M KBus A) : M KWorld A := fun w =>
  let '(b, r) := m (kbus w) in (set_kbus b w, r).
Definition on_registry {A : Type} (m : M Registry A) : M KWorld A := fun w =>
  let '(g, r) := m (kregistry w) in (set_kregistry g w, r).

(** *** The loader and the library's own entry points *)

(** [lib_open]: a fresh handle, or the loader's error. *)
Definition lib_open (disk : bytes -> bytes + LibFile I) (path : bytes)
  : M KWorld (bytes + Z * LibFile I) := fun w =>
  match disk path with
  | inl error => (w, Ok (inl error))
  | inr file =>
      let h := next_native w in
      (set_native ({[h]} ∪ open_libs w) (instances w) (h + 1) w, Ok (inr (h, file)))
  end.

Definition lib_close (h : Z) : M KWorld unit := fun w =>
  if bool_decide (h ∈ open_libs w)
  then (set_native (open_libs w ∖ {[h]}) (instances w) (next_native w) w, Ok tt)
  else (w, UB).

Definition fetch_abi (file : LibFile I) : bytes + ZenShardAbi I :=
  match exported_symbol file with
  | None => inl (str "library does not export zen_shard_abi")
  | Some None => inl (str "zen_shard_abi returned null")
  | Some (Some abi) =>
      if negb (abi_version abi =? ZEN_ABI_VERSION)
      then inl (str "unsupported abi_version " ++ to_string (abi_version abi) ++
                str " (host supports " ++ to_string ZEN_ABI_VERSION ++ str ")")
      else inr abi
  end.

(** [abi->create()]. *)
Definition create_instance (h : Z) (abi : ZenShardAbi I) : M KWorld (option (Z * I)) := fun w =>
  if bool_decide (h ∈ open_libs w) then
    match create abi with
    | None => (w, Ok None)
    | Some i =>
        let n := next_native w in
        (set_native (open_libs w) (<[n := h]> (instances w)) (n + 1) w, Ok (Some (n, i)))
    end
  else (w, UB).

(** Code of library [h] may run on instance [n]. *)
Definition callable (h n : Z) (w : KWorld) : bool :=
  bool_decide (h ∈ open_libs w) && bool_decide (instances w !! n = Some h).

(** [abi->destroy(instance)]. *)
Definition destroy (h n : Z) : M KWorld unit := fun w =>
  if callable h n w
  then (set_native (open_libs w) (delete n (instances w)) (next_native w) w, Ok tt)
  else (w, UB).

(** Any other call. *)
Definition call {A : Type} (h n : Z) (r : result A) : M KWorld A := fun w =>
  if callable h n w then (w, r) else (w, UB).

(** *** Operations *)

Definition Kernel_new (b : KBus) : KWorld := mkWorld b ∅ ∅ ∅ ∅ 1.

Definition reconstruct (h n : Z) (i : I) : M KWorld (list Schema * Schema) :=
  r ← call h n (abi_describe i);
  let '(w, st) := (r : bytes * Z) in
  if negb (st =? ZEN_OK) then lift (Throw (status_failure "describe" st)) else
  door ← lift manifest_schema;
  a ← on_bus (gate (admit_door (parse w) (Some door) FirstError));
  if negb (adm_ok a) then
    e ← lift (first_error a);
    lift (Throw (DllBoundaryError
      (str "library manifest refused by the gate: " ++ Error_message e)))
  else
    m ← lift (Admission_value a);
    on_registry (rebuild_manifest m).

(** The block that gives up an instance and its library. *)
Definition discard (h n : Z) : M KWorld unit := _ ← destroy h n; lib_close h.

Definition load (disk : bytes -> bytes + LibFile I) (name path : bytes) : M KWorld LoadResult :=
  taken ← gets (fun w => libs w !! name);
  match taken with
  | Some _ => mret (mkLoad false 0 (str "already loaded: " ++ name))
  | None =>
  opened ← lib_open disk path;
  match opened with
  | inl error => mret (mkLoad false 0 (str "open failed: " ++ error))
  | inr (h, file) =>
  match fetch_abi file with
  | inl error => _ ← lib_close h; mret (mkLoad false 0 error)
  | inr abi =>
  made ← create_instance h abi;
  match made with
  | None => _ ← lib_close h; mret (mkLoad false 0 (str "library create() returned null"))
  | Some (n, i) =>
  built ← try (reconstruct h n i);
  match built with
  | inl e =>
      _ ← discard h n; mret (mkLoad false 0 (str "load refused: " ++ what variant_what e))
  | inr (accepted, state) =>
  let adapter := mkAdapter h n i accepted state 0 in
  registered ← try (on_bus (register_shard (Some (Adapted adapter)) (allow_any nothing)));
  match registered with
  | inl e =>
      (* the moved adapter's destructor, then the library *)
      _ ← discard h n; mret (mkLoad false 0 (str "load refused: " ++ what variant_what e))
  | inr id =>
      _ ← on_bus (modify (update_shard id (fun r =>
            match rec_shard r with
            | Adapted a => rec_set_shard (Adapted (set_self id a)) r
            | Plain _ => r
            end)));
      _ ← modify (fun w => set_libs (<[name := mkLoaded name h h id]> (libs w)) w);
      mret (mkLoad true id [])
  end end end end end end.

(** [*rec.adapter]: the adapter the switchboard owns under that id. *)
Definition adapter_at (id : ShardId) (w : KWorld) : option (HostAdapter I) :=
  match shard id (kbus w) with Some (Adapted a) => Some a | _ => None end.

(** [rec.adapter->rebind(...)], which destroys the old instance first. *)
Definition rebind_at (id : ShardId) (h n : Z) (i : I) : M KWorld unit :=
  a ← gets (adapter_at id);
  a ← lift (deref a);
  _ ← destroy (ha_lib a) (ha_inst a);
  on_bus (modify (update_shard id (rec_set_shard (Adapted (rebind h n i a))))).

Definition reload_from (disk : bytes -> bytes + LibFile I) (name new_path : bytes)
  : M KWorld ReloadResult :=
  found ← gets (fun w => libs w !! name);
  match found with
  | None => mret (mkReload false false false (str "not loaded: " ++ name))
  | Some rec =>
  snap ← try (fun w : KWorld => (w, snapshot_bytes (ld_id rec) (kbus w)));
  match snap with
  | inl e =>
      mret (mkReload false false false
        (str "snapshot of the live shard failed: " ++ what variant_what e))
  | inr snapshot =>
  opened ← lib_open disk new_path;
  match opened with
  | inl error => mret (mkReload false false false (str "open failed: " ++ error))
  | inr (h, file) =>
  match fetch_abi file with
  | inl error => _ ← lib_close h; mret (mkReload false false false error)
  | inr abi =>
  made ← create_instance h abi;
  match made with
  | None => _ ← lib_close h; mret (mkReload false false false (str "library create() returned null"))
  | Some (n, i) =>
  built ← try (reconstruct h n i);
  match built with
  | inl e =>
      _ ← discard h n;
      mret (mkReload false false false (str "new library refused: " ++ what variant_what e))
  | inr (_, new_state) =>
  a ← gets (adapter_at (ld_id rec));
  a ← lift (deref a);
  let old_state := ha_state_schema a in
  if negb (bool_decide (Schema_name new_state = Schema_name old_state)) ||
     negb (Schema_version new_state =? Schema_version old_state) ||
     negb (Schema_content_id new_state =? Schema_content_id old_state)
  then
    _ ← discard h n;
    mret (mkReload true false true (str "state schema version mismatch; reload refused"))
  else
    _ ← rebind_at (ld_id rec) h n i;
    _ ← modify (fun w => set_libs (<[name := mkLoaded (ld_name rec) h h (ld_id rec)]> (libs w)) w);
    ro ← on_bus (swap_state (ld_id rec) snapshot);
    _ ← lib_close (ld_lib rec);
    if negb (revived ro)
    then mret (mkReload true false false (str "revive after swap was refused"))
    else mret (mkReload true true false [])
  end end end end end end.

(** The destructor of a shard handed back by the switchboard. *)
Definition reset_shard (sh : option (Hosted N I)) : M KWorld unit :=
  match sh with
  | Some (Adapted a) => destroy (ha_lib a) (ha_inst a)
  | _ => mret tt
  end.

Definition unload (name : bytes) : M KWorld bool :=
  found ← gets (fun w => libs w !! name);
  match found with
  | None => mret false
  | Some rec =>
      _ ← modify (fun w => set_libs (delete name (libs w)) w);
      adapter ← on_bus (fun b => let '(b, sh) := unregister_shard (ld_id rec) b in (b, Ok sh));
      _ ← reset_shard adapter;
      _ ← lib_close (ld_lib rec);
      mret true
  end.

(** [~Kernel] unloads every name. *)
Fixpoint unload_all (names : list bytes) : M KWorld unit :=
  match names with
  | [] => mret tt
  | n :: names => _ ← unload n; unload_all names
  end.
Definition Kernel_destroy : M KWorld unit :=
  names ← gets (fun w => (by_name (libs w)).*1);
  unload_all names.

Definition kernel_shard_id (name : bytes) (w : KWorld) : ShardId :=
  match libs w !! name with Some rec => ld_id rec | None => 0 end.
Definition is_loaded (name : bytes) (w : KWorld) : bool := bool_decide (is_Some (libs w !! name)).
Definition loaded (w : KWorld) : list bytes := (by_name (libs w)).*1.

End kernel.
