(* ===== verification/KernelSafety.v ===== *)
(** * The kernel never calls into a closed library

    The invariant of [Kernel]'s state together with the loader's: every adapter the
    bus holds has its own live instance, of a library that is open; every live
    instance belongs to an adapter on the bus, so none is left behind; every record
    of [libs_] names an open library of its own.  The bus may run freely between
    the kernel's operations, and the host may take a loaded shard off the bus and let
    it go.  The invariant is kept general for [Ownership], whose host may also keep a
    shard or register it again. *)

From S2P Require Import Prelude Schema Value Registry Gate Serialize SchemaCodec Grant Bus Switchboard Enqueue Invariant Dispatch Delivery Loop Residents Abi Kernel.

(** Libraries whose entry points do not crash, and observers that do not. *)
Class LibraryLaws (I : Type) `{LibraryOps I} : Prop := {
  describe_runs i : abi_describe i <> UB;
  snapshot_runs i : abi_snapshot i <> UB;
  revive_runs i w : (abi_revive i w).2 <> UB
}.

(** The first two of three steps, taken together. *)
Lemma triple_bind2 {S A B C : Type} (P : S -> Prop) (m1 : M S A) (m2 : M S B) Q E (k : M S C) R :
  triple P (_ ← m1; m2) Q E -> (forall b, triple (Q b) k R E) -> triple P (_ ← m1; _ ← m2; k) R E.
Proof.
  intros Hm Hk s Hs. specialize (Hm s Hs). unfold mbind, M_bind in *.
  destruct (m1 s) as [s1 [a|e|]]; [|done|done]. destruct (m2 s1) as [s2 [b|e|]]; [exact (Hk b s2 Hm)|done|done].
Qed.

Lemma triple_error {S A : Type} (P : S -> Prop) (m : M S A) Q (E E' : S -> Prop) :
  triple P m Q E -> (forall s, E s -> E' s) -> triple P m Q E'.
Proof. intros Hm HE. by eapply triple_conseq. Qed.

Section safety.
Context {N I Ob : Type} `{n_ops : ShardOps N} `{n_laws : !ShardLaws N} `{l_ops : LibraryOps I} `{ob_ops : ObserverOps Ob}.
Context (variant_what : bytes).

Abbreviation KWorld := (World N I Ob).
Abbreviation KBus := (Switchboard (Hosted N I) Ob).

(** ** An adapter stays bound to its library *)

Definition same_code (a a' : HostAdapter I) : Prop :=
  ha_lib a' = ha_lib a /\ ha_inst a' = ha_inst a /\ ha_accepted a' = ha_accepted a /\
  ha_state_schema a' = ha_state_schema a.

Lemma host_emit_ends {A : Type} (Q : A -> Prop) self w emit k :
  Q self -> (forall v, ends_in Q (emit v)) -> (forall st, ends_in Q (k st)) ->
  ends_in Q (host_emit self w emit k).
Proof.
  intros Hs He Hk. unfold host_emit. cbn [ends_in]. intros [door|]; [|done]. cbn [ends_in].
  intros [a| |]; try done. destruct (adm_ok a); cbn [negb]; [|done].
  destruct (Admission_value a); done || apply He.
Qed.

Lemma host_calls_ends a c : ends_in (same_code a) (host_calls a c).
Proof.
  induction c as [i st|i t r co p k IH|i r co p k IH|i]; cbn [host_calls]; try done;
    apply host_emit_ends; try done; intros v; cbn [ends_in]; auto.
Qed.

Lemma HostAdapter_handle_ends a m : ends_in (same_code a) (HostAdapter_handle a m).
Proof. unfold HostAdapter_handle. destruct (serialize (payload m)); [apply host_calls_ends|done..]. Qed.

Lemma HostAdapter_revive_same a v : same_code a (HostAdapter_revive a v).1.
Proof.
  unfold HostAdapter_revive. destruct (serialize v) as [w| |]; [|done..].
  by destruct (abi_revive (ha_state a) w).
Qed.

Lemma handler_map_ends {A B : Type} (f : A -> B) (Q : B -> Prop) (h : Handler A) :
  ends_in (fun a => Q (f a)) h -> ends_in Q (handler_map f h).
Proof. induction h; cbn [ends_in handler_map]; auto. Qed.

Lemma ends_weaken {A : Type} (Q R : A -> Prop) (h : Handler A) :
  (forall a, Q a -> R a) -> ends_in Q h -> ends_in R h.
Proof. intros HQR. induction h; cbn [ends_in]; auto. Qed.

Lemma ends_always {A : Type} (Q : A -> Prop) (h : Handler A) : (forall a, Q a) -> ends_in Q h.
Proof. intros HQ. induction h; cbn [ends_in]; auto. Qed.

(** What the kernel knows of the shard under an id: nothing of its own there, a
    shard taken off the bus, or the adapter of an instance of a library. *)
Definition bound (o : option (option (Z * Z))) (sh : Hosted N I) : Prop :=
  match o with
  | None => exists s, sh = Plain s
  | Some None => False
  | Some (Some p) =>
      exists a, sh = Adapted a /\ ha_lib a = p.1 /\ ha_inst a = p.2 /\
        Forall wf_schema (ha_accepted a) /\ wf_schema (ha_state_schema a)
  end.

Lemma bound_handle o (sh : Hosted N I) m : bound o sh -> ends_in (bound o) (handle sh m).
Proof.
  destruct o as [[p|]|]; cbn [bound]; [|done|].
  - intros (a & -> & E1 & E2 & H1 & H2). cbn [handle Hosted_ops]. apply handler_map_ends.
    eapply ends_weaken; [|apply HostAdapter_handle_ends]. intros a' (F1 & F2 & F3 & F4).
    exists a'. split; [done|]. rewrite F1, F2, F3, F4. done.
  - intros [s ->]. cbn [handle Hosted_ops]. apply handler_map_ends. apply ends_always. intros s'. by exists s'.
Qed.

Lemma bound_revive o (sh : Hosted N I) v : bound o sh -> bound o (revive sh v).1.
Proof.
  destruct o as [[p|]|]; cbn [bound]; [|done|].
  - intros (a & -> & E1 & E2 & H1 & H2). cbn [revive Hosted_ops].
    pose proof (HostAdapter_revive_same a v) as Hs. cbn [HostAdapter_ops] in *.
    change (revive a v) with (HostAdapter_revive a v).
    destruct (HostAdapter_revive a v) as [a' r]. destruct Hs as (F1 & F2 & F3 & F4).
    exists a'. split; [done|]. cbn in *. rewrite F1, F2, F3, F4. done.
  - intros [s ->]. cbn [revive Hosted_ops]. destruct (revive s v) as [s' r]. by exists s'.
Qed.

(** ** The invariant

    [T] says what is bound to each id the kernel ever mounted; [pend] is an
    instance an operation under way holds, not yet on the bus. *)

Abbreviation Bindings := (gmap Z (option (Z * Z))).

Section fixed.
(** The ids whose adapter is not where its library's record has it, and whether it is
    on the bus: the host took it off and holds it, or registered it again under a new
    id. *)
Context (away : gmap Z bool).
(** What an operation leaves alone until it is done: the next id and [libs_]. *)
Context (L : Z) (Ls : gmap bytes Loaded).

Record world_ok (T : Bindings) (pend : option (Z * Z)) (w : KWorld) : Prop := {
  wk_bus : bus_ok [] (kbus w);
  wk_schemas : deps_ok (kregistry w);
  wk_shards : holds (fun id => bound (T !! id)) (kbus w);
  wk_ids id : is_Some (T !! id) -> id < next_shard_id (kbus w);
  wk_present id p : T !! id = Some (Some p) -> away !! id = None -> is_Some (shards (kbus w) !! id);
  wk_libs name rec : libs w !! name = Some rec ->
    ld_lib rec ∈ open_libs w /\
    exists o, T !! ld_id rec = Some o /\ forall p, o = Some p -> p.1 = ld_lib rec;
  wk_owned id h n : T !! id = Some (Some (h, n)) ->
    instances w !! n = Some h /\
    exists name rec, libs w !! name = Some rec /\ ld_lib rec = h /\ (away !! id = None -> ld_id rec = id);
  wk_libs_inj name name' rec rec' :
    libs w !! name = Some rec -> libs w !! name' = Some rec' ->
    ld_lib rec = ld_lib rec' \/ ld_id rec = ld_id rec' -> name = name';
  wk_no_leak n h : instances w !! n = Some h ->
    (exists id, T !! id = Some (Some (h, n))) \/ pend = Some (h, n);
  wk_pend h n : pend = Some (h, n) ->
    h ∈ open_libs w /\ instances w !! n = Some h /\
    (forall name rec, libs w !! name = Some rec -> ld_lib rec <> h) /\
    (forall id p, T !! id = Some (Some p) -> p.2 <> n);
  wk_fresh : (forall h, h ∈ open_libs w -> h < next_native w) /\
    (forall n h, instances w !! n = Some h -> n < next_native w);
  wk_frame : next_shard_id (kbus w) = L /\ libs w = Ls;
  wk_away name rec : libs w !! name = Some rec -> away !! ld_id rec <> Some true;
  wk_where id on : away !! id = Some on -> is_Some (shards (kbus w) !! id) <-> on = true;
  wk_one id id' h n n' : T !! id = Some (Some (h, n)) -> T !! id' = Some (Some (h, n')) -> id = id'
}.

(** An open library nothing of the kernel uses. *)
Definition idle (h : Z) (w : KWorld) : Prop :=
  h ∈ open_libs w /\ (forall name rec, libs w !! name = Some rec -> ld_lib rec <> h) /\
  (forall n, instances w !! n <> Some h).

(** The library of a live instance is open. *)
Lemma live_open T pend w n h : world_ok T pend w -> instances w !! n = Some h -> h ∈ open_libs w.
Proof.
  intros Hw Hi. destruct (wk_no_leak _ _ _ Hw n h Hi) as [[id Hid]|Hp].
  - destruct (wk_owned _ _ _ Hw id h n Hid) as (_ & name & rec & Hr & <- & _).
    by destruct (wk_libs _ _ _ Hw name rec Hr).
  - by destruct (wk_pend _ _ _ Hw h n Hp).
Qed.

Lemma owned_callable T pend w id h n :
  world_ok T pend w -> T !! id = Some (Some (h, n)) -> callable h n w = true.
Proof.
  intros Hw Hid. destruct (wk_owned _ _ _ Hw id h n Hid) as [Hi _]. unfold callable.
  rewrite !bool_decide_true; [done|done|by eapply live_open].
Qed.

(** A change of the bus and the registry only. *)
Lemma world_quiet T pend w b r :
  world_ok T pend w -> bus_ok [] b -> stays (fun id => bound (T !! id)) (kbus w) b -> deps_ok r ->
  world_ok T pend (set_kregistry r (set_kbus b w)).
Proof.
  intros [H1 H2 H3 H4 H5 H6 H7 H8 H9 H10 H11 H12 H15 H17 H16] Hb Hs Hr. split; cbn; try done.
  - by apply (stays_holds _ _ _ Hs).
  - intros id Hid. rewrite (stays_next _ _ _ Hs). auto.
  - intros id p Hid Hn. apply (stays_ids _ _ _ Hs). eauto.
  - by rewrite (stays_next _ _ _ Hs).
  - intros id on Ha. rewrite (stays_ids _ _ _ Hs). auto.
Qed.

(** ** The loader *)

Lemma lib_open_ok {E : KWorld -> Prop} T disk path :
  triple (world_ok T None) (lib_open disk path)
    (fun r w => world_ok T None w /\ match r with inl _ => True | inr (h, _) => idle h w end)
    E.
Proof.
  intros w Hw. unfold lib_open. destruct (disk path) as [e|file]; [done|].
  pose proof Hw as [H1 H2 H3 H4 H5 H6 H7 H8 H9 H10 [H11 H12] H13 H15 H17 H16].
  assert (next_native w ∉ open_libs w) as Hfresh by (intros Hin; specialize (H11 _ Hin); lia).
  split; [split; cbn; try done|split; [|split]]; cbn.
  - intros name rec Hr. destruct (H6 name rec Hr) as [Ho ?]. split; [set_solver|done].
  - split; [intros h Hh|intros n h Hn].
    + apply elem_of_union in Hh as [->%elem_of_singleton|Hh]; [lia|specialize (H11 _ Hh); lia].
    + specialize (H12 _ _ Hn). lia.
  - set_solver.
  - intros name rec Hr E1. destruct (H6 name rec Hr) as [Ho _]. by rewrite E1 in Ho.
  - intros n Hn. by pose proof (live_open _ _ _ _ _ Hw Hn).
Qed.

Lemma lib_close_ok {E : KWorld -> Prop} T h :
  triple (fun w => world_ok T None w /\ idle h w) (lib_close h) (fun _ => world_ok T None) E.
Proof.
  intros w [Hw (Ho & Hl & Hi)]. unfold lib_close. rewrite bool_decide_true by done.
  pose proof Hw as [H1 H2 H3 H4 H5 H6 H7 H8 H9 H10 [H11 H12] H13 H15 H17 H16]. split; cbn; try done.
  - intros name rec Hr. destruct (H6 name rec Hr) as [? ?]. split; [|done].
    specialize (Hl name rec Hr). set_solver.
  - split; [|done]. intros k Hk. apply H11. set_solver.
Qed.

Lemma create_ok {E : KWorld -> Prop} T h abi :
  triple (fun w => world_ok T None w /\ idle h w) (create_instance h abi)
    (fun r w => match r with
                | None => world_ok T None w /\ idle h w
                | Some (n, _) => world_ok T (Some (h, n)) w
                end)
    E.
Proof.
  intros w [Hw Hidle]. pose proof Hidle as (Ho & Hl & Hi).
  unfold create_instance. rewrite bool_decide_true by done.
  destruct (create abi) as [i|]; [|done]. set (n := next_native w).
  pose proof Hw as [H1 H2 H3 H4 H5 H6 H7 H8 H9 H10 [H11 H12] H13 H15 H17 H16].
  assert (instances w !! n = None) as Hn.
  { apply eq_None_not_Some. intros [k Hk]. specialize (H12 _ _ Hk). unfold n in H12. lia. }
  split; cbn; try done.
  - intros id h' n' Hid. destruct (H7 id h' n' Hid) as [Hin ?]. split; [|done].
    rewrite lookup_insert_ne; [done|]. intros <-. congruence.
  - intros n' h' [[<- <-]|[_ Hin]]%lookup_insert_Some; [by right|].
    destruct (H9 n' h' Hin) as [?|[=]]. by left.
  - intros h' n' [= <- <-]. split; [done|]. split; [by rewrite lookup_insert_eq|]. split; [done|].
    intros id [h' n'] Hid E1. cbn in E1. subst n'. destruct (H7 id h' n Hid) as [Hin _]. congruence.
  - split; [intros k Hk; specialize (H11 k Hk); lia|].
    intros n' h' [[<- _]|[_ Hin]]%lookup_insert_Some; [lia|]. specialize (H12 _ _ Hin). lia.
Qed.

(** Destroying an instance the operation still holds. *)
Lemma destroy_pending_ok {E : KWorld -> Prop} T h n :
  triple (world_ok T (Some (h, n))) (destroy h n)
    (fun _ w => world_ok T None w /\ idle h w) E.
Proof.
  intros w Hw. pose proof (wk_pend _ _ _ Hw h n eq_refl) as (Ho & Hi & Hl & Hp).
  unfold destroy. assert (callable h n w = true) as ->
    by (unfold callable; by rewrite !bool_decide_true).
  pose proof Hw as [H1 H2 H3 H4 H5 H6 H7 H8 H9 H10 [H11 H12] H13 H15 H17 H16].
  split; [split; cbn; try done|split; [done|split; [done|]]]; cbn.
  - intros id h' n' Hid. destruct (H7 id h' n' Hid) as [Hin ?]. split; [|done].
    rewrite lookup_delete_ne; [done|]. intros <-. by apply (Hp id (h', n)).
  - intros n' h' [Hne Hin]%lookup_delete_Some. destruct (H9 n' h' Hin) as [?|[= <- <-]]; [by left|done].
  - split; [done|]. intros n' h' [_ Hin]%lookup_delete_Some. by eapply H12.
  - intros n' [Hne Hin]%lookup_delete_Some. destruct (H9 n' h Hin) as [[id Hid]|[= <-]]; [|done].
    destruct (H7 id h n' Hid) as (_ & name & rec & Hr & El & _). by apply (Hl name rec Hr).
Qed.

Lemma discard_ok {E : KWorld -> Prop} T h n :
  triple (world_ok T (Some (h, n))) (discard h n) (fun _ => world_ok T None) E.
Proof.
  unfold discard. eapply triple_bind; [apply destroy_pending_ok|]. intros ?. apply lib_close_ok.
Qed.

(** ** Reconstruction *)

Lemma gate_quiet {A : Type} (f : Z -> Z * result A) (T : Bindings) (b : KBus) :
  bus_ok [] b -> bus_ok [] (gate f b).1 /\ stays (fun id => bound (T !! id)) b (gate f b).1.
Proof. intros Hb. split; [by destruct (gate_evolves [] f b Hb)|apply gate_stays]. Qed.

Lemma call_ok {A : Type} (T : Bindings) h n (r : result A) :
  r <> UB ->
  triple (world_ok T (Some (h, n))) (call h n r)
    (fun a w => r = Ok a /\ world_ok T (Some (h, n)) w) (world_ok T (Some (h, n))).
Proof.
  intros Hr w Hw. pose proof (wk_pend _ _ _ Hw h n eq_refl) as (Ho & Hi & _).
  unfold call, callable. rewrite !bool_decide_true by done. cbn. by destruct r.
Qed.

Lemma on_gate_ok {A : Type} (T : Bindings) (pend : option (Z * Z)) (f : Z -> Z * result A) (Q : A -> Prop) :
  (forall g, (f g).2 <> UB /\ forall a, (f g).2 = Ok a -> Q a) ->
  triple (world_ok T pend) (on_bus (gate f)) (fun a w => Q a /\ world_ok T pend w) (world_ok T pend).
Proof.
  intros Hf w Hw. pose proof (wk_bus _ _ _ Hw) as Hb.
  destruct (gate_quiet f T (kbus w) Hb) as [Hb' Hs]. unfold on_bus.
  assert ((gate f (kbus w)).2 = (f (gate_calls (kbus w))).2) as Er
    by (unfold gate; by destruct (f (gate_calls (kbus w)))).
  destruct (Hf (gate_calls (kbus w))) as [Hub Hok]. rewrite <-Er in Hub, Hok.
  destruct (gate f (kbus w)) as [b r]. cbn [fst snd] in *.
  assert (world_ok T pend (set_kbus b w)) as Hw'
    by exact (world_quiet T pend w b (kregistry w) Hw Hb' Hs (wk_schemas _ _ _ Hw)).
  destruct r; [split; auto|done|done].
Qed.

Lemma on_registry_ok {A : Type} (T : Bindings) (pend : option (Z * Z)) (m : M Registry A) (Q : A -> Prop) :
  (forall r : Registry, safely (fun _ => Q) m r) ->
  triple (world_ok T pend) (on_registry m) (fun a w => Q a /\ world_ok T pend w) (world_ok T pend).
Proof.
  intros Hm w Hw. destruct (Hm (kregistry w) (wk_schemas _ _ _ Hw)) as (Hr & _ & Hc).
  unfold on_registry. destruct (m (kregistry w)) as [r x]. cbn [fst snd] in *.
  assert (world_ok T pend (set_kregistry r w)) as Hw'.
  { apply (world_quiet T pend w (kbus w) r Hw (wk_bus _ _ _ Hw)); done. }
  destruct x as [a|[]|]; by auto.
Qed.

Lemma admit_ok u door (Q : Admission -> Prop) :
  wf_schema door ->
  (forall v, conforms v door -> Q (Admission_accept v)) -> (forall e es, Q (mkAdmission None (e :: es))) ->
  forall g, (admit_door u (Some door) FirstError g).2 <> UB /\
    forall a, (admit_door u (Some door) FirstError g).2 = Ok a -> Q a.
Proof.
  intros Hd H1 H2 g. destruct (admit_door_cases u door FirstError g Hd)
    as (g' & _ & [(v & Hc & _ & _ & ->)|(e & es & ->)]); (split; [done|]); intros a [= <-]; auto.
Qed.

Lemma reconstruct_ok `{!LibraryLaws I} (T : Bindings) h n i :
  triple (world_ok T (Some (h, n))) (reconstruct h n i)
    (fun x w => (Forall wf_schema x.1 /\ wf_schema x.2) /\ world_ok T (Some (h, n)) w)
    (world_ok T (Some (h, n))).
Proof.
  unfold reconstruct. eapply triple_bind; [apply call_ok, describe_runs|]. intros [w st].
  apply triple_pure. intros _. destruct (st =? ZEN_OK); cbn [negb]; [|by apply triple_throw].
  eapply triple_bind; [apply (triple_value _ _ _ _ (proj2 (proj2 (proj2 meta_schemas))))|].
  intros door. apply triple_pure. intros ->. eapply triple_bind.
  { apply (on_gate_ok _ _ _ (fun a => (exists v, conforms v manifest_door /\ a = Admission_accept v) \/
      exists e es, a = mkAdmission None (e :: es))). apply admit_ok; [apply manifest_door_wf|eauto|eauto]. }
  intros a. apply triple_pure.
  intros [(v & Hv & ->)|(e & es & ->)]; cbn [Admission_accept adm_ok adm_value is_Some negb].
  - eapply triple_bind; [by apply triple_value|]. intros x. apply triple_pure. intros ->.
    apply on_registry_ok. intros r. eapply safely_weaken; [|by apply rebuild_manifest_safely].
    intros r' x [Hx [Hy _]%Forall_singleton]%Forall_app. split; [|done].
    eapply Forall_impl; [exact Hx|]. by intros s [? _].
  - eapply triple_bind; [by apply triple_value|]. intros x. apply triple_pure. intros _. by apply triple_throw.
Qed.

(** ** Registration *)

(** An adapter of a good library instance. *)
Definition sound (a : HostAdapter I) : Prop :=
  Forall wf_schema (ha_accepted a) /\ wf_schema (ha_state_schema a).

Lemma admit_bytes_sound w door op :
  wf_schema door ->
  admit_bytes w door op <> UB /\ forall v, admit_bytes w door op = Ok v -> conforms v door /\ Value_schema v = door.
Proof.
  intros Hd. unfold admit_bytes.
  destruct (admit_door_cases (parse w) door FirstError 0 Hd) as (g' & _ & [(v & Hc & Hv & _ & ->)|(e & es & ->)]).
  - split; [done|]. by intros ? [= <-].
  - by split.
Qed.

Lemma snapshot_sound `{!LibraryLaws I} (a : HostAdapter I) :
  sound a -> HostAdapter_snapshot a <> UB /\
  forall v, HostAdapter_snapshot a = Ok v -> conforms v (ha_state_schema a) /\ Value_schema v = ha_state_schema a.
Proof.
  intros [_ Hs]. unfold HostAdapter_snapshot. pose proof (snapshot_runs (ha_state a)) as Hr.
  destruct (abi_snapshot (ha_state a)) as [[w st]|e|]; [|done|done]. cbn.
  destruct (st =? ZEN_OK); [|done]. by apply admit_bytes_sound.
Qed.

Lemma adapter_lawful `{!LibraryLaws I} (a : HostAdapter I) : sound a -> lawful (Adapted a : Hosted N I).
Proof.
  intros Ha. split.
  - intros l s [= <-] Hs. apply list_elem_of_fmap in Hs as (s' & [= ->] & Hs).
    destruct Ha as [Ha _]. rewrite Forall_forall in Ha. by apply Ha.
  - intros v Hv. destruct (snapshot_sound a Ha) as [_ Hsnap]. destruct (Hsnap v Hv) as [_ ->]. apply Ha.
Qed.

(** The bus holds the adapter; [libs_] does not name it yet. *)
Definition mounted (T : Bindings) (h n : Z) (a : HostAdapter I) (w : KWorld) : Prop :=
  exists w0 b1 rec, world_ok T (Some (h, n)) w0 /\ w = set_kbus (kbus w) w0 /\ bus_ok [] (kbus w) /\
    stays (fun id => bound (T !! id)) (kbus w0) b1 /\ rec_shard rec = Adapted a /\
    shards (kbus w) = <[L := rec]> (shards b1) /\ next_shard_id (kbus w) = L + 1.

Lemma mount_register_ok `{!LibraryLaws I} (T : Bindings) (h n : Z) (a : HostAdapter I) g :
  sound a -> 1 <= L < 2 ^ 64 - 1 ->
  triple (world_ok T (Some (h, n))) (on_bus (register_shard (Some (Adapted a)) g))
    (fun id w => id = L /\ mounted T h n a w) (world_ok T (Some (h, n))).
Proof.
  intros Ha HL w Hw. destruct (wk_frame _ _ _ Hw) as [Hn _]. pose proof (wk_bus _ _ _ Hw) as Hb.
  pose proof (adapter_lawful a Ha) as Hlaw.
  pose proof (register_runs (Adapted a) g (kbus w) Hlaw ltac:(done) (proj1 (snapshot_sound a Ha))) as Hub.
  destruct (register_lawful_evolves (Some (Adapted a)) g (kbus w)
    ltac:(by intros ? [= <-]) ltac:(lia) Hb) as [Hb' _].
  pose proof (register_shard_adds (fun id => bound (T !! id)) (Adapted a) g (kbus w)) as Hadds.
  unfold on_bus. destruct (register_shard (Some (Adapted a)) g (kbus w)) as [b r]. cbn [fst snd] in *.
  destruct Hadds as [[Hs Hno]|(b1 & rec & Hs & Hrec & -> & Hnext & Hsh)].
  - destruct r as [id|e|]; [by destruct (Hno id)| |done].
    exact (world_quiet T _ w b (kregistry w) Hw Hb' Hs (wk_schemas _ _ _ Hw)).
  - split; [done|]. exists w, b1, rec. rewrite Hn in *. rewrite u64_small in Hnext by (split; lia).
    assert (shards b1 !! L = None) as E; [|by rewrite E in Hsh].
    apply eq_None_not_Some. rewrite (stays_ids _ _ _ Hs). intros [r Hr].
    apply (ok_records _ (proj1 Hb)) in Hr as (_ & Hid & _). lia.
Qed.

End fixed.

Section generic.
Context (away : gmap Z bool).

(** The last two steps of [load]: the adapter learns its id, [libs_] its name. *)
Definition tell_self (id : ShardId) (r : ShardRecord (Hosted N I)) : ShardRecord (Hosted N I) :=
  match rec_shard r with
  | Adapted a => rec_set_shard (Adapted (set_self id a)) r
  | Plain _ => r
  end.

Lemma mounted_holds L (T : Bindings) (h n : Z) (a : HostAdapter I) (b0 b1 b : KBus) rec :
  sound a -> ha_lib a = h -> ha_inst a = n -> T !! L = None ->
  holds (fun id => bound (T !! id)) b0 -> stays (fun id => bound (T !! id)) b0 b1 ->
  rec_shard rec = Adapted a -> shards b = <[L := rec]> (shards b1) ->
  holds (fun id => bound (<[L := Some (h, n)]> T !! id)) (update_shard L (tell_self L) b).
Proof.
  intros [Ha1 Ha2] El En HT H0 Hs Hrec Hsh id r. cbn. rewrite Hsh.
  destruct (decide (id = L)) as [->|Hne].
  - rewrite lookup_alter_eq, !lookup_insert_eq. intros [= <-]. unfold tell_self. rewrite Hrec. cbn.
    exists (set_self L a). by rewrite <-El, <-En.
  - rewrite lookup_alter_ne, !lookup_insert_ne by done. apply (stays_holds _ _ _ Hs H0).
Qed.

Lemma mount_ok {E : KWorld -> Prop} L Ls (T : Bindings) (h n : Z) (a : HostAdapter I) (name : bytes) :
  sound a -> ha_lib a = h -> ha_inst a = n -> Ls !! name = None -> away !! L = None ->
  triple (mounted away L Ls T h n a)
    (_ ← on_bus (modify (update_shard L (tell_self L)));
     modify (fun w => set_libs (<[name := mkLoaded name h h L]> (libs w)) w))
    (fun _ => world_ok away (L + 1) (<[name := mkLoaded name h h L]> Ls) (<[L := Some (h, n)]> T) None)
    E.
Proof.
  intros Ha El En Hname Haw w (w0 & b1 & rec & Hw & -> & Hb & Hs & Hrec & Hsh & Hn).
  cbn [kbus set_kbus] in *. set (b := kbus w) in *. clearbody b. clear w.
  unfold mbind, M_bind, on_bus, modify. cbn.
  destruct (update_evolves [] L (tell_self L) b) as [Hb' _]; [|done|].
  { intros r _ Hr. unfold tell_self. destruct (rec_shard r); [done|]. split; [done|]. by destruct Hr. }
  pose proof Hw as [H1 H2 H3 H4 H5 H6 H7 H8 H9 H10 [H11 H12] [H13 H14] H15 H17 H16].
  destruct (H10 h n eq_refl) as (Ho & Hi & Hlib & Hinst).
  assert (T !! L = None) as HT by (apply eq_None_not_Some; intros Hs'; specialize (H4 L Hs'); lia).
  assert (forall id, T !! id <> None -> id <> L) as Hne by congruence.
  assert (forall nm r, libs w0 !! nm = Some r -> ld_lib r <> h /\ ld_id r <> L) as Hold.
  { intros nm r Hr. split; [by eapply Hlib|]. destruct (H6 nm r Hr) as (_ & o & Ho' & _). apply Hne. congruence. }
  rewrite <-H14 in *. split; cbn; try done.
  - by eapply mounted_holds.
  - rewrite Hn. intros id [o [[<- _]|[_ Hid]]%lookup_insert_Some]; [lia|]. specialize (H4 id ltac:(by eexists)). lia.
  - intros id p. destruct (decide (id = L)) as [->|Hd]; [by rewrite Hsh, lookup_alter_eq, !lookup_insert_eq|].
    rewrite lookup_insert_ne, Hsh, lookup_alter_ne, lookup_insert_ne, (stays_ids _ _ _ Hs) by done. apply H5.
  - intros nm r [[<- <-]|[_ Hr]]%lookup_insert_Some; cbn.
    + split; [done|]. eexists. rewrite lookup_insert_eq. split; [done|]. by intros p [= <-].
    + rewrite lookup_insert_ne by (symmetry; by apply (Hold nm r)). by apply H6 in Hr.
  - intros id h' n' [[<- [= <- <-]]|[_ Hid]]%lookup_insert_Some.
    + split; [done|]. exists name, (mkLoaded name h h L). by rewrite lookup_insert_eq.
    + destruct (H7 id h' n' Hid) as (Hi' & nm & r & Hr & Hl). split; [done|]. exists nm, r.
      rewrite lookup_insert_ne; [done|]. congruence.
  - intros nm nm' r r' [[<- <-]|[_ Hr]]%lookup_insert_Some [[<- <-]|[_ Hr']]%lookup_insert_Some; cbn.
    + done.
    + destruct (Hold _ _ Hr'). by intros [?|?].
    + destruct (Hold _ _ Hr). by intros [?|?].
    + by eapply H8.
  - intros n' h' Hin. destruct (H9 n' h' Hin) as [[id Hid]|[= <- <-]]; left.
    + exists id. rewrite lookup_insert_ne; [done|]. apply not_eq_sym, Hne. congruence.
    + exists L. by rewrite lookup_insert_eq.
  - intros nm r [[<- <-]|[_ Hr]]%lookup_insert_Some; [cbn; by rewrite Haw|by eapply H15].
  - intros id on Hon. assert (id <> L) as Hid by congruence.
    rewrite Hsh, lookup_alter_ne, lookup_insert_ne, (stays_ids _ _ _ Hs) by done. auto.
  - assert (forall id h' n', T !! id = Some (Some (h', n')) -> h' <> h) as Hnew.
    { intros id h' n' Hid. destruct (H7 id h' n' Hid) as (_ & nm & r & Hr & <- & _). by eapply Hlib. }
    intros id id' h' n1 n2 [[<- [= <- <-]]|[_ Hid]]%lookup_insert_Some [[<- Eid]|[_ Hid']]%lookup_insert_Some.
    + done.
    + by destruct (Hnew _ _ _ Hid').
    + injection Eid as -> _. by destruct (Hnew _ _ _ Hid).
    + by eapply H16.
Qed.

(** ** Loading *)

Section operations.
Context `{lib_laws : !LibraryLaws I} (disk : bytes -> bytes + LibFile I) (L : Z) (Ls : gmap bytes Loaded).

(** Giving up: the library alone, or its instance first. *)
Lemma close_out {A : Type} (T : Bindings) (h : Z) (out : A) (Q : A -> KWorld -> Prop) E :
  (forall w, world_ok away L Ls T None w -> Q out w) ->
  triple (fun w => world_ok away L Ls T None w /\ idle h w) (_ ← lib_close h; mret out) Q E.
Proof.
  intros HQ. apply (triple_bind _ _ (fun _ => world_ok away L Ls T None)); [|intros ?; by apply triple_ret].
  eapply triple_conseq; [apply (lib_close_ok away L Ls T)|done|done|by intros ?].
Qed.

Lemma give_out {A : Type} (T : Bindings) (h n : Z) (out : A) (Q : A -> KWorld -> Prop) E :
  (forall w, world_ok away L Ls T None w -> Q out w) ->
  triple (world_ok away L Ls T (Some (h, n))) (_ ← discard h n; mret out) Q E.
Proof.
  intros HQ. apply (triple_bind _ _ (fun _ => world_ok away L Ls T None)); [|intros ?; by apply triple_ret].
  eapply triple_conseq; [apply (discard_ok away L Ls T)|done|done|by intros ?].
Qed.

Definition loads (T : Bindings) (name : bytes) (r : LoadResult) (w : KWorld) : Prop :=
  if load_ok r then
    load_id r = L /\ exists h n,
      world_ok away (L + 1) (<[name := mkLoaded name h h L]> Ls) (<[L := Some (h, n)]> T) None w
  else world_ok away L Ls T None w.

Lemma load_world_ok (T : Bindings) (name path : bytes) :
  1 <= L < 2 ^ 64 - 1 -> away !! L = None ->
  triple (world_ok away L Ls T None) (load variant_what disk name path) (loads T name) (fun _ => False).
Proof.
  intros HL Haw. unfold load. eapply triple_bind.
  { apply (triple_gets _ _ (fun t w => t = Ls !! name /\ world_ok away L Ls T None w)).
    intros w Hw. by destruct (wk_frame _ _ _ _ _ _ Hw) as [_ <-]. }
  intros taken. apply triple_pure. intros ->. destruct (Ls !! name) as [rec|] eqn:Hname; [by apply triple_ret|].
  eapply triple_bind; [apply lib_open_ok|]. intros [error|[h file]]; [by apply triple_ret; intros ? [? _]|].
  destruct (fetch_abi file) as [error|abi]; [by apply close_out|].
  eapply triple_bind; [apply create_ok|]. intros [[n i]|]; [|by apply close_out].
  eapply triple_bind; [apply triple_try, (reconstruct_ok away L Ls T h n i)|]. intros [e|[accepted st]]; [by apply give_out|].
  apply triple_pure. intros [Hacc Hst]. cbn [fst snd] in *. cbv zeta.
  set (a := mkAdapter h n i accepted st 0).
  eapply triple_bind; [apply triple_try; apply (mount_register_ok away L Ls T h n a); [by split|done]|].
  intros [e|id]; [by apply give_out|]. apply triple_pure. intros ->.
  eapply triple_bind2; [by apply (mount_ok L Ls T h n a name)|]. intros ?. apply triple_ret.
  intros w Hw. split; [done|]. by exists h, n.
Qed.

(** ** Reloading *)

(** Observers may throw, but do not crash. *)
Context (Hcalm : forall (o : Ob) ev, (notify o ev).2 <> UB).

Lemma emit_runs ev (b : KBus) : (emit ev b).2 <> UB.
Proof.
  unfold emit. generalize (length (observers b)) as n, 0%nat as i. intros n. revert b.
  induction n as [|n IH]; intros b i; cbn [emit_loop]; [done|]. unfold mbind, M_bind.
  assert ((call_observer i ev b).2 <> UB) as Hc.
  { unfold call_observer. destruct (observers b !! i) as [[id [o|]]|]; [|done..].
    specialize (Hcalm o ev). by destruct (notify o ev) as [[? ?] ?]. }
  destruct (call_observer i ev b) as [b1 [[]|e|]]; [apply IH|done|done].
Qed.

(** The adapter under the id a loaded name has. *)
Lemma bound_adapter (T : Bindings) pend (w : KWorld) id o rec :
  world_ok away L Ls T pend w -> T !! id = Some o -> shards (kbus w) !! id = Some rec ->
  exists p a, o = Some p /\ rec_shard rec = Adapted a /\ ha_lib a = p.1 /\ ha_inst a = p.2 /\ sound a.
Proof.
  intros Hw HT Hr. pose proof (wk_shards _ _ _ _ _ _ Hw id rec Hr) as Hb. cbn in Hb. rewrite HT in Hb.
  destruct o as [p|]; [|done]. destruct Hb as (a & ? & ? & ? & ?). by exists p, a.
Qed.

Lemma snapshot_bytes_ok (T : Bindings) (w : KWorld) id o :
  world_ok away L Ls T None w -> T !! id = Some o ->
  snapshot_bytes id (kbus w) <> UB /\
  forall s, snapshot_bytes id (kbus w) = Ok s -> is_Some (shards (kbus w) !! id) /\ exists p, o = Some p.
Proof.
  intros Hw HT. unfold snapshot_bytes, find. destruct (shards (kbus w) !! id) as [rec|] eqn:Hr; [|done].
  destruct (bound_adapter T None w id o rec Hw HT Hr) as (p & a & -> & -> & _ & _ & Ha).
  split; [|by split; [|exists p]]. change (shard_snapshot (Adapted a)) with (HostAdapter_snapshot a).
  destruct (snapshot_sound a Ha) as [Hub Hok]. destruct (HostAdapter_snapshot a) as [v|e|] eqn:E; [|done|done].
  cbn. revert E. unfold HostAdapter_snapshot.
  destruct (abi_snapshot (ha_state a)) as [[s st]|e|]; [|done|done]. cbn.
  destruct (st =? ZEN_OK); [cbn|done]. unfold admit_bytes.
  destruct (admit_door (parse s) (Some (ha_state_schema a)) FirstError 0) as [g [ad|e|]] eqn:Ead; [|done|done].
  cbn. destruct (adm_ok ad) eqn:Eok; cbn; [|by destruct (first_error ad)].
  destruct ad as [[v'|] es]; [|done]. intros [= <-].
  by rewrite (admitted_canonical s (ha_state_schema a) FirstError 0 g _ v' (proj2 Ha) Ead eq_refl).
Qed.

Lemma runs_bind {S A B : Type} (m : M S A) (f : A -> M S B) s :
  (m s).2 <> UB -> (forall a s', m s = (s', Ok a) -> (f a s').2 <> UB) -> ((m ≫= f) s).2 <> UB.
Proof. intros Hm Hf. unfold mbind, M_bind. destruct (m s) as [s' [a|e|]]; [by apply Hf|done|done]. Qed.

(** The swap hands the library only bytes the gate admitted. *)
Lemma swap_runs (T : Bindings) pend (w : KWorld) id o cand :
  world_ok away L Ls T pend w -> T !! id = Some o -> (swap_state id cand (kbus w)).2 <> UB.
Proof.
  intros Hw HT. unfold swap_state. apply runs_bind; [done|]. intros found ? [= <- <-]. unfold find.
  destruct (shards (kbus w) !! id) as [rec|] eqn:Hr; [|done].
  destruct (bound_adapter T pend w id o rec Hw HT Hr) as (p & a & -> & Hrec & _ & _ & Ha).
  destruct (ok_records _ (proj1 (wk_bus _ _ _ _ _ _ Hw)) id rec Hr) as (_ & _ & Hrok). cbv zeta.
  destruct (admit_door_cases (parse cand) (state_schema rec) FirstError (gate_calls (kbus w))
    ltac:(apply Hrok)) as (g & _ & [(v & _ & _ & _ & E)|(e & es & E)]);
    (apply runs_bind; unfold gate; rewrite E; [done|]); intros ad b' [= <- <-];
    cbn [Admission_accept adm_ok adm_value is_Some negb]; (apply runs_bind; [done|]).
  - intros x ? [= <- <-]. apply runs_bind; [|intros ? b1 _; apply runs_bind; [done|]].
    + unfold revive_at, find. cbn [shards set_gate_calls]. rewrite Hr, Hrec.
      change (revive (Adapted a) v) with (let '(a, r) := HostAdapter_revive a v in (Adapted (N:=N) a, r)).
      unfold HostAdapter_revive.
      rewrite (admitted_canonical cand (state_schema rec) FirstError _ _ _ v ltac:(apply Hrok) E eq_refl).
      pose proof (revive_runs (ha_state a) cand) as Hrv. destruct (abi_revive (ha_state a) cand) as [i r].
      destruct r as [st|e|]; cbn; [|done|done]. by destruct (st =? ZEN_OK).
    + intros ? ? [= <- _]. by apply runs_bind; [apply emit_runs|].
  - intros x ? [= <- <-]. by apply runs_bind; [apply emit_runs|].
Qed.

(** A library has one adapter. *)
Lemma lib_owner (T : Bindings) pend (w : KWorld) id p id' h' n' :
  world_ok away L Ls T pend w -> T !! id = Some (Some p) ->
  T !! id' = Some (Some (h', n')) -> h' = p.1 -> id' = id /\ n' = p.2.
Proof.
  destruct p as [h n]. cbn. intros Hw HT HT' ->. assert (id' = id) as -> by (by eapply (wk_one _ _ _ _ _ _ Hw)).
  rewrite HT in HT'. by injection HT' as ->.
Qed.

Lemma rebind_holds (T : Bindings) (b : KBus) id h n i rec a :
  shards b !! id = Some rec -> sound a ->
  holds (fun id => bound (T !! id)) b ->
  holds (fun id' => bound (<[id := Some (h, n)]> T !! id'))
    (update_shard id (rec_set_shard (Adapted (rebind h n i a))) b).
Proof.
  intros Hr [Ha1 Ha2] Hb id' r. cbn. destruct (decide (id' = id)) as [->|Hne].
  - rewrite lookup_alter_eq, lookup_insert_eq, Hr. intros [= <-]. by exists (rebind h n i a).
  - rewrite lookup_alter_ne, lookup_insert_ne by done. apply Hb.
Qed.

(** Two names have neither a library nor an id in common. *)
Lemma other_name (T : Bindings) pend (w : KWorld) name rec name' rec' :
  world_ok away L Ls T pend w -> libs w !! name = Some rec -> libs w !! name' = Some rec' -> name' <> name ->
  ld_lib rec' <> ld_lib rec /\ ld_id rec' <> ld_id rec.
Proof. intros Hw Hr Hr' Hne. split; intros E; apply Hne; eapply (wk_libs_inj _ _ _ _ _ _ Hw); eauto. Qed.

(** The swap of the instances: the old one dies, its library is left idle. *)
Lemma rebind_ok {E : KWorld -> Prop} (T : Bindings) (name : bytes) rec (p : Z * Z) (h n : Z) i :
  Ls !! name = Some rec -> T !! ld_id rec = Some (Some p) -> away !! ld_id rec = None ->
  triple (world_ok away L Ls T (Some (h, n)))
    (_ ← rebind_at (ld_id rec) h n i;
     modify (fun w => set_libs (<[name := mkLoaded (ld_name rec) h h (ld_id rec)]> (libs w)) w))
    (fun _ w => world_ok away L (<[name := mkLoaded (ld_name rec) h h (ld_id rec)]> Ls)
      (<[ld_id rec := Some (h, n)]> T) None w /\ idle (ld_lib rec) w)
    E.
Proof.
  intros Hname HT Haw w Hw. set (id := ld_id rec) in *. destruct (wk_frame _ _ _ _ _ _ Hw) as [H13 H14].
  rewrite <-H14 in Hname.
  destruct (wk_present _ _ _ _ _ _ Hw id p HT Haw) as [r Hr].
  destruct (bound_adapter T _ w id _ r Hw HT Hr) as (p' & a & [= <-] & Hra & El & En & Ha).
  destruct p as [h0 n0]. cbn in El, En. pose proof (owned_callable _ _ _ _ _ _ _ _ _ Hw HT) as Hcall.
  pose proof (fun id' n' HT' => lib_owner T _ w id _ id' h0 n' Hw HT HT' eq_refl) as Hown.
  unfold rebind_at, mbind, M_bind, gets, adapter_at, shard, find, on_bus, lift, modify. rewrite Hr. cbn.
  rewrite Hra. cbn. unfold destroy. rewrite El, En, Hcall. cbn.
  destruct (set_shard_evolves [] id (Adapted (rebind h n i a)) (kbus w) (wk_bus _ _ _ _ _ _ Hw)) as [Hb' _].
  pose proof Hw as [H1 H2 H3 H4 H5 H6 H7 H8 H9 H10 [H11 H12] _ H15 H17 H16].
  destruct (H10 h n eq_refl) as (Ho & Hi & Hlib & Hinst).
  destruct (H6 name rec Hname) as (Holdopen & o & Ho' & Hl). fold id in Ho'. rewrite HT in Ho'. injection Ho' as <-.
  specialize (Hl _ eq_refl). cbn in Hl. subst h0.
  assert (h <> ld_lib rec) as Hh by (by intros ->; eapply Hlib).
  pose proof (fun nm r' => other_name T _ w name rec nm r' Hw Hname) as Hother. fold id in Hother, Hown.
  assert (forall id' h' n', T !! id' = Some (Some (h', n')) -> id' <> id -> n' <> n0) as Hn0.
  { intros id' h' n' HT' Hne ->. apply Hne. destruct (H7 id' h' n0 HT') as [Ei _].
    destruct (H7 id _ n0 HT) as [Ej _]. rewrite Ei in Ej. injection Ej as ->. by eapply Hown. }
  split; [split; cbn; try done|split; [done|split]]; cbn.
  - by eapply rebind_holds.
  - intros id' [o [[<- _]|[_ Hid]]%lookup_insert_Some]; apply H4; by eexists.
  - intros id' q. destruct (decide (id' = id)) as [->|Hd]; [by rewrite lookup_alter_eq, Hr|].
    rewrite lookup_insert_ne, lookup_alter_ne by done. apply H5.
  - intros nm r' [[<- <-]|[Hne Hr']]%lookup_insert_Some; cbn.
    + split; [done|]. eexists. rewrite lookup_insert_eq. split; [done|]. by intros q [= <-].
    + rewrite lookup_insert_ne by (symmetry; by apply (Hother nm r')). by apply H6 in Hr'.
  - intros id' h' n' [[<- [= <- <-]]|[Hne Hid]]%lookup_insert_Some.
    + rewrite lookup_delete_ne by (intros ->; by apply (Hinst _ _ HT)). split; [done|].
      exists name. eexists. by rewrite lookup_insert_eq.
    + destruct (H7 id' h' n' Hid) as (Hi' & nm & r' & Hr' & Hl').
      rewrite lookup_delete_ne by (symmetry; by eapply Hn0). split; [done|]. exists nm, r'.
      rewrite lookup_insert_ne; [done|]. intros <-. apply Hne. assert (r' = rec) as -> by congruence.
      destruct Hl' as [<- _]. rewrite <-Hl in Hid. symmetry. by eapply Hown.
  - intros nm nm' r1 r2 [[<- <-]|[Hd1 Hr1]]%lookup_insert_Some [[<- <-]|[Hd2 Hr2]]%lookup_insert_Some; cbn.
    + done.
    + destruct (Hother _ _ Hr2) as [_ Hid]; [done|]. intros [?|?]; [by destruct (Hlib _ _ Hr2)|by destruct Hid].
    + destruct (Hother _ _ Hr1) as [_ Hid]; [done|]. intros [?|?]; [by destruct (Hlib _ _ Hr1)|by destruct Hid].
    + by eapply H8.
  - intros n' h' [Hne Hin]%lookup_delete_Some. destruct (H9 n' h' Hin) as [[id' Hid]|[= <- <-]]; left.
    + exists id'. rewrite lookup_insert_ne; [done|]. intros <-. congruence.
    + exists id. by rewrite lookup_insert_eq.
  - split; [done|]. intros n' h' [_ Hin]%lookup_delete_Some. by eapply H12.
  - by rewrite H14.
  - intros nm r' [[<- <-]|[Hd Hr']]%lookup_insert_Some; [cbn; by rewrite Haw|by eapply H15].
  - intros id' on Hon. rewrite lookup_alter_ne by congruence. auto.
  - assert (forall id h' n', T !! id = Some (Some (h', n')) -> h' <> h) as Hnew.
    { intros id1 h' n' Hid. destruct (H7 id1 h' n' Hid) as (_ & nm & r' & Hr' & <- & _). by eapply Hlib. }
    intros id1 id2 h' n1 n2 [[<- [= <- <-]]|[_ Hid]]%lookup_insert_Some [[<- Eid]|[_ Hid']]%lookup_insert_Some.
    + done.
    + by destruct (Hnew _ _ _ Hid').
    + injection Eid as -> _. by destruct (Hnew _ _ _ Hid).
    + by eapply H16.
  - intros nm r' [[<- <-]|[Hd Hr']]%lookup_insert_Some; [done|]. by apply (Hother nm r').
  - intros n' [Hne Hin]%lookup_delete_Some. rewrite <-Hl in Hin. destruct (H9 n' _ Hin) as [[id' Hid]|[= -> _]]; [|done].
    destruct (Hown _ _ Hid) as [_ En']. by apply Hne.
Qed.

Definition reloads (T : Bindings) (name : bytes) (r : option ReloadResult) (w : KWorld) : Prop :=
  (world_ok away L Ls T None w /\ exists o, r = Some o /\ reloaded o = false) \/
  exists rec p h n, Ls !! name = Some rec /\ T !! ld_id rec = Some (Some p) /\ away !! ld_id rec = None /\
    world_ok away L (<[name := mkLoaded (ld_name rec) h h (ld_id rec)]> Ls) (<[ld_id rec := Some (h, n)]> T) None w /\
    (r = None -> idle (ld_lib rec) w).
End operations.

Section reload_ops.
Context `{lib_laws : !LibraryLaws I} (disk : bytes -> bytes + LibFile I).
Context (Hcalm : forall (o : Ob) ev, (notify o ev).2 <> UB).

Lemma swap_ok L Ls (T : Bindings) (h id : Z) o cand :
  T !! id = Some o ->
  triple (fun w => world_ok away L Ls T None w /\ idle h w) (on_bus (swap_state id cand))
    (fun _ w => world_ok away L Ls T None w /\ idle h w) (fun w => world_ok away L Ls T None w /\ idle h w).
Proof.
  intros HT w [Hw Hi]. pose proof (swap_runs L Ls Hcalm T None w id o cand Hw HT) as Hub.
  destruct (swap_state_evolves id cand (kbus w) (wk_bus _ _ _ _ _ _ Hw)) as [Hb _].
  pose proof (swap_state_stays (fun id => bound (T !! id)) (fun id => bound_revive (T !! id)) id cand (kbus w)) as Hs.
  unfold on_bus. destruct (swap_state id cand (kbus w)) as [b r]. cbn [fst snd] in *.
  assert (world_ok away L Ls T None (set_kbus b w)) as Hw'
    by exact (world_quiet away L Ls T None w b (kregistry w) Hw Hb Hs (wk_schemas _ _ _ _ _ _ Hw)).
  by destruct r.
Qed.

Lemma reload_world_ok L Ls (T : Bindings) (name path : bytes) :
  triple (world_ok away L Ls T None) (reload_from variant_what disk name path)
    (fun r => reloads L Ls T name (Some r)) (reloads L Ls T name None).
Proof.
  assert (forall o w, world_ok away L Ls T None w -> reloaded o = false -> reloads L Ls T name (Some o) w) as Hstay
    by (intros o w Hw Ho; left; eauto).
  unfold reload_from. eapply triple_bind.
  { apply (triple_gets _ _ (fun t w => t = Ls !! name /\ world_ok away L Ls T None w)).
    intros w Hw. by destruct (wk_frame _ _ _ _ _ _ Hw) as [_ <-]. }
  intros found. apply triple_pure. intros ->. destruct (Ls !! name) as [rec|] eqn:Hname; [|by apply triple_ret; auto].
  eapply triple_bind.
  { apply (triple_try _ _ (fun _ w => ((exists p, T !! ld_id rec = Some (Some p)) /\ away !! ld_id rec = None) /\ world_ok away L Ls T None w)
      (world_ok away L Ls T None)).
    intros w Hw. destruct (wk_frame _ _ _ _ _ _ Hw) as [_ El]. rewrite <-El in Hname.
    destruct (wk_libs _ _ _ _ _ _ Hw name rec Hname) as (_ & o & Ho & _).
    destruct (snapshot_bytes_ok L Ls T w _ o Hw Ho) as [Hub Hok]. cbn.
    destruct (snapshot_bytes (ld_id rec) (kbus w)) as [s|e|]; [|done|done].
    destruct (Hok s eq_refl) as [Hr [p ->]]. split; [split; [by exists p|]|done].
    destruct (away !! ld_id rec) as [on|] eqn:Eo; [|done]. apply (wk_where _ _ _ _ _ _ Hw _ on Eo) in Hr as ->.
    by destruct (wk_away _ _ _ _ _ _ Hw name rec Hname). }
  intros [e|snapshot]; [by apply triple_ret; auto|]. apply triple_pure. intros [[p HT] Haw].
  eapply triple_bind; [apply lib_open_ok|]. intros [error|[h file]]; [by apply triple_ret; intros ? []; auto|].
  destruct (fetch_abi file) as [error|abi]; [by apply close_out; auto|].
  eapply triple_bind; [apply create_ok|]. intros [[n i]|]; [|by apply close_out; auto].
  eapply triple_bind; [apply triple_try, (reconstruct_ok away L Ls T h n i)|].
  intros [e|[accepted st]]; [by apply give_out; auto|].
  apply triple_pure. intros [Hacc Hst]. cbn [fst snd] in *.
  apply (triple_bind _ _ (fun o w => (exists a, o = Some a) /\ world_ok away L Ls T (Some (h, n)) w)).
  { apply triple_gets. intros w Hw. split; [|done]. destruct (wk_present _ _ _ _ _ _ Hw _ p HT Haw) as [r Hr].
    destruct (bound_adapter L Ls T _ w _ _ r Hw HT Hr) as (q & a & _ & E & _).
    exists a. unfold adapter_at, shard, find. by rewrite Hr; cbn; rewrite E. }
  intros o. apply triple_pure. intros [a ->]. eapply triple_bind; [by apply triple_value|].
  intros a'. apply triple_pure. intros ->. destruct (_ || _); [by apply give_out; auto|].
  eapply triple_bind2; [by eapply rebind_ok|]. intros ?.
  eapply triple_bind.
  { eapply triple_error.
    - eapply (swap_ok L _ (<[ld_id rec := Some (h, n)]> T)). by rewrite lookup_insert_eq.
    - intros w [Hw Hi]. right. by exists rec, p, h, n. }
  intros ro. eapply triple_bind; [apply lib_close_ok|]. intros ?.
  destruct (revived ro); apply triple_ret; intros w Hw; right; by exists rec, p, h, n.
Qed.

End reload_ops.

(** ** Taking a shard off the bus *)

(** [bus.unregister_shard(id)] by a caller that lets go of the shard it is handed, as
    [unload] does; [Ownership] has the caller that keeps it. *)
Definition take_off (id : ShardId) : M KWorld unit :=
  adapter ← on_bus (fun b => let '(b, sh) := unregister_shard id b in (b, Ok sh));
  reset_shard adapter.

Lemma off_holds (T T' : Bindings) (b : KBus) id :
  (forall id', id' <> id -> T' !! id' = T !! id') -> holds (fun id => bound (T !! id)) b ->
  holds (fun id => bound (T' !! id)) (set_shards (delete id (shards b)) b).
Proof.
  intros HT Hb id' r Hr. cbn in Hr. apply lookup_delete_Some in Hr as [Hne Hr]. rewrite HT by done.
  by apply Hb.
Qed.

(** Taking nothing off changes nothing. *)
Lemma off_nothing (b : KBus) id : shards b !! id = None -> set_shards (delete id (shards b)) b = b.
Proof. intros H. rewrite delete_id by done. by destruct b. Qed.

Lemma off_evolves id (b : KBus) : bus_ok [] b -> bus_ok [] (set_shards (delete id (shards b)) b).
Proof.
  intros Hb. destruct (unregister_evolves id b Hb) as [Hb' _]. unfold unregister_shard, find in Hb'.
  destruct (shards b !! id) eqn:E; [done|by rewrite off_nothing].
Qed.

(** What is left of an adapter that is destroyed: a name whose shard is gone. *)
Lemma off_adapter L Ls (T : Bindings) (w : KWorld) id p :
  world_ok away L Ls T None w -> T !! id = Some (Some p) -> away !! id <> Some true ->
  world_ok away L Ls (<[id := None]> T) None
    (set_native (open_libs w) (delete p.2 (instances w)) (next_native w)
      (set_kbus (set_shards (delete id (shards (kbus w))) (kbus w)) w)).
Proof.
  intros Hw HT Hgone. pose proof Hw as [H1 H2 H3 H4 H5 H6 H7 H8 H9 H10 [H11 H12] [H13 H14] H15 H17 H16].
  destruct p as [h0 n0]. destruct (H7 id h0 n0 HT) as [Hi0 _].
  split; cbn; try done.
  - by apply off_evolves.
  - apply (off_holds T); [|done]. intros id' Hne. by rewrite lookup_insert_ne.
  - intros id' [o [[<- _]|[_ Hid]]%lookup_insert_Some]; apply H4; by eexists.
  - intros id' q [[_ [=]]|[Hne Hid]]%lookup_insert_Some. rewrite lookup_delete_ne by done. by eapply H5.
  - intros nm r' Hr'. destruct (H6 nm r' Hr') as (Ho & o & Ho' & Hl). split; [done|].
    destruct (decide (ld_id r' = id)) as [<-|Hne]; [exists None; by rewrite lookup_insert_eq|].
    exists o. by rewrite lookup_insert_ne.
  - intros id' h' n' [[_ [=]]|[Hne Hid]]%lookup_insert_Some. destruct (H7 id' h' n' Hid) as (Hi' & nm & r' & Hr' & El).
    rewrite lookup_delete_ne; [by eauto|]. intros <-. apply Hne. assert (h' = h0) as -> by congruence.
    symmetry. by eapply (lib_owner L Ls T None w id (h0, n0)).
  - intros n' h' [Hne Hin]%lookup_delete_Some. destruct (H9 n' h' Hin) as [[id' Hid]|]; [left|done].
    exists id'. rewrite lookup_insert_ne; [done|]. intros <-. congruence.
  - split; [done|]. intros n' h' [_ Hin]%lookup_delete_Some. by eapply H12.
  - intros id' on Hon. destruct (decide (id' = id)) as [->|Hne]; [|rewrite lookup_delete_ne by done; auto].
    rewrite lookup_delete_eq. destruct on; [done|]. split; [by intros []|done].
  - intros id1 id2 h' n1 n2 [[_ [=]]|[_ Hid]]%lookup_insert_Some [[_ [=]]|[_ Hid']]%lookup_insert_Some. by eapply H16.
Qed.

Lemma take_off_ok {E : KWorld -> Prop} L Ls (T : Bindings) id :
  away !! id <> Some true -> (forall p, T !! id = Some (Some p) -> away !! id = None) ->
  triple (world_ok away L Ls T None) (take_off id)
    (fun _ => world_ok away L Ls (match T !! id with Some _ => <[id := None]> T | None => T end) None) E.
Proof.
  intros Hnot Haw w Hw. unfold take_off, mbind, M_bind, on_bus.
  destruct (unregister_evolves id (kbus w) (wk_bus _ _ _ _ _ _ Hw)) as [Hb _].
  unfold unregister_shard, find in *. destruct (shards (kbus w) !! id) as [r|] eqn:Hr; cbn [fst] in Hb.
  - pose proof (wk_shards _ _ _ _ _ _ Hw id r Hr) as Hbd. cbn in Hbd. destruct (T !! id) as [[p|]|] eqn:HT; [|done|].
    + destruct Hbd as (a & -> & E1 & E2 & _). cbn [reset_shard]. unfold destroy.
      change (callable _ _ _) with (callable (ha_lib a) (ha_inst a) w). destruct p as [h0 n0].
      cbn in E1, E2. rewrite E1, E2, (owned_callable _ _ _ _ _ _ _ _ _ Hw HT). by apply (off_adapter L Ls T w id (h0, n0)).
    + destruct Hbd as [s ->]. cbn [reset_shard mret]. unfold M_ret.
      pose proof Hw as [H1 H2 H3 H4 H5 H6 H7 H8 H9 H10 H11 H12 H15 H17 H16]. split; cbn; try done.
      * by apply (off_holds T).
      * intros id' q Hid. rewrite lookup_delete_ne; [by eapply H5|]. intros <-. congruence.
      * intros id' on Hon. destruct (decide (id' = id)) as [->|Hne]; [|rewrite lookup_delete_ne by done; auto].
        destruct on; [done|]. by destruct (proj1 (H17 id false Hon)); eexists.
  - cbn. destruct (T !! id) as [[p|]|] eqn:HT.
    + destruct (wk_present _ _ _ _ _ _ Hw id p HT (Haw p eq_refl)) as [r E']. congruence.
    + rewrite insert_id by done. by destruct w.
    + by destruct w.
Qed.

(** Forgetting a name whose library has no adapter left leaves the library idle. *)
Lemma forget_ok L Ls (T : Bindings) (w : KWorld) name rec :
  world_ok away L Ls T None w -> Ls !! name = Some rec -> T !! ld_id rec = Some None ->
  (forall id n, T !! id <> Some (Some (ld_lib rec, n))) ->
  world_ok away L (delete name Ls) (delete (ld_id rec) T) None (set_libs (delete name (libs w)) w) /\
  idle (ld_lib rec) (set_libs (delete name (libs w)) w).
Proof.
  intros Hw Hname HT Hsolo. pose proof Hw as [H1 H2 H3 H4 H5 H6 H7 H8 H9 H10 [H11 H12] [H13 H14] H15 H17 H16].
  rewrite <-H14 in *. pose proof (fun nm r' => other_name L _ T _ w name rec nm r' Hw Hname) as Hother.
  destruct (H6 name rec Hname) as (Ho & _).
  split; [split; cbn; try done|split; [done|split]]; cbn.
  - intros id r Hr. cbn. destruct (decide (id = ld_id rec)) as [->|Hne].
    + specialize (H3 _ r Hr). cbn in H3. by rewrite HT in H3.
    + rewrite lookup_delete_ne by done. by apply H3.
  - intros id [o [_ Hid]%lookup_delete_Some]. apply H4. by eexists.
  - intros id q [_ Hid]%lookup_delete_Some. by eapply H5.
  - intros nm r' [Hne Hr']%lookup_delete_Some. rewrite lookup_delete_ne by (symmetry; by apply (Hother nm r')).
    by apply H6 in Hr'.
  - intros id h n [_ Hid]%lookup_delete_Some. destruct (H7 id h n Hid) as (Hi & nm & r' & Hr' & <- & Hl).
    split; [done|]. exists nm, r'. rewrite lookup_delete_ne; [done|]. intros <-.
    assert (r' = rec) as -> by congruence. by eapply Hsolo.
  - intros nm nm' r1 r2 [_ Hr1]%lookup_delete_Some [_ Hr2]%lookup_delete_Some. by eapply H8.
  - intros n h Hin. destruct (H9 n h Hin) as [[id Hid]|]; [left|done]. exists id.
    rewrite lookup_delete_ne; [done|]. intros <-. congruence.
  - intros nm r' [_ Hr']%lookup_delete_Some. by eapply H15.
  - intros id1 id2 h n1 n2 [_ Hid]%lookup_delete_Some [_ Hid']%lookup_delete_Some. by eapply H16.
  - intros nm r' [Hne Hr']%lookup_delete_Some. by apply (Hother nm r').
  - intros n Hin. destruct (H9 n _ Hin) as [[id Hid]|]; [|done]. by eapply Hsolo.
Qed.

(** The library of a record has no adapter but under the record's id. *)
Definition at_home (T : Bindings) (rec : Loaded) : Prop :=
  forall id n, T !! id = Some (Some (ld_lib rec, n)) -> away !! id = None.

Lemma home_owner L Ls (T : Bindings) pend (w : KWorld) name rec id n :
  world_ok away L Ls T pend w -> libs w !! name = Some rec -> at_home T rec ->
  T !! id = Some (Some (ld_lib rec, n)) -> id = ld_id rec.
Proof.
  intros Hw Hname Hhome Hid. destruct (wk_owned _ _ _ _ _ _ Hw id _ n Hid) as (_ & nm & r & Hr & El & Hh).
  assert (nm = name) as -> by (eapply (wk_libs_inj _ _ _ _ _ _ Hw); [done|done|by left]).
  assert (r = rec) as -> by congruence. symmetry. by eapply Hh, Hhome.
Qed.

Lemma home_here L Ls (T : Bindings) pend (w : KWorld) name rec p :
  world_ok away L Ls T pend w -> libs w !! name = Some rec -> at_home T rec ->
  T !! ld_id rec = Some (Some p) -> away !! ld_id rec = None.
Proof.
  intros Hw Hname Hhome Hp. destruct p as [h n]. destruct (wk_libs _ _ _ _ _ _ Hw name rec Hname) as (_ & o & Ho & Hl).
  rewrite Hp in Ho. injection Ho as <-. specialize (Hl _ eq_refl). cbn in Hl. subst h. by eapply Hhome.
Qed.

Lemma unload_as name rec (w : KWorld) :
  libs w !! name = Some rec -> (take_off (ld_id rec) w).2 <> UB ->
  unload name w = (_ ← take_off (ld_id rec); _ ← modify (fun w => set_libs (delete name (libs w)) w);
      _ ← lib_close (ld_lib rec); mret true) w.
Proof.
  intros Hr. unfold unload, take_off, mbind, M_bind, gets, modify, on_bus. rewrite Hr.
  cbn. destruct (unregister_shard (ld_id rec) (kbus w)) as [b [[s|a]|]]; cbn [reset_shard]; [done| |done].
  unfold destroy. change (callable _ _ _) with (callable (ha_lib a) (ha_inst a) w).
  change (callable (ha_lib a) (ha_inst a) (set_kbus b _)) with (callable (ha_lib a) (ha_inst a) w).
  by destruct (callable _ _ w).
Qed.

Lemma drop_ok {E : KWorld -> Prop} L Ls (T : Bindings) name rec o :
  Ls !! name = Some rec -> T !! ld_id rec = Some o -> at_home T rec ->
  triple (world_ok away L Ls T None)
    (_ ← take_off (ld_id rec); _ ← modify (fun w => set_libs (delete name (libs w)) w);
     _ ← lib_close (ld_lib rec); mret true)
    (fun r w => r = true /\ world_ok away L (delete name Ls) (delete (ld_id rec) T) None w) E.
Proof.
  intros Hname HT Hhome w Hw. destruct (wk_frame _ _ _ _ _ _ Hw) as [_ El].
  rewrite <-El in Hname. pose proof (fun p => home_here L Ls T None w name rec p Hw Hname Hhome) as Haw.
  pose proof (wk_away _ _ _ _ _ _ Hw name rec Hname) as Hnot.
  assert (forall id n, <[ld_id rec := None]> T !! id <> Some (Some (ld_lib rec, n))) as Hsolo.
  { intros id n [[_ [=]]|[Hne Hid]]%lookup_insert_Some. apply Hne. symmetry. by eapply home_owner. }
  rewrite El in Hname. clear El. revert w Hw. eapply triple_bind; [by apply take_off_ok|]. intros ?. rewrite HT.
  apply (triple_bind _ _ (fun _ w => world_ok away L (delete name Ls) (delete (ld_id rec) T) None w /\ idle (ld_lib rec) w)).
  - intros w Hw. cbn. destruct (forget_ok _ _ _ w name rec Hw Hname) as [H1 H2]; [by rewrite lookup_insert_eq|done|].
    by rewrite delete_insert_eq in H1.
  - intros ?. eapply triple_bind; [apply lib_close_ok|]. intros ?. by apply triple_ret.
Qed.

Lemma unload_ok {E : KWorld -> Prop} L Ls (T : Bindings) name :
  (forall rec, Ls !! name = Some rec -> at_home T rec) ->
  triple (world_ok away L Ls T None) (unload name)
    (fun r w => match Ls !! name with
                | None => r = false /\ world_ok away L Ls T None w
                | Some rec => r = true /\ world_ok away L (delete name Ls) (delete (ld_id rec) T) None w
                end) E.
Proof.
  intros Hhome w Hw. destruct (wk_frame _ _ _ _ _ _ Hw) as [_ El].
  destruct (Ls !! name) as [rec|] eqn:Hname;
    [|rewrite <-El in Hname; by unfold unload, mbind, M_bind, gets; rewrite Hname].
  specialize (Hhome rec eq_refl). assert (libs w !! name = Some rec) as Hname' by (by rewrite El).
  destruct (wk_libs _ _ _ _ _ _ Hw name rec Hname') as (_ & o & Ho & _).
  rewrite (unload_as name rec w Hname').
  - by apply (drop_ok L Ls T name rec o).
  - pose proof (take_off_ok (E := fun _ => True) L Ls T (ld_id rec)
      (wk_away _ _ _ _ _ _ Hw name rec Hname') (fun p => home_here L Ls T None w name rec p Hw Hname' Hhome) w Hw) as Hoff.
    by destruct (take_off (ld_id rec) w) as [? []].
Qed.

(** ** The steps of a host *)

Lemma load_good `{lib_laws : !LibraryLaws I} L Ls (T : Bindings) disk name path (w : KWorld) :
  world_ok away L Ls T None w -> next_shard_id (kbus w) < 2 ^ 64 - 1 -> away !! next_shard_id (kbus w) = None ->
  exists w' r, load variant_what disk name path w = (w', Ok r) /\ loads L Ls T name r w'.
Proof.
  intros Hw HL Haw. destruct (wk_frame _ _ _ _ _ _ Hw) as [E _].
  pose proof (ok_next_id _ (proj1 (wk_bus _ _ _ _ _ _ Hw))) as Hn. rewrite E in *.
  pose proof (load_world_ok disk L Ls T name path ltac:(lia) Haw w Hw) as Hl.
  destruct (load variant_what disk name path w) as [w' [r|e|]]; [by exists w', r|done|done].
Qed.

Lemma register_plain_ok L Ls (T : Bindings) s g (w : KWorld) :
  world_ok away L Ls T None w -> next_shard_id (kbus w) < 2 ^ 64 - 1 -> away !! next_shard_id (kbus w) = None ->
  exists L', L <= L' /\ world_ok away L' Ls T None (set_kbus (register_shard (Some (Plain s)) g (kbus w)).1 w).
Proof.
  intros Hw HL Haw. pose proof (wk_bus _ _ _ _ _ _ Hw) as Hb. destruct (wk_frame _ _ _ _ _ _ Hw) as [EL El].
  pose proof (ok_next_id _ (proj1 Hb)) as Hn.
  assert (lawful (Plain s : Hosted N I)) as Hlaw by apply (shards_lawful s).
  destruct (register_lawful_evolves (Some (Plain s)) g (kbus w) ltac:(by intros ? [= <-]) ltac:(lia) Hb) as [Hb' _].
  pose proof (register_shard_adds (fun id => bound (T !! id)) (Plain s) g (kbus w)) as Hadds.
  destruct (register_shard (Some (Plain s)) g (kbus w)) as [b r]. cbn [fst snd] in *.
  destruct Hadds as [[Hs _]|(b1 & rec & Hs & Hrec & _ & Hnext & Hsh)].
  { exists L. split; [done|]. exact (world_quiet away L Ls T _ w b (kregistry w) Hw Hb' Hs (wk_schemas _ _ _ _ _ _ Hw)). }
  rewrite u64_small in Hnext by (split; lia). exists (L + 1). split; [lia|].
  pose proof Hw as [H1 H2 H3 H4 H5 H6 H7 H8 H9 H10 [H11 H12] [H13 H14] H15 H17 H16].
  assert (T !! L = None) as HT by (apply eq_None_not_Some; intros Hs'; specialize (H4 L Hs'); lia).
  split; cbn; try done.
  - rewrite EL in Hsh. intros id rec'. rewrite Hsh.
    destruct (shards b1 !! L); [by apply (stays_holds _ _ _ Hs H3)|].
    intros [[<- <-]|[_ Hr]]%lookup_insert_Some; [rewrite HT, Hrec; by exists s|].
    by apply (stays_holds _ _ _ Hs H3).
  - intros id Hid. specialize (H4 id Hid). lia.
  - intros id p Hid Hno. specialize (H5 id p Hid Hno). rewrite <-(stays_ids _ _ _ Hs) in H5. rewrite Hsh.
    destruct (shards b1 !! next_shard_id (kbus w)); [done|]. apply lookup_insert_is_Some'. by right.
  - split; [lia|done].
  - intros id on Hon. assert (id <> next_shard_id (kbus w)) as Hne by congruence. rewrite Hsh.
    destruct (shards b1 !! next_shard_id (kbus w)); [|rewrite lookup_insert_ne by done]; rewrite (stays_ids _ _ _ Hs); auto.
Qed.

Lemma bus_step_ok L Ls (T : Bindings) pend (w : KWorld) b :
  world_ok away L Ls T pend w -> bus_step (kbus w) b -> world_ok away L Ls T pend (set_kbus b w).
Proof.
  intros Hw Hs. destruct (bus_step_quiet (fun id => bound (T !! id)) _ _ (fun id => bound_handle (T !! id))
    (fun id => bound_revive (T !! id)) (wk_bus _ _ _ _ _ _ Hw) Hs) as [Hb Hst].
  exact (world_quiet away L Ls T _ w b (kregistry w) Hw Hb Hst (wk_schemas _ _ _ _ _ _ Hw)).
Qed.

(** An adapter on the bus and what it is bound to. *)
Lemma shard_bound L Ls (T : Bindings) (w : KWorld) id a :
  world_ok away L Ls T None w -> shard id (kbus w) = Some (Adapted a) -> T !! id = Some (Some (ha_lib a, ha_inst a)).
Proof.
  intros Hw Ha. unfold shard, find in Ha. apply fmap_Some in Ha as (r & Hr & E).
  pose proof (wk_shards _ _ _ _ _ _ Hw id r Hr) as Hb. cbn in Hb. rewrite <-E in Hb.
  destruct (T !! id) as [[p|]|]; [|done|by destruct Hb].
  destruct Hb as (a' & [= <-] & -> & -> & _). by destruct p.
Qed.

Lemma bound_shard L Ls (T : Bindings) (w : KWorld) id h n :
  world_ok away L Ls T None w -> T !! id = Some (Some (h, n)) -> away !! id = None ->
  exists a, shard id (kbus w) = Some (Adapted a) /\ ha_lib a = h /\ ha_inst a = n.
Proof.
  intros Hw HT Haw. destruct (wk_present _ _ _ _ _ _ Hw id _ HT Haw) as [r Hr].
  destruct (bound_adapter L Ls T None w id _ r Hw HT Hr) as (p & a & [= <-] & Ea & E1 & E2 & _).
  exists a. unfold shard, find. by rewrite Hr, <-Ea.
Qed.

End generic.

(** ** Every reachable world *)

Context `{lib_laws : !LibraryLaws I}.

(** What a host does: the kernel's operations, whatever the disk holds at the
    time and however they end, the switchboard's, its own shards'. *)
Inductive kernel_step : KWorld -> KWorld -> Prop :=
| ks_load disk name path w :
    next_shard_id (kbus w) < 2 ^ 64 - 1 -> kernel_step w (load variant_what disk name path w).1
| ks_reload disk name path w : kernel_step w (reload_from variant_what disk name path w).1
| ks_unload name w : kernel_step w (unload name w).1
| ks_bus b w : bus_step (kbus w) b -> kernel_step w (set_kbus b w)
| ks_register s g w :
    next_shard_id (kbus w) < 2 ^ 64 - 1 ->
    kernel_step w (set_kbus (register_shard (Some (Plain s)) g (kbus w)).1 w)
| ks_take_off id w : kernel_step w (take_off id w).1.

Lemma nobody_away (T : Bindings) rec : at_home ∅ T rec.
Proof. intros id n _. apply lookup_empty. Qed.

Definition world_good (w : KWorld) : Prop := exists L Ls T, world_ok ∅ L Ls T None w.

Context (Hcalm : forall (o : Ob) ev, (notify o ev).2 <> UB).

Lemma reload_good L Ls (T : Bindings) disk name path (w : KWorld) :
  world_ok ∅ L Ls T None w ->
  (reload_from variant_what disk name path w).2 <> UB /\
  world_good (reload_from variant_what disk name path w).1.
Proof.
  intros Hw. pose proof (reload_world_ok ∅ disk Hcalm L Ls T name path w Hw) as Hr.
  assert (forall r w', reloads ∅ L Ls T name r w' -> world_good w') as Hgood.
  { intros r w' [[? _]|(rec & p & h & n & _ & _ & _ & ? & _)]; by do 3 eexists. }
  destruct (reload_from variant_what disk name path w) as [w' [r|e|]]; [| |done]; (split; [done|]); by eapply Hgood.
Qed.

Lemma unload_good L Ls (T : Bindings) name (w : KWorld) :
  world_ok ∅ L Ls T None w ->
  exists w' r, unload name w = (w', Ok r) /\ world_good w' /\ r = is_loaded name w.
Proof.
  intros Hw. pose proof (unload_ok ∅ (E := fun _ => False) L Ls T name (fun rec _ => nobody_away T rec) w Hw) as Hu.
  destruct (wk_frame _ _ _ _ _ _ Hw) as [_ El]. unfold is_loaded. rewrite El.
  destruct (unload name w) as [w' [r|e|]]; [exists w', r|done|done].
  destruct (Ls !! name) as [rec|]; destruct Hu as [-> ?]; (split; [done|]); (split; [by do 3 eexists|done]).
Qed.

Lemma register_plain_good s g (w : KWorld) :
  world_good w -> next_shard_id (kbus w) < 2 ^ 64 - 1 ->
  world_good (set_kbus (register_shard (Some (Plain s)) g (kbus w)).1 w).
Proof.
  intros (L & Ls & T & Hw) Hn. destruct (register_plain_ok ∅ L Ls T s g w Hw Hn (lookup_empty _)) as (L' & _ & Hw').
  by do 3 eexists.
Qed.

Lemma kernel_step_good w w' : kernel_step w w' -> world_good w -> world_good w'.
Proof.
  intros Hs (L & Ls & T & Hw). destruct Hs as [disk name path w Hn|disk name path w|name w|b w Hs|s g w Hn|id w].
  - destruct (load_good ∅ L Ls T disk name path w Hw Hn (lookup_empty _)) as (w' & r & -> & Hl). unfold loads in Hl.
    destruct (load_ok r); [destruct Hl as (_ & h & n & ?)|]; by do 3 eexists.
  - by apply (reload_good L Ls T).
  - destruct (unload_good L Ls T name w Hw) as (w' & r & -> & Hg & _). exact Hg.
  - exists L, Ls, T. by apply bus_step_ok.
  - apply register_plain_good; [by exists L, Ls, T|done].
  - pose proof (take_off_ok ∅ (E := fun _ => False) L Ls T id ltac:(by rewrite lookup_empty) (fun p _ => lookup_empty id) w Hw) as Ho.
    destruct (take_off id w) as [w' [u|e|]]; [|done|done]. by do 3 eexists.
Qed.

Lemma new_good g : world_good (Kernel_new (Switchboard_new g) : KWorld).
Proof.
  exists 1, ∅, ∅. split; cbn; try done.
  - apply new_ok.
  - intros id Hid. rewrite lookup_empty in Hid. by destruct Hid.
Qed.

Lemma reachable_good g w : rtc kernel_step (Kernel_new (Switchboard_new g)) w -> world_good w.
Proof.
  intros Hs. pose proof (new_good g) as Hg. revert Hg. induction Hs as [|w1 w2 w3 H1 _ IH]; [done|].
  intros Hg. apply IH. by eapply kernel_step_good.
Qed.

Definition residents_alive (w : KWorld) : Prop :=
  (forall id a, shard id (kbus w) = Some (Adapted a) -> callable (ha_lib a) (ha_inst a) w = true) /\
  (forall id id' a a', shard id (kbus w) = Some (Adapted a) -> shard id' (kbus w) = Some (Adapted a') ->
     ha_inst a = ha_inst a' -> id = id') /\
  (forall n h, instances w !! n = Some h ->
     exists id a, shard id (kbus w) = Some (Adapted a) /\ ha_lib a = h /\ ha_inst a = n).

Lemma good_alive w : world_good w -> residents_alive w.
Proof.
  intros (L & Ls & T & Hw). split; [|split].
  - intros id a Ha. eapply owned_callable; [exact Hw|by eapply shard_bound].
  - intros id id' a a' Ha Ha' E. pose proof (shard_bound _ _ _ _ _ _ _ Hw Ha) as H.
    pose proof (shard_bound _ _ _ _ _ _ _ Hw Ha') as H'. rewrite <-E in H'.
    destruct (wk_owned _ _ _ _ _ _ Hw _ _ _ H) as (Hi & _), (wk_owned _ _ _ _ _ _ Hw _ _ _ H') as (Hi' & _).
    assert (ha_lib a' = ha_lib a) as El by congruence. rewrite El in H'. by eapply (wk_one _ _ _ _ _ _ Hw).
  - intros n h Hi. destruct (wk_no_leak _ _ _ _ _ _ Hw n h Hi) as [[id Hid]|]; [|done].
    destruct (bound_shard _ _ _ _ _ _ _ _ Hw Hid (lookup_empty _)) as (a & ?). by exists id, a.
Qed.

(** ** A revival that throws *)

(** [reload_from] does not turn a failed revival into a result: when it
    throws, the shard already runs on the new library and the old one stays
    open, with no instance and under no name, so no later operation closes it. *)
Theorem reload_throw_leaks g (w w' : KWorld) disk name path e :
  rtc kernel_step (Kernel_new (Switchboard_new g)) w ->
  reload_from variant_what disk name path w = (w', Throw e) ->
  exists rec rec', libs w !! name = Some rec /\ libs w' !! name = Some rec' /\ ld_lib rec' <> ld_lib rec /\
    ld_lib rec ∈ open_libs w' /\ (forall nm r, libs w' !! nm = Some r -> ld_lib r <> ld_lib rec) /\
    (forall n, instances w' !! n <> Some (ld_lib rec)).
Proof.
  intros Hs E. destruct (reachable_good g w Hs) as (L & Ls & T & Hw).
  pose proof (reload_world_ok ∅ disk Hcalm L Ls T name path w Hw) as Hr. rewrite E in Hr.
  destruct (wk_frame _ _ _ _ _ _ Hw) as [_ El].
  destruct Hr as [[_ (o & [=] & _)]|(rec & p & h & n & Hname & _ & _ & Hw' & Hi)].
  destruct (Hi eq_refl) as (Ho & Hl & Hn). destruct (wk_frame _ _ _ _ _ _ Hw') as [_ El'].
  assert (libs w' !! name = Some (mkLoaded (ld_name rec) h h (ld_id rec))) as Hnew
    by (by rewrite El', lookup_insert_eq).
  eexists rec, _. rewrite El. split; [done|]. split; [exact Hnew|]. split; [by apply (Hl name)|done].
Qed.

(** ** The end of a kernel *)

Lemma unload_all_good names : forall w : KWorld, world_good w ->
  exists w', unload_all names w = (w', Ok tt) /\ world_good w' /\
    forall name, is_Some (libs w' !! name) -> is_Some (libs w !! name) /\ name ∉ names.
Proof.
  induction names as [|nm names IH]; intros w Hg; cbn [unload_all].
  - exists w. split; [done|]. split; [done|]. intros name ?. split; [done|]. set_solver.
  - destruct Hg as (L & Ls & T & Hw). pose proof (unload_ok ∅ (E := fun _ => False) L Ls T nm (fun rec _ => nobody_away T rec) w Hw) as Hu.
    destruct (wk_frame _ _ _ _ _ _ Hw) as [_ El].
    assert (exists w1, (exists r, unload nm w = (w1, Ok r)) /\ world_good w1 /\ libs w1 = delete nm Ls)
      as (w1 & [r E] & Hg1 & E1).
    { destruct (unload nm w) as [w1 [r|e|]]; [|done|done]. exists w1. split; [by exists r|].
      destruct (Ls !! nm) eqn:Hnm; destruct Hu as [_ Hw1]; (split; [by do 3 eexists|]);
        destruct (wk_frame _ _ _ _ _ _ Hw1) as [_ ->]; [done|]. by rewrite delete_id. }
    destruct (IH w1 Hg1) as (w' & E' & Hg' & Hl). exists w'. rewrite (M_bind_ok _ _ _ _ _ E). split; [exact E'|].
    split; [done|]. intros name Hn. destruct (Hl name Hn) as [[rec Hr] Hni]. rewrite E1 in Hr.
    apply lookup_delete_Some in Hr as [Hne Hr]. rewrite El. split; [by exists rec|]. set_solver.
Qed.

Lemma good_destroyed (w : KWorld) :
  world_good w ->
  exists w', Kernel_destroy w = (w', Ok tt) /\ libs w' = ∅ /\ instances w' = ∅ /\
    forall id a, shard id (kbus w') <> Some (Adapted a).
Proof.
  intros Hg. unfold Kernel_destroy, gets, mbind, M_bind.
  destruct (unload_all_good (by_name (libs w)).*1 w Hg) as (w' & -> & (L & Ls & T & Hw) & Hl).
  exists w'. split; [done|].
  assert (libs w' = ∅) as El.
  { apply map_eq. intros nm. rewrite lookup_empty. apply eq_None_not_Some. intros Hn.
    destruct (Hl nm Hn) as [? Hni]. by apply Hni, by_name_names. }
  assert (forall id h n, T !! id <> Some (Some (h, n))) as HT.
  { intros id h n Hid. destruct (wk_owned _ _ _ _ _ _ Hw id h n Hid) as (_ & nm & rec & Hr & _).
    by rewrite El, lookup_empty in Hr. }
  split; [done|]. split.
  - apply map_eq. intros n. rewrite lookup_empty. apply eq_None_not_Some. intros [h Hh].
    destruct (wk_no_leak _ _ _ _ _ _ Hw n h Hh) as [[id Hid]|]; [|done]. by destruct (HT id h n).
  - intros id a Ha. eapply HT. by eapply shard_bound.
Qed.

(** Destroying the kernel unloads everything: no name is left, no instance is
    alive and no adapter is on the bus, whatever was loaded, reloaded or lost
    before. *)
Theorem kernel_destroyed g (w : KWorld) :
  rtc kernel_step (Kernel_new (Switchboard_new g)) w ->
  exists w', Kernel_destroy w = (w', Ok tt) /\ libs w' = ∅ /\ instances w' = ∅ /\
    forall id a, shard id (kbus w') <> Some (Adapted a).
Proof. intros Hs. by apply good_destroyed, (reachable_good g). Qed.

End safety.
