(* ===== verification/Ownership.v ===== *)
(** * Who owns a loaded shard

    [unregister_shard] hands the shard it takes off the bus back to its caller.  The
    host may let it go, keep it, or register it again, then under a new id, while the
    kernel's record still has the old one.  The steps of such a host, and what holds of
    the adapters on the bus and in its hand: their code stays alive as long as the host
    unloads no library whose adapter it holds or has moved. *)

From S2P Require Import Prelude Schema Value Registry Gate Serialize SchemaCodec Grant Bus Switchboard Enqueue Invariant Dispatch Delivery Loop Residents Abi Kernel KernelSafety.

Section ownership.
Context {N I Ob : Type} `{n_ops : ShardOps N} `{n_laws : !ShardLaws N} `{l_ops : LibraryOps I} `{ob_ops : ObserverOps Ob}.
Context (variant_what : bytes).

Abbreviation KWorld := (World N I Ob).
Abbreviation KBus := (Switchboard (Hosted N I) Ob).
Abbreviation Bindings := (gmap Z (option (Z * Z))).
(** The adapters the host holds, by the id they were taken from. *)
Abbreviation Hand := (gmap Z (HostAdapter I)).

(** ** What the host does with them *)

(** [bus.unregister_shard(id)]: what it hands back. *)
Definition unregister_at (id : ShardId) : M KWorld (option (Hosted N I)) :=
  on_bus (fun b => let '(b, sh) := unregister_shard id b in (b, Ok sh)).

(** The end of a held adapter. *)
Definition let_go (a : HostAdapter I) : M KWorld unit := reset_shard (Some (Adapted a)).

(** [bus.register_shard(std::move(shard), g)]: the bus owns it, or it is destroyed as the
    exception leaves. *)
Definition register_again (a : HostAdapter I) (g : Grant) : M KWorld (exn + ShardId) :=
  r ← try (on_bus (register_shard (Some (Adapted a)) g));
  match r with
  | inl e => _ ← let_go a; mret (inl e)
  | inr id => mret (inr id)
  end.

(** Who holds an adapter: the bus under an id, or the host. *)
Definition holder (hd : Hand) (w : KWorld) (o : Z + Z) (a : HostAdapter I) : Prop :=
  match o with
  | inl id => shard id (kbus w) = Some (Adapted a)
  | inr k => hd !! k = Some a
  end.

(** The adapter of a library is where the library's record has it, or nowhere. *)
Definition at_rest (name : bytes) (hd : Hand) (w : KWorld) : Prop :=
  forall rec o a, libs w !! name = Some rec -> holder hd w o a -> ha_lib a = ld_lib rec -> o = inl (ld_id rec).

Inductive owner_step : Hand * KWorld -> Hand * KWorld -> Prop :=
| os_load hd disk name path w :
    next_shard_id (kbus w) < 2 ^ 64 - 1 -> owner_step (hd, w) (hd, (load variant_what disk name path w).1)
| os_reload hd disk name path w : owner_step (hd, w) (hd, (reload_from variant_what disk name path w).1)
| os_unload hd name w : at_rest name hd w -> owner_step (hd, w) (hd, (unload name w).1)
| os_bus hd b w : bus_step (kbus w) b -> owner_step (hd, w) (hd, set_kbus b w)
| os_register hd s g w :
    next_shard_id (kbus w) < 2 ^ 64 - 1 ->
    owner_step (hd, w) (hd, set_kbus (register_shard (Some (Plain s)) g (kbus w)).1 w)
| os_unregister hd id w w' sh :
    unregister_at id w = (w', Ok sh) ->
    owner_step (hd, w) (match sh with Some (Adapted a) => <[id := a]> hd | _ => hd end, w')
| os_let_go hd k a w : hd !! k = Some a -> owner_step (hd, w) (delete k hd, (let_go a w).1)
| os_register_again hd k a g w :
    hd !! k = Some a -> next_shard_id (kbus w) < 2 ^ 64 - 1 ->
    owner_step (hd, w) (delete k hd, (register_again a g w).1).

(** ** The invariant *)

Record owned (hd : Hand) (w : KWorld) (away : gmap Z bool) (L : Z) (Ls : gmap bytes Loaded) (T : Bindings) : Prop := {
  ow_world : world_ok away L Ls T None w;
  ow_away id on : away !! id = Some on -> id < L;
  ow_hand k a : hd !! k = Some a -> away !! k = Some false /\ T !! k = Some (Some (ha_lib a, ha_inst a)) /\ sound a;
  ow_held k p : away !! k = Some false -> T !! k = Some (Some p) -> is_Some (hd !! k)
}.
Definition owners_good (hd : Hand) (w : KWorld) : Prop := exists away L Ls T, owned hd w away L Ls T.

Lemma owned_next hd w away L Ls T : owned hd w away L Ls T -> next_shard_id (kbus w) = L /\ away !! L = None.
Proof.
  intros [Hw Ha _ _]. destruct (wk_frame _ _ _ _ _ _ Hw) as [-> _]. split; [done|].
  destruct (away !! L) as [on|] eqn:E; [|done]. specialize (Ha L on E). lia.
Qed.

(** The holder of a binding, and back. *)
Lemma holder_bound hd w away L Ls T o a :
  owned hd w away L Ls T -> holder hd w o a ->
  T !! (match o with inl id => id | inr k => k end) = Some (Some (ha_lib a, ha_inst a)).
Proof.
  intros Ho. destruct o as [id|k]; cbn [holder]; [|by intros (_ & ? & _)%(ow_hand _ _ _ _ _ _ Ho)].
  by apply (shard_bound _ _ _ _ _ _ _ (ow_world _ _ _ _ _ _ Ho)).
Qed.

Lemma bound_holder hd w away L Ls T id h n :
  owned hd w away L Ls T -> T !! id = Some (Some (h, n)) ->
  exists o a, holder hd w o a /\ ha_lib a = h /\ ha_inst a = n /\ (o = inl id \/ o = inr id).
Proof.
  intros Ho HT. pose proof (ow_world _ _ _ _ _ _ Ho) as Hw.
  assert (is_Some (shards (kbus w) !! id) \/ is_Some (hd !! id)) as [[r Hr]|[a Ha]].
  { destruct (away !! id) as [[|]|] eqn:E.
    - left. by apply (wk_where _ _ _ _ _ _ Hw id true E).
    - right. by eapply (ow_held _ _ _ _ _ _ Ho).
    - left. by eapply (wk_present _ _ _ _ _ _ Hw). }
  - destruct (bound_adapter away L Ls T None w id _ r Hw HT Hr) as (p & a & [= <-] & Ea & E1 & E2 & _).
    exists (inl id), a. cbn [holder]. unfold shard, find. rewrite Hr. cbn. rewrite Ea. auto.
  - exists (inr id), a. destruct (ow_hand _ _ _ _ _ _ Ho id a Ha) as (_ & E & _). rewrite HT in E.
    injection E as -> ->. auto.
Qed.

(** What is in hand is not on the bus. *)
Lemma hand_off hd w away L Ls T k a :
  owned hd w away L Ls T -> hd !! k = Some a -> shards (kbus w) !! k = None.
Proof.
  intros Ho Ha. destruct (ow_hand _ _ _ _ _ _ Ho k a Ha) as (E & _). apply eq_None_not_Some.
  rewrite (wk_where _ _ _ _ _ _ (ow_world _ _ _ _ _ _ Ho) k false E). done.
Qed.

Definition owners_alive (hd : Hand) (w : KWorld) : Prop :=
  (forall o a, holder hd w o a -> callable (ha_lib a) (ha_inst a) w = true) /\
  (forall o o' a a', holder hd w o a -> holder hd w o' a' -> ha_inst a = ha_inst a' -> o = o') /\
  (forall n h, instances w !! n = Some h -> exists o a, holder hd w o a /\ ha_lib a = h /\ ha_inst a = n).

Lemma owned_alive hd w away L Ls T : owned hd w away L Ls T -> owners_alive hd w.
Proof.
  intros Ho. pose proof (ow_world _ _ _ _ _ _ Ho) as Hw. split; [|split].
  - intros o a Ha. eapply owned_callable; [exact Hw|by eapply holder_bound].
  - intros o o' a a' Ha Ha' E. pose proof (holder_bound _ _ _ _ _ _ _ _ Ho Ha) as H.
    pose proof (holder_bound _ _ _ _ _ _ _ _ Ho Ha') as H'. rewrite <-E in H'.
    destruct (wk_owned _ _ _ _ _ _ Hw _ _ _ H) as [Hi _], (wk_owned _ _ _ _ _ _ Hw _ _ _ H') as [Hi' _].
    assert (ha_lib a' = ha_lib a) as El by congruence. rewrite El in H'.
    pose proof (wk_one _ _ _ _ _ _ Hw _ _ _ _ _ H H') as Hid.
    destruct o as [id|k], o' as [id'|k']; cbn [holder] in *; subst; try done.
    + pose proof (hand_off _ _ _ _ _ _ _ _ Ho Ha') as Hoff. unfold shard, find in Ha. by rewrite Hoff in Ha.
    + pose proof (hand_off _ _ _ _ _ _ _ _ Ho Ha) as Hoff. unfold shard, find in Ha'. by rewrite Hoff in Ha'.
  - intros n h Hi. destruct (wk_no_leak _ _ _ _ _ _ Hw n h Hi) as [[id Hid]|]; [|done].
    destruct (bound_holder _ _ _ _ _ _ _ _ _ Ho Hid) as (o & a & ? & ? & ? & _). by exists o, a.
Qed.

(** ** The steps keep it *)

(** Taking whatever is under an id off the bus. *)
Lemma lifted_ok (away : gmap Z bool) L Ls (T : Bindings) (w : KWorld) id :
  world_ok away L Ls T None w ->
  world_ok (<[id := false]> away) L Ls T None (set_kbus (set_shards (delete id (shards (kbus w))) (kbus w)) w).
Proof.
  intros [H1 H2 H3 H4 H5 H6 H7 H8 H9 H10 H11 H12 H15 H17 H16]. split; cbn; try done.
  - by apply off_evolves.
  - by apply (off_holds T).
  - intros id' p HT [Haw Hne]%lookup_insert_None. rewrite lookup_delete_ne by done. by eapply H5.
  - intros id' h n HT. destruct (H7 id' h n HT) as (Hi & nm & rec & Hr & El & Hh). split; [done|]. exists nm, rec.
    split; [done|]. split; [done|]. intros [Haw _]%lookup_insert_None. by apply Hh.
  - intros nm rec Hr. destruct (decide (ld_id rec = id)) as [->|Hne]; [by rewrite lookup_insert_eq|].
    rewrite lookup_insert_ne by done. by eapply H15.
  - intros id' on [[<- <-]|[Hne Ha]]%lookup_insert_Some; [rewrite lookup_delete_eq; split; [by intros [? [=]]|done]|].
    rewrite lookup_delete_ne by done. auto.
Qed.

Lemma unregister_good hd w away L Ls T id w' sh :
  owned hd w away L Ls T -> unregister_at id w = (w', Ok sh) ->
  owners_good (match sh with Some (Adapted a) => <[id := a]> hd | _ => hd end) w'.
Proof.
  intros Ho E. pose proof Ho as [Hw H2 H3 H4]. unfold unregister_at, on_bus, unregister_shard, find in E.
  destruct (shards (kbus w) !! id) as [r|] eqn:Hr; injection E as <- <-.
  2: { exists away, L, Ls, T. by destruct w. }
  pose proof (lifted_ok away L Ls T w id Hw) as Hw'.
  destruct (ok_records _ (proj1 (wk_bus _ _ _ _ _ _ Hw)) id r Hr) as (_ & Hid & _).
  destruct (wk_frame _ _ _ _ _ _ Hw) as [EL _].
  assert (forall id' on, <[id := false]> away !! id' = Some on -> id' < L) as H2'.
  { intros id' on [[<- _]|[_ Ha]]%lookup_insert_Some; [lia|by eapply H2]. }
  assert (forall k a, hd !! k = Some a -> <[id := false]> away !! k = Some false /\
    T !! k = Some (Some (ha_lib a, ha_inst a)) /\ sound a) as H3'.
  { intros k a Ha. destruct (H3 k a Ha) as (E & ? & ?). split; [|done].
    destruct (decide (k = id)) as [->|Hne]; [by rewrite lookup_insert_eq|by rewrite lookup_insert_ne]. }
  exists (<[id := false]> away), L, Ls, T.
  pose proof (wk_shards _ _ _ _ _ _ Hw id r Hr) as Hb. cbn in Hb.
  destruct (rec_shard r) as [s|a] eqn:Es.
  - split; [done|done|done|]. intros k p [[<- _]|[Hne Ha]]%lookup_insert_Some Hk; [|by eapply H4].
    rewrite Hk in Hb. destruct p. by destruct Hb as (a & [=] & _).
  - destruct (T !! id) as [[p|]|] eqn:HT; [|done|by destruct Hb]. destruct Hb as (a' & [= <-] & E1 & E2 & Hs).
    split; [done|done| |].
    + intros k a' [[<- <-]|[Hne Ha]]%lookup_insert_Some; [|by apply H3'].
      rewrite lookup_insert_eq, E1, E2. by destruct p.
    + intros k q [[<- _]|[Hne Ha]]%lookup_insert_Some Hk; [exists a; by rewrite lookup_insert_eq|].
      rewrite lookup_insert_ne by done. by eapply H4.
Qed.

(** A held adapter is destroyed. *)
Lemma let_go_good hd w away L Ls T k a :
  owned hd w away L Ls T -> hd !! k = Some a ->
  exists w', let_go a w = (w', Ok tt) /\ instances w' !! ha_inst a = None /\
    owned (delete k hd) w' away L Ls (<[k := None]> T).
Proof.
  intros Ho Ha. pose proof Ho as [Hw H2 H3 H4]. destruct (H3 k a Ha) as (Eaw & HT & Hs).
  unfold let_go, reset_shard, destroy. rewrite (owned_callable _ _ _ _ _ _ _ _ _ Hw HT).
  eexists. split; [reflexivity|]. split; [cbn; by rewrite lookup_delete_eq|].
  pose proof (off_adapter away L Ls T w k (ha_lib a, ha_inst a) Hw HT ltac:(by rewrite Eaw)) as Hw'.
  rewrite (off_nothing _ _ (hand_off _ _ _ _ _ _ _ _ Ho Ha)) in Hw'.
  split; [by destruct w|done| |].
  - intros k' a' [Hne Ha']%lookup_delete_Some. rewrite lookup_insert_ne by done. by apply H3.
  - intros k' p Hk [[_ [=]]|[Hne Hp]]%lookup_insert_Some. rewrite lookup_delete_ne by done. by eapply H4.
Qed.

(** A held adapter stands under the next id again. *)
Lemma moved_ok (away : gmap Z bool) L Ls (T : Bindings) (w : KWorld) b b1 rec k a :
  world_ok away L Ls T None w -> away !! k = Some false -> away !! L = None -> k < L ->
  T !! k = Some (Some (ha_lib a, ha_inst a)) -> sound a -> bus_ok [] b ->
  stays (fun id => bound (T !! id)) (kbus w) b1 -> rec_shard rec = Adapted a ->
  shards b = <[L := rec]> (shards b1) -> next_shard_id b = L + 1 ->
  world_ok (<[L := true]> away) (L + 1) Ls (<[L := Some (ha_lib a, ha_inst a)]> (<[k := None]> T)) None (set_kbus b w).
Proof.
  intros Hw Hk HL Hlt HT [Ha1 Ha2] Hb Hs Hrec Hsh Hn.
  pose proof Hw as [H1 H2 H3 H4 H5 H6 H7 H8 H9 H10 H11 [H13 H14] H15 H17 H16].
  assert (shards b1 !! k = None) as Hoff.
  { apply eq_None_not_Some. rewrite (stays_ids _ _ _ Hs), (H17 k false Hk). done. }
  assert (forall id, is_Some (T !! id) -> id <> L) as Hnew by (intros id Hid; specialize (H4 id Hid); lia).
  split; cbn; try done.
  - intros id r. rewrite Hsh. intros [[<- <-]|[Hne Hr]]%lookup_insert_Some.
    + rewrite lookup_insert_eq, Hrec. by exists a.
    + rewrite !lookup_insert_ne by (done || congruence). by apply (stays_holds _ _ _ Hs H3).
  - rewrite Hn. intros id [o [[<- _]|[_ [[<- _]|[_ Hid]]%lookup_insert_Some]]%lookup_insert_Some]; [lia|lia|].
    specialize (H4 id ltac:(by eexists)). lia.
  - intros id p [[<- _]|[Hne [[_ [=]]|[Hk' Hid]]%lookup_insert_Some]]%lookup_insert_Some.
    + by rewrite lookup_insert_eq.
    + rewrite Hsh, !lookup_insert_ne, (stays_ids _ _ _ Hs) by done. by eapply H5.
  - intros nm r Hr. destruct (H6 nm r Hr) as (Ho & o & Ho' & Hl). split; [done|].
    rewrite lookup_insert_ne by (apply not_eq_sym, Hnew; by eexists).
    destruct (decide (k = ld_id r)) as [->|Hne]; [exists None; by rewrite lookup_insert_eq|].
    exists o. by rewrite lookup_insert_ne.
  - intros id h n [[<- [= <- <-]]|[Hne [[_ [=]]|[_ Hid]]%lookup_insert_Some]]%lookup_insert_Some.
    + destruct (H7 k _ _ HT) as (Hi & nm & r & Hr & El & _). split; [done|]. exists nm, r. by rewrite lookup_insert_eq.
    + destruct (H7 id h n Hid) as (Hi & nm & r & Hr & El & Hh). split; [done|]. exists nm, r. by rewrite lookup_insert_ne.
  - intros n h Hi. destruct (H9 n h Hi) as [[id Hid]|]; [left|done]. destruct (decide (id = k)) as [->|Hne].
    + rewrite HT in Hid. injection Hid as <- <-. exists L. by rewrite lookup_insert_eq.
    + exists id. rewrite !lookup_insert_ne; [done|done|]. apply not_eq_sym, Hnew. by eexists.
  - intros nm r Hr. destruct (H6 nm r Hr) as (_ & o & Ho' & _).
    rewrite lookup_insert_ne by (apply not_eq_sym, Hnew; by eexists). by eapply H15.
  - intros id on. rewrite Hsh. destruct (decide (id = L)) as [->|Hne].
    + rewrite !lookup_insert_eq. by intros [= <-].
    + rewrite !lookup_insert_ne, (stays_ids _ _ _ Hs) by done. auto.
  - assert (forall id n, <[k := None]> T !! id <> Some (Some (ha_lib a, n))) as Hsolo.
    { intros id n [[_ [=]]|[Hne Hid]]%lookup_insert_Some. apply Hne. by eapply H16. }
    intros id1 id2 h n1 n2 [[<- [= <- <-]]|[_ Hid]]%lookup_insert_Some [[<- E]|[_ Hid']]%lookup_insert_Some.
    + done.
    + by destruct (Hsolo _ _ Hid').
    + injection E as <- _. by destruct (Hsolo _ _ Hid).
    + apply lookup_insert_Some in Hid as [[_ [=]]|[_ Hid]], Hid' as [[_ [=]]|[_ Hid']]. by eapply H16.
Qed.

Section steps.
Context `{lib_laws : !LibraryLaws I} (Hcalm : forall (o : Ob) ev, (notify o ev).2 <> UB).

(** A change of the bus that moves no shard. *)
Lemma owned_world hd w w' away L L' Ls Ls' (T : Bindings) :
  owned hd w away L Ls T -> L <= L' -> world_ok away L' Ls' T None w' -> owned hd w' away L' Ls' T.
Proof. intros [Hw H2 H3 H4] HL Hw'. split; try done. intros id on Ha. specialize (H2 id on Ha). lia. Qed.

Lemma register_again_good hd w away L Ls T k a g :
  owned hd w away L Ls T -> hd !! k = Some a -> next_shard_id (kbus w) < 2 ^ 64 - 1 ->
  exists w' r, register_again a g w = (w', Ok r) /\ owners_good (delete k hd) w'.
Proof.
  intros Ho Ha Hn. pose proof Ho as [Hw H2 H3 H4]. destruct (H3 k a Ha) as (Eaw & HT & Hs).
  destruct (owned_next _ _ _ _ _ _ Ho) as [EL HL]. pose proof (wk_bus _ _ _ _ _ _ Hw) as Hb.
  pose proof (ok_next_id _ (proj1 Hb)) as Hpos.
  pose proof (register_runs (Adapted a) g (kbus w) (adapter_lawful a Hs) ltac:(done) (proj1 (snapshot_sound a Hs))) as Hub.
  destruct (register_lawful_evolves (Some (Adapted a)) g (kbus w)
    ltac:(intros ? [= <-]; by apply adapter_lawful) ltac:(lia) Hb) as [Hb' _].
  pose proof (register_shard_adds (fun id => bound (T !! id)) (Adapted a) g (kbus w)) as Hadds.
  unfold register_again, try, on_bus, mbind, M_bind.
  destruct (register_shard (Some (Adapted a)) g (kbus w)) as [b r]. cbn [fst snd] in *.
  destruct Hadds as [[Hst Hno]|(b1 & rec & Hst & Hrec & -> & Hnext & Hsh)].
  - destruct r as [id|e|]; [by destruct (Hno id)| |done].
    pose proof (world_quiet away L Ls T _ w b (kregistry w) Hw Hb' Hst (wk_schemas _ _ _ _ _ _ Hw)) as Hw'.
    assert (owned hd (set_kbus b w) away L Ls T) as Ho' by (by apply (owned_world hd w _ away L L Ls Ls)).
    destruct (let_go_good _ _ _ _ _ _ _ _ Ho' Ha) as (w' & -> & _ & Hw''). exists w', (inl e).
    split; [done|]. by do 4 eexists.
  - exists (set_kbus b w), (inr L). rewrite EL in *. split; [done|].
    rewrite u64_small in Hnext by (split; lia).
    assert (shards b = <[L := rec]> (shards b1)) as Hsh'.
    { assert (shards b1 !! L = None) as E; [|by rewrite E in Hsh].
      apply eq_None_not_Some. rewrite (stays_ids _ _ _ Hst). intros [r Hr].
      apply (ok_records _ (proj1 Hb)) in Hr as (_ & Hid & _). lia. }
    pose proof (moved_ok away L Ls T w b b1 rec k a Hw Eaw HL (H2 _ _ Eaw) HT Hs Hb' Hst Hrec Hsh' Hnext) as Hw'.
    eexists _, _, _, _. split; [exact Hw'| | |].
    + intros id on [[<- _]|[_ Hid]]%lookup_insert_Some; [lia|]. specialize (H2 id on Hid). lia.
    + intros k' a' [Hne Ha']%lookup_delete_Some. destruct (H3 k' a' Ha') as (E1 & E2 & ?).
      assert (L <> k') as HLk by congruence. by rewrite !lookup_insert_ne.
    + intros k' p [[_ [=]]|[Hne Hk']]%lookup_insert_Some.
      rewrite lookup_insert_ne by done. intros [[_ [=]]|[Hne' HT']]%lookup_insert_Some.
      rewrite lookup_delete_ne by done. by eapply H4.
Qed.

Lemma load_owned hd w away L Ls T disk name path :
  owned hd w away L Ls T -> next_shard_id (kbus w) < 2 ^ 64 - 1 ->
  exists w' r, load variant_what disk name path w = (w', Ok r) /\ owners_good hd w'.
Proof.
  intros Ho Hn. destruct (owned_next _ _ _ _ _ _ Ho) as [EL HL]. pose proof Ho as [Hw H2 H3 H4].
  destruct (load_good variant_what away L Ls T disk name path w Hw Hn ltac:(by rewrite EL)) as (w' & r & E & Hl).
  exists w', r. split; [done|]. unfold loads in Hl. destruct (load_ok r); [destruct Hl as (_ & h & n & Hw')|by exists away, L, Ls, T].
  eexists away, _, _, _. split; [exact Hw'| | |].
  - intros id on Hid. specialize (H2 id on Hid). lia.
  - intros k a Ha. destruct (H3 k a Ha) as (E1 & E2 & ?). assert (L <> k) by congruence. by rewrite lookup_insert_ne.
  - intros k p Hk [[<- _]|[_ HT]]%lookup_insert_Some; [congruence|by eapply H4].
Qed.

Lemma reload_owned hd w away L Ls T disk name path :
  owned hd w away L Ls T ->
  (reload_from variant_what disk name path w).2 <> UB /\ owners_good hd (reload_from variant_what disk name path w).1.
Proof.
  intros Ho. pose proof Ho as [Hw H2 H3 H4].
  pose proof (reload_world_ok variant_what away disk Hcalm L Ls T name path w Hw) as Hr.
  assert (forall r w', reloads away L Ls T name r w' -> owners_good hd w') as Hgood.
  { intros r w' [[? _]|(rec & p & h & n & _ & HT & Haw & Hw' & _)]; [by exists away, L, Ls, T|].
    eexists away, _, _, _. split; [exact Hw'|done| |].
    - intros k a Ha. destruct (H3 k a Ha) as (E1 & E2 & ?). assert (ld_id rec <> k) by congruence.
      by rewrite lookup_insert_ne.
    - intros k q Hk [[<- _]|[_ HT']]%lookup_insert_Some; [congruence|by eapply H4]. }
  destruct (reload_from variant_what disk name path w) as [w' [r|e|]]; [| |done]; (split; [done|]); by eapply Hgood.
Qed.

Lemma unload_owned hd w away L Ls T name :
  owned hd w away L Ls T -> at_rest name hd w ->
  exists w', unload name w = (w', Ok (is_loaded name w)) /\ owners_good hd w'.
Proof.
  intros Ho Hrest. pose proof Ho as [Hw H2 H3 H4]. destruct (wk_frame _ _ _ _ _ _ Hw) as [_ El].
  assert (forall rec, Ls !! name = Some rec -> at_home away T rec) as Hhome.
  { intros rec Hr id n Hid. rewrite <-El in Hr.
    destruct (bound_holder _ _ _ _ _ _ _ _ _ Ho Hid) as (o & a & Hh & Elib & _ & Hor).
    pose proof (Hrest rec o a Hr Hh Elib) as ->. destruct Hor as [[= <-]|[=]].
    destruct (away !! ld_id rec) as [[|]|] eqn:E; [by destruct (wk_away _ _ _ _ _ _ Hw name rec Hr)| |done].
    cbn [holder] in Hh. unfold shard, find in Hh.
    destruct (shards (kbus w) !! ld_id rec) eqn:Hs; [|done].
    pose proof (wk_where _ _ _ _ _ _ Hw _ _ E) as [Hx _]. rewrite Hs in Hx. by specialize (Hx ltac:(by eexists)). }
  pose proof (unload_ok away (E := fun _ => False) L Ls T name Hhome w Hw) as Hu. unfold is_loaded. rewrite El.
  destruct (unload name w) as [w' [r|e|]]; [exists w'|done|done]. destruct (Ls !! name) as [rec|] eqn:Hname; destruct Hu as [-> Hw'];
    (split; [done|]); [|by exists away, L, Ls, T].
  eexists away, _, _, _. split; [exact Hw'|done| |].
  - intros k a Ha. destruct (H3 k a Ha) as (E1 & E2 & ?). rewrite lookup_delete_ne; [done|]. intros <-.
    rewrite <-El in Hname. destruct (wk_libs _ _ _ _ _ _ Hw name rec Hname) as (_ & o & Eo & Hlib).
    rewrite E2 in Eo. injection Eo as <-. specialize (Hlib _ eq_refl). cbn in Hlib.
    by pose proof (Hrest rec (inr (ld_id rec)) a Hname Ha Hlib).
  - intros k p Hk [_ HT]%lookup_delete_Some. by eapply H4.
Qed.

Lemma owner_step_good x y : owner_step x y -> owners_good x.1 x.2 -> owners_good y.1 y.2.
Proof.
  intros Hs (away & L & Ls & T & Ho). destruct Hs as [hd disk name path w Hn|hd disk name path w|hd name w Hr|hd b w Hb
    |hd s g w Hn|hd id w w' sh E|hd k a w Ha|hd k a g w Ha Hn]; cbn [fst snd] in *.
  - by destruct (load_owned _ _ _ _ _ _ disk name path Ho Hn) as (w' & r & -> & ?).
  - by apply (reload_owned hd w away L Ls T).
  - by destruct (unload_owned _ _ _ _ _ _ name Ho Hr) as (w' & -> & ?).
  - exists away, L, Ls, T. apply (owned_world hd w _ away L L Ls Ls); [done|done|]. apply bus_step_ok; [apply Ho|done].
  - destruct (owned_next _ _ _ _ _ _ Ho) as [EL HL].
    destruct (register_plain_ok away L Ls T s g w (ow_world _ _ _ _ _ _ Ho) Hn ltac:(by rewrite EL)) as (L' & HL' & Hw').
    exists away, L', Ls, T. by apply (owned_world hd w _ away L L' Ls Ls).
  - by eapply unregister_good.
  - destruct (let_go_good _ _ _ _ _ _ _ _ Ho Ha) as (w' & -> & _ & ?). by do 4 eexists.
  - by destruct (register_again_good _ _ _ _ _ _ _ _ g Ho Ha Hn) as (w' & r & -> & ?).
Qed.

Lemma reachable_owned g x : rtc owner_step (∅, Kernel_new (Switchboard_new g)) x -> owners_good x.1 x.2.
Proof.
  intros Hs. assert (owners_good ∅ (Kernel_new (Switchboard_new g))) as H0.
  { destruct (new_good g : world_good (Kernel_new (Switchboard_new g) : KWorld)) as (L & Ls & T & Hw). exists ∅, L, Ls, T. split; [done|..]; by intros *; rewrite ?lookup_empty. }
  change (owners_good (∅ : Hand, Kernel_new (Switchboard_new g) : KWorld).1 (∅ : Hand, Kernel_new (Switchboard_new g) : KWorld).2) in H0.
  revert H0. induction Hs as [|y z u H1 _ IH]; [done|]. intros Hg. apply IH. by eapply owner_step_good.
Qed.

(** Unloading a library under a shard the host holds leaves the shard with closed code. *)
Lemma unload_under hd w away L Ls T name rec k a :
  owned hd w away L Ls T -> libs w !! name = Some rec -> hd !! k = Some a -> ha_lib a = ld_lib rec ->
  exists w', unload name w = (w', Ok true) /\ (let_go a w').2 = UB.
Proof.
  intros Ho Hr Ha El. pose proof Ho as [Hw H2 H3 H4]. destruct (H3 k a Ha) as (_ & HT & _).
  destruct (wk_libs _ _ _ _ _ _ Hw name rec Hr) as (Hopen & o & Eo & Hlib).
  assert (shards (kbus w) !! ld_id rec = None) as Hoff.
  { destruct (shards (kbus w) !! ld_id rec) as [r|] eqn:Es; [|done].
    pose proof (wk_shards _ _ _ _ _ _ Hw _ r Es) as Hb. cbn in Hb. rewrite Eo in Hb.
    destruct o as [[h n]|]; [|done]. specialize (Hlib _ eq_refl). cbn in Hlib. subst h.
    rewrite <-El in Eo. pose proof (wk_one _ _ _ _ _ _ Hw _ _ _ _ _ HT Eo) as ->.
    by rewrite (hand_off _ _ _ _ _ _ _ _ Ho Ha) in Es. }
  unfold unload, mbind, M_bind, gets, modify, on_bus, unregister_shard, find. rewrite Hr. cbn. rewrite Hoff. cbn.
  unfold M_ret. cbn. unfold lib_close. cbn. rewrite bool_decide_true by done. eexists. split; [reflexivity|].
  unfold let_go, reset_shard, destroy, callable. cbn. rewrite El. by rewrite (bool_decide_false (ld_lib rec ∈ _)) by set_solver.
Qed.

(** C11: the kernel is safe under a host that owns shards.  The host may load, reload
    and unload, run the bus, register shards of its own, take any shard off the bus and
    hold it, let it go, or register it again under a new id, in any order, as long as
    it unloads no library whose adapter it holds or has moved.  Then, whatever the disk
    and the libraries answer, no adapter on the bus or in the host's hand ever points
    into a closed library or to a destroyed instance, no two share an instance, and
    every live instance has its adapter; [load] and [unload] never throw, [reload]
    calls no dead code, and what the host does with a held adapter is safe.  The
    condition is needed: unloading the library under a held adapter succeeds, and
    letting the adapter go is then undefined. *)
Theorem kernel_safe g hd (w : KWorld) :
  rtc owner_step (∅, Kernel_new (Switchboard_new g)) (hd, w) ->
  owners_alive hd w /\
  (forall disk name path, next_shard_id (kbus w) < 2 ^ 64 - 1 ->
     exists w' r, load variant_what disk name path w = (w', Ok r)) /\
  (forall disk name path, (reload_from variant_what disk name path w).2 <> UB) /\
  (forall name, at_rest name hd w -> exists w', unload name w = (w', Ok (is_loaded name w))) /\
  (forall k a, hd !! k = Some a ->
     (exists w', let_go a w = (w', Ok tt) /\ instances w' !! ha_inst a = None) /\
     (forall g, next_shard_id (kbus w) < 2 ^ 64 - 1 -> exists w' r, register_again a g w = (w', Ok r)) /\
     (forall name rec, libs w !! name = Some rec -> ha_lib a = ld_lib rec ->
        exists w', unload name w = (w', Ok true) /\ (let_go a w').2 = UB)).
Proof.
  intros Hs. destruct (reachable_owned g (hd, w) Hs) as (away & L & Ls & T & Ho). cbn [fst snd] in Ho.
  split; [by eapply owned_alive|]. split; [|split; [|split]].
  - intros disk name path Hn. destruct (load_owned _ _ _ _ _ _ disk name path Ho Hn) as (w' & r & E & _). by exists w', r.
  - intros disk name path. by apply (reload_owned hd w away L Ls T).
  - intros name Hr. destruct (unload_owned _ _ _ _ _ _ name Ho Hr) as (w' & E & _). by exists w'.
  - intros k a Ha. split; [|split].
    + destruct (let_go_good _ _ _ _ _ _ _ _ Ho Ha) as (w' & E & Hi & _). by exists w'.
    + intros g' Hn. destruct (register_again_good _ _ _ _ _ _ _ _ g' Ho Ha Hn) as (w' & r & E & _). by exists w', r.
    + intros name rec Hr El. by eapply unload_under.
Qed.
End steps.
End ownership.
