(* ===== verification/KernelScenarios.v ===== *)
(** * Concrete runs of the kernel

    A library exporting a shard whose [revive] fails, on a host with native echo
    shards: the theorems about the kernel applied to the worlds it gives. *)

From S2P Require Import Prelude Schema Value Registry Gate Serialize SchemaCodec Grant Bus Switchboard Enqueue Invariant Dispatch Scenarios Residents Abi Kernel KernelSafety Ownership.

(** A shard that cannot be revived. *)
Record Grump : Type := mkGrump { }.

#[export] Instance Grump_ops : ShardOps Grump := {
  accepted_schemas _ := Ok [Some player];
  handle sh _ := Done sh;
  shard_snapshot _ := Ok ami;
  policy _ := Ok two_lives;
  revive sh _ := (sh, Throw (runtime_error "no"))
}.

#[export] Instance Grump_laws : LibraryLaws (Exported Grump).
Proof.
  split; intros [[]]; [by vm_compute|by vm_compute|]. intros w. cbn [abi_revive Exported_ops ex_shard].
  unfold do_revive. cbn [shard_snapshot Grump_ops mbind result_bind].
  destruct (admit_door_cases (parse w) (Value_schema ami) FirstError 0 player_wf)
    as (g & _ & [(v & _ & _ & _ & ->)|(e & es & ->)]); done.
Qed.

Definition grump_abi : ZenShardAbi (Exported Grump) := mkAbi ZEN_ABI_VERSION (do_create (Ok (mkGrump))).
Definition grump_disk (path : bytes) : bytes + LibFile (Exported Grump) := inr (mkFile (Some (Some grump_abi))).

Abbreviation Lab := (World Echo (Exported Grump) (list BusEvent)).

Definition lab0 : Lab := Kernel_new (Switchboard_new 0).
Definition lab1 : Lab := (load [] grump_disk "g" "libgrump.so" lab0).1.
Definition lab2 : Lab := (load [] grump_disk "h" "libgrump.so" lab1).1.

Lemma log_calm (o : list BusEvent) ev : (notify o ev).2 <> UB.
Proof. done. Qed.

Lemma lab2_reached : rtc (kernel_step []) (Kernel_new (Switchboard_new 0)) lab2.
Proof.
  eapply rtc_l; [apply (ks_load [] grump_disk "g" "libgrump.so"); by vm_compute|].
  eapply rtc_l; [apply (ks_load [] grump_disk "h" "libgrump.so"); by vm_compute|]. apply rtc_refl.
Qed.

(** Both loads succeeded. *)
Example lab2_loaded : is_loaded "g" lab2 = true /\ kernel_shard_id "h" lab2 = 2.
Proof. split; by vm_compute. Qed.

(** The host takes the first shard off the bus and keeps it. *)
Definition lab3 : Lab := (unregister_at 1 lab2).1.
Definition given (r : result (option (Hosted Echo (Exported Grump)))) : option (Hosted Echo (Exported Grump)) :=
  match r with Ok sh => sh | _ => None end.
Definition kept (sh : option (Hosted Echo (Exported Grump))) : gmap Z (HostAdapter (Exported Grump)) :=
  match sh with Some (Adapted a) => <[1 := a]> ∅ | _ => ∅ end.
Definition taken : option (Hosted Echo (Exported Grump)) := given (unregister_at 1 lab2).2.
Definition hand3 : gmap Z (HostAdapter (Exported Grump)) := kept taken.

Lemma lab3_taken : unregister_at 1 lab2 = (lab3, Ok taken).
Proof.
  unfold lab3, taken, unregister_at, on_bus. by destruct (unregister_shard 1 (kbus lab2)).
Qed.

Lemma lab3_reached : rtc (owner_step []) (∅, Kernel_new (Switchboard_new 0)) (hand3, lab3).
Proof.
  eapply rtc_l; [apply (os_load [] ∅ grump_disk "g" "libgrump.so"); by vm_compute|].
  eapply rtc_l; [apply (os_load [] ∅ grump_disk "h" "libgrump.so"); by vm_compute|].
  eapply rtc_l; [|apply rtc_refl]. exact (os_unregister [] ∅ 1 lab2 lab3 taken lab3_taken).
Qed.

(** The library of the held adapter. *)
Lemma hand3_holds : exists a rec, hand3 !! (1 : Z) = Some a /\ libs lab3 !! str "g" = Some rec /\ ha_lib a = ld_lib rec.
Proof. eexists _, _. split; [vm_compute; reflexivity|]. split; vm_compute; reflexivity. Qed.

Lemma kernel_safe_witness :
  exists a, hand3 !! (1 : Z) = Some a /\ callable (ha_lib a) (ha_inst a) lab3 = true /\
    (exists w', let_go a lab3 = (w', Ok tt)) /\
    exists w', unload "g" lab3 = (w', Ok true) /\ (let_go a w').2 = UB.
Proof.
  destruct hand3_holds as (a & rec & Ha & Hr & El).
  destruct (kernel_safe [] log_calm 0 hand3 lab3 lab3_reached) as ((Hc & _) & _ & _ & _ & Hk).
  destruct (Hk 1 a Ha) as ((w' & E & _) & _ & Hu). exists a. split; [exact Ha|].
  split; [exact (Hc (inr 1) a Ha)|]. split; [by exists w'|]. exact (Hu "g" rec Hr El).
Defined.

Lemma kernel_destroyed_witness :
  exists w', Kernel_destroy lab2 = (w', Ok tt) /\ libs w' = ∅ /\ instances w' = ∅ /\
    forall id a, shard id (kbus w') <> Some (Adapted a).
Proof. exact (kernel_destroyed [] log_calm 0 lab2 lab2_reached). Defined.

Lemma reload_throw_leaks_witness :
  exists w' e rec rec', reload_from [] grump_disk "g" "libgrump2.so" lab2 = (w', Throw e) /\
    libs lab2 !! str "g" = Some rec /\ libs w' !! str "g" = Some rec' /\ ld_lib rec' <> ld_lib rec /\
    ld_lib rec ∈ open_libs w'.
Proof.
  destruct (reload_from [] grump_disk "g" "libgrump2.so" lab2) as [w' r] eqn:E.
  assert (exists e, r = Throw e) as [e ->].
  { eexists. change r with (w', r).2. rewrite <-E. vm_compute. reflexivity. }
  destruct (reload_throw_leaks [] log_calm 0 lab2 w' grump_disk "g" "libgrump2.so" e lab2_reached E)
    as (rec & rec' & H1 & H2 & H3 & H4 & _).
  exists w', e, rec, rec'. exact (conj eq_refl (conj H1 (conj H2 (conj H3 H4)))).
Defined.
