(* ===== verification/Posix.v ===== *)
(** * The operating system, as the isolation code sees it

    System calls and file reads are outside the program.  A run is given the
    answers of the system, one per call, in order, and leaves the log of its calls
    with their answers: the code's behaviour is a function of the answers.  Once the answers given run
    out, every further call fails and every socket would block, so a run always
    ends.  Theorems quantify over all answers.

    [Errno] of [Channel] names the errors the channel tells apart; [Fault] those
    the sandbox does. *)

From S2P Require Import Prelude Protocol Channel.

Inductive Fault : Set := FExist | FIntr | FOther.

(** What a call returns: its result, [errno] if it failed, the bytes it read, and
    two numbers more for the calls that fill a structure. *)
Record Answer : Type := mkAnswer {
  a_ret : Z; a_fault : Fault; a_text : bytes; a_x : Z; a_y : Z
}.
Definition no_answer : Answer := mkAnswer (-1) FOther [] 0 0.

(** The calls, with the arguments that matter. *)
Inductive Call : Type :=
| SysSocketpair | SysPipe | SysFork
| SysSpawn (exe so_path : bytes) (child_fd from : Z)
| SysExecve (exe so_path : bytes) (child_fd : Z)
| SysExit (code : Z)
| SysClose (fd : Z) | SysDup2 (from to : Z) | SysCloexec (fd : Z)
| SysOpen (path : bytes) | SysRead (fd : Z) | SysWrite (fd : Z) (data : bytes)
| SysPollIn (fd timeout_ms : Z) | SysNow
| SysStat (path : bytes) | SysStatfs (path : bytes)
| SysMkdir (path : bytes) (mode : Z) | SysRmdir (path : bytes) | SysMkdtemp (template : bytes)
| SysWaitpid (pid : Z) (nohang : bool) | SysKill (pid signal : Z)
| SysGetuid | SysGetgid
| SysUnshare (flags : Z)
| SysMount (src dst fstype : option bytes) (flags : Z)
| SysUmount2 (target : bytes) (flags : Z)
| SysPivotRoot (new_root put_old : bytes) | SysChdir (path : bytes)
| SysMountSetattr (fd attr_set : Z)
| ReadFile (path : bytes)
| WriteFile (path data : bytes).

Record OS : Type := mkOS {
  answers : list Answer; log : list (Call * Answer);
  tx_io : list SendResult; rx_io : list RecvResult; wire : bytes
}.
Abbreviation Sys := (M OS).

Definition sys (c : Call) : Sys Answer := fun os =>
  match answers os with
  | [] => (mkOS [] (log os ++ [(c, no_answer)]) (tx_io os) (rx_io os) (wire os), Ok no_answer)
  | a :: l => (mkOS l (log os ++ [(c, a)]) (tx_io os) (rx_io os) (wire os), Ok a)
  end.

(** The log of a link starts with it. *)
Definition anew (os : OS) : OS := mkOS (answers os) [] (tx_io os) (rx_io os) [].

(** Every call answers, and is logged. *)
Lemma sys_total c os : exists a os', sys c os = (os', Ok a) /\ log os' = log os ++ [(c, a)].
Proof. unfold sys. destruct (answers os); by eexists _, _. Qed.

(** A channel's calls; beyond the results given, the socket would block. *)
Definition sys_flush (ch : Channel) : Sys Channel := fun os =>
  match flush (tx_io os ++ [SendError EAGAIN]) ch with
  | Some (ch, w, io) =>
      (mkOS (answers os) (log os) (removelast io) (rx_io os) (wire os ++ w), Ok ch)
  | None => (os, UB)
  end.
Definition sys_poll (ch : Channel) : Sys (Channel * list Incoming) := fun os =>
  match poll (rx_io os ++ [RecvError EAGAIN]) ch with
  | Some (ch, out, io) =>
      (mkOS (answers os) (log os) (tx_io os) (removelast io) (wire os),
       out ← out; Ok (ch, out))
  | None => (os, UB)
  end.

(** ** Descriptors held

    The bookkeeping of the theorems: what was opened and not closed yet. *)

Definition opens (e : Call * Answer) : list Z :=
  match e with
  | (SysSocketpair, a) | (SysPipe, a) => if a_ret a =? 0 then [a_x a; a_y a] else []
  | (SysOpen _, a) => if a_ret a <? 0 then [] else [a_ret a]
  | _ => []
  end.
Definition closes (e : Call * Answer) : list Z :=
  match e with (SysClose fd, _) => [fd] | _ => [] end.

Definition holding (held : list Z) (os : OS) : Prop :=
  mjoin (opens <$> log os) ≡ₚ mjoin (closes <$> log os) ++ held.

(** What makes sense of an answer: descriptors, sizes and the like are not
    negative.  [more] is what else a theorem asks of the answers. *)
Definition sane (a : Answer) : Prop := 0 <= a_x a /\ 0 <= a_y a.

Section rules.
Context (more : Answer -> Prop) (more_none : more no_answer).

Definition answered (os : OS) : Prop := Forall (fun a => sane a /\ more a) (answers os).
Definition state (held : list Z) (os : OS) : Prop := answered os /\ holding held os.

(** Held descriptors are a bag. *)
#[global] Instance holding_proper : Proper ((≡ₚ) ==> eq ==> iff) holding.
Proof. intros h1 h2 Hh os ? <-. unfold holding. by rewrite Hh. Qed.
#[global] Instance state_proper : Proper ((≡ₚ) ==> eq ==> iff) state.
Proof. intros h1 h2 Hh os ? <-. unfold state. by rewrite Hh. Qed.

Lemma sys_state c held held' (E : OS -> Prop) :
  (forall a, sane a -> opens (c, a) ++ held ≡ₚ closes (c, a) ++ held' a) ->
  triple (state held) (sys c) (fun a os => sane a /\ more a /\ state (held' a) os) E.
Proof using more_none.
  intros Hc os [Ha Hh].
  assert (exists a l, sys c os = (mkOS l (log os ++ [(c, a)]) (tx_io os) (rx_io os) (wire os), Ok a) /\
    (sane a /\ more a) /\ Forall (fun a => sane a /\ more a) l) as (a & l & -> & [Hs Hm] & Hl).
  { unfold sys, answered in *. destruct (answers os) as [|a l]; eexists _, _; (split; [reflexivity|]).
    - by split.
    - by apply Forall_cons in Ha. }
  split; [done|]. split; [done|]. split; [done|]. unfold holding in *. cbn.
  rewrite !fmap_app, !join_app. cbn. rewrite !app_nil_r, Hh, <-!app_assoc.
  apply Permutation_app_head. rewrite (Permutation_app_comm held), (Hc a Hs). done.
Qed.

(** A call that neither opens nor closes. *)
Lemma sys_plain c held E :
  (forall a, opens (c, a) = []) -> (forall a, closes (c, a) = []) ->
  triple (state held) (sys c) (fun a os => sane a /\ more a /\ state held os) E.
Proof using more_none. intros Ho Hc. apply (sys_state c held (fun _ => held)). intros a _. by rewrite Ho, Hc. Qed.

Lemma sys_close fd held E :
  triple (state (fd :: held)) (sys (SysClose fd)) (fun _ => state held) E.
Proof using more_none.
  eapply triple_conseq; [apply (sys_state (SysClose fd) (fd :: held) (fun _ => held) E)|done|by intros ? ? (_ & _ & ?)|done].
  intros a _. done.
Qed.

Lemma sys_socketpair held E :
  triple (state held) (sys SysSocketpair)
    (fun a os => sane a /\ state (if a_ret a =? 0 then a_x a :: a_y a :: held else held) os) E.
Proof using more_none.
  eapply triple_conseq; [apply (sys_state SysSocketpair held (fun a => if a_ret a =? 0 then a_x a :: a_y a :: held else held) E)
    |done|by intros ? ? (? & _ & ?)|done].
  intros a _. cbn. by destruct (a_ret a =? 0).
Qed.

Lemma sys_pipe held E :
  triple (state held) (sys SysPipe)
    (fun a os => sane a /\ state (if a_ret a =? 0 then a_x a :: a_y a :: held else held) os) E.
Proof using more_none.
  eapply triple_conseq; [apply (sys_state SysPipe held (fun a => if a_ret a =? 0 then a_x a :: a_y a :: held else held) E)
    |done|by intros ? ? (? & _ & ?)|done].
  intros a _. cbn. by destruct (a_ret a =? 0).
Qed.

Lemma sys_open path held E :
  triple (state held) (sys (SysOpen path))
    (fun a os => state (if a_ret a <? 0 then held else a_ret a :: held) os) E.
Proof using more_none.
  eapply triple_conseq; [apply (sys_state (SysOpen path) held (fun a => if a_ret a <? 0 then held else a_ret a :: held) E)
    |done|by intros ? ? (? & _ & ?)|done].
  intros a _. cbn. by destruct (a_ret a <? 0).
Qed.

(** A computation that gives back every descriptor it takes. *)
Definition balanced {A : Type} (m : Sys A) : Prop :=
  forall held E, triple (state held) m (fun _ => state held) E.

Lemma balanced_ret {A : Type} (a : A) : balanced (mret a).
Proof. intros held E. by apply triple_ret. Qed.

Lemma balanced_bind {A B : Type} (m : Sys A) (f : A -> Sys B) :
  balanced m -> (forall a, balanced (f a)) -> balanced (m ≫= f).
Proof. intros Hm Hf held E. eapply triple_bind; [apply Hm|]. intros a. apply Hf. Qed.

Lemma balanced_if {A : Type} (b : bool) (m n : Sys A) : balanced m -> balanced n -> balanced (if b then m else n).
Proof. by destruct b. Qed.

Lemma balanced_sys c :
  (forall a, opens (c, a) = []) -> (forall a, closes (c, a) = []) -> balanced (sys c).
Proof using more_none.
  intros Ho Hc held E. eapply triple_conseq; [by apply sys_plain|done|by intros ? ? (_ & _ & ?)|done].
Qed.

Lemma balanced_value {A : Type} (r : result A) a : r = Ok a -> balanced (lift r).
Proof. intros -> held E. by apply triple_ret. Qed.
End rules.

(** ** Traces

    [logs m F]: [m] returns, and [F] holds of what it returns and of the calls it
    adds to the log. *)
Definition logs {A : Type} (m : Sys A) (F : A -> list (Call * Answer) -> Prop) : Prop :=
  forall os, exists os' a t, m os = (os', Ok a) /\ log os' = log os ++ t /\ F a t.

Lemma logs_ret {A : Type} (a : A) (F : A -> list (Call * Answer) -> Prop) : F a [] -> logs (mret a) F.
Proof. intros H os. exists os, a, []. by rewrite app_nil_r. Qed.

Lemma logs_bind {A B : Type} (m : Sys A) (f : A -> Sys B) F (G : B -> list (Call * Answer) -> Prop) :
  logs m F -> (forall a t, F a t -> logs (f a) (fun b t' => G b (t ++ t'))) -> logs (m ≫= f) G.
Proof.
  intros Hm Hf os. destruct (Hm os) as (os1 & a & t & E & L & HF). rewrite (M_bind_ok _ _ _ _ _ E).
  destruct (Hf a t HF os1) as (os2 & b & t' & E' & L' & HG). exists os2, b, (t ++ t').
  split; [done|]. split; [|done]. by rewrite L', L, <-app_assoc.
Qed.

Lemma logs_sys c : logs (sys c) (fun a t => t = [(c, a)]).
Proof. intros os. destruct (sys_total c os) as (a & os' & E & L). by exists os', a, [(c, a)]. Qed.

Lemma logs_weaken {A : Type} (m : Sys A) (F G : A -> list (Call * Answer) -> Prop) :
  logs m F -> (forall a t, F a t -> G a t) -> logs m G.
Proof.
  intros Hm H os. destruct (Hm os) as (os' & a & t & E & L & HF). exists os', a, t.
  split; [done|]. split; [done|]. by apply H.
Qed.
