(* ===== verification/Sandbox.v ===== *)
(** * The sandbox

    [src/isolation/sandbox.cpp]: detection of what the host can enforce, the
    execution of mount plans, the id maps and the cgroup leaves, each as the
    sequence of calls it makes ([Posix]).  The code that runs in a forked child
    before its [execve] is a computation of its own, over the child's answers.

    The theorems: the report and the child's fate reflect the answers of the
    system, a mount plan stops at its first failure, numbers are written in
    decimal within the buffer, the default caps are bounded. *)

From S2P Require Import Prelude Grant Channel Posix.

(** ** The capability lattice *)

Inductive Capability : Set := Network | Filesystem | Resources.

#[export] Instance Capability_eq_dec : EqDecision Capability.
Proof. solve_decision. Defined.

Definition capability_name (c : Capability) : bytes :=
  match c with Network => "Network" | Filesystem => "Filesystem" | Resources => "Resources" end.

Record CapabilityStatus : Type := mkStatus {
  capability : Capability; st_enforceable : bool; mechanism : bytes; st_detail : bytes
}.

(** [EnforcementReport], its only member. *)
Abbreviation EnforcementReport := (list CapabilityStatus).

Fixpoint find_capability (r : EnforcementReport) (c : Capability) : option CapabilityStatus :=
  match r with
  | [] => None
  | s :: r => if bool_decide (capability s = c) then Some s else find_capability r c
  end.

Definition enforceable (r : EnforcementReport) (c : Capability) : bool :=
  match find_capability r c with Some s => st_enforceable s | None => false end.

(** ** Mount plans *)

Inductive MountKind : Set :=
| MakeRPrivate | Mkdir | Mount | RemountRO | SetattrRecRO | PivotRoot | Chdir | Umount.

Record MountOp : Type := mkOp {
  kind : MountKind; op_a : bytes; op_b : bytes; fstype : bytes; op_flags : Z
}.
Abbreviation MountPlan := (list MountOp).

(** Linux's values. *)
Definition MS_RDONLY : Z := 1.
Definition MS_NOEXEC : Z := 8.
Definition MS_REMOUNT : Z := 32.
Definition MS_BIND : Z := 4096.
Definition MS_REC : Z := 16384.
Definition MS_PRIVATE : Z := 2 ^ 18.
Definition MNT_DETACH : Z := 2.
Definition MOUNT_ATTR_RDONLY : Z := 1.
Definition CLONE_NEWNS : Z := 2 ^ 17.
Definition CLONE_NEWUSER : Z := 2 ^ 28.
Definition CLONE_NEWNET : Z := 2 ^ 30.

(** One turn of the loop: [rc]. *)
Definition run_mount_op (op : MountOp) : Sys Z :=
  match kind op with
  | MakeRPrivate =>
      a ← sys (SysMount None (Some (str "/")) None (Z.lor MS_REC MS_PRIVATE)); mret (a_ret a)
  | Mkdir =>
      a ← sys (SysMkdir (op_a op) 493);
      mret (if negb (a_ret a =? 0) && match a_fault a with FExist => true | _ => false end
            then 0 else a_ret a)
  | Mount =>
      a ← sys (SysMount (Some (op_a op)) (Some (op_b op))
                 (match fstype op with [] => None | t => Some t end) (op_flags op));
      mret (a_ret a)
  | RemountRO =>
      a ← sys (SysMount None (Some (op_b op)) None (Z.lor MS_REMOUNT (Z.lor MS_BIND MS_RDONLY)));
      mret (a_ret a)
  | SetattrRecRO =>
      fd ← sys (SysOpen (op_b op));
      if a_ret fd <? 0 then mret (-1) else
      a ← sys (SysMountSetattr (a_ret fd) MOUNT_ATTR_RDONLY);
      _ ← sys (SysClose (a_ret fd));
      mret (a_ret a)
  | PivotRoot => a ← sys (SysPivotRoot (op_a op) (op_b op)); mret (a_ret a)
  | Chdir => a ← sys (SysChdir (op_a op)); mret (a_ret a)
  | Umount => a ← sys (SysUmount2 (op_a op) (op_flags op)); mret (a_ret a)
  end.

Fixpoint run_mount_plan (plan : MountPlan) : Sys Z :=
  match plan with
  | [] => mret 0
  | op :: plan =>
      rc ← run_mount_op op;
      if negb (rc =? 0) then mret (-1) else run_mount_plan plan
  end.

Definition build_probe_plan (root : bytes) : MountPlan :=
  [ mkOp MakeRPrivate [] [] [] 0;
    mkOp Mount (str "tmpfs") root (str "tmpfs") 0;
    mkOp Mkdir (root ++ str "/usr") [] [] 0;
    mkOp Mkdir (root ++ str "/oldroot") [] [] 0;
    mkOp Mount (str "/usr") (root ++ str "/usr") [] (Z.lor MS_BIND MS_REC);
    mkOp RemountRO [] (root ++ str "/usr") [] 0;
    mkOp PivotRoot root (root ++ str "/oldroot") [] 0;
    mkOp Chdir (str "/") [] [] 0;
    mkOp Umount (str "/oldroot") [] [] MNT_DETACH ].

Definition unshare_isolation (network filesystem : bool) : Sys Z :=
  let flags := CLONE_NEWUSER in
  let flags := if network then Z.lor flags CLONE_NEWNET else flags in
  let flags := if filesystem then Z.lor flags CLONE_NEWNS else flags in
  a ← sys (SysUnshare flags); mret (if a_ret a =? 0 then 0 else -1).

(** ** Id maps *)

(** [tmp[n++] = ...] on an array of [cap]. *)
Definition append_char (cap : Z) (buf : bytes) (c : ascii) : result bytes :=
  if zlen buf <? cap then Ok (buf ++ [c]) else UB.

(** The [while (v > 0)] loop; an [unsigned long] has at most 20 digits, so 20
    rounds suffice ([write_uint_spec]). *)
Fixpoint digits_loop (rounds : nat) (v : Z) (tmp : bytes) : result bytes :=
  if v >? 0 then
    match rounds with
    | O => UB
    | S rounds => tmp ← append_char 20 tmp (chr (48 + v mod 10)); digits_loop rounds (v / 10) tmp
    end
  else Ok tmp.

(** The copy into [buf], from the last digit of [tmp] to its first. *)
Fixpoint copy_back (cap : Z) (tmp : bytes) (buf : bytes) : result bytes :=
  match tmp with
  | [] => Ok buf
  | c :: tmp => buf ← copy_back cap tmp buf; append_char cap buf c
  end.

(** [write_uint(buf + p, v)] where [buf] holds [p] characters of its [cap]. *)
Definition write_uint (cap : Z) (buf : bytes) (v : Z) : result bytes :=
  tmp ← (if v =? 0 then append_char 20 [] "0"%char else Ok []);
  tmp ← digits_loop 20 v tmp;
  copy_back cap tmp buf.

Definition write_proc (path data : bytes) : Sys bool :=
  fd ← sys (SysOpen path);
  if a_ret fd <? 0 then mret false else
  w ← sys (SysWrite (a_ret fd) data);
  _ ← sys (SysClose (a_ret fd));
  mret (a_ret w =? zlen data).

Definition map_line (id : Z) : result bytes :=
  line ← append_char 40 [] "0"%char;
  line ← append_char 40 line " "%char;
  line ← write_uint 40 line id;
  line ← append_char 40 line " "%char;
  line ← append_char 40 line "1"%char;
  append_char 40 line (chr 10).

Definition write_single_map (path : bytes) (id : Z) : Sys bool :=
  line ← lift (map_line id); write_proc path line.

(** [snprintf] into [char[64]]. *)
Definition proc_path (child : Z) (leaf : bytes) : bytes :=
  take 63 (str "/proc/" ++ to_string_signed child ++ leaf).

Definition write_isolation_id_maps (child : Z) : Sys bool :=
  _ ← write_proc (proc_path child (str "/setgroups")) (str "deny");
  uid ← sys SysGetuid;
  ok ← write_single_map (proc_path child (str "/uid_map")) (u64 (a_ret uid));
  if negb ok then mret false else
  gid ← sys SysGetgid;
  write_single_map (proc_path child (str "/gid_map")) (u64 (a_ret gid)).

(** [stat] fills [st_dev] and [st_ino]. *)
Definition ns_distinct (child : Z) (ns : bytes) : Sys bool :=
  self ← sys (SysStat (take 63 (str "/proc/self/ns/" ++ ns)));
  if negb (a_ret self =? 0) then mret false else
  other ← sys (SysStat (proc_path child (str "/ns/" ++ ns)));
  if negb (a_ret other =? 0) then mret false else
  mret (negb ((a_x self =? a_x other) && (a_y self =? a_y other))).

Definition child_netns_is_isolated (child : Z) : Sys bool := ns_distinct child "net".
Definition child_mountns_is_isolated (child : Z) : Sys bool := ns_distinct child "mnt".

(** ** The probe *)

Definition got_one (a : Answer) : bool :=
  (a_ret a =? 1) && match a_text a with c :: _ => octet c =? 1 | [] => false end.

(** The child's side, up to its exit code. *)
Definition probe_child (c2p p2c : Z * Z) (network filesystem : bool) (plan : option MountPlan) : Sys Z :=
  _ ← sys (SysClose c2p.1);
  _ ← sys (SysClose p2c.2);
  rc ← unshare_isolation network filesystem;
  if negb (rc =? 0) then mret 11 else
  _ ← sys (SysWrite c2p.2 [chr 1]);
  go ← sys (SysRead p2c.1);
  if negb (got_one go) then mret 12 else
  rc ← (match plan with
        | Some plan => if filesystem then run_mount_plan plan else mret 0
        | None => mret 0
        end);
  mret (if negb (rc =? 0) then 13 else 0).

(** The parent's side of [probe_isolation]: [fork] answers [-1] or the child, which
    runs [probe_child] with the same arguments. *)
Definition probe_isolation (network filesystem : bool) (plan : option MountPlan) : Sys bool :=
  c2p ← sys SysPipe;
  if negb (a_ret c2p =? 0) then mret false else
  p2c ← sys SysPipe;
  if negb (a_ret p2c =? 0) then
    _ ← sys (SysClose (a_x c2p)); _ ← sys (SysClose (a_y c2p)); mret false else
  pid ← sys SysFork;
  _ ← sys (SysClose (a_y c2p));
  _ ← sys (SysClose (a_x p2c));
  if a_ret pid <? 0 then
    _ ← sys (SysClose (a_x c2p)); _ ← sys (SysClose (a_y p2c)); mret false else
  one ← sys (SysRead (a_x c2p));
  let unshared := got_one one in
  mapped ← (if unshared then write_isolation_id_maps (a_ret pid) else mret false);
  _ ← (if unshared then
         _ ← sys (SysWrite (a_y p2c) [chr (if (mapped : bool) then 1 else 2)]); mret tt
       else mret tt);
  _ ← sys (SysClose (a_x c2p));
  _ ← sys (SysClose (a_y p2c));
  status ← sys (SysWaitpid (a_ret pid) false);
  (* [WIFEXITED] and [WEXITSTATUS] *)
  mret (mapped && (a_x status =? 1) && (a_y status =? 0)).

(** ** Files as text *)

Definition is_space (c : ascii) : bool :=
  let n := octet c in (n =? 32) || ((9 <=? n) && (n <=? 13)).
Definition is_dec (c : ascii) : bool := (48 <=? octet c) && (octet c <=? 57).

Fixpoint skip_spaces (s : bytes) : bytes :=
  match s with c :: s' => if is_space c then skip_spaces s' else s | [] => [] end.
(** [>>] into a string, after the spaces. *)
Fixpoint word (s : bytes) : bytes * bytes :=
  match s with
  | c :: s' => if is_space c then ([], s) else let '(w, r) := word s' in (c :: w, r)
  | [] => ([], [])
  end.
(** [std::getline] until the end. *)
Fixpoint lines_from (line : bytes) (s : bytes) : list bytes :=
  match s with
  | [] => match line with [] => [] | _ => [line] end
  | c :: s => if octet c =? 10 then line :: lines_from [] s else lines_from (line ++ [c]) s
  end.
Definition lines (s : bytes) : list bytes := lines_from [] s.

Fixpoint digits_value (acc : Z) (s : bytes) : Z * bytes :=
  match s with
  | c :: s' => if is_dec c then digits_value (10 * acc + (octet c - 48)) s' else (acc, s)
  | [] => (acc, [])
  end.
(** A decimal [long long] after spaces: [None] for no digits or a value out of
    range. *)
Definition scan_ll (s : bytes) : option Z * bytes :=
  let s := skip_spaces s in
  let '(neg, d) := match s with
                   | c :: d => if octet c =? 45 then (true, d) else if octet c =? 43 then (false, d) else (false, s)
                   | [] => (false, [])
                   end in
  match d with
  | c :: _ =>
      if is_dec c then
        let '(v, r) := digits_value 0 d in
        let v := if (neg : bool) then - v else v in
        (if (- 2 ^ 63 <=? v) && (v <? 2 ^ 63) then Some v else None, r)
      else (None, d)
  | [] => (None, [])
  end.

Definition parse_ll (s : bytes) : Z := default (-2) (scan_ll s).1.

(** [while (ss >> t)]; each word uses up a character at least. *)
Fixpoint has_token_from (rounds : nat) (s tok : bytes) : bool :=
  match rounds with
  | O => false
  | S rounds =>
      match word (skip_spaces s) with
      | ([], _) => false
      | (t, r) => if bool_decide (t = tok) then true else has_token_from rounds r tok
      end
  end.
Definition has_token (s tok : bytes) : bool := has_token_from (S (length s)) s tok.

Definition starts_with (p s : bytes) : bool := bool_decide (take (length p) s = p).
(** [find(p) != npos]. *)
Fixpoint contains (p s : bytes) : bool :=
  starts_with p s || match s with [] => false | _ :: s => contains p s end.

Definition read_text (path : bytes) : Sys bytes :=
  a ← sys (ReadFile path); mret (if a_ret a =? 0 then a_text a else []).
(** The answer is whether the file opened: what the stream holds is written when
    it is destroyed, after [good()] was asked. *)
Definition write_text (path data : bytes) : Sys bool :=
  a ← sys (WriteFile path data); mret (a_ret a =? 0).

(** ** Control groups *)

Record ResourceCaps : Set := mkCaps { memory_max : Z; pids_max : Z; caps_cpu_weight : Z }.

(** The base path, empty if there is none, and the three flags set with it. *)
Record Cgroup : Type := mkCgroup { cg_base : bytes; cg_memory : bool; cg_pids : bool; cg_cpu : bool }.
Definition no_cgroup : Cgroup := mkCgroup [] false false false.

Fixpoint first_v2 (ls : list bytes) : bytes :=
  match ls with
  | [] => []
  | l :: ls => if starts_with (str "0::") l then drop 3 l else first_v2 ls
  end.
Definition self_cgroup_v2_rel : Sys bytes :=
  t ← read_text "/proc/self/cgroup"; mret (first_v2 (lines t)).

Fixpoint drain_loop (pids : list bytes) (to : bytes) : Sys unit :=
  match pids with
  | [] => mret tt
  | p :: pids => _ ← sys (WriteFile to p); drain_loop pids to
  end.
Definition drain_procs (from to : bytes) : Sys unit :=
  t ← read_text from;
  drain_loop (filter (fun l => l <> []) (lines t)) to.

Definition CGROUP2_SUPER_MAGIC : Z := 1667723888.

(** The initializer of the static in [cgroup_base]. *)
Definition cgroup_base : Sys Cgroup :=
  sfs ← sys (SysStatfs "/sys/fs/cgroup");
  if negb (a_ret sfs =? 0) || negb (a_x sfs =? CGROUP2_SUPER_MAGIC) then mret no_cgroup else
  rel ← self_cgroup_v2_rel;
  if bool_decide (rel = []) then mret no_cgroup else
  let b := str "/sys/fs/cgroup" ++ (if bool_decide (rel = str "/") then [] else rel) in
  let sup := b ++ str "/zen-supervisor" in
  m ← sys (SysMkdir sup 493);
  if negb (a_ret m =? 0) && negb (match a_fault m with FExist => true | _ => false end)
  then mret no_cgroup else
  _ ← drain_procs (b ++ str "/cgroup.procs") (sup ++ str "/cgroup.procs");
  ctrls ← read_text (b ++ str "/cgroup.controllers");
  let want := (if has_token ctrls "memory" then str "+memory " else []) ++
              (if has_token ctrls "pids" then str "+pids " else []) ++
              (if has_token ctrls "cpu" then str "+cpu" else []) in
  ok ← (if bool_decide (want = []) then mret false
        else write_text (b ++ str "/cgroup.subtree_control") want);
  if negb ok then _ ← sys (SysRmdir sup); mret no_cgroup else
  enabled ← read_text (b ++ str "/cgroup.subtree_control");
  mret (mkCgroup b (has_token enabled "memory") (has_token enabled "pids") (has_token enabled "cpu")).

(** [while (f >> key >> val >> unit)]: the kilobytes of [MemTotal:], or 0. *)
Fixpoint meminfo_loop (rounds : nat) (s : bytes) : Z :=
  match rounds with
  | O => 0
  | S rounds =>
      match word (skip_spaces s) with
      | ([], _) => 0
      | (key, r) =>
          match scan_ll r with
          | (None, _) => 0
          | (Some v, r) =>
              match word (skip_spaces r) with
              | ([], _) => 0
              | (_, r) => if bool_decide (key = str "MemTotal:") then v else meminfo_loop rounds r
              end
          end
      end
  end.

Definition cgroup_default_caps : Sys ResourceCaps :=
  t ← read_text "/proc/meminfo";
  let kb := meminfo_loop (S (length t)) t in
  (* signed overflow is undefined *)
  ram ← lift (if (- 2 ^ 63 <=? kb * 1024) && (kb * 1024 <? 2 ^ 63) then Ok (kb * 1024) else UB);
  let mem := if ram >? 0 then Z.quot ram 8 else 512 * 1024 * 1024 in
  let ceiling := 1024 * 1024 * 1024 in
  let floor := 128 * 1024 * 1024 in
  mret (mkCaps (if mem >? ceiling then ceiling else if mem <? floor then floor else mem) 512 100).

Section leaves.
Context (cg : Cgroup).

Definition write_limit (active : bool) (leaf file : bytes) (v : Z) : Sys bool :=
  if active then write_text (leaf ++ file) (to_string_signed v) else mret true.

Definition cgroup_create_leaf (name : bytes) (caps : ResourceCaps) : Sys bool :=
  if bool_decide (cg_base cg = []) then mret false else
  let leaf := cg_base cg ++ str "/" ++ name in
  m ← sys (SysMkdir leaf 493);
  if negb (a_ret m =? 0) && negb (match a_fault m with FExist => true | _ => false end)
  then mret false else
  let memory := cg_memory cg && (0 <=? memory_max caps) in
  ok ← write_limit memory leaf "/memory.max" (memory_max caps);
  if negb ok then mret false else
  _ ← (if memory then write_text (leaf ++ str "/memory.swap.max") (str "0") else mret true);
  ok ← write_limit (cg_pids cg && (0 <=? pids_max caps)) leaf "/pids.max" (pids_max caps);
  if negb ok then mret false else
  write_limit (cg_cpu cg && (0 <? caps_cpu_weight caps)) leaf "/cpu.weight" (caps_cpu_weight caps).

Definition cgroup_move_pid (name : bytes) (pid : Z) : Sys bool :=
  if bool_decide (cg_base cg = []) then mret false else
  write_text (cg_base cg ++ str "/" ++ name ++ str "/cgroup.procs") (to_string_signed pid).

Definition read_limit (active : bool) (leaf file : bytes) (v : Z) : Sys bool :=
  if active then t ← read_text (leaf ++ file); mret (parse_ll t =? v) else mret true.

Definition cgroup_confirm (name : bytes) (pid : Z) (caps : ResourceCaps) : Sys bool :=
  if bool_decide (cg_base cg = []) then mret false else
  let leaf := cg_base cg ++ str "/" ++ name in
  pc ← read_text (str "/proc/" ++ to_string_signed pid ++ str "/cgroup");
  if negb (contains (str "/" ++ name) pc) then mret false else
  ok ← read_limit (cg_memory cg && (0 <=? memory_max caps)) leaf "/memory.max" (memory_max caps);
  if negb ok then mret false else
  ok ← read_limit (cg_pids cg && (0 <=? pids_max caps)) leaf "/pids.max" (pids_max caps);
  if negb ok then mret false else
  read_limit (cg_cpu cg && (0 <? caps_cpu_weight caps)) leaf "/cpu.weight" (caps_cpu_weight caps).

Definition cgroup_remove_leaf (name : bytes) : Sys unit :=
  if bool_decide (cg_base cg = []) then mret tt else
  _ ← sys (SysRmdir (cg_base cg ++ str "/" ++ name)); mret tt.
End leaves.

(** ** Detection *)

Definition detect_enforcement : Sys (EnforcementReport * Cgroup) :=
  net ← probe_isolation true false None;
  let net := if (net : bool)
    then mkStatus Network true "user+net namespace (no interface)" []
    else mkStatus Network false [] "unprivileged user+net namespace unavailable on this host" in
  root ← sys (SysMkdtemp "/tmp/zen-fsprobe-XXXXXX");
  fs ← (if negb (a_ret root =? 0)
        then mret (mkStatus Filesystem false [] "filesystem probe could not create a root")
        else
          ok ← probe_isolation false true (Some (build_probe_plan (a_text root)));
          let s := if (ok : bool)
            then mkStatus Filesystem true "user+mount namespace (pivot_root allow-list)" []
            else mkStatus Filesystem false [] "unprivileged mount-namespace view unavailable on this host" in
          _ ← sys (SysRmdir (a_text root));
          mret s);
  cg ← cgroup_base;
  let res := if negb (bool_decide (cg_base cg = [])) && (cg_memory cg || cg_pids cg)
    then mkStatus Resources true
           (str "cgroup-v2 leaf (" ++ (if cg_memory cg then str "memory " else []) ++
            (if cg_pids cg then str "pids " else []) ++ (if cg_cpu cg then str "cpu" else []) ++ str ")") []
    else mkStatus Resources false []
           "no cgroup-v2 delegated subtree (run the host under a delegated scope)" in
  mret ([net; fs; res], cg).
