(* ===== verification/Confine.v ===== *)
(** * Projecting a grant on a child process

    The part of [src/isolation/host.cpp] that decides what a child may reach and
    launches it: the restricted view, the resolution of each capability against
    what the host can enforce, the spawn, the handshake and the confirmation, the
    teardown.  [Link] is the host's record of a child; with it goes the system's
    side of everything done on its behalf, [OS]. *)

From S2P Require Import Prelude Schema Value Grant Protocol Channel Posix Sandbox.

(** ** The restricted view *)

(** [find_last_of('/')]. *)
Fixpoint last_slash (s : bytes) (i : Z) (found : option Z) : option Z :=
  match s with
  | [] => found
  | c :: s => last_slash s (i + 1) (if octet c =? 47 then Some i else found)
  end.

Definition dirname_of (path : bytes) : bytes :=
  match last_slash path 0 None with
  | None => str "."
  | Some pos => if pos =? 0 then str "/" else take (Z.to_nat pos) path
  end.

(** The loop over [i], from [1] to [abs.size()]. *)
Fixpoint mkdir_p_loop (root abs : bytes) (n : nat) : MountPlan :=
  match n with
  | O => []
  | S n =>
      let i := (length abs - n)%nat in
      (if (i =? length abs)%nat || match abs !! i with Some c => octet c =? 47 | None => false end
       then [mkOp Mkdir (root ++ take i abs) [] [] 0] else []) ++ mkdir_p_loop root abs n
  end.
Definition mkdir_p_ops (p : MountPlan) (root abs : bytes) : MountPlan :=
  p ++ mkdir_p_loop root abs (length abs).

Definition bind_ro_ops (p : MountPlan) (root src : bytes) : MountPlan :=
  mkdir_p_ops p root src ++
  [mkOp Mount src (root ++ src) [] (Z.lor MS_BIND MS_REC); mkOp SetattrRecRO [] (root ++ src) [] 0].

(** [S_ISDIR(st.st_mode)]. *)
Definition is_dir (a : Answer) : bool := (a_ret a =? 0) && (Z.land (a_x a) 61440 =? 16384).

Fixpoint loader_loop (dirs : list bytes) (p : MountPlan) (root : bytes) : Sys MountPlan :=
  match dirs with
  | [] => mret p
  | d :: dirs =>
      st ← sys (SysStat d);
      loader_loop dirs (if is_dir st then bind_ro_ops p root d else p) root
  end.
Definition loader_dirs : list bytes := [str "/usr"; str "/lib"; str "/lib64"; str "/bin"; str "/etc"].

Definition build_view_plan (level : FsAccess) (scoped_path exe_path so_path root : bytes) : Sys MountPlan :=
  let p := [mkOp MakeRPrivate [] [] [] 0;
            mkOp Mount (str "tmpfs") root (str "tmpfs") 0;
            mkOp Mkdir (root ++ str "/oldroot") [] [] 0] in
  p ← loader_loop loader_dirs p root;
  let exe_dir := dirname_of exe_path in
  let p := bind_ro_ops p root exe_dir in
  let so_dir := dirname_of so_path in
  let so_under_exe := bool_decide (so_dir = exe_dir) || starts_with (exe_dir ++ str "/") so_dir in
  let p := if negb (bool_decide (so_dir = [])) && negb so_under_exe then bind_ro_ops p root so_dir else p in
  let p := match level with
           | ReadOnly => if negb (bool_decide (scoped_path = [])) then bind_ro_ops p root scoped_path else p
           | _ => p
           end in
  let scratch f := p ++ [mkOp Mkdir (root ++ str "/scratch") [] [] 0;
                         mkOp Mount (str "tmpfs") (root ++ str "/scratch") (str "tmpfs") f] in
  let p := match level with
           | WriteScoped => scratch 0
           | WriteNoExec => scratch MS_NOEXEC
           | _ => p
           end in
  mret (p ++ [mkOp Mount root root [] (Z.lor MS_REMOUNT MS_RDONLY);
              mkOp PivotRoot root (root ++ str "/oldroot") [] 0;
              mkOp Chdir (str "/") [] [] 0;
              mkOp Umount (str "/oldroot") [] [] MNT_DETACH]).

(** ** Links *)

Inductive Outcome : Set := Enforced | Granted | Uncontained.

Record CapabilityResolution : Type := mkResolution {
  r_capability : Capability; r_outcome : Outcome; confirmed : bool; note : bytes
}.

Record Link : Type := mkLink {
  l_name : bytes;
  l_so_path : bytes;
  l_id : ShardId;
  l_channel : option Channel;
  l_pid : Z;
  l_accept : list Schema;
  l_state_schema : option Schema;
  l_snapshot_value : option Value;
  l_snapshot_bytes : bytes;
  l_policy_value : option Value;
  l_resolutions : list CapabilityResolution;
  l_fs_plan : MountPlan;
  l_fs_root : bytes;
  l_cg_leaf : bytes;
  l_cg_caps : ResourceCaps;
  l_dead : bool;
  l_death_signaled : bool;
  l_quarantined : bool;
  l_os : OS                     (* not a member: the system's side *)
}.

Definition Link_new (name so_path : bytes) (os : OS) : Link :=
  mkLink name so_path 0 None (-1) [] None None [] None [] [] [] [] (mkCaps (-1) (-1) 0) false false false os.

Definition set_channel (ch : option Channel) (l : Link) : Link :=
  mkLink (l_name l) (l_so_path l) (l_id l) ch (l_pid l) (l_accept l) (l_state_schema l)
    (l_snapshot_value l) (l_snapshot_bytes l) (l_policy_value l) (l_resolutions l) (l_fs_plan l)
    (l_fs_root l) (l_cg_leaf l) (l_cg_caps l) (l_dead l) (l_death_signaled l) (l_quarantined l) (l_os l).
Definition set_pid (pid : Z) (l : Link) : Link :=
  mkLink (l_name l) (l_so_path l) (l_id l) (l_channel l) pid (l_accept l) (l_state_schema l)
    (l_snapshot_value l) (l_snapshot_bytes l) (l_policy_value l) (l_resolutions l) (l_fs_plan l)
    (l_fs_root l) (l_cg_leaf l) (l_cg_caps l) (l_dead l) (l_death_signaled l) (l_quarantined l) (l_os l).
Definition set_link_id (id : ShardId) (l : Link) : Link :=
  mkLink (l_name l) (l_so_path l) id (l_channel l) (l_pid l) (l_accept l) (l_state_schema l)
    (l_snapshot_value l) (l_snapshot_bytes l) (l_policy_value l) (l_resolutions l) (l_fs_plan l)
    (l_fs_root l) (l_cg_leaf l) (l_cg_caps l) (l_dead l) (l_death_signaled l) (l_quarantined l) (l_os l).
Definition set_schemas (accept : list Schema) (state : Schema) (l : Link) : Link :=
  mkLink (l_name l) (l_so_path l) (l_id l) (l_channel l) (l_pid l) accept (Some state)
    (l_snapshot_value l) (l_snapshot_bytes l) (l_policy_value l) (l_resolutions l) (l_fs_plan l)
    (l_fs_root l) (l_cg_leaf l) (l_cg_caps l) (l_dead l) (l_death_signaled l) (l_quarantined l) (l_os l).
Definition set_snapshot (v : Value) (w : bytes) (l : Link) : Link :=
  mkLink (l_name l) (l_so_path l) (l_id l) (l_channel l) (l_pid l) (l_accept l) (l_state_schema l)
    (Some v) w (l_policy_value l) (l_resolutions l) (l_fs_plan l)
    (l_fs_root l) (l_cg_leaf l) (l_cg_caps l) (l_dead l) (l_death_signaled l) (l_quarantined l) (l_os l).
Definition set_policy (v : Value) (l : Link) : Link :=
  mkLink (l_name l) (l_so_path l) (l_id l) (l_channel l) (l_pid l) (l_accept l) (l_state_schema l)
    (l_snapshot_value l) (l_snapshot_bytes l) (Some v) (l_resolutions l) (l_fs_plan l)
    (l_fs_root l) (l_cg_leaf l) (l_cg_caps l) (l_dead l) (l_death_signaled l) (l_quarantined l) (l_os l).
Definition set_resolutions (rs : list CapabilityResolution) (l : Link) : Link :=
  mkLink (l_name l) (l_so_path l) (l_id l) (l_channel l) (l_pid l) (l_accept l) (l_state_schema l)
    (l_snapshot_value l) (l_snapshot_bytes l) (l_policy_value l) rs (l_fs_plan l)
    (l_fs_root l) (l_cg_leaf l) (l_cg_caps l) (l_dead l) (l_death_signaled l) (l_quarantined l) (l_os l).
Definition set_view (plan : MountPlan) (root : bytes) (l : Link) : Link :=
  mkLink (l_name l) (l_so_path l) (l_id l) (l_channel l) (l_pid l) (l_accept l) (l_state_schema l)
    (l_snapshot_value l) (l_snapshot_bytes l) (l_policy_value l) (l_resolutions l) plan
    root (l_cg_leaf l) (l_cg_caps l) (l_dead l) (l_death_signaled l) (l_quarantined l) (l_os l).
Definition set_leaf (leaf : bytes) (caps : ResourceCaps) (l : Link) : Link :=
  mkLink (l_name l) (l_so_path l) (l_id l) (l_channel l) (l_pid l) (l_accept l) (l_state_schema l)
    (l_snapshot_value l) (l_snapshot_bytes l) (l_policy_value l) (l_resolutions l) (l_fs_plan l)
    (l_fs_root l) leaf caps (l_dead l) (l_death_signaled l) (l_quarantined l) (l_os l).
Definition set_life (dead signaled quarantined : bool) (l : Link) : Link :=
  mkLink (l_name l) (l_so_path l) (l_id l) (l_channel l) (l_pid l) (l_accept l) (l_state_schema l)
    (l_snapshot_value l) (l_snapshot_bytes l) (l_policy_value l) (l_resolutions l) (l_fs_plan l)
    (l_fs_root l) (l_cg_leaf l) (l_cg_caps l) dead signaled quarantined (l_os l).
Definition set_os (os : OS) (l : Link) : Link :=
  mkLink (l_name l) (l_so_path l) (l_id l) (l_channel l) (l_pid l) (l_accept l) (l_state_schema l)
    (l_snapshot_value l) (l_snapshot_bytes l) (l_policy_value l) (l_resolutions l) (l_fs_plan l)
    (l_fs_root l) (l_cg_leaf l) (l_cg_caps l) (l_dead l) (l_death_signaled l) (l_quarantined l) os.

(** Computations on a link and its side of the system. *)
Abbreviation L := (M Link).
Definition on_os {A : Type} (m : Sys A) : L A := fun l =>
  let '(os, r) := m (l_os l) in (set_os os l, r).

Fixpoint resolved (rs : list CapabilityResolution) (c : Capability) : bool :=
  match rs with
  | [] => false
  | r :: rs => if bool_decide (r_capability r = c)
               then match r_outcome r with Enforced => true | _ => false end
               else resolved rs c
  end.
Definition network_sandboxed (l : Link) : bool := resolved (l_resolutions l) Network.
Definition filesystem_sandboxed (l : Link) : bool := resolved (l_resolutions l) Filesystem.
Definition resources_contained (l : Link) : bool := resolved (l_resolutions l) Resources.

(** One honest sentence for a resolved capability. *)
Definition describe_resolution (r : CapabilityResolution) : bytes :=
  match r_capability r, r_outcome r with
  | Network, Enforced =>
      str "network: contained — private user+net namespace, no external interface, so new outbound connections fail at the syscall level" ++
      (if confirmed r then str " (confirmed: child netns distinct from host)" else []) ++
      str "; the inherited host-control fd and filesystem-path sockets remain by design, so 'contained' means no external reachability, not no-IPC"
  | Network, Granted => str "network: granted — child shares the host network by the grant (not contained)"
  | Network, Uncontained =>
      str "network: NOT CONTAINED — requested but unenforceable on this host, running under dev-mode override"
  | Filesystem, Enforced =>
      str "filesystem: contained at level " ++ note r ++
      str " — private mount namespace, allow-list view (pivot_root into a minimal read-only root; the host home and its secrets are absent, not merely hidden)" ++
      (if confirmed r then str " (confirmed: child mountns distinct from host)" else []) ++
      str "; honest scope: a writable mount is noexec only at WriteNoExec and even then blocks native execve, not code run by an interpreter already in the view; PIDs are not namespaced, so /proc is deliberately not mounted"
  | Filesystem, Granted => str "filesystem: WriteAnywhere — unrestricted host filesystem by the grant (not contained)"
  | Filesystem, Uncontained =>
      str "filesystem: NOT CONTAINED — requested but unenforceable on this host, running under dev-mode override"
  | Resources, Enforced =>
      str "resources: contained (cgroup-v2: " ++ note r ++ str ")" ++
      (if confirmed r then str " (confirmed: pid in leaf, limits read back)" else []) ++
      str "; honest scope: a memory cap OOM-kills within the cgroup (the host survives and reloads-then-quarantines), pids.max stops a fork-bomb; cpu.weight is a fair-share weight (set-and-confirmed where the cpu controller is delegated, absent otherwise), not a hard cap"
  | Resources, Granted => str "resources: unlimited — no limits, by grant (not contained)"
  | Resources, Uncontained =>
      str "resources: NOT CONTAINED — requested but unenforceable on this host, running under dev-mode override"
  end.

Section spawn.
Context (exe : bytes) (cg : Cgroup).

Definition kChildFd : Z := 3.
Definition kHandshakeTimeoutMs : Z := 5000.

Definition first_hello (fs : list Incoming) : option Incoming :=
  head (filter (fun f => in_op f = Op_Hello) fs).

(** The loop of [wait_for_hello]: every turn but the last uses up an answer of the
    poll, and without one the poll fails. *)
Fixpoint wait_loop (rounds : nat) (deadline : Z) (ch : Channel) : Sys (Channel * option Incoming) :=
  match rounds with
  | O => lift UB
  | S rounds =>
      x ← sys_poll ch;
      let '(ch, frames) := (x : Channel * list Incoming) in
      match first_hello frames with
      | Some f => mret (ch, Some f)
      | None =>
          if Channel_done ch then mret (ch, None) else
          now ← sys SysNow;
          if a_ret now >=? deadline then mret (ch, None) else
          r ← sys (SysPollIn (fd ch) (deadline - a_ret now));
          if (a_ret r <? 0) && match a_fault r with FIntr => true | _ => false end
          then wait_loop rounds deadline ch
          else if a_ret r <=? 0 then mret (ch, None)
          else wait_loop rounds deadline ch
      end
  end.
Definition wait_for_hello (ch : Channel) (timeout_ms : Z) : Sys (Channel * option Incoming) := fun os =>
  match sys SysNow os with
  | (os, Ok now) => wait_loop (S (length (answers os))) (a_ret now + timeout_ms) ch os
  | (os, _) => (os, UB)
  end.

(** *** The two ways to launch *)

Definition close_both (sv : Z * Z) : L unit :=
  _ ← on_os (sys (SysClose sv.1)); _ ← on_os (sys (SysClose sv.2)); mret tt.

(** What the forked child runs: its exit code, or [None] if it reached [execve]. *)
Definition sandboxed_child (force_entry_failure sandbox_net sandbox_fs : bool) (plan : MountPlan)
    (so_path : bytes) (sv c2p p2c : Z * Z) : Sys (option Z) :=
  _ ← sys (SysClose c2p.1);
  _ ← sys (SysClose p2c.2);
  if force_entry_failure then mret (Some 127) else
  rc ← (if sandbox_net || sandbox_fs then unshare_isolation sandbox_net sandbox_fs else mret 0);
  if negb (rc =? 0) then mret (Some 127) else
  _ ← sys (SysWrite c2p.2 [chr 1]);
  go ← sys (SysRead p2c.1);
  _ ← sys (SysClose c2p.2);
  _ ← sys (SysClose p2c.1);
  rc ← (if got_one go then (if sandbox_fs then run_mount_plan plan else mret 0) else mret (-1));
  if negb (rc =? 0) then mret (Some 127) else
  dup ← (if sv.2 =? kChildFd then mret 0 else (a ← sys (SysDup2 sv.2 kChildFd); mret (a_ret a)));
  if dup <? 0 then mret (Some 127) else
  _ ← (if sv.1 =? kChildFd then mret tt else (_ ← sys (SysClose sv.1); mret tt));
  _ ← (if sv.2 =? kChildFd then mret tt else (_ ← sys (SysClose sv.2); mret tt));
  x ← sys (SysExecve exe so_path kChildFd);
  mret (if a_ret x =? 0 then None else Some 127).

(** The parent's side of it. *)
Definition launch_sandboxed (sv : Z * Z) (needs_userns sandbox_res : bool) : L (bytes + Z) :=
  c2p ← on_os (sys SysPipe);
  if negb (a_ret c2p =? 0) then _ ← close_both sv; mret (inl (str "sandbox sync pipe failed")) else
  p2c ← on_os (sys SysPipe);
  if negb (a_ret p2c =? 0) then _ ← close_both sv; mret (inl (str "sandbox sync pipe failed")) else
  pid ← on_os (sys SysFork);
  _ ← on_os (sys (SysClose (a_y c2p)));
  _ ← on_os (sys (SysClose (a_x p2c)));
  if a_ret pid <? 0 then
    _ ← close_both (a_x c2p, a_y p2c);
    _ ← close_both sv;
    mret (inl (str "fork (sandboxed spawn) failed"))
  else
  one ← on_os (sys (SysRead (a_x c2p)));
  let signaled := got_one one in
  prepared ← (if signaled && needs_userns then on_os (write_isolation_id_maps (a_ret pid)) else mret signaled);
  l ← gets (fun l : Link => l);
  prepared ← (if (prepared : bool) && sandbox_res
              then on_os (cgroup_move_pid cg (l_cg_leaf l) (a_ret pid)) else mret prepared);
  _ ← (if signaled then
         _ ← on_os (sys (SysWrite (a_y p2c) [chr (if (prepared : bool) then 1 else 2)])); mret tt
       else mret tt);
  _ ← close_both (a_x c2p, a_y p2c);
  if negb prepared then
    _ ← close_both sv;
    _ ← modify (set_pid (a_ret pid));
    mret (inl (str "could not prepare the sandboxed child (id-map or cgroup move failed)"))
  else mret (inr (a_ret pid)).

Definition launch_plain (sv : Z * Z) : L (bytes + Z) :=
  l ← gets (fun l : Link => l);
  rc ← on_os (sys (SysSpawn exe (l_so_path l) kChildFd sv.2));
  if negb (a_ret rc =? 0) then _ ← close_both sv; mret (inl (str "posix_spawn failed"))
  else mret (inr (a_x rc)).

(** *** Handshake and confirmation *)

Definition mark_confirmed (net fs res : bool) (r : CapabilityResolution) : CapabilityResolution :=
  match r_outcome r with
  | Enforced =>
      if match r_capability r with Network => net | Filesystem => fs | Resources => res end
      then mkResolution (r_capability r) (r_outcome r) true (note r) else r
  | _ => r
  end.

Definition hello_parts (payload : bytes) : result (option (bytes * bytes * bytes)) :=
  (both (both Cursor_bytes Cursor_bytes) Cursor_bytes (Cursor_new payload)).2.

Definition confirm (net fs res : bool) : L (option bytes) :=
  l ← gets (fun l : Link => l);
  ok ← (if net then on_os (child_netns_is_isolated (l_pid l)) else mret true);
  if negb ok then mret (Some (str "network sandbox not confirmed: child shares the host network namespace")) else
  ok ← (if fs then on_os (child_mountns_is_isolated (l_pid l)) else mret true);
  if negb ok then mret (Some (str "filesystem sandbox not confirmed: child shares the host mount namespace")) else
  ok ← (if res then on_os (cgroup_confirm cg (l_cg_leaf l) (l_pid l) (l_cg_caps l)) else mret true);
  if negb ok then
    mret (Some (str "resource sandbox not confirmed: child not in its cgroup leaf or limits not applied"))
  else
  _ ← modify (fun l => set_resolutions (mark_confirmed net fs res <$> l_resolutions l) l);
  mret None.

(** [spawn_and_handshake]: the error, or the three parts of the Hello frame. *)
Definition spawn_and_handshake : L (bytes + bytes * bytes * bytes) :=
  pair ← on_os (sys SysSocketpair);
  if negb (a_ret pair =? 0) then mret (inl (str "socketpair failed")) else
  let sv := (a_x pair, a_y pair) in
  _ ← on_os (sys (SysCloexec sv.1));
  l ← gets (fun l : Link => l);
  let sandbox_net := network_sandboxed l in
  let sandbox_fs := filesystem_sandboxed l in
  let sandbox_res := resources_contained l in
  let needs_userns := sandbox_net || sandbox_fs in
  _ ← (if sandbox_fs && negb (bool_decide (l_fs_root l = [])) then
         _ ← on_os (sys (SysMkdir (l_fs_root l) 448)); mret tt
       else mret tt);
  leaf ← (if sandbox_res then on_os (cgroup_create_leaf cg (l_cg_leaf l) (l_cg_caps l)) else mret true);
  if negb leaf then
    _ ← close_both sv; mret (inl (str "resource sandbox: could not create/limit the cgroup leaf"))
  else
  pid ← (if needs_userns || sandbox_res then launch_sandboxed sv needs_userns sandbox_res
         else launch_plain sv);
  match pid with
  | inl e => mret (inl e)
  | inr pid =>
      _ ← on_os (sys (SysClose sv.2));
      _ ← modify (fun l => set_channel (Some (Channel_new sv.1)) (set_pid pid l));
      x ← on_os (wait_for_hello (Channel_new sv.1) kHandshakeTimeoutMs);
      let '(ch, hello) := (x : Channel * option Incoming) in
      _ ← modify (set_channel (Some ch));
      match hello with
      | None => mret (inl (str "child did not complete the handshake"))
      | Some hello =>
          parts ← lift (hello_parts (in_payload hello));
          match parts with
          | None => mret (inl (str "malformed Hello frame"))
          | Some parts =>
              bad ← confirm sandbox_net sandbox_fs sandbox_res;
              match bad with
              | Some e => mret (inl e)
              | None => mret (inr parts)
              end
          end
      end
  end.

(** *** Teardown *)

(** The waits of five milliseconds. *)
Fixpoint reap_loop (n : nat) (pid : Z) : Sys bool :=
  match n with
  | O => mret false
  | S n =>
      r ← sys (SysWaitpid pid true);
      if (a_ret r =? pid) || (a_ret r <? 0) then mret true else reap_loop n pid
  end.

Definition teardown_child : L unit :=
  l ← gets (fun l : Link => l);
  _ ← (match l_channel l with
       | Some ch =>
           ch ← (if Channel_done ch then mret ch else on_os (sys_flush (queue Op_Shutdown [] ch)));
           _ ← (if fd ch >=? 0 then (_ ← on_os (sys (SysClose (fd ch))); mret tt) else mret tt);
           modify (set_channel None)
       | None => mret tt
       end);
  _ ← (if l_pid l >? 0 then
         reaped ← on_os (reap_loop 200 (l_pid l));
         _ ← (if (reaped : bool) then mret tt else
                _ ← on_os (sys (SysKill (l_pid l) 9));
                _ ← on_os (sys (SysWaitpid (l_pid l) false));
                mret tt);
         modify (set_pid (-1))
       else mret tt);
  _ ← (if bool_decide (l_fs_root l = []) then mret tt
       else (_ ← on_os (sys (SysRmdir (l_fs_root l))); mret tt));
  if bool_decide (l_cg_leaf l = []) then mret tt else on_os (cgroup_remove_leaf cg (l_cg_leaf l)).

End spawn.
