(* ===== verification/Host.v ===== *)
(** * The host of isolated shards

    [IsolationHost] of [src/isolation/host.cpp] over a bus of native shards and
    proxies.  A proxy is its [Link]: the C++ proxy holds a pointer to the host's
    record, and here the record is the proxy's state on the bus, where the host
    reaches it by id.  The application leaves the host's proxies on the bus;
    [unmount] takes them off.

    The operating system's side of a link travels in it ([l_os]); a new link is
    given one at [mount], and what was called for a link outlives it ([past]). *)

From S2P Require Import Prelude Schema Value Registry Gate Serialize SchemaCodec Protocol Channel Grant Bus Switchboard Kernel Posix Sandbox Confine.

Section proxy.
Context (exe : bytes) (cg : Cgroup).

(** ** The proxy *)

Definition ship_deliver (m : Message) : L unit :=
  l ← gets (fun l : Link => l);
  match l_channel l with
  | None => mret tt
  | Some ch =>
      w ← lift (serialize (payload m));
      let frame := put_u64 [] (sender m) in
      let frame := put_u64 frame (reply_to m) in
      let frame := put_u64 frame (correlation m) in
      modify (set_channel (Some (Channel.queue Op_Deliver (frame ++ w) ch)))
  end.

Definition respawn_and_revive (state : Value) : L unit :=
  l ← gets (fun l : Link => l);
  _ ← (match l_channel l with Some _ => teardown_child cg | None => mret tt end);
  r ← spawn_and_handshake exe cg;
  match r with
  | inl _ => teardown_child cg
  | inr _ =>
      w ← lift (serialize state);
      l ← gets (fun l : Link => l);
      ch ← lift (deref (l_channel l));
      modify (set_channel (Some (Channel.queue Op_Revive w ch)))
  end.

Definition OutOfProcessShard_ops : ShardOps Link := {|
  accepted_schemas l := Ok (Some <$> l_accept l);
  handle l m := match ship_deliver m l with
                | (l, Ok _) => Done l
                | (l, Throw e) => Raise l e
                | (l, UB) => Crash l
                end;
  shard_snapshot l := deref (l_snapshot_value l);
  policy l := deref (l_policy_value l);
  revive l state := respawn_and_revive state l
|}.
End proxy.

(** ** A bus of native shards and proxies *)

Inductive Placed (N : Type) : Type :=
| Native (sh : N)
| Remote (l : Link).
Arguments Native {N} _.
Arguments Remote {N} _.

Definition Placed_ops {N : Type} (n_ops : ShardOps N) (exe : bytes) (cg : Cgroup) : ShardOps (Placed N) :=
  let r_ops := OutOfProcessShard_ops exe cg in {|
  accepted_schemas x := match x with Native s => accepted_schemas s | Remote l => accepted_schemas l end;
  handle x m := match x with
                | Native s => handler_map Native (handle s m)
                | Remote l => handler_map Remote (handle l m)
                end;
  shard_snapshot x := match x with Native s => shard_snapshot s | Remote l => shard_snapshot l end;
  policy x := match x with Native s => policy s | Remote l => policy l end;
  revive x v := match x with
                | Native s => let '(s, r) := revive s v in (Native s, r)
                | Remote l => let '(l, r) := revive l v in (Remote l, r)
                end
|}.

(** ** The host *)

Record OutOfProcessResult : Type := mkMount { mount_ok : bool; mount_id : ShardId; mount_error : bytes }.

Record IsolationHost (N Ob : Type) : Type := mkHost {
  hbus : Switchboard (Placed N) Ob;
  hregistry : Registry;
  links : gmap bytes ShardId;
  enforcement : EnforcementReport;
  dev_mode : bool;
  leaf_counter : Z;
  past : list OS   (* the system's side of the links that are gone *)
}.
Arguments mkHost {N Ob} _ _ _ _ _ _ _.
Arguments hbus {N Ob} _.
Arguments hregistry {N Ob} _.
Arguments links {N Ob} _.
Arguments enforcement {N Ob} _.
Arguments dev_mode {N Ob} _.
Arguments leaf_counter {N Ob} _.
Arguments past {N Ob} _.

Section host.
Context {N Ob : Type} `{n_ops : ShardOps N} `{ob_ops : ObserverOps Ob}.
Context (variant_what exe : bytes) (cg : Cgroup).
#[local] Instance placed : ShardOps (Placed N) := Placed_ops n_ops exe cg.

Abbreviation Host := (IsolationHost N Ob).
Abbreviation HBus := (Switchboard (Placed N) Ob).

Definition set_hbus (b : HBus) (h : Host) : Host :=
  mkHost b (hregistry h) (links h) (enforcement h) (dev_mode h) (leaf_counter h) (past h).
Definition set_hregistry (r : Registry) (h : Host) : Host :=
  mkHost (hbus h) r (links h) (enforcement h) (dev_mode h) (leaf_counter h) (past h).
Definition set_links (l : gmap bytes ShardId) (h : Host) : Host :=
  mkHost (hbus h) (hregistry h) l (enforcement h) (dev_mode h) (leaf_counter h) (past h).
Definition set_leaf_counter (n : Z) (h : Host) : Host :=
  mkHost (hbus h) (hregistry h) (links h) (enforcement h) (dev_mode h) n (past h).
Definition set_dev_mode (on : bool) (h : Host) : Host :=
  mkHost (hbus h) (hregistry h) (links h) (enforcement h) on (leaf_counter h) (past h).
Definition override_enforcement_for_test (report : EnforcementReport) (h : Host) : Host :=
  mkHost (hbus h) (hregistry h) (links h) report (dev_mode h) (leaf_counter h) (past h).

Definition Host_new (b : HBus) (report : EnforcementReport) : Host :=
  mkHost b ∅ ∅ report false 0 [].

Definition bus_do {A : Type} (m : M HBus A) : M Host A := fun h =>
  let '(b, r) := m (hbus h) in (set_hbus b h, r).
Definition registry_do {A : Type} (m : M Registry A) : M Host A := fun h =>
  let '(g, r) := m (hregistry h) in (set_hregistry g h, r).

(** The link behind a name's id. *)
Definition link_at (id : ShardId) (h : Host) : option Link :=
  match shard id (hbus h) with Some (Remote l) => Some l | _ => None end.
Definition link_do {A : Type} (id : ShardId) (m : L A) : M Host A := fun h =>
  match link_at id h with
  | Some l =>
      let '(l, r) := m l in
      (set_hbus (update_shard id (rec_set_shard (Remote l)) (hbus h)) h, r)
  | None => (h, UB)
  end.

(** *** Mounting *)

Definition add_resolution (r : CapabilityResolution) : L unit :=
  modify (fun l => set_resolutions (l_resolutions l ++ [r]) l).

Definition refused_for_name (what name why : bytes) : bytes :=
  str "refused (fail-safe): cannot enforce " ++ what ++ str " for '" ++ name ++ str "' on this host " ++ why.

(** Each capability's block: [Some error] returns from [mount].  The warnings of
    the development mode go to [stderr]. *)
Definition resolve_network (h : Host) (name : bytes) (grant : Grant) : L (option bytes) :=
  if has_os_capability grant cap_Network then
    _ ← add_resolution (mkResolution Network Granted false []); mret None
  else if enforceable (enforcement h) Network then
    _ ← add_resolution (mkResolution Network Enforced false []); mret None
  else if dev_mode h then
    _ ← add_resolution (mkResolution Network Uncontained false []); mret None
  else mret (Some (refused_for_name (str "network isolation") name
    (str "(no unprivileged network namespace). Grant os_cap::Network to allow the network intentionally, or enable dev-mode to run it network-uncontained."))).

Definition resolve_filesystem (h : Host) (name : bytes) (grant : Grant) : L (option bytes) :=
  let level := fs_ grant in
  let note := fs_access_name level in
  if bool_decide (level = WriteAnywhere) then
    _ ← add_resolution (mkResolution Filesystem Granted false note); mret None
  else if enforceable (enforcement h) Filesystem then
    root ← on_os (sys (SysMkdtemp "/tmp/zen-sb-XXXXXX"));
    if negb (a_ret root =? 0)
    then mret (Some (str "filesystem sandbox: could not create a view root for '" ++ name ++ str "'"))
    else
      l ← gets (fun l : Link => l);
      plan ← on_os (build_view_plan level (fs_path_ grant) exe (l_so_path l) (a_text root));
      _ ← modify (set_view plan (a_text root));
      _ ← add_resolution (mkResolution Filesystem Enforced false note);
      mret None
  else if dev_mode h then
    _ ← add_resolution (mkResolution Filesystem Uncontained false note); mret None
  else mret (Some (refused_for_name (str "filesystem isolation") name
    (str "(no unprivileged mount namespace). Grant FsAccess::WriteAnywhere to opt out intentionally, or enable dev-mode to run it filesystem-uncontained."))).

Definition raised (dflt lim : Z) : Z := if lim >? 0 then lim else dflt.

Definition resolve_resources (h : Host) (name : bytes) (grant : Grant) : L (option bytes) :=
  let lim := res_ grant in
  if unlimited lim then
    _ ← add_resolution (mkResolution Resources Granted false []); mret None
  else if enforceable (enforcement h) Resources then
    caps ← on_os cgroup_default_caps;
    let caps := mkCaps (raised (memory_max caps) (memory_bytes lim)) (raised (pids_max caps) (pids lim))
                  (raised (caps_cpu_weight caps) (cpu_weight lim)) in
    _ ← modify (set_leaf (str "zen-shard-" ++ to_string (leaf_counter h)) caps);
    _ ← add_resolution (mkResolution Resources Enforced false
          (str "memory<=" ++ to_string_signed (Z.quot (memory_max caps) (1024 * 1024)) ++
           str "MiB, pids<=" ++ to_string_signed (pids_max caps)));
    mret None
  else if dev_mode h then
    _ ← add_resolution (mkResolution Resources Uncontained false []); mret None
  else mret (Some (refused_for_name (str "resource limits") name
    (str "(no cgroup-v2 delegation — run the host under a delegated scope). Grant unlimited resources to opt out, or enable dev-mode to run it resource-uncontained."))).

(** Whether the resources block draws a leaf name. *)
Definition draws_leaf (h : Host) (grant : Grant) : bool :=
  negb (unlimited (res_ grant)) && enforceable (enforcement h) Resources.

Definition resolve (h : Host) (name : bytes) (grant : Grant) : L (option bytes) :=
  e ← resolve_network h name grant;
  match e with
  | Some e => mret (Some e)
  | None =>
      e ← resolve_filesystem h name grant;
      match e with
      | Some e => mret (Some e)
      | None => resolve_resources h name grant
      end
  end.

Definition admit_part (w : bytes) (door : option Schema) (what : bytes) : M Host Value :=
  a ← bus_do (gate (admit_door (parse w) door FirstError));
  if negb (adm_ok a) then
    e ← lift (first_error a);
    lift (Throw (runtime_error (what ++ str " refused: " ++ Error_message e)))
  else lift (Admission_value a).

Definition reconstruct_and_cache (l : Link) (manifest policy snapshot : bytes) : M Host Link :=
  door ← lift manifest_schema;
  mv ← admit_part manifest (Some door) (str "manifest");
  x ← registry_do (rebuild_manifest mv);
  let '(accept, state) := (x : list Schema * Schema) in
  let l := set_schemas accept state l in
  door ← lift lifecycle_policy_schema;
  pv ← admit_part policy (Some door) (str "policy");
  let l := set_policy pv l in
  sv ← admit_part snapshot (Some state) (str "snapshot");
  mret (set_snapshot sv snapshot l).

(** Runs on a link that is not on the bus yet. *)
Definition on_link {A : Type} (m : L A) (l : Link) : M Host (Link * A) := fun h =>
  match m l with
  | (l, Ok a) => (h, Ok (l, a))
  | (_, Throw e) => (h, Throw e)
  | (_, UB) => (h, UB)
  end.

(** The end of a link: what was called for it stays with the system. *)
Definition retire (os : OS) (h : Host) : Host :=
  mkHost (hbus h) (hregistry h) (links h) (enforcement h) (dev_mode h) (leaf_counter h) (past h ++ [os]).
Definition dispose (l : Link) : M Host unit :=
  x ← on_link (teardown_child cg) l; modify (retire (l_os x.1)).

Definition mount (name so_path : bytes) (grant : Grant) (os : OS) : M Host OutOfProcessResult :=
  h ← gets (fun h : Host => h);
  if bool_decide (is_Some (links h !! name))
  then mret (mkMount false 0 (str "already mounted: " ++ name)) else
  x ← on_link (resolve h name grant) (Link_new name so_path (anew os));
  let '(l, refusal) := (x : Link * option bytes) in
  match refusal with
  | Some e => _ ← modify (retire (l_os l)); mret (mkMount false 0 e)
  | None =>
      _ ← (if draws_leaf h grant then modify (set_leaf_counter (u64 (leaf_counter h + 1))) else mret tt);
      x ← on_link (spawn_and_handshake exe cg) l;
      let '(l, hello) := (x : Link * (bytes + bytes * bytes * bytes)) in
      match hello with
      | inl e =>
          _ ← dispose l;
          mret (mkMount false 0 (str "spawn/handshake failed: " ++ e))
      | inr (manifest, pol, snapshot) =>
          r ← try (reconstruct_and_cache l manifest pol snapshot);
          match r with
          | inl e =>
              _ ← dispose l;
              mret (mkMount false 0 (str "handshake refused by the gate: " ++ what variant_what e))
          | inr l =>
              r ← try (bus_do (register_shard (Some (Remote l)) grant));
              match r with
              | inl e =>
                  _ ← dispose l;
                  mret (mkMount false 0 (str "register refused: " ++ what variant_what e))
              | inr id =>
                  _ ← link_do id (modify (set_link_id id));
                  _ ← modify (fun h => set_links (<[name := id]> (links h)) h);
                  mret (mkMount true id [])
              end
          end
      end
  end.

(** *** The child's frames *)

Definition emit_header : M Cursor (option (Z * Z * Z * Z)) :=
  both (both (both Cursor_u8 Cursor_u64) Cursor_u64) Cursor_u64.

(** The Emit branch, once its header is read. *)
Definition route_emit (id : ShardId) (kind target reply_to correlation : Z) (rest : bytes) : M Host unit :=
  let u := parse rest in
  door ← bus_do (gets (resolve_schema (claimed_name u) (claimed_version u)));
  match door with
  | None => mret tt
  | Some door =>
      a ← bus_do (gate (admit_door u (Some door) FirstError));
      if negb (adm_ok a) then mret tt else
      v ← lift (Admission_value a);
      let msg := mkMessage v 0 reply_to correlation in
      if kind =? kEmitPublish
      then bus_do (modify (fun b => (publish_as id msg b).1))
      else bus_do (modify (fun b => (send_as id target msg b).1))
  end.

Definition handle_child_frame (id : ShardId) (frame : Incoming) : M Host unit :=
  l ← gets (link_at id);
  l ← lift (deref l);
  if in_op frame =? Op_Emit then
    hdr ← lift (parse_payload emit_header (in_payload frame));
    match hdr with
    | None => mret tt
    | Some (kind, target, reply_to, correlation, rest) =>
        route_emit (l_id l) kind target reply_to correlation rest
    end
  else if in_op frame =? Op_Snapshot then
    a ← bus_do (gate (admit_door (parse (in_payload frame)) (l_state_schema l) FirstError));
    if negb (adm_ok a) then mret tt else
    v ← lift (Admission_value a);
    link_do id (modify (set_snapshot v (in_payload frame)))
  else mret tt.

Fixpoint frames_do (id : ShardId) (frames : list Incoming) : M Host unit :=
  match frames with
  | [] => mret tt
  | f :: frames => _ ← handle_child_frame id f; frames_do id frames
  end.

(** *** Supervision *)

Definition recover (id : ShardId) : M Host unit :=
  _ ← link_do id (teardown_child cg);
  l ← gets (link_at id);
  l ← lift (deref l);
  ro ← bus_do (reload (l_id l) (l_snapshot_bytes l));
  l ← gets (link_at id);
  l ← lift (deref l);
  if revived ro && bool_decide (is_Some (l_channel l))
  then link_do id (modify (fun l => set_life false false (l_quarantined l) l))
  else
    _ ← link_do id (modify (fun l => set_life true (l_death_signaled l) true l));
    link_do id (teardown_child cg).

(** The first loop of [step], on one link. *)
Definition exchange (id : ShardId) : M Host unit :=
  l ← gets (link_at id);
  l ← lift (deref l);
  match l_channel l with
  | None => mret tt
  | Some ch =>
      ch ← link_do id (on_os (sys_flush ch));
      x ← link_do id (on_os (sys_poll ch));
      let '(ch, frames) := (x : Channel * list Incoming) in
      _ ← link_do id (modify (set_channel (Some ch)));
      frames_do id frames
  end.

(** The third. *)
Definition supervise (id : ShardId) : M Host unit :=
  l ← gets (link_at id);
  l ← lift (deref l);
  if l_quarantined l then mret tt else
  let dead_now := match l_channel l with None => true | Some ch => Channel_done ch end in
  _ ← (if dead_now && negb (l_death_signaled l) then
         _ ← link_do id (modify (fun l => set_life true true (l_quarantined l) l));
         bus_do (kill (l_id l))
       else mret tt);
  l ← gets (link_at id);
  l ← lift (deref l);
  if l_dead l then recover id else mret tt.

Fixpoint for_links (ids : list ShardId) (f : ShardId -> M Host unit) : M Host unit :=
  match ids with
  | [] => mret tt
  | id :: ids => _ ← f id; for_links ids f
  end.

Definition pump_do (fuel : nat) (h : Host) : option (Host * result unit) :=
  match pump fuel (hbus h) with
  | Some (b, r) => Some (set_hbus b h, r)
  | None => None
  end.

(** The map of links is not changed meanwhile. *)
Definition step (fuel : nat) (h : Host) : option (Host * result unit) :=
  let ids := (by_name (links h)).*2 in
  match for_links ids exchange h with
  | (h, Ok _) =>
      match pump_do fuel h with
      | Some (h, Ok _) => Some (for_links ids supervise h)
      | x => x
      end
  | x => Some x
  end.

(** [run_until]; the sleeps are left out. *)
Fixpoint run_until (predicate : Host -> bool) (max_steps : nat) (fuel : nat) (h : Host) :
    option (Host * result bool) :=
  if predicate h then Some (h, Ok true) else
  match max_steps with
  | O => Some (h, Ok false)
  | S max_steps =>
      match step fuel h with
      | Some (h, Ok _) => run_until predicate max_steps fuel h
      | Some (h, Throw e) => Some (h, Throw e)
      | Some (h, UB) => Some (h, UB)
      | None => None
      end
  end.

Definition unmount (name : bytes) : M Host unit :=
  found ← gets (fun h => links h !! name);
  match found with
  | None => mret tt
  | Some id =>
      proxy ← bus_do (fun b => let '(b, sh) := unregister_shard id b in (b, Ok sh));
      match proxy with
      | Some (Remote l) =>
          _ ← dispose l;
          modify (fun h => set_links (delete name (links h)) h)
      | _ => lift UB
      end
  end.

Fixpoint unmount_all (names : list bytes) : M Host unit :=
  match names with
  | [] => mret tt
  | n :: names => _ ← unmount n; unmount_all names
  end.
Definition Host_destroy : M Host unit :=
  names ← gets (fun h => (by_name (links h)).*1); unmount_all names.

(** *** Queries *)

Definition is_mounted (name : bytes) (h : Host) : bool := bool_decide (is_Some (links h !! name)).
Definition quarantined (name : bytes) (h : Host) : bool :=
  match links h !! name with
  | Some id => match link_at id h with Some l => l_quarantined l | None => false end
  | None => false
  end.


Fixpoint describe_all (rs : list CapabilityResolution) (body : bytes) : bytes :=
  match rs with
  | [] => body
  | r :: rs => describe_all rs (body ++ str " " ++ describe_resolution r ++ str ".")
  end.

Definition containment (name : bytes) (h : Host) : option bytes :=
  match links h !! name with
  | None => Some (str "not mounted")
  | Some id =>
      match link_at id h with
      | Some l =>
          let head := if l_quarantined l
            then str "isolated (process boundary); quarantined: dead after exhausting reloads."
            else str "isolated (process boundary): crash-contained, cannot corrupt host memory." in
          Some (head ++ describe_all (l_resolutions l) [] ++
                str " syscalls: not enforced (seccomp is a separate, later decision).")
      | None => None
      end
  end.

End host.
