(* ===== verification/HostSafety.v ===== *)
(** * What an isolated child can do to its host

    Whatever bytes a child sends, the host ends in one of two ways: deliveries
    enqueued under the child's own identity, subject to its grant, or a refreshed
    snapshot the gate admitted. *)

From S2P Require Import Prelude Schema Value Registry Gate Serialize SchemaCodec Protocol Channel Grant Bus Switchboard Enqueue Invariant Kernel Posix Sandbox Confine Host.

Section frames.
Context {N Ob : Type} `{n_ops : ShardOps N} `{ob_ops : ObserverOps Ob}.
Context (exe : bytes) (cg : Cgroup).

Abbreviation Host := (IsolationHost N Ob).
Abbreviation HBus := (Switchboard (Placed N) Ob).

(** The two effects a frame can have. *)
Inductive frame_effect (id : ShardId) (l : Link) (f : Incoming) (h : Host) : Host -> Prop :=
| effect_orders orders g :
    Forall (stamped id) orders ->
    Forall (fun x => exists door, resolve_schema (Schema_name door) (Schema_version door) (hbus h) = Some door /\
      conforms (payload x.1.2) door) orders ->
    frame_effect id l f h (set_hbus (set_gate_calls g (push_all orders (hbus h))) h)
| effect_snapshot v s g :
    in_op f = Op_Snapshot -> l_state_schema l = Some s -> conforms v s -> Value_schema v = s -> serialize v = Ok (in_payload f) ->
    frame_effect id l f h
      (set_hbus (update_shard id (rec_set_shard (Remote (set_snapshot v (in_payload f) l)))
        (set_gate_calls g (hbus h))) h).

Lemma no_effect id l f (h : Host) : frame_effect id l f h h.
Proof.
  replace h with (set_hbus (set_gate_calls (gate_calls (hbus h)) (push_all [] (hbus h))) h) at 2
    by (destruct h as [[] ? ? ? ? ?]; done).
  by apply effect_orders.
Qed.

Lemma gate_effect id l f g (h : Host) : frame_effect id l f h (set_hbus (set_gate_calls g (hbus h)) h).
Proof. by apply (effect_orders id l f h [] g). Qed.

Lemma resolved_wf (b : HBus) name version door :
  tables_ok b -> resolve_schema name version b = Some door ->
  wf_schema door /\ Schema_name door = name /\ Schema_version door = version.
Proof.
  intros [T1 T2 _ _] E. unfold resolve_schema, Registry_lookup in E. split; [by eapply (T2 _ _ E)|].
  specialize (T1 _ _ E). by injection T1 as -> ->.
Qed.

Lemma route_emit_effect id l f kind target reply_to correlation rest (h : Host) :
  tables_ok (hbus h) ->
  exists h', route_emit id kind target reply_to correlation rest h = (h', Ok tt) /\ frame_effect id l f h h'.
Proof.
  intros Ht. unfold route_emit, mbind, M_bind, bus_do, gets. cbv zeta.
  change (hbus (set_hbus (hbus h) h)) with (hbus h).
  destruct (resolve_schema _ _ (hbus h)) as [door|] eqn:Ed.
  2: { exists h. split; [by destruct h|apply no_effect]. }
  destruct (resolved_wf _ _ _ _ Ht Ed) as (Hwf & En & Ev). rewrite <-En, <-Ev in Ed. unfold gate.
  cbn [hbus set_hbus].
  destruct (admit_door_cases (parse rest) door FirstError (gate_calls (hbus h)) Hwf)
    as (g & _ & [(v & Hc & _ & _ & E)|(e & es & E)]); rewrite E; cbn [Admission_accept adm_ok adm_value negb is_Some].
  2: { eexists. split; [reflexivity|]. exact (gate_effect id l f g h). }
  cbn [lift Admission_value adm_value adm_errors]. unfold lift. cbn.
  destruct (kind =? kEmitPublish); unfold modify, publish_as, send_as, enqueue_directed; rewrite ?fanout_eq; cbn;
    (eexists; split; [reflexivity|]).
  - rewrite push_all_gate_calls. match goal with |- context [push_all ?os _] => refine (effect_orders id l f h os g _ _) end;
      apply Forall_fmap, Forall_true; [done|]. intros x. by exists door.
  - change (push_delivery target ?m true ?b) with (push_all [(target, m, true)] b).
    rewrite push_all_gate_calls. refine (effect_orders id l f h [(target, mkMessage v id reply_to correlation, true)] g _ _); repeat constructor.
    by exists door.
Qed.

Lemma link_at_shard id (h : Host) l :
  link_at id h = Some l -> exists rec, shards (hbus h) !! id = Some rec /\ rec_shard rec = Remote l.
Proof.
  unfold link_at, shard, find. destruct (shards (hbus h) !! id) as [rec|]; [|done]. cbn.
  destruct (rec_shard rec) as [|l'] eqn:E; [done|]. intros [= <-]. eauto.
Qed.

Lemma frame_handled id (f : Incoming) (h : Host) l s :
  tables_ok (hbus h) -> link_at id h = Some l -> l_id l = id -> l_state_schema l = Some s ->
  wf_schema s -> zlen (in_payload f) < 2 ^ 64 ->
  exists h', handle_child_frame id f h = (h', Ok tt) /\ frame_effect id l f h h'.
Proof.
  intros Ht Hl Hid Hs Hwf Hlen. unfold handle_child_frame.
  rewrite (M_bind_ok (gets _) _ h h _ eq_refl), Hl. rewrite (M_bind_ok (lift (deref (Some l))) _ h h l eq_refl).
  destruct (in_op f =? Op_Emit).
  - destruct (parse_payload_spec emit_header _ _ (in_payload f) Hlen) as (r & -> & _).
    rewrite (M_bind_ok (lift (Ok r)) _ h h r eq_refl).
    destruct r as [[[[[kind target] reply_to] correlation] rest]|]; [|exists h; split; [done|apply no_effect]].
    rewrite Hid. by apply route_emit_effect.
  - destruct (Z.eqb_spec (in_op f) Op_Snapshot) as [Hop|_]; [|exists h; split; [done|apply no_effect]].
    rewrite Hs. unfold mbind, M_bind, bus_do, gate.
    destruct (admit_door_cases (parse (in_payload f)) s FirstError (gate_calls (hbus h)) Hwf)
      as (g & _ & [(v & Hc & Hv & _ & E)|(e & es & E)]); rewrite E; cbn [Admission_accept adm_ok adm_value negb is_Some].
    2: { eexists. split; [reflexivity|apply gate_effect]. }
    unfold lift. cbn [Admission_value adm_value]. unfold link_do.
    change (link_at id (set_hbus (set_gate_calls g (hbus h)) h)) with (link_at id h). rewrite Hl. cbn.
    eexists. split; [reflexivity|]. eapply (effect_snapshot id l f h v s g); [done|done|done|done|].
    by eapply (admitted_canonical _ s).
Qed.
(** C19: a child confined.  Whatever frame a child sends, of any kind and any
    content, the host handles it without undefined behaviour and without an
    exception, and the frame does at most one of two things: it enqueues
    deliveries that are gated, stamped with the child's own id and carry values
    conforming to a published schema, or it replaces the child's cached snapshot
    by a value conforming to its state schema, whose canonical bytes the frame
    carried. *)
Theorem child_confined id (f : Incoming) (h : Host) l s :
  tables_ok (hbus h) -> link_at id h = Some l -> l_id l = id -> l_state_schema l = Some s ->
  wf_schema s -> zlen (in_payload f) < 2 ^ 64 ->
  exists h', handle_child_frame id f h = (h', Ok tt) /\ frame_effect id l f h h'.
Proof. apply frame_handled. Qed.
End frames.
