(* ===== verification/SandboxSafety.v ===== *)
(** * What the sandbox code promises

    Every computation of [Sandbox] ends, whatever the system answers, and closes
    what it opens; numbers cross to the kernel and back in decimal; a mount plan
    runs in order up to its first failure. *)

From S2P Require Import Prelude Grant Protocol Channel Posix Sandbox.

Create HintDb sandbox.

(** Proves a computation balanced, call by call. *)
Ltac balance :=
  repeat first
    [ solve [eauto with sandbox nocore]
    | apply balanced_ret
    | apply balanced_sys; [assumption|done|done]
    | apply balanced_bind; [|intros ?]
    | apply balanced_if
    | match goal with
      | |- balanced _ (match ?x with _ => _ end) => destruct x
      | |- balanced _ (let _ := _ in _) => cbv zeta
      end ].

(** ** Decimal *)

(** The digits of [v], the least significant first. *)
Fixpoint digits_rev (n : nat) (v : Z) : bytes :=
  match n with
  | O => []
  | S n => if v >? 0 then chr (48 + v mod 10) :: digits_rev n (v / 10) else []
  end.

Lemma digits_rev_length n v : 0 <= v -> (length (digits_rev n v) <= n)%nat.
Proof.
  revert v. induction n as [|n IH]; intros v Hv; [done|]. cbn [digits_rev]. destruct (v >? 0); cbn; [|lia].
  specialize (IH (v / 10) ltac:(apply Z.div_pos; lia)). lia.
Qed.

Lemma digits_loop_spec n v tmp :
  0 <= v < 10 ^ Z.of_nat n -> zlen tmp + Z.of_nat n <= 20 ->
  digits_loop n v tmp = Ok (tmp ++ digits_rev n v).
Proof.
  revert v tmp. induction n as [|n IH]; intros v tmp Hv Ht.
  - cbn [digits_loop digits_rev]. change (10 ^ Z.of_nat 0) with 1 in Hv.
    rewrite gtb_false by lia. by rewrite app_nil_r.
  - cbn [digits_loop digits_rev]. rewrite Z.gtb_ltb. destruct (Z.ltb_spec 0 v) as [Hp|_]; [|by rewrite app_nil_r].
    unfold append_char. destruct (Z.ltb_spec (zlen tmp) 20); [|lia]. cbn.
    rewrite IH; [by rewrite <-app_assoc| |rewrite zlen_app; cbn; unfold zlen at 2; cbn; lia].
    rewrite Nat2Z.inj_succ, Z.pow_succ_r in Hv by lia.
    split; [apply Z.div_pos; lia|]. apply Z.div_lt_upper_bound; lia.
Qed.

Lemma copy_back_spec cap tmp buf :
  zlen buf + zlen tmp <= cap -> copy_back cap tmp buf = Ok (buf ++ reverse tmp).
Proof.
  revert buf. induction tmp as [|c tmp IH]; intros buf Hc; cbn [copy_back].
  - by rewrite reverse_nil, app_nil_r.
  - rewrite zlen_cons in Hc. rewrite IH by lia. cbn [mbind result_bind]. unfold append_char.
    rewrite zlen_app. assert (zlen (reverse tmp) = zlen tmp) as -> by (unfold zlen; by rewrite length_reverse).
    destruct (Z.ltb_spec (zlen buf + zlen tmp) cap); [|lia].
    by rewrite reverse_cons, app_assoc.
Qed.

Lemma dec_digits_rev n v acc :
  0 < v < 10 ^ Z.of_nat n -> dec_digits n v acc = reverse (digits_rev n v) ++ acc.
Proof.
  revert v acc. induction n as [|n IH]; intros v acc Hv; [change (10 ^ Z.of_nat 0) with 1 in Hv; lia|].
  cbn [dec_digits digits_rev]. rewrite Z.gtb_ltb. destruct (Z.ltb_spec 0 v); [|lia].
  rewrite Nat2Z.inj_succ, Z.pow_succ_r in Hv by lia.
  destruct (Z.ltb_spec v 10) as [Hs|Hs].
  - replace (v / 10) with 0 by (symmetry; apply Z.div_small; lia).
    by destruct n.
  - rewrite IH, reverse_cons, <-app_assoc; [done|].
    assert (v = 10 * (v / 10) + v mod 10) by (apply Z.div_mod; lia).
    pose proof (Z.mod_pos_bound v 10 ltac:(lia)). lia.
Qed.

Lemma to_string_digits v : 0 <= v < 10 ^ 20 ->
  to_string v = if v =? 0 then str "0" else reverse (digits_rev 20 v).
Proof.
  intros Hv. unfold to_string. destruct (Z.eqb_spec v 0) as [->|]; [done|].
  rewrite dec_digits_rev by (change (Z.of_nat 20) with 20; lia). by rewrite app_nil_r.
Qed.

Lemma write_uint_ok cap buf v :
  in_u64 v -> zlen buf + 20 <= cap -> write_uint cap buf v = Ok (buf ++ to_string v).
Proof.
  intros Hv Hc. unfold in_u64 in Hv. rewrite to_string_digits by lia. unfold write_uint.
  destruct (Z.eqb_spec v 0) as [->|Hn].
  - change (append_char 20 [] "0"%char) with (Ok (str "0")). cbn [mbind result_bind digits_loop Z.gtb Z.compare].
    apply (copy_back_spec cap (str "0") buf). change (zlen (str "0")) with 1. lia.
  - cbn [mbind result_bind]. rewrite digits_loop_spec; [|change (Z.of_nat 20) with 20; lia|done].
    cbn [mbind result_bind app]. apply copy_back_spec.
    pose proof (digits_rev_length 20 v ltac:(lia)). unfold zlen at 2. lia.
Qed.

Lemma to_string_short v : in_u64 v -> zlen (to_string v) <= 20.
Proof.
  intros Hv. unfold in_u64 in Hv. rewrite to_string_digits by lia. destruct (v =? 0); [done|].
  unfold zlen. rewrite length_reverse. pose proof (digits_rev_length 20 v ltac:(lia)). lia.
Qed.

(** No write past either stack buffer. *)
Lemma map_line_written id :
  in_u64 id -> map_line id = Ok (str "0 " ++ to_string id ++ str " 1" ++ [chr 10]).
Proof.
  intros Hid. unfold map_line. cbn [append_char zlen length].
  change (append_char 40 [] "0"%char) with (Ok (str "0")). cbn [mbind result_bind].
  change (append_char 40 (str "0") " "%char) with (Ok (str "0 ")). cbn [mbind result_bind].
  rewrite write_uint_ok by (done || by vm_compute). cbn [mbind result_bind].
  pose proof (to_string_short id Hid) as Hs. set (s := to_string id) in *.
  assert (forall t c, zlen t + zlen s < 40 -> append_char 40 (t ++ s) c = Ok (t ++ s ++ [c])) as H.
  { intros t c Ht. unfold append_char. rewrite zlen_app. destruct (Z.ltb_spec (zlen t + zlen s) 40); [|lia].
    by rewrite <-app_assoc. }
  assert (forall t u c, zlen t + zlen s + zlen u < 40 -> append_char 40 (t ++ s ++ u) c = Ok (t ++ s ++ u ++ [c])) as H'.
  { intros t u c Ht. unfold append_char. rewrite !zlen_app. destruct (Z.ltb_spec (zlen t + (zlen s + zlen u)) 40); [|lia].
    by rewrite <-!app_assoc. }
  assert (zlen (str "0 ") = 2) as L2 by done. assert (forall c : ascii, zlen [c] = 1) as L1 by done.
  assert (forall c d : ascii, zlen [c; d] = 2) as L2' by done.
  rewrite H by lia. cbn [mbind result_bind]. rewrite H' by (rewrite L1; lia). cbn [mbind result_bind app].
  rewrite H' by (rewrite L2'; lia). done.
Qed.

(** *** And back *)

Lemma digit_octet d : 0 <= d < 10 -> octet (chr (48 + d)) = 48 + d.
Proof. intros Hd. rewrite octet_chr. apply Z.mod_small. lia. Qed.

Lemma digit_is_dec d : 0 <= d < 10 -> is_dec (chr (48 + d)) = true.
Proof.
  intros Hd. unfold is_dec. rewrite digit_octet by done.
  destruct (Z.leb_spec 48 (48 + d)); [|lia]. by destruct (Z.leb_spec (48 + d) 57); [|lia].
Qed.

Lemma digits_value_rev n v acc s :
  0 <= v < 10 ^ Z.of_nat n ->
  digits_value acc (reverse (digits_rev n v) ++ s) =
    digits_value (acc * 10 ^ zlen (digits_rev n v) + v) s.
Proof.
  revert v acc s. induction n as [|n IH]; intros v acc s Hv.
  - change (10 ^ Z.of_nat 0) with 1 in Hv. change (digits_value acc s = digits_value (acc * 1 + v) s).
    f_equal. lia.
  - cbn [digits_rev]. rewrite Z.gtb_ltb. destruct (Z.ltb_spec 0 v) as [Hp|].
    2: { change (digits_value acc s = digits_value (acc * 1 + v) s). f_equal. lia. }
    rewrite Nat2Z.inj_succ, Z.pow_succ_r in Hv by lia.
    assert (v = 10 * (v / 10) + v mod 10) as Hdm by (apply Z.div_mod; lia).
    pose proof (Z.mod_pos_bound v 10 ltac:(lia)) as Hm.
    rewrite reverse_cons, <-app_assoc, IH by (split; [apply Z.div_pos; lia|apply Z.div_lt_upper_bound; lia]).
    cbn [app digits_value]. rewrite digit_is_dec, digit_octet by lia.
    rewrite zlen_cons. set (k := zlen (digits_rev n (v / 10))).
    assert (0 <= k) by apply zlen_nonneg. rewrite Z.pow_add_r by lia. change (10 ^ 1) with 10. f_equal. lia.
Qed.

Lemma digits_value_to_string v c s :
  in_u64 v -> is_dec c = false -> digits_value 0 (to_string v ++ c :: s) = (v, c :: s).
Proof.
  intros Hv Hc. unfold in_u64 in Hv. rewrite to_string_digits by lia.
  destruct (Z.eqb_spec v 0) as [->|Hn]; [cbn; by rewrite Hc|].
  rewrite digits_value_rev by (change (Z.of_nat 20) with 20; lia). cbn [digits_value]. rewrite Hc.
  done.
Qed.

(** The first character of a number. *)
Lemma to_string_first v : in_u64 v -> exists d s, 0 <= d < 10 /\ to_string v = chr (48 + d) :: s.
Proof.
  intros Hv. unfold in_u64 in Hv. rewrite to_string_digits by lia.
  destruct (Z.eqb_spec v 0) as [->|Hn]; [by exists 0, []|].
  assert (forall n w, 0 < w < 10 ^ Z.of_nat n -> exists d s, 0 <= d < 10 /\ reverse (digits_rev n w) = chr (48 + d) :: s)
    as H; [|apply (H 20%nat v); change (Z.of_nat 20) with 20; lia].
  induction n as [|n IH]; intros w Hw; [change (10 ^ Z.of_nat 0) with 1 in Hw; lia|].
  cbn [digits_rev]. rewrite Z.gtb_ltb. destruct (Z.ltb_spec 0 w); [|lia].
  rewrite Nat2Z.inj_succ, Z.pow_succ_r in Hw by lia.
  pose proof (Z.mod_pos_bound w 10 ltac:(lia)) as Hm. rewrite reverse_cons.
  destruct (decide (w < 10)).
  - replace (w / 10) with 0 by (symmetry; apply Z.div_small; lia). exists (w mod 10), [].
    split; [done|]. by destruct n.
  - assert (w = 10 * (w / 10) + w mod 10) by (apply Z.div_mod; lia).
    destruct (IH (w / 10) ltac:(lia)) as (d & s & Hd & ->). by eexists d, _.
Qed.

Lemma scan_unsigned v c s :
  in_u64 v -> is_dec c = false -> v < 2 ^ 63 -> scan_ll (to_string v ++ c :: s) = (Some v, c :: s).
Proof.
  intros Hv Hc Hlt. pose proof (digits_value_to_string v c s Hv Hc) as Hd. unfold in_u64 in Hv.
  destruct (to_string_first v Hv) as (d & t & Hr & E). rewrite E in *. cbn [app] in *.
  unfold scan_ll. cbn [skip_spaces]. unfold is_space. rewrite digit_octet by done.
  destruct (Z.eqb_spec (48 + d) 32); [lia|]. destruct (Z.leb_spec 9 (48 + d)); [|lia].
  destruct (Z.leb_spec (48 + d) 13); [lia|]. cbn [orb andb]. rewrite digit_octet by done.
  destruct (Z.eqb_spec (48 + d) 45); [lia|]. destruct (Z.eqb_spec (48 + d) 43); [lia|].
  rewrite digit_is_dec by done. rewrite Hd. cbv zeta. 
  destruct (Z.leb_spec (- 2 ^ 63) v); [|lia]. by destruct (Z.ltb_spec v (2 ^ 63)); [|lia].
Qed.

(** A limit read back.  The number [cgroup_create_leaf] writes, followed by the
    newline the kernel adds, parses back to itself over the whole 64-bit range:
    [cgroup_confirm] accepts the limits in force exactly when they are those
    asked for. *)
Theorem parse_ll_roundtrip v :
  in_i64 v -> parse_ll (to_string_signed v ++ [chr 10]) = v.
Proof.
  unfold in_i64. intros Hv. unfold parse_ll, to_string_signed.
  assert (is_dec (chr 10) = false) as Hnl by done.
  destruct (Z.ltb_spec v 0).
  - assert (in_u64 (- v)) as Hu by (unfold in_u64; lia).
    pose proof (digits_value_to_string (- v) (chr 10) [] Hu Hnl) as Hd.
    destruct (to_string_first (- v) Hu) as (d & t & Hr & E). rewrite E in *. cbn [app] in *.
    unfold scan_ll. change (skip_spaces ("-"%char :: ?x)) with ("-"%char :: x). cbv beta iota zeta.
    change (octet "-" =? 45) with true. cbv beta iota zeta. rewrite digit_is_dec by done. rewrite Hd.
    cbv beta iota zeta. destruct (Z.leb_spec (- 2 ^ 63) (- - v)); [|lia].
    destruct (Z.ltb_spec (- - v) (2 ^ 63)); [|lia]. cbn. lia.
  - rewrite scan_unsigned; [done|unfold in_u64; lia|done|lia].
Qed.

(** ** Mount plans

    The calls an operation makes, given the answers it gets, and its verdict. *)

(** The run of an operation that succeeds; [os'] is the system after it. *)
Definition op_runs (op : MountOp) (os os' : OS) (rc : Z) : Prop := run_mount_op op os = (os', Ok rc).

(** The operations of [plan] in order, all succeeding. *)
Inductive all_run : MountPlan -> OS -> OS -> Prop :=
| all_run_nil os : all_run [] os os
| all_run_cons op plan os os1 os2 :
    op_runs op os os1 0 -> all_run plan os1 os2 -> all_run (op :: plan) os os2.

Lemma run_mount_op_total op os : exists rc os', op_runs op os os' rc.
Proof.
  assert (forall c (f : Answer -> Z), exists rc os', (a ← sys c; mret (f a)) os = (os', Ok rc)) as H.
  { intros c f. destruct (sys_total c os) as (a & os' & E & _). exists (f a), os'. by rewrite (M_bind_ok _ _ _ _ _ E). }
  unfold op_runs, run_mount_op. destruct (kind op); try apply H.
  destruct (sys_total (SysOpen (op_b op)) os) as (fd & os1 & E1 & _). rewrite (M_bind_ok _ _ _ _ _ E1).
  destruct (a_ret fd <? 0); [by eexists _, _|].
  destruct (sys_total (SysMountSetattr (a_ret fd) MOUNT_ATTR_RDONLY) os1) as (a & os2 & E2 & _).
  rewrite (M_bind_ok _ _ _ _ _ E2).
  destruct (sys_total (SysClose (a_ret fd)) os2) as (c & os3 & E3 & _). rewrite (M_bind_ok _ _ _ _ _ E3).
  by eexists _, _.
Qed.

(** A mount plan is all or nothing for the child.  Whatever the system answers,
    [run_mount_plan] ends: with 0 exactly when every operation succeeded, in the
    plan's order; otherwise with -1 right after the first operation that failed,
    and no later operation is attempted. *)
Theorem run_mount_plan_spec plan os :
  exists os', (run_mount_plan plan os = (os', Ok 0) /\ all_run plan os os') \/
    (run_mount_plan plan os = (os', Ok (-1)) /\
     exists done op rest os1 rc, plan = done ++ op :: rest /\ all_run done os os1 /\
       op_runs op os1 os' rc /\ rc <> 0).
Proof.
  revert os. induction plan as [|op plan IH]; intros os; cbn [run_mount_plan].
  - exists os. left. split; [done|constructor].
  - destruct (run_mount_op_total op os) as (rc & os1 & E). rewrite (M_bind_ok _ _ _ _ _ E).
    destruct (Z.eqb_spec rc 0) as [->|Hrc]; cbn [negb].
    + destruct (IH os1) as (os' & [[-> H]|[-> (dn & op' & rest & os2 & rc' & -> & Hd & Ho & Hr)]]); exists os'.
      * left. split; [done|]. by econstructor.
      * right. split; [done|]. exists (op :: dn), op', rest, os2, rc'. split; [done|]. split; [by econstructor|done].
    + exists os1. right. split; [done|]. exists [], op, plan, os, rc. split; [done|]. by split; [constructor|].
Qed.

(** ** The id maps *)

(** What [write_proc] does to the log. *)
Inductive proc_written (path data : bytes) : bool -> list (Call * Answer) -> Prop :=
| proc_unopened fd : a_ret fd < 0 -> proc_written path data false [(SysOpen path, fd)]
| proc_done fd w c :
    0 <= a_ret fd ->
    proc_written path data (a_ret w =? zlen data)
      [(SysOpen path, fd); (SysWrite (a_ret fd) data, w); (SysClose (a_ret fd), c)].

Lemma write_proc_log path data os :
  exists os' ok t, write_proc path data os = (os', Ok ok) /\ proc_written path data ok t /\ log os' = log os ++ t.
Proof.
  unfold write_proc. destruct (sys_total (SysOpen path) os) as (fd & os1 & E1 & L1). rewrite (M_bind_ok _ _ _ _ _ E1).
  destruct (Z.ltb_spec (a_ret fd) 0).
  { eexists _, _, _. split; [reflexivity|]. split; [by apply proc_unopened|done]. }
  destruct (sys_total (SysWrite (a_ret fd) data) os1) as (w & os2 & E2 & L2). rewrite (M_bind_ok _ _ _ _ _ E2).
  destruct (sys_total (SysClose (a_ret fd)) os2) as (c & os3 & E3 & L3). rewrite (M_bind_ok _ _ _ _ _ E3).
  eexists _, _, _. split; [reflexivity|]. split; [by apply proc_done|].
  by rewrite L3, L2, L1, <-!app_assoc.
Qed.

Lemma write_single_map_log path id os :
  in_u64 id ->
  exists os' ok t, write_single_map path id os = (os', Ok ok) /\
    proc_written path (str "0 " ++ to_string id ++ str " 1" ++ [chr 10]) ok t /\ log os' = log os ++ t.
Proof.
  intros Hid. unfold write_single_map. rewrite (M_bind_ok (lift _) _ os os _ (f_equal _ (map_line_written id Hid))).
  apply write_proc_log.
Qed.

(** The id maps of a sandboxed child.  Whatever the ids of the host and whatever
    the system answers, the maps are built without writing past a stack buffer and
    [write_isolation_id_maps] returns.  It returns true only after it tried to deny
    setgroups and wrote, each in one complete write, the uid map and then the gid
    map, each one line that maps the child's 0 to the host's own id and nothing
    else; every file it opened is closed again. *)
Theorem id_maps_written child os :
  exists os' ok, write_isolation_id_maps child os = (os', Ok ok) /\
    (ok = true -> exists b t0 uid t1 gid t2,
      proc_written (proc_path child (str "/setgroups")) (str "deny") b t0 /\
      proc_written (proc_path child (str "/uid_map"))
        (str "0 " ++ to_string (u64 (a_ret uid)) ++ str " 1" ++ [chr 10]) true t1 /\
      proc_written (proc_path child (str "/gid_map"))
        (str "0 " ++ to_string (u64 (a_ret gid)) ++ str " 1" ++ [chr 10]) true t2 /\
      log os' = log os ++ t0 ++ [(SysGetuid, uid)] ++ t1 ++ [(SysGetgid, gid)] ++ t2).
Proof.
  unfold write_isolation_id_maps.
  destruct (write_proc_log (proc_path child (str "/setgroups")) (str "deny") os) as (os0 & b & t0 & E & H0 & L0).
  rewrite (M_bind_ok _ _ _ _ _ E).
  destruct (sys_total SysGetuid os0) as (uid & os1 & E1 & L1). rewrite (M_bind_ok _ _ _ _ _ E1).
  destruct (write_single_map_log (proc_path child (str "/uid_map")) (u64 (a_ret uid)) os1 (u64_range _))
    as (os2 & ok1 & t1 & E2 & H1 & L2). rewrite (M_bind_ok _ _ _ _ _ E2).
  destruct ok1; cbn [negb]; [|by eexists _, _].
  destruct (sys_total SysGetgid os2) as (gid & os3 & E3 & L3). rewrite (M_bind_ok _ _ _ _ _ E3).
  destruct (write_single_map_log (proc_path child (str "/gid_map")) (u64 (a_ret gid)) os3 (u64_range _))
    as (os4 & ok2 & t2 & E4 & H2 & L4). exists os4, ok2. split; [done|]. intros ->.
  exists b, t0, uid, t1, gid, t2. do 3 (split; [done|]).
  by rewrite L4, L3, L2, L1, L0, <-!app_assoc.
Qed.

(** ** Nothing is left open *)

Section balanced.
Context (more : Answer -> Prop) (more_none : more no_answer).

Lemma open_close_balanced {A : Type} path (a0 : A) (c : Z -> Call) (f : Answer -> A) :
  (forall fd a, opens (c fd, a) = []) -> (forall fd a, closes (c fd, a) = []) ->
  balanced more (fd ← sys (SysOpen path);
    if a_ret fd <? 0 then mret a0 else
    w ← sys (c (a_ret fd)); _ ← sys (SysClose (a_ret fd)); mret (f w)).
Proof using more_none.
  intros Ho Hc held E. eapply triple_bind; [by apply sys_open|]. intros fd. cbv beta.
  destruct (a_ret fd <? 0); [by apply triple_ret|].
  eapply triple_bind; [by apply (sys_plain more more_none)|]. intros w.
  apply triple_pure. intros _. apply triple_pure. intros _.
  eapply triple_bind; [by apply (sys_close more more_none)|]. intros ?. by apply triple_ret.
Qed.

Lemma run_mount_op_balanced op : balanced more (run_mount_op op).
Proof.
  unfold run_mount_op. destruct (kind op); try solve [balance].
  apply (open_close_balanced (op_b op) (-1) (fun fd => SysMountSetattr fd MOUNT_ATTR_RDONLY) a_ret); done.
Qed.
#[local] Hint Resolve run_mount_op_balanced : sandbox.

Lemma run_mount_plan_balanced plan : balanced more (run_mount_plan plan).
Proof. induction plan as [|op plan IH]; cbn [run_mount_plan]; balance. Qed.
#[local] Hint Resolve run_mount_plan_balanced : sandbox.

Lemma write_proc_balanced path data : balanced more (write_proc path data).
Proof.
  apply (open_close_balanced path false (fun fd => SysWrite fd data)
    (fun w => a_ret w =? zlen data)); done.
Qed.
#[local] Hint Resolve write_proc_balanced : sandbox.

Lemma map_line_ok id : exists l, map_line (u64 id) = Ok l.
Proof. eexists. apply map_line_written, u64_range. Qed.

Lemma write_single_map_balanced path id : balanced more (write_single_map path (u64 id)).
Proof.
  destruct (map_line_ok id) as (l & E). unfold write_single_map.
  apply balanced_bind; [by eapply balanced_value|]. intros ?. apply write_proc_balanced.
Qed.
#[local] Hint Resolve write_single_map_balanced : sandbox.

Lemma write_isolation_id_maps_balanced child : balanced more (write_isolation_id_maps child).
Proof. unfold write_isolation_id_maps. balance. Qed.
#[local] Hint Resolve write_isolation_id_maps_balanced : sandbox.

Lemma ns_distinct_balanced child ns : balanced more (ns_distinct child ns).
Proof. unfold ns_distinct. balance. Qed.
#[local] Hint Resolve ns_distinct_balanced : sandbox.

Lemma read_text_balanced path : balanced more (read_text path).
Proof. unfold read_text. balance. Qed.
#[local] Hint Resolve read_text_balanced : sandbox.

Lemma write_text_balanced path data : balanced more (write_text path data).
Proof. unfold write_text. balance. Qed.
#[local] Hint Resolve write_text_balanced : sandbox.

Lemma cgroup_create_leaf_balanced cg name caps : balanced more (cgroup_create_leaf cg name caps).
Proof. unfold cgroup_create_leaf, write_limit. balance. Qed.

Lemma cgroup_move_pid_balanced cg name pid : balanced more (cgroup_move_pid cg name pid).
Proof. unfold cgroup_move_pid. balance. Qed.

Lemma cgroup_confirm_balanced cg name pid caps : balanced more (cgroup_confirm cg name pid caps).
Proof. unfold cgroup_confirm, read_limit. balance. Qed.

Lemma cgroup_remove_leaf_balanced cg name : balanced more (cgroup_remove_leaf cg name).
Proof. unfold cgroup_remove_leaf. balance. Qed.

Lemma drain_procs_balanced from to : balanced more (drain_procs from to).
Proof.
  unfold drain_procs. apply balanced_bind; [apply read_text_balanced|]. intros t.
  generalize (filter (fun l => l <> []) (lines t)). intros pids.
  induction pids as [|p pids IH]; cbn [drain_loop]; balance.
Qed.
#[local] Hint Resolve drain_procs_balanced : sandbox.

Lemma cgroup_base_balanced : balanced more cgroup_base.
Proof. unfold cgroup_base, self_cgroup_v2_rel. balance. Qed.
End balanced.

(** ** The probe *)

Section probe.
Context (more : Answer -> Prop) (more_none : more no_answer).

Lemma sys_close_one fd held held' E :
  held ≡ₚ fd :: held' -> triple (state more held) (sys (SysClose fd)) (fun _ => state more held') E.
Proof using more_none.
  intros Hp. eapply triple_conseq; [by apply (sys_close more more_none fd held')| |done|done].
  intros os. by rewrite Hp.
Qed.

Lemma sys_plain_state c held E :
  (forall a, opens (c, a) = []) -> (forall a, closes (c, a) = []) ->
  triple (state more held) (sys c) (fun _ => state more held) E.
Proof using more_none. intros. by apply (balanced_sys more more_none). Qed.

End probe.

Lemma perm_take (x y : Z) (r r' : list Z) : r ≡ₚ x :: r' -> y :: r ≡ₚ x :: y :: r'.
Proof. intros ->. constructor. Qed.

(** Solves [held ≡ₚ fd :: ?held'] for a [fd] that occurs in [held]. *)
Ltac take_out := first [reflexivity | apply perm_take; take_out].

(** One more call that keeps the descriptors, or closes one. *)
Ltac plain more_none := eapply triple_bind; [by apply (sys_plain_state _ more_none)|intros ?; cbv beta iota].
Ltac close more_none :=
  eapply triple_bind; [apply (sys_close_one _ more_none); take_out|intros ?; cbv beta iota].

Lemma probe_isolation_balanced n f p more (more_none : more no_answer) : balanced more (probe_isolation n f p).
Proof.
  intros held E. unfold probe_isolation.
  eapply triple_bind; [by apply (sys_pipe more more_none)|]. intros c2p. cbv beta. apply triple_pure. intros _.
  destruct (a_ret c2p =? 0); cbn [negb]; cbv iota; [|by apply triple_ret].
  eapply triple_bind; [by apply (sys_pipe more more_none)|]. intros p2c. cbv beta. apply triple_pure. intros _.
  destruct (a_ret p2c =? 0); cbn [negb]; cbv iota; [|do 2 close more_none; by apply triple_ret].
  plain more_none. do 2 close more_none.
  destruct (a_ret a <? 0); [do 2 close more_none; by apply triple_ret|].
  plain more_none. cbv zeta.
  eapply (triple_bind _ _ (fun _ => state more _)).
  { destruct (got_one _); [exact (write_isolation_id_maps_balanced more more_none _ _ E)|by apply triple_ret]. }
  intros mapped.
  eapply (triple_bind _ _ (fun _ => state more _)).
  { destruct (got_one _); [plain more_none|]; by apply triple_ret. }
  intros _. do 2 close more_none. plain more_none. by apply triple_ret.
Qed.
