(* ===== verification/ConfineSafety.v ===== *)
(** * What launching and tearing down a child promises

    Descriptors, confirmations and the order of a view's mounts, whatever the
    system answers. *)

From S2P Require Import Prelude Grant Protocol Channel Posix Sandbox Confine SandboxSafety.

(** ** Computations on a link *)

(** A channel as [wait_for_hello] leaves it. *)
Definition chan_fit (ch : Channel) : Prop := failed ch = false -> zlen (inbox ch) <= kMaxBacklog.

Lemma poll_total io ch : settles io -> exists x, poll io ch = Some x.
Proof.
  intros Hio. unfold poll. destruct (failed ch || (fd ch <? 0)); [eauto|].
  destruct (recv_loop_returns io ch Hio) as [[[c go] io1] ->]. destruct go; [|eauto].
  destruct (frames_loop _ _ _ _) as [[[bad pos] out]| |]; eauto.
Qed.

Section rules.
Context (more : Answer -> Prop) (more_none : more no_answer).

(** The link is [l0] but for the system's side, which holds [held]. *)
Definition based (l0 : Link) (held : list Z) (l : Link) : Prop :=
  l = set_os (l_os l) l0 /\ state more held (l_os l).

Lemma set_os_os os os' l : set_os os (set_os os' l) = set_os os l.
Proof. by destruct l. Qed.

Lemma based_start l held : state more held (l_os l) -> based l held l.
Proof. split; [by destruct l|done]. Qed.

Lemma on_os_triple {A : Type} (m : Sys A) l0 held (F : A -> Prop) held' E :
  triple (state more held) m (fun a os => F a /\ state more (held' a) os) (fun _ => False) ->
  triple (based l0 held) (on_os m) (fun a l => F a /\ based l0 (held' a) l) E.
Proof.
  intros Hm l [El Hs]. specialize (Hm _ Hs). unfold on_os.
  destruct (m (l_os l)) as [os [a|e|]]; [|done..]. destruct Hm as [HF Hs'].
  split; [done|]. split; [|done]. rewrite El. cbn. by rewrite set_os_os.
Qed.

Lemma on_os_balanced {A : Type} (m : Sys A) l0 held E :
  balanced more m -> triple (based l0 held) (on_os m) (fun _ => based l0 held) E.
Proof.
  intros Hm. eapply triple_conseq; [apply (on_os_triple m l0 held (fun _ => True) (fun _ => held))| | |]; try done.
  - eapply triple_conseq; [apply (Hm held (fun _ => False))|done|by intros|done].
  - by intros ? ? [_ ?].
Qed.

Lemma on_os_plain c l0 held E :
  (forall a, opens (c, a) = []) -> (forall a, closes (c, a) = []) ->
  triple (based l0 held) (on_os (sys c)) (fun _ => based l0 held) E.
Proof using more_none. intros. apply on_os_balanced, balanced_sys; done. Qed.

Lemma on_os_close fd l0 held held' E :
  held ≡ₚ fd :: held' -> triple (based l0 held) (on_os (sys (SysClose fd))) (fun _ => based l0 held') E.
Proof using more_none.
  intros Hp. eapply triple_conseq; [apply (on_os_triple _ l0 held (fun _ => True) (fun _ => held'))| | |]; try done.
  - eapply triple_conseq; [apply (sys_close_one _ more_none fd held held' (fun _ => False)); exact Hp|done|by intros|done].
  - by intros ? ? [_ ?].
Qed.

(** A pair of descriptors, if the call succeeds. *)
Definition pair_held (a : Answer) (held : list Z) : list Z :=
  if a_ret a =? 0 then a_x a :: a_y a :: held else held.

Lemma on_os_pipe l0 held E :
  triple (based l0 held) (on_os (sys SysPipe)) (fun a => based l0 (pair_held a held)) E.
Proof using more_none.
  eapply triple_conseq; [apply (on_os_triple _ l0 held (fun _ => True) (fun a => pair_held a held))| | |]; try done.
  - eapply triple_conseq; [apply (sys_pipe _ more_none held (fun _ => False))|done|by intros ? ? [_ ?]|done].
  - by intros ? ? [_ ?].
Qed.

Lemma on_os_socketpair l0 held E :
  triple (based l0 held) (on_os (sys SysSocketpair))
    (fun a l => sane a /\ based l0 (pair_held a held) l) E.
Proof using more_none.
  apply (on_os_triple _ l0 held sane (fun a => pair_held a held)).
  eapply triple_conseq; [apply (sys_socketpair _ more_none held (fun _ => False))|done|by intros ? ? [? ?]|done].
Qed.

(** Reading the link. *)
Lemma gets_based {A : Type} (l0 : Link) held (f : Link -> L A) Q E :
  (forall os, triple (based l0 held) (f (set_os os l0)) Q E) ->
  triple (based l0 held) (l ← gets (fun l => l); f l) Q E.
Proof.
  intros H l Hl. pose proof Hl as [El _]. specialize (H (l_os l) l Hl).
  unfold mbind, M_bind, gets. by rewrite <-El in H.
Qed.

(** Changing it. *)
Lemma modify_based (g : Link -> Link) l0 l1 held E :
  (forall os, g (set_os os l0) = set_os os l1) -> (forall l, l_os (g l) = l_os l) ->
  triple (based l0 held) (modify g) (fun _ => based l1 held) E.
Proof.
  intros Hg Ho l [El Hs]. unfold modify. split; rewrite Ho; [|done]. rewrite El at 1. apply Hg.
Qed.

(** ** The handshake *)

Lemma settles_again rx : settles (rx ++ [RecvError EAGAIN]).
Proof. apply Exists_app. right. by constructor; left. Qed.

Lemma sys_poll_run ch os :
  chan_fit ch ->
  exists ch' fs rx, sys_poll ch os = (mkOS (answers os) (log os) (tx_io os) rx (wire os), Ok (ch', fs)) /\
    fd ch' = fd ch /\ chan_fit ch' /\ Forall frame_ok fs.
Proof.
  intros Hch. unfold sys_poll.
  destruct (poll_total _ ch (settles_again (rx_io os))) as ([[ch' r] io] & E). rewrite E.
  destruct (poll_capped _ _ _ _ _ Hch E) as (fs & -> & Hfs & Hfd & Hok).
  by exists ch', fs, (removelast io).
Qed.

Lemma first_hello_ok fs f : Forall frame_ok fs -> first_hello fs = Some f -> frame_ok f.
Proof.
  intros Hfs H. unfold first_hello in H. apply head_Some_elem_of, list_elem_of_filter in H as [_ H].
  by eapply Forall_forall in Hfs.
Qed.

Lemma sys_step c held os :
  state more held os -> (forall a, opens (c, a) = []) -> (forall a, closes (c, a) = []) ->
  exists a os', sys c os = (os', Ok a) /\ state more held os' /\
    (a = no_answer /\ answers os' = [] \/ (length (answers os') < length (answers os))%nat).
Proof using more_none.
  intros Hs Ho Hc. pose proof (sys_plain_state more more_none c held (fun _ => False) Ho Hc os Hs) as H.
  unfold sys in *. destruct (answers os) as [|a l]; eexists _, _; (split; [reflexivity|]); (split; [exact H|]); [by left|right; cbn; lia].
Qed.

(** A turn of the loop asks the system twice; without answers left the wait ends. *)
Lemma wait_loop_run rounds deadline held : forall ch os,
  (length (answers os) < rounds)%nat -> state more held os -> chan_fit ch ->
  exists os' ch' r, wait_loop rounds deadline ch os = (os', Ok (ch', r)) /\ state more held os' /\
    fd ch' = fd ch /\ chan_fit ch' /\ (forall f, r = Some f -> frame_ok f).
Proof using more_none.
  induction rounds as [|rounds IH]; intros ch os Hr Hs Hch; [lia|]. cbn [wait_loop].
  destruct (sys_poll_run ch os Hch) as (ch1 & fs & rx & E & Hfd & Hch1 & Hfs). rewrite (M_bind_ok _ _ _ _ _ E).
  set (os1 := mkOS _ _ _ _ _) in *. assert (state more held os1) as Hs1 by exact Hs.
  assert (length (answers os1) = length (answers os)) as Hl1 by done. clearbody os1.
  destruct (first_hello fs) as [f|] eqn:Ef.
  { exists os1, ch1, (Some f). do 4 (split; [done|]). intros ? [= <-]. by eapply first_hello_ok. }
  assert (forall os', state more held os' ->
    exists os2 ch' r, (mret (ch1, None) : Sys (Channel * option Incoming)) os' = (os2, Ok (ch', r)) /\
      state more held os2 /\ fd ch' = fd ch /\ chan_fit ch' /\ (forall f, r = Some f -> frame_ok f)) as Hstop.
  { intros os' Hs'. exists os', ch1, None. by do 4 (split; [done|]). }
  destruct (Channel_done ch1); [by apply Hstop|].
  destruct (sys_step SysNow held os1 Hs1 (fun _ => eq_refl) (fun _ => eq_refl)) as (now & os2 & E2 & Hs2 & Hl2).
  rewrite (M_bind_ok _ _ _ _ _ E2). destruct (a_ret now >=? deadline); [by apply Hstop|].
  destruct (sys_step (SysPollIn (fd ch1) (deadline - a_ret now)) held os2 Hs2 (fun _ => eq_refl) (fun _ => eq_refl))
    as (r & os3 & E3 & Hs3 & Hl3). rewrite (M_bind_ok _ _ _ _ _ E3).
  assert (r = no_answer \/ (length (answers os3) < rounds)%nat) as Hend by (destruct Hl3 as [[? _]|]; [by left|right; destruct Hl2 as [[_ Hn]|]; [rewrite Hn in *; cbn in *|]; lia]).
  assert ((length (answers os3) < rounds)%nat -> exists os' ch' r, wait_loop rounds deadline ch1 os3 = (os', Ok (ch', r)) /\
    state more held os' /\ fd ch' = fd ch /\ chan_fit ch' /\ (forall f, r = Some f -> frame_ok f)) as Hgo.
  { intros Hlt. rewrite <-Hfd. by apply IH. }
  destruct Hend as [->|Hlt]; [by apply Hstop|].
  destruct ((a_ret r <? 0) && _); [by apply Hgo|]. destruct (a_ret r <=? 0); [by apply Hstop|by apply Hgo].
Qed.
End rules.

(** One more call on the link's side that keeps the descriptors, or closes one;
    a computation that gives back what it takes. *)
Ltac lplain more_none := eapply triple_bind; [by apply (on_os_plain _ more_none)|intros ?; cbv beta iota].
Ltac lclose more_none :=
  eapply triple_bind; [apply (on_os_close _ more_none); take_out|intros ?; cbv beta iota].
Ltac lbalanced H := eapply triple_bind; [apply on_os_balanced, H|intros ?; cbv beta iota].

(** ** Confirmation

    What the host has seen of a child before it calls a capability confirmed. *)

Section evidence.
Context (cg : Cgroup).

Abbreviation Log := (list (Call * Answer)).

Definition namespaces_differ (pid : Z) (ns : bytes) (t : Log) : Prop :=
  exists self other,
    (SysStat (take 63 (str "/proc/self/ns/" ++ ns)), self) ∈ t /\
    (SysStat (proc_path pid (str "/ns/" ++ ns)), other) ∈ t /\
    a_ret self = 0 /\ a_ret other = 0 /\ (a_x self, a_y self) <> (a_x other, a_y other).

Definition file_read (file text : bytes) (t : Log) : Prop :=
  exists a, (ReadFile file, a) ∈ t /\ text = if a_ret a =? 0 then a_text a else [].

Definition limit_in_force (active : bool) (file : bytes) (v : Z) (t : Log) : Prop :=
  active = true -> exists text, parse_ll text = v /\ file_read file text t.

Definition evidence (l : Link) (c : Capability) (t : Log) : Prop :=
  match c with
  | Network => namespaces_differ (l_pid l) (str "net") t
  | Filesystem => namespaces_differ (l_pid l) (str "mnt") t
  | Resources =>
      let leaf := cg_base cg ++ str "/" ++ l_cg_leaf l in
      let caps := l_cg_caps l in
      cg_base cg <> [] /\
      (exists text, file_read (str "/proc/" ++ to_string_signed (l_pid l) ++ str "/cgroup") text t /\
         contains (str "/" ++ l_cg_leaf l) text = true) /\
      limit_in_force (cg_memory cg && (0 <=? memory_max caps)) (leaf ++ str "/memory.max") (memory_max caps) t /\
      limit_in_force (cg_pids cg && (0 <=? pids_max caps)) (leaf ++ str "/pids.max") (pids_max caps) t /\
      limit_in_force (cg_cpu cg && (0 <? caps_cpu_weight caps)) (leaf ++ str "/cpu.weight") (caps_cpu_weight caps) t
  end.

Lemma file_read_mono file text t t' : t ⊆ t' -> file_read file text t -> file_read file text t'.
Proof. intros Ht (a & H & ?). exists a. split; [by apply Ht|done]. Qed.

Lemma limit_mono active file v t t' : t ⊆ t' -> limit_in_force active file v t -> limit_in_force active file v t'.
Proof. intros Ht H Ha. destruct (H Ha) as (x & ? & ?). exists x. split; [done|]. by eapply file_read_mono. Qed.

Lemma namespaces_mono pid ns t t' : t ⊆ t' -> namespaces_differ pid ns t -> namespaces_differ pid ns t'.
Proof. intros Ht (x & y & H1 & H2 & H). exists x, y. split; [by apply Ht|]. by split; [apply Ht|]. Qed.

Lemma evidence_mono l c t t' : t ⊆ t' -> evidence l c t -> evidence l c t'.
Proof.
  intros Ht. destruct c; [by apply namespaces_mono..|].
  intros (Hb & (x & Hr & Hx) & Hm & Hp & Hc). split; [done|]. split; [exists x; split; [by eapply file_read_mono|done]|].
  split; [by eapply limit_mono|]. by split; eapply limit_mono.
Qed.

Lemma ns_distinct_logs pid ns :
  logs (ns_distinct pid ns) (fun ok t => ok = true -> namespaces_differ pid ns t).
Proof.
  unfold ns_distinct. eapply logs_bind; [apply logs_sys|]. intros x ? ->.
  destruct (Z.eqb_spec (a_ret x) 0); cbn [negb]; [|by apply logs_ret].
  eapply logs_bind; [apply logs_sys|]. intros y ? ->.
  destruct (Z.eqb_spec (a_ret y) 0); cbn [negb]; [|by apply logs_ret].
  apply logs_ret. intros Hd. exists x, y. cbn [app].
  split; [set_solver|]. split; [set_solver|]. do 2 (split; [done|]). intros [= Ex Ey].
  by rewrite Ex, Ey, !Z.eqb_refl in Hd.
Qed.

Lemma read_text_logs file : logs (read_text file) (fun text t => file_read file text t).
Proof.
  unfold read_text. eapply logs_bind; [apply logs_sys|]. intros a ? ->. apply logs_ret.
  exists a. split; [set_solver|done].
Qed.

Lemma read_limit_logs active leaf file v :
  logs (read_limit active leaf file v) (fun ok t => ok = true -> limit_in_force active (leaf ++ file) v t).
Proof.
  unfold read_limit. destruct active; [|by apply logs_ret].
  eapply logs_bind; [apply read_text_logs|]. intros text t Ht. apply logs_ret. cbv beta. rewrite app_nil_r.
  intros Hv%Z.eqb_eq _. by exists text.
Qed.

Lemma cgroup_confirm_logs l :
  logs (cgroup_confirm cg (l_cg_leaf l) (l_pid l) (l_cg_caps l)) (fun ok t => ok = true -> evidence l Resources t).
Proof.
  unfold cgroup_confirm. destruct (bool_decide_reflect (cg_base cg = [])) as [|Hb]; [by apply logs_ret|]. cbv zeta.
  eapply logs_bind; [apply read_text_logs|]. intros text t0 H0.
  destruct (contains _ text) eqn:Ec; cbn [negb]; [|by apply logs_ret].
  eapply logs_bind; [apply read_limit_logs|]. intros b1 t1 H1. destruct b1; cbn [negb]; [|by apply logs_ret].
  eapply logs_bind; [apply read_limit_logs|]. intros b2 t2 H2. destruct b2; cbn [negb]; [|by apply logs_ret].
  eapply logs_weaken; [apply read_limit_logs|]. intros b3 t3 H3 ->. specialize (H1 eq_refl). specialize (H2 eq_refl). specialize (H3 eq_refl).
  split; [done|]. split; [exists text; split; [eapply file_read_mono; [|exact H0]; set_solver|done]|].
  split; [eapply limit_mono; [|exact H1]; set_solver|]. split; [eapply limit_mono; [|exact H2]|eapply limit_mono; [|exact H3]]; set_solver.
Qed.

(** A step of [confirm]. *)
Lemma confirm_step (b : bool) (m : Sys bool) (F : Log -> Prop) l :
  logs m (fun ok t => ok = true -> F t) ->
  exists os' ok t, (if b then on_os m else mret true) l = (set_os os' l, Ok ok) /\
    log os' = log (l_os l) ++ t /\ (b = true -> ok = true -> F t).
Proof.
  intros Hm. destruct b.
  - destruct (Hm (l_os l)) as (os' & ok & t & E & Hl & HF). exists os', ok, t. unfold on_os. by rewrite E.
  - exists (l_os l), true, []. rewrite app_nil_r. by destruct l.
Qed.

Lemma confirm_logs net fs res l :
  exists l' r t, confirm cg net fs res l = (l', Ok r) /\ log (l_os l') = log (l_os l) ++ t /\
    (r = None -> forall c, match c with Network => net | Filesystem => fs | Resources => res end = true -> evidence l c t).
Proof.
  unfold confirm. rewrite (M_bind_ok (gets _) _ l l l eq_refl).
  destruct (confirm_step net _ _ l (ns_distinct_logs (l_pid l) (str "net"))) as (os1 & ok1 & t1 & E1 & L1 & H1).
  rewrite (M_bind_ok _ _ _ _ _ E1). destruct ok1; cbn [negb]; [|by exists (set_os os1 l), (Some (str "network sandbox not confirmed: child shares the host network namespace")), t1].
  destruct (confirm_step fs _ _ (set_os os1 l) (ns_distinct_logs (l_pid l) (str "mnt"))) as (os2 & ok2 & t2 & E2 & L2 & H2).
  rewrite (M_bind_ok _ _ _ _ _ E2). cbn [l_os set_os] in L2. rewrite L1 in L2.
  destruct ok2; cbn [negb].
  2: { eexists _, _, (t1 ++ t2). split; [reflexivity|]. by rewrite app_assoc. }
  destruct (confirm_step res _ _ (set_os os2 (set_os os1 l)) (cgroup_confirm_logs l)) as (os3 & ok3 & t3 & E3 & L3 & H3).
  rewrite (M_bind_ok _ _ _ _ _ E3). cbn [l_os set_os] in L3. rewrite L2 in L3.
  destruct ok3; cbn [negb].
  2: { eexists _, _, (t1 ++ t2 ++ t3). split; [reflexivity|]. by rewrite !app_assoc. }
  eexists _, _, (t1 ++ t2 ++ t3). split; [reflexivity|]. split; [by rewrite !app_assoc|]. intros _ c Hc.
  destruct c; (eapply evidence_mono; [|first [exact (H1 Hc eq_refl)|exact (H2 Hc eq_refl)|exact (H3 Hc eq_refl)]]); set_solver.
Qed.
End evidence.

Section spawn.
Context (more : Answer -> Prop) (more_none : more no_answer).
Context (exe : bytes) (cg : Cgroup).

Lemma close_both_triple sv l0 held held' E :
  held ≡ₚ sv.1 :: sv.2 :: held' ->
  triple (based more l0 held) (close_both sv) (fun _ => based more l0 held') E.
Proof using more_none.
  intros Hp. unfold close_both.
  eapply triple_bind; [by apply (on_os_close _ more_none)|]. intros ?.
  eapply triple_bind; [by apply (on_os_close _ more_none)|]. intros ?. by apply triple_ret.
Qed.

(** The descriptors a failed launch leaves open. *)
Definition leaked (e : bytes) (leak : list Z) : Prop :=
  leak = [] \/ e = str "sandbox sync pipe failed" /\ length leak = 2%nat.

Definition launched (l0 : Link) (sv : Z * Z) (held : list Z) (r : bytes + Z) (l : Link) : Prop :=
  match r with
  | inr _ => based more l0 (sv.1 :: sv.2 :: held) l
  | inl e => exists pid leak, leaked e leak /\ based more (set_pid pid l0) (leak ++ held) l
  end.

Lemma set_pid_same l : set_pid (l_pid l) l = l.
Proof. by destruct l. Qed.

Lemma launch_failed l0 sv held e leak E :
  leaked e leak ->
  triple (based more l0 (leak ++ held)) (mret (inl e) : L (bytes + Z)) (launched l0 sv held) E.
Proof. intros He. apply triple_ret. intros l Hl. exists (l_pid l0), leak. by rewrite set_pid_same. Qed.

Lemma launch_plain_triple l0 sv held E :
  triple (based more l0 (sv.1 :: sv.2 :: held)) (launch_plain exe sv) (launched l0 sv held) E.
Proof using more_none.
  unfold launch_plain. apply gets_based. intros os. lplain more_none.
  destruct (a_ret a =? 0); cbn [negb]; cbv iota; [by apply triple_ret|].
  eapply triple_bind; [by apply close_both_triple|]. intros ?. apply (launch_failed l0 sv held _ []). by left.
Qed.

Lemma launch_sandboxed_triple l0 sv held needs_userns sandbox_res E :
  triple (based more l0 (sv.1 :: sv.2 :: held)) (launch_sandboxed cg sv needs_userns sandbox_res)
    (launched l0 sv held) E.
Proof using more_none.
  unfold launch_sandboxed.
  eapply triple_bind; [by apply (on_os_pipe _ more_none)|]. intros c2p. cbv beta. unfold pair_held.
  destruct (a_ret c2p =? 0); cbn [negb]; cbv iota.
  2: { eapply triple_bind; [by apply close_both_triple|]. intros ?. apply (launch_failed l0 sv held _ []). by left. }
  eapply triple_bind; [by apply (on_os_pipe _ more_none)|]. intros p2c. cbv beta. unfold pair_held.
  destruct (a_ret p2c =? 0); cbn [negb]; cbv iota.
  2: { eapply triple_bind; [apply (close_both_triple sv l0 _ (a_x c2p :: a_y c2p :: held)); solve_Permutation|].
       intros ?. apply (launch_failed l0 sv held _ [a_x c2p; a_y c2p]). by right. }
  lplain more_none. do 2 lclose more_none.
  destruct (a_ret a <? 0).
  { eapply triple_bind; [apply (close_both_triple _ l0 _ (sv.1 :: sv.2 :: held)); cbn; solve_Permutation|]. intros ?.
    eapply triple_bind; [by apply close_both_triple|]. intros ?. apply (launch_failed l0 sv held _ []). by left. }
  lplain more_none. cbv zeta.
  eapply (triple_bind _ _ (fun _ => based more l0 _)).
  { destruct (got_one _ && _); [refine (on_os_balanced _ _ _ _ _ (write_isolation_id_maps_balanced _ more_none _))|by apply triple_ret]. }
  intros prepared. apply gets_based. intros os.
  eapply (triple_bind _ _ (fun _ => based more l0 _)).
  { destruct (prepared && sandbox_res); [refine (on_os_balanced _ _ _ _ _ (cgroup_move_pid_balanced _ more_none _ _ _))|by apply triple_ret]. }
  clear prepared. intros prepared. cbv beta.
  eapply (triple_bind _ _ (fun _ => based more l0 _)).
  { destruct (got_one _); [lplain more_none|]; by apply triple_ret. }
  intros _. cbv beta.
  eapply triple_bind; [apply (close_both_triple _ l0 _ (sv.1 :: sv.2 :: held)); cbn; solve_Permutation|]. intros ?. cbv beta.
  destruct prepared; cbn [negb]; cbv iota; [by apply triple_ret|].
  eapply triple_bind; [by apply close_both_triple|]. intros ?.
  eapply triple_bind; [by apply (modify_based _ _ l0 (set_pid (a_ret a) l0))|]. intros ?.
  apply triple_ret. intros l Hl. exists (a_ret a), []. by split; [left|].
Qed.

(** *** The whole handshake *)

Definition chan_fds (c : option Channel) : list Z := match c with Some ch => [fd ch] | None => [] end.
Definition chan_sound (c : option Channel) : Prop := forall ch, c = Some ch -> chan_fit ch /\ 0 <= fd ch.

(** The link after a spawn; the capabilities confirmed are those it was to enforce. *)
Definition up (l0 : Link) (ch : Channel) (pid : Z) : Link :=
  set_resolutions
    (mark_confirmed (network_sandboxed l0) (filesystem_sandboxed l0) (resources_contained l0) <$> l_resolutions l0)
    (set_channel (Some ch) (set_pid pid l0)).

Definition spawned (l0 : Link) (held : list Z) (r : bytes + bytes * bytes * bytes) (l : Link) : Prop :=
  match r with
  | inr _ => exists ch pid, chan_fit ch /\ 0 <= fd ch /\
      (forall c, resolved (l_resolutions l0) c = true -> evidence cg (up l0 ch pid) c (log (l_os l))) /\
      based more (up l0 ch pid) (fd ch :: held) l
  | inl e => exists c pid leak, leaked e leak /\ chan_sound c /\
      based more (set_channel c (set_pid pid l0)) (leak ++ chan_fds c ++ held) l
  end.

Lemma hello_parts_returns p : zlen p < 2 ^ 64 -> exists r, hello_parts p = Ok r.
Proof.
  intros Hp. destruct (Cursor_new_ok p Hp) as [Hc _].
  destruct (field_run (read := both (both Cursor_bytes Cursor_bytes) Cursor_bytes) _ Hc) as (c & r & E & _).
  exists r. unfold hello_parts. by rewrite E.
Qed.

Lemma confirm_state l0 held net fs res E :
  triple (based more l0 held) (confirm cg net fs res)
    (fun r l => match r with
                | None => based more (set_resolutions (mark_confirmed net fs res <$> l_resolutions l0) l0) held l
                | Some _ => based more l0 held l
                end) E.
Proof using more_none.
  unfold confirm. apply gets_based. intros os.
  assert (forall (b : bool) (m : Sys bool), balanced more m ->
    triple (based more l0 held) (if b then on_os m else mret true) (fun _ => based more l0 held) E) as Hstep.
  { intros b m Hm. destruct b; [by apply on_os_balanced|by apply triple_ret]. }
  eapply triple_bind; [apply (Hstep net), (ns_distinct_balanced more more_none)|]. intros b1.
  destruct b1; cbn [negb]; cbv iota; [|by apply triple_ret].
  eapply triple_bind; [apply (Hstep fs), (ns_distinct_balanced more more_none)|]. intros b2.
  destruct b2; cbn [negb]; cbv iota; [|by apply triple_ret].
  eapply triple_bind; [apply (Hstep res), (cgroup_confirm_balanced more more_none)|]. intros b3.
  destruct b3; cbn [negb]; cbv iota; [|by apply triple_ret].
  eapply triple_bind; [by apply (modify_based _ _ l0 (set_resolutions (mark_confirmed net fs res <$> l_resolutions l0) l0))|].
  intros ?. by apply triple_ret.
Qed.

Definition selected (net fs res : bool) (c : Capability) : bool :=
  match c with Network => net | Filesystem => fs | Resources => res end.

Lemma confirm_triple l0 held net fs res E :
  triple (based more l0 held) (confirm cg net fs res)
    (fun r l => match r with
                | None =>
                    based more (set_resolutions (mark_confirmed net fs res <$> l_resolutions l0) l0) held l /\
                    forall c, selected net fs res c = true -> evidence cg l0 c (log (l_os l))
                | Some _ => based more l0 held l
                end) E.
Proof using more_none.
  intros l Hl. pose proof (confirm_state l0 held net fs res E l Hl) as Hs.
  destruct (confirm_logs cg net fs res l) as (l' & r & t & Er & Ht & Hev). rewrite Er in *.
  destruct r; [done|]. split; [done|]. intros c Hc. specialize (Hev eq_refl c Hc).
  destruct Hl as [El _]. rewrite El in Hev. apply (evidence_mono _ _ _ t); [rewrite Ht; set_solver|]. by destruct c.
Qed.

(** From the channel on. *)
Lemma handshake_triple l0 held pid sv0 net fs res E :
  0 <= sv0 -> net = network_sandboxed l0 -> fs = filesystem_sandboxed l0 -> res = resources_contained l0 ->
  triple (based more (set_channel (Some (Channel_new sv0)) (set_pid pid l0)) (sv0 :: held))
    (x ← on_os (wait_for_hello (Channel_new sv0) kHandshakeTimeoutMs);
     let '(ch, hello) := (x : Channel * option Incoming) in
     _ ← modify (set_channel (Some ch));
     match hello with
     | None => mret (inl (str "child did not complete the handshake"))
     | Some hello =>
         parts ← lift (hello_parts (in_payload hello));
         match parts with
         | None => mret (inl (str "malformed Hello frame"))
         | Some parts =>
             bad ← confirm cg net fs res;
             match bad with
             | Some e => mret (inl e)
             | None => mret (inr parts)
             end
         end
     end) (spawned l0 held) E.
Proof using more_none.
  intros Hsv -> -> ->.
  set (l1 := set_channel _ _).
  assert (forall ch e E, fd ch = sv0 -> chan_fit ch ->
    triple (based more (set_channel (Some ch) l1) (sv0 :: held)) (mret (inl e) : L (bytes + bytes * bytes * bytes)) (spawned l0 held) E) as Hfail.
  { intros ch e E' Hfd Hch. apply triple_ret. intros l Hl. exists (Some ch), pid, [].
    split; [by left|]. split; [by intros ? [= <-]; rewrite Hfd|]. cbn. by rewrite Hfd. }
  eapply triple_bind.
  { apply (on_os_triple more _ l1 (sv0 :: held)
      (fun x => fd x.1 = sv0 /\ chan_fit x.1 /\ forall f, x.2 = Some f -> frame_ok f) (fun _ => sv0 :: held)).
    intros os Hs. unfold wait_for_hello.
    destruct (sys_step more more_none SysNow (sv0 :: held) os Hs (fun _ => eq_refl) (fun _ => eq_refl)) as (now & os1 & -> & Hs1 & _).
    destruct (wait_loop_run more more_none (S (length (answers os1))) (a_ret now + kHandshakeTimeoutMs) (sv0 :: held)
      (Channel_new sv0) os1 ltac:(lia) Hs1 (fun _ => ltac:(done))) as (os2 & ch & r & -> & ? & ? & ? & ?).
    split; [by cbn [fst snd]|done]. }
  intros [ch hello]. cbv beta. apply triple_pure. cbn [fst snd]. intros (Hfd & Hch & Hok). cbv iota.
  eapply triple_bind; [by apply (modify_based _ _ l1 (set_channel (Some ch) l1))|]. intros ?. cbv beta.
  destruct hello as [hello|]; [|by apply Hfail].
  destruct (hello_parts_returns (in_payload hello)) as (parts & Hp).
  { destruct (Hok hello eq_refl) as [_ Hl]. unfold kMaxFrameLen in Hl. lia. }
  eapply triple_bind; [by apply (triple_value _ parts)|]. intros p'. cbv beta. apply triple_pure. intros ->.
  destruct parts as [parts|]; [|by apply Hfail].
  eapply triple_bind; [apply confirm_triple|]. intros [e|]; cbv beta iota; [by apply Hfail|].
  apply triple_ret. intros l [Hl Hev]. exists ch, pid. rewrite Hfd. do 2 (split; [done|]). split; [|done].
  intros c Hc. specialize (Hev c). destruct c; by apply Hev.
Qed.

Lemma spawn_triple l0 held E :
  l_channel l0 = None ->
  triple (based more l0 held) (spawn_and_handshake exe cg) (spawned l0 held) E.
Proof using more_none.
  intros Hnone. assert (forall pid, set_channel None (set_pid pid l0) = set_pid pid l0) as Hset.
  { intros pid. destruct l0. cbn in Hnone. by subst. }
  assert (forall e leak pid E, leaked e leak -> triple (based more (set_pid pid l0) (leak ++ held))
    (mret (inl e) : L (bytes + bytes * bytes * bytes)) (spawned l0 held) E) as Hfail.
  { intros e leak pid E' He. apply triple_ret. intros l Hl. exists None, pid, leak. by rewrite Hset. }
  unfold spawn_and_handshake.
  eapply triple_bind; [by apply (on_os_socketpair _ more_none)|]. intros pair. cbv beta. apply triple_pure. intros Hsane.
  unfold pair_held. destruct (a_ret pair =? 0); cbn [negb]; cbv iota.
  2: { rewrite <-(set_pid_same l0) at 1. apply (Hfail _ []). by left. }
  cbv zeta. cbn [fst snd]. lplain more_none. apply gets_based. intros os.
  change (network_sandboxed (set_os os l0)) with (network_sandboxed l0).
  change (filesystem_sandboxed (set_os os l0)) with (filesystem_sandboxed l0).
  change (resources_contained (set_os os l0)) with (resources_contained l0).
  eapply (triple_bind _ _ (fun _ => based more l0 _)).
  { destruct (_ && _); [lplain more_none|]; by apply triple_ret. }
  intros ?. cbv beta. eapply (triple_bind _ _ (fun _ => based more l0 _)).
  { destruct (resources_contained l0); [|by apply triple_ret].
    refine (on_os_balanced _ _ _ _ _ (cgroup_create_leaf_balanced _ more_none _ _ _)). }
  intros leaf. cbv beta. destruct leaf; cbn [negb]; cbv iota.
  2: { eapply triple_bind; [by apply close_both_triple|]. intros ?.
       rewrite <-(set_pid_same l0). apply (Hfail _ []). by left. }
  eapply (triple_bind _ _ (launched l0 (a_x pair, a_y pair) held)).
  { destruct (_ || _); [exact (launch_sandboxed_triple l0 (a_x pair, a_y pair) held _ _ E)|exact (launch_plain_triple l0 (a_x pair, a_y pair) held E)]. }
  intros [e|pid]; unfold launched; cbv iota; cbn [fst snd].
  { intros l (pid & leak & He & Hl). by apply (Hfail e leak pid (fun _ => False) He). }
  lclose more_none.
  eapply triple_bind; [by apply (modify_based _ _ l0 (set_channel (Some (Channel_new (a_x pair))) (set_pid pid l0)))|].
  intros ?. cbv beta. apply handshake_triple; [|done..]. apply Hsane.
Qed.

(** ** Teardown *)

Lemma flush_loop_again io : forall ch w,
  exists ch' w' io', flush_loop (io ++ [SendError EAGAIN]) ch w = Some (ch', w', io') /\ fd ch' = fd ch /\
    inbox ch' = inbox ch /\ (failed ch' = false -> failed ch = false).
Proof using.
  induction io as [|r io IH]; intros ch w; cbn [app flush_loop].
  - destruct (out_pos ch <? _); by eexists _, _, _.
  - destruct (out_pos ch <? _); [|by eexists _, _, _]. destruct r as [n|[]]; try by eexists _, _, _.
    + destruct (n >? 0); [|by eexists _, _, _].
      destruct (IH (set_out (outbox ch) (u64 (out_pos ch + n)) ch)
        (w ++ take (Z.to_nat n) (drop (Z.to_nat (out_pos ch)) (outbox ch)))) as (? & ? & ? & -> & ?). by eexists _, _, _.
    + apply IH.
Qed.

Lemma sys_flush_run ch os :
  exists ch' tx w, sys_flush ch os = (mkOS (answers os) (log os) tx (rx_io os) w, Ok ch') /\ fd ch' = fd ch /\
    (chan_fit ch -> chan_fit ch').
Proof using.
  unfold sys_flush, flush. destruct (failed ch || (fd ch <? 0)); [by eexists _, _, _|].
  destruct (flush_loop_again (tx_io os) ch []) as (c & w & io & -> & Hfd & Hi & Hf). eexists _, _, _.
  split; [reflexivity|]. unfold chan_fit.
  destruct (failed c) eqn:Ec; [|destruct (out_pos c =? _)]; cbn; rewrite ?Ec, ?Hi; auto.
Qed.

Lemma reap_loop_balanced n pid : balanced more (reap_loop n pid).
Proof using more_none. induction n as [|n IH]; cbn [reap_loop]; balance. Qed.

Definition torn (l : Link) : Link :=
  set_channel None (set_pid (if l_pid l >? 0 then -1 else l_pid l) l).

Lemma teardown_triple l0 held E :
  (forall ch, l_channel l0 = Some ch -> 0 <= fd ch) ->
  triple (based more l0 (chan_fds (l_channel l0) ++ held)) (teardown_child cg)
    (fun _ => based more (torn l0) held) E.
Proof using more_none.
  intros Hfd. unfold teardown_child. apply gets_based. intros os.
  change (l_channel (set_os os l0)) with (l_channel l0). change (l_pid (set_os os l0)) with (l_pid l0).
  change (l_fs_root (set_os os l0)) with (l_fs_root l0). change (l_cg_leaf (set_os os l0)) with (l_cg_leaf l0).
  eapply (triple_bind _ _ (fun _ => based more (set_channel None l0) held)).
  { destruct (l_channel l0) as [ch|] eqn:Ech.
    2: { apply triple_ret. intros l Hl. replace (set_channel None l0) with l0; [done|]. destruct l0. cbn in Ech. by subst. }
    eapply (triple_bind _ _ (fun ch' l => fd ch' = fd ch /\ based more l0 (fd ch :: held) l)).
    { destruct (Channel_done ch); [by apply triple_ret|].
      apply (on_os_triple more _ l0 _ (fun ch' => fd ch' = fd ch) (fun _ => fd ch :: held)). intros os' Hs.
      destruct (sys_flush_run (Channel.queue Op_Shutdown [] ch) os') as (ch' & tx & w & -> & Hf & _).
      split; [|exact Hs]. rewrite Hf. unfold Channel.queue. destruct (failed ch); [done|].
      destruct (_ >? kMaxFrameLen); [done|]. by destruct (_ >? kMaxBacklog). }
    intros ch'. apply triple_pure. intros Hch. rewrite Hch. specialize (Hfd ch eq_refl).
    assert (fd ch >=? 0 = true) as -> by lia.
    eapply (triple_bind _ _ (fun _ => based more l0 held)).
    { lclose more_none. by apply triple_ret. }
    intros _. by apply modify_based. }
  intros _. eapply (triple_bind _ _ (fun _ => based more (torn l0) held)).
  { unfold torn. destruct (l_pid l0 >? 0); [|by rewrite set_pid_same; apply triple_ret].
    lbalanced (reap_loop_balanced 200 (l_pid l0)).
    eapply (triple_bind _ _ (fun _ => based more (set_channel None l0) held)).
    { destruct a; [by apply triple_ret|]. do 2 lplain more_none. by apply triple_ret. }
    intros _. by apply modify_based. }
  intros _. eapply (triple_bind _ _ (fun _ => based more (torn l0) held)).
  { destruct (bool_decide _); [|lplain more_none]; by apply triple_ret. }
  intros _. destruct (bool_decide _); [by apply triple_ret|].
  refine (on_os_balanced _ _ _ _ _ (cgroup_remove_leaf_balanced _ more_none _ _)).
Qed.
End spawn.

(** A launch and its teardown, by descriptors. *)
Lemma launch_balances exe cg l held :
  l_channel l = None -> answered (fun _ => True) (l_os l) -> holding held (l_os l) ->
  exists l1 r, spawn_and_handshake exe cg l = (l1, Ok r) /\
    (forall parts, r = inr parts ->
       exists ch, l_channel l1 = Some ch /\ chan_fit ch /\ holding (fd ch :: held) (l_os l1)) /\
    exists l2 leak, teardown_child cg l1 = (l2, Ok tt) /\ l_channel l2 = None /\ l_pid l2 <= 0 /\
      holding (leak ++ held) (l_os l2) /\
      (leak = [] \/ r = inl (str "sandbox sync pipe failed") /\ length leak = 2%nat).
Proof.
  intros Hnone Ha Hh. assert (forall n, (if n >? 0 then -1 else n) <= 0) as Hpid.
  { intros n. destruct (Z.gtb_spec n 0); lia. }
  pose proof (spawn_triple (fun _ => True) I exe cg l held (fun _ => False) Hnone l (based_start _ l held (conj Ha Hh))) as H.
  destruct (spawn_and_handshake exe cg l) as [l1 [r|e|]]; [|done..]. exists l1, r. split; [done|].
  destruct r as [e|parts].
  - destruct H as (c & pid & leak & He & Hc & Hl). split; [done|].
    assert (based (fun _ => True) (set_channel c (set_pid pid l)) (chan_fds c ++ leak ++ held) l1) as Hl1.
    { destruct Hl as [El Hs]. split; [done|]. by rewrite app_assoc, (Permutation_app_comm _ leak), <-app_assoc. }
    pose proof (teardown_triple (fun _ => True) I cg (set_channel c (set_pid pid l)) (leak ++ held) (fun _ => False)
      (fun ch E => proj2 (Hc ch E)) l1 Hl1) as Ht.
    destruct (teardown_child cg l1) as [l2 [[]|e'|]]; [|done..]. destruct Ht as [El Hs].
    exists l2, leak. rewrite El. do 2 (split; [done|]). split; [apply Hpid|]. split; [apply Hs|].
    destruct He as [->|[-> He]]; [by left|by right].
  - destruct H as (ch & pid & Hch & Hfd & _ & Hl). split.
    { intros ? [= ->]. destruct Hl as [El Hs]. exists ch. rewrite El. split; [done|]. split; [done|apply Hs]. }
    pose proof (teardown_triple (fun _ => True) I cg (up l ch pid) held (fun _ => False)) as Ht. cbn in Ht.
    specialize (Ht ltac:(by intros ? [= <-]) l1 Hl).
    destruct (teardown_child cg l1) as [l2 [[]|e'|]]; [|done..]. destruct Ht as [El Hs].
    exists l2, []. rewrite El. do 2 (split; [done|]). split; [apply Hpid|]. split; [apply Hs|by left].
Qed.

(** ** The restricted view *)

(** What binds [src] into the view: its mount point, the bind, the seal. *)
Definition bind_block (root src : bytes) : MountPlan :=
  mkdir_p_loop root src (length src) ++
  [mkOp Mount src (root ++ src) [] (Z.lor MS_BIND MS_REC); mkOp SetattrRecRO [] (root ++ src) [] 0].

Definition view_head (root : bytes) : MountPlan :=
  [mkOp MakeRPrivate [] [] [] 0; mkOp Mount (str "tmpfs") root (str "tmpfs") 0;
   mkOp Mkdir (root ++ str "/oldroot") [] [] 0].

(** The one writable mount, for the levels that may write. *)
Definition view_scratch (level : FsAccess) (root : bytes) : MountPlan :=
  match level with
  | WriteScoped => [mkOp Mkdir (root ++ str "/scratch") [] [] 0;
                    mkOp Mount (str "tmpfs") (root ++ str "/scratch") (str "tmpfs") 0]
  | WriteNoExec => [mkOp Mkdir (root ++ str "/scratch") [] [] 0;
                    mkOp Mount (str "tmpfs") (root ++ str "/scratch") (str "tmpfs") MS_NOEXEC]
  | _ => []
  end.

(** The root sealed, entered, the old one detached. *)
Definition view_tail (root : bytes) : MountPlan :=
  [mkOp Mount root root [] (Z.lor MS_REMOUNT MS_RDONLY);
   mkOp PivotRoot root (root ++ str "/oldroot") [] 0;
   mkOp Chdir (str "/") [] [] 0;
   mkOp Umount (str "/oldroot") [] [] MNT_DETACH].

(** The directories of the host a view may show. *)
Definition view_source (level : FsAccess) (scoped_path exe_path so_path src : bytes) : Prop :=
  src ∈ loader_dirs \/ src = dirname_of exe_path \/ src = dirname_of so_path \/
  level = ReadOnly /\ src = scoped_path.

Lemma bind_ro_block p root src : bind_ro_ops p root src = p ++ bind_block root src.
Proof. unfold bind_ro_ops, mkdir_p_ops, bind_block. by rewrite <-app_assoc. Qed.

Lemma loader_loop_run dirs root : forall p os,
  exists os' srcs, loader_loop dirs p root os = (os', Ok (p ++ mjoin (bind_block root <$> srcs))) /\ srcs ⊆ dirs.
Proof.
  induction dirs as [|d dirs IH]; intros p os; cbn [loader_loop].
  - exists os, []. by rewrite app_nil_r.
  - destruct (sys_total (SysStat d) os) as (st & os1 & E & _). rewrite (M_bind_ok _ _ _ _ _ E).
    destruct (IH (if is_dir st then bind_ro_ops p root d else p) os1) as (os' & srcs & -> & Hs).
    destruct (is_dir st); rewrite ?bind_ro_block.
    + exists os', (d :: srcs). split; [by rewrite <-app_assoc|set_solver].
    + exists os', srcs. split; [done|set_solver].
Qed.

(** *** Absolute paths *)

Definition absolute (path : bytes) : Prop := starts_with (str "/") path = true.

Lemma absolute_inv path : absolute path -> exists rest, path = chr 47 :: rest.
Proof.
  unfold absolute, starts_with. intros H%bool_decide_eq_true. destruct path as [|c rest]; [done|].
  exists rest. cbn in H. by injection H as ->.
Qed.

Lemma absolute_cons rest : absolute (chr 47 :: rest).
Proof. unfold absolute, starts_with. by apply bool_decide_eq_true. Qed.

Lemma last_slash_some s : forall i j, 0 <= i -> 0 <= j -> exists k, last_slash s i (Some j) = Some k /\ 0 <= k.
Proof.
  induction s as [|c s IH]; intros i j Hi Hj; cbn [last_slash]; [by exists j|].
  destruct (octet c =? 47); apply IH; lia.
Qed.

Lemma dirname_absolute path : absolute path -> absolute (dirname_of path).
Proof.
  intros (rest & ->)%absolute_inv. unfold dirname_of. cbn [last_slash].
  change (octet (chr 47) =? 47) with true. cbv iota.
  destruct (last_slash_some rest (0 + 1) 0) as (k & -> & Hk); [lia..|].
  destruct (Z.eqb_spec k 0); [done|]. replace (Z.to_nat k) with (S (Z.to_nat (k - 1))) by lia. apply absolute_cons.
Qed.

(** C23: the view a sandboxed child gets.  Whatever the system says of the loader's
    directories, the plan first makes the mounts private; every directory of the
    host it binds is one of the loader's, the executable's, the library's or, at the
    read-only level, the granted one, and it is sealed recursively read-only right
    after it is bound; the only mount left writable is the scratch of the two write
    levels, not executable at [WriteNoExec]; then the root is sealed, entered and
    the old one detached.  A directory is bound at the view's root with its own path
    behind it, so it is in the view if that path begins with a slash: when the
    executable's, the library's and the granted path are absolute, every directory
    bound is, the executable's is among them, the library's too, or it lies below the
    executable's, and so is the granted one. *)
Theorem view_plan_spec level scoped_path exe_path so_path root os :
  exists os' srcs,
    build_view_plan level scoped_path exe_path so_path root os =
      (os', Ok (view_head root ++ mjoin (bind_block root <$> srcs) ++ view_scratch level root ++ view_tail root)) /\
    Forall (view_source level scoped_path exe_path so_path) srcs /\
    (absolute exe_path -> absolute so_path -> (level = ReadOnly -> scoped_path <> [] -> absolute scoped_path) ->
      Forall absolute srcs /\ dirname_of exe_path ∈ srcs /\
      (dirname_of so_path ∈ srcs \/ starts_with (dirname_of exe_path ++ str "/") (dirname_of so_path) = true) /\
      (level = ReadOnly -> scoped_path <> [] -> scoped_path ∈ srcs)).
Proof.
  unfold build_view_plan. cbv zeta.
  destruct (loader_loop_run loader_dirs root (view_head root) os) as (os' & srcs & E & Hl).
  rewrite (M_bind_ok _ _ _ _ _ E). exists os'.
  set (exe_dir := dirname_of exe_path). set (so_dir := dirname_of so_path).
  set (so := negb (bool_decide (so_dir = [])) && negb (bool_decide (so_dir = exe_dir) || starts_with (exe_dir ++ str "/") so_dir)).
  set (sc := match level with ReadOnly => negb (bool_decide (scoped_path = [])) | _ => false end).
  exists (srcs ++ [exe_dir] ++ (if so then [so_dir] else []) ++ (if sc then [scoped_path] else [])).
  split; [|split].
  - assert (forall (b : bool) p d, (if b then bind_ro_ops p root d else p) = p ++ mjoin (bind_block root <$> (if b then [d] else []))) as Hif.
    { intros b p d. destruct b; cbn; [by rewrite bind_ro_block, app_nil_r|by rewrite app_nil_r]. }
    assert (forall p, match level with
      | ReadOnly => if negb (bool_decide (scoped_path = [])) then bind_ro_ops p root scoped_path else p
      | _ => p end = p ++ mjoin (bind_block root <$> (if sc then [scoped_path] else []))) as Hsc.
    { intros p. unfold sc. destruct level; rewrite <-?Hif; cbn; by rewrite ?app_nil_r. }
    rewrite Hsc, Hif, bind_ro_block, !fmap_app, !join_app. cbn [fmap list_fmap mjoin list_join]. rewrite app_nil_r.
    unfold mret, M_ret. do 2 f_equal. destruct level; cbn [view_scratch app]; rewrite <-!app_assoc; done.
  - rewrite !Forall_app. split; [|split; [|split]].
    + apply Forall_forall. intros d Hd. left. by apply Hl.
    + apply Forall_singleton. by right; left.
    + destruct so; [|constructor]. apply Forall_singleton. by do 2 right; left.
    + unfold sc. destruct level; try constructor. destruct (bool_decide (scoped_path = [])); constructor; [|constructor]. by do 3 right.
  - intros He%dirname_absolute Hs%dirname_absolute Hsc. fold exe_dir in He. fold so_dir in Hs. split_and!.
    + rewrite !Forall_app. split_and!; [|by apply Forall_singleton|by destruct so; [apply Forall_singleton|]|].
      * assert (Forall absolute loader_dirs) as Hld by by repeat constructor.
        apply Forall_forall. intros d Hd%Hl. by eapply Forall_forall in Hld.
      * unfold sc. destruct level; try constructor. destruct (bool_decide_reflect (scoped_path = [])); constructor; [|constructor]. by apply Hsc.
    + set_solver.
    + destruct so eqn:Eso; [left; set_solver|]. unfold so in Eso. apply andb_false_iff in Eso as [Eso|Eso];
        apply negb_false_iff in Eso; [apply bool_decide_eq_true in Eso; by rewrite Eso in Hs|].
      apply orb_true_iff in Eso as [Eso|Eso]; [left|by right].
      apply bool_decide_eq_true in Eso. rewrite Eso. set_solver.
    + intros -> Hne. unfold sc. rewrite bool_decide_eq_false_2 by done. cbn. set_solver.
Qed.

Lemma view_plan_spec_witness :
  exists os' srcs,
    build_view_plan ReadOnly (str "/data") (str "/opt/zen/host") (str "/opt/shards/kid.so") (str "/tmp/v") (mkOS [] [] [] [] []) =
      (os', Ok (view_head (str "/tmp/v") ++ mjoin (bind_block (str "/tmp/v") <$> srcs) ++ [] ++ view_tail (str "/tmp/v"))) /\
    Forall absolute srcs /\ str "/opt/zen" ∈ srcs /\ str "/data" ∈ srcs.
Proof.
  destruct (view_plan_spec ReadOnly (str "/data") (str "/opt/zen/host") (str "/opt/shards/kid.so") (str "/tmp/v") (mkOS [] [] [] [] []))
    as (os' & srcs & E & _ & H).
  destruct (H eq_refl eq_refl ltac:(done)) as (Ha & He & _ & Hg). exists os', srcs.
  split; [exact E|]. split; [exact Ha|]. split; [exact He|]. by apply Hg.
Defined.
