(* ===== verification/Reaping.v ===== *)
(** * No child left behind

    Which processes a link's calls start and which of them it has seen the end of,
    read off the log of its calls.  A launch starts at most one, which is the link's;
    tearing a link down waits for it, and kills it first if it does not end in time. *)

From S2P Require Import Prelude Grant Protocol Channel Posix Sandbox SandboxSafety Confine ConfineSafety.

Abbreviation Log := (list (Call * Answer)).

(** The process an event starts. *)
Definition begets (e : Call * Answer) : list Z :=
  match e with
  | (SysFork, a) => if a_ret a >? 0 then [a_ret a] else []
  | (SysSpawn _ _ _ _, a) => if (a_ret a =? 0) && (a_x a >? 0) then [a_x a] else []
  | _ => []
  end.
Definition kids (t : Log) : list Z := mjoin (begets <$> t).

Lemma kids_app t t' : kids (t ++ t') = kids t ++ kids t'.
Proof. unfold kids. by rewrite fmap_app, join_app. Qed.

(** The end of a process was seen: a wait reported it, or that there is nothing to
    wait for; or it was killed and waited for, however long that took. *)
Definition ended (pid : Z) (t : Log) : Prop :=
  (exists a, (SysWaitpid pid true, a) ∈ t /\ (a_ret a = pid \/ a_ret a < 0)) \/
  (exists t1 a b t2, t = t1 ++ [(SysKill pid 9, a); (SysWaitpid pid false, b)] ++ t2).

Lemma ended_app pid t t' : ended pid t' -> ended pid (t ++ t').
Proof.
  intros [(a & Ha & H)|(t1 & a & b & t2 & ->)]; [left; exists a; split; [set_solver|done]|right].
  exists (t ++ t1), a, b, t2. by rewrite <-app_assoc.
Qed.
Lemma ended_more pid t t' : ended pid t -> ended pid (t ++ t').
Proof.
  intros [(a & Ha & H)|(t1 & a & b & t2 & ->)]; [left; exists a; split; [set_solver|done]|right].
  exists t1, a, b, (t2 ++ t'). by rewrite <-!app_assoc.
Qed.

Lemma kids_positive p t : p ∈ kids t -> 0 < p.
Proof.
  unfold kids. intros (l & Hp & (e & -> & _)%list_elem_of_fmap)%list_elem_of_join.
  destruct e as [[] a]; cbn in Hp; try by apply not_elem_of_nil in Hp.
  - destruct (Z.gtb_spec (a_ret a) 0); [|by apply not_elem_of_nil in Hp]. by apply list_elem_of_singleton in Hp as ->.
  - destruct (Z.gtb_spec (a_x a) 0); [|by rewrite andb_false_r in Hp; apply not_elem_of_nil in Hp].
    destruct (a_ret a =? 0); [|by apply not_elem_of_nil in Hp]. by apply list_elem_of_singleton in Hp as ->.
Qed.

(** No process is left of what was called. *)
Definition spent (os : OS) : Prop := forall p, p ∈ kids (log os) -> ended p (log os).
(** None but [pid]. *)
Definition spent_but (pid : Z) (os : OS) : Prop := forall p, p ∈ kids (log os) -> ended p (log os) \/ p = pid.

(** ** What a computation adds to the log, if it returns *)

Definition says {A : Type} (m : Sys A) (F : A -> Log -> Prop) : Prop :=
  forall os os' a, m os = (os', Ok a) -> exists t, log os' = log os ++ t /\ F a t.

Lemma says_ret {A : Type} (a : A) (F : A -> Log -> Prop) : F a [] -> says (mret a) F.
Proof. intros H os os' b [= <- <-]. exists []. by rewrite app_nil_r. Qed.

Lemma says_lift {A : Type} (r : result A) (F : A -> Log -> Prop) : (forall a, r = Ok a -> F a []) -> says (lift r) F.
Proof. intros H os os' b [= <- ->]. exists []. rewrite app_nil_r. auto. Qed.

Lemma says_sys c : says (sys c) (fun a t => t = [(c, a)]).
Proof. intros os os' a E. destruct (sys_total c os) as (b & os1 & E1 & L). rewrite E in E1. injection E1 as -> ->. eauto. Qed.

Lemma says_bind {A B : Type} (m : Sys A) (f : A -> Sys B) F (G : B -> Log -> Prop) :
  says m F -> (forall a t, F a t -> says (f a) (fun b t' => G b (t ++ t'))) -> says (m ≫= f) G.
Proof.
  intros Hm Hf os os' b E. unfold mbind, M_bind in E. destruct (m os) as [os1 [a|e|]] eqn:E1; [|done..].
  destruct (Hm _ _ _ E1) as (t & L & H). destruct (Hf a t H _ _ _ E) as (t' & L' & H'). exists (t ++ t').
  by rewrite L', L, <-app_assoc.
Qed.

Lemma says_weaken {A : Type} (m : Sys A) (F G : A -> Log -> Prop) : says m F -> (forall a t, F a t -> G a t) -> says m G.
Proof. intros Hm H os os' a E. destruct (Hm _ _ _ E) as (t & ? & ?). eauto. Qed.

(** Starts no process. *)
Definition childless {A : Type} (m : Sys A) : Prop := says m (fun _ t => kids t = []).

Lemma childless_ret {A : Type} (a : A) : childless (mret a).
Proof. by apply says_ret. Qed.
Lemma childless_lift {A : Type} (r : result A) : childless (lift r).
Proof. by apply says_lift. Qed.
Lemma childless_sys c : (forall a, begets (c, a) = []) -> childless (sys c).
Proof. intros H. eapply says_weaken; [apply says_sys|]. intros a t ->. change (begets (c, a) ++ [] = []). by rewrite H. Qed.
Lemma childless_bind {A B : Type} (m : Sys A) (f : A -> Sys B) :
  childless m -> (forall a, childless (f a)) -> childless (m ≫= f).
Proof.
  intros Hm Hf. eapply says_bind; [exact Hm|]. intros a t Ht. eapply says_weaken; [apply Hf|]. intros b t' Ht'. cbv beta in *.
  by rewrite kids_app, Ht, Ht'.
Qed.
Lemma childless_flush ch : childless (sys_flush ch).
Proof.
  intros os os' a E. unfold sys_flush in E. destruct (flush _ ch) as [[[c w] io]|]; [|done]. injection E as <- <-.
  exists []. by rewrite app_nil_r.
Qed.
Lemma childless_poll ch : childless (sys_poll ch).
Proof.
  intros os os' a E. unfold sys_poll in E. destruct (poll _ ch) as [[[c out] io]|]; [|done].
  injection E as <- _. exists []. by rewrite app_nil_r.
Qed.

Create HintDb reaping.
#[export] Hint Resolve childless_ret childless_lift childless_flush childless_poll : reaping.

Ltac childless :=
  repeat first
    [ solve [eauto with reaping nocore]
    | apply childless_sys; done
    | apply childless_bind; [|intros ?]
    | match goal with
      | |- childless (match ?x with _ => _ end) => destruct x
      | |- childless (let _ := _ in _) => cbv zeta
      end ].

Lemma write_proc_childless path data : childless (write_proc path data).
Proof. unfold write_proc. childless. Qed.
#[export] Hint Resolve write_proc_childless : reaping.
Lemma write_single_map_childless path id : childless (write_single_map path id).
Proof. unfold write_single_map. childless. Qed.
#[export] Hint Resolve write_single_map_childless : reaping.
Lemma write_isolation_id_maps_childless child : childless (write_isolation_id_maps child).
Proof. unfold write_isolation_id_maps. childless. Qed.
#[export] Hint Resolve write_isolation_id_maps_childless : reaping.
Lemma ns_distinct_childless child ns : childless (ns_distinct child ns).
Proof. unfold ns_distinct. childless. Qed.
#[export] Hint Resolve ns_distinct_childless : reaping.
Lemma read_text_childless path : childless (read_text path).
Proof. unfold read_text. childless. Qed.
Lemma write_text_childless path data : childless (write_text path data).
Proof. unfold write_text. childless. Qed.
#[export] Hint Resolve read_text_childless write_text_childless : reaping.
Lemma cgroup_create_leaf_childless cg name caps : childless (cgroup_create_leaf cg name caps).
Proof. unfold cgroup_create_leaf, write_limit. childless. Qed.
Lemma cgroup_move_pid_childless cg name pid : childless (cgroup_move_pid cg name pid).
Proof. unfold cgroup_move_pid. childless. Qed.
Lemma cgroup_confirm_childless cg name pid caps : childless (cgroup_confirm cg name pid caps).
Proof. unfold cgroup_confirm, read_limit. childless. Qed.
Lemma cgroup_remove_leaf_childless cg name : childless (cgroup_remove_leaf cg name).
Proof. unfold cgroup_remove_leaf. childless. Qed.
#[export] Hint Resolve cgroup_create_leaf_childless cgroup_move_pid_childless cgroup_confirm_childless cgroup_remove_leaf_childless : reaping.

Lemma wait_loop_childless rounds deadline : forall ch, childless (wait_loop rounds deadline ch).
Proof. induction rounds as [|n IH]; intros ch; cbn [wait_loop]; childless. Qed.
Lemma wait_for_hello_childless ch ms : childless (wait_for_hello ch ms).
Proof.
  intros os os' a E. unfold wait_for_hello in E. destruct (sys_total SysNow os) as (now & os1 & E1 & L1). rewrite E1 in E.
  destruct (wait_loop_childless _ _ _ _ _ _ E) as (t & L & Ht). exists ((SysNow, now) :: t).
  rewrite L, L1, <-app_assoc. by split.
Qed.
#[export] Hint Resolve wait_for_hello_childless : reaping.

(** ** Links *)

(** If it returns, [Q] holds. *)
Definition upto {S A : Type} (P : S -> Prop) (m : M S A) (Q : A -> S -> Prop) : Prop :=
  forall s s' a, P s -> m s = (s', Ok a) -> Q a s'.

Lemma upto_bind {S A B : Type} (P : S -> Prop) (m : M S A) Q (f : A -> M S B) R :
  upto P m Q -> (forall a, upto (Q a) (f a) R) -> upto P (m ≫= f) R.
Proof.
  intros Hm Hf s s' b Hs E. unfold mbind, M_bind in E. destruct (m s) as [s1 [a|e|]] eqn:E1; [|done..].
  exact (Hf a _ _ _ (Hm _ _ _ Hs E1) E).
Qed.
Lemma upto_ret {S A : Type} (P : S -> Prop) (a : A) (Q : A -> S -> Prop) : (forall s, P s -> Q a s) -> upto P (mret a) Q.
Proof. intros H s s' b Hs [= <- <-]. auto. Qed.
Lemma upto_weaken {S A : Type} (P P' : S -> Prop) (m : M S A) (Q Q' : A -> S -> Prop) :
  upto P m Q -> (forall s, P' s -> P s) -> (forall a s, Q a s -> Q' a s) -> upto P' m Q'.
Proof. intros H HP HQ s s' a Hs E. eauto. Qed.

(** The calls since [l0], as a property of the processes they started and of the pid
    the link records. *)
Definition brood (l0 : Link) (K : list Z -> Z -> Prop) (l : Link) : Prop :=
  exists t, log (l_os l) = log (l_os l0) ++ t /\ K (kids t) (l_pid l).

Lemma brood_weaken l0 (K K' : list Z -> Z -> Prop) l : brood l0 K l -> (forall o q, K o q -> K' o q) -> brood l0 K' l.
Proof. intros (t & L & H) HK. exists t. auto. Qed.

Lemma brood_childless {A : Type} l0 K (m : Sys A) : childless m -> upto (brood l0 K) (on_os m) (fun _ => brood l0 K).
Proof.
  intros Hm l l' a (t & L & H) E. unfold on_os in E. destruct (m (l_os l)) as [os [b|e|]] eqn:E1; [|done..].
  injection E as <- <-. destruct (Hm _ _ _ E1) as (t' & L' & Ht'). exists (t ++ t').
  cbn [l_os set_os l_pid]. by rewrite L', L, kids_app, Ht', app_nil_r, <-app_assoc.
Qed.

Lemma brood_sys l0 c (K : Z -> Prop) :
  upto (brood l0 (fun o q => o = [] /\ K q)) (on_os (sys c)) (fun a => brood l0 (fun o q => o = begets (c, a) /\ K q)).
Proof.
  intros l l' a (t & L & [Ho HK]) E. unfold on_os in E. destruct (sys_total c (l_os l)) as (b & os & E1 & L1).
  rewrite E1 in E. injection E as <- <-. exists (t ++ [(c, b)]). cbn [l_os set_os l_pid].
  rewrite L1, L, kids_app, Ho, <-app_assoc. split; [done|]. split; [|done].
  change ([] ++ (begets (c, b) ++ []) = begets (c, b)). by rewrite app_nil_r.
Qed.

Lemma brood_modify l0 K K' (g : Link -> Link) :
  (forall l, l_os (g l) = l_os l) -> (forall o l, K o (l_pid l) -> K' o (l_pid (g l))) ->
  upto (brood l0 K) (modify g) (fun _ => brood l0 K').
Proof. intros Ho Hg l l' a (t & L & H) [= <- <-]. exists t. rewrite Ho. auto. Qed.

Lemma brood_gets {A B : Type} l0 K (g : Link -> A) (f : A -> L B) Q :
  (forall a, upto (brood l0 K) (f a) Q) -> upto (brood l0 K) (gets g ≫= f) Q.
Proof. intros H l l' b Hl E. exact (H _ _ _ _ Hl E). Qed.

(** One more call that starts nothing. *)
Ltac quiet := eapply upto_bind; [apply brood_childless; childless|intros ?; cbv beta iota].

Section launch.
Context (exe : bytes) (cg : Cgroup) (l0 : Link).

(** No process yet; one at most, which the launch answers with; one at most, which
    is the link's. *)
Definition none (o : list Z) (q : Z) : Prop := o = [] /\ True.
Definition only (p : Z) (o : list Z) (q : Z) : Prop := o = [] \/ o = [p].
Definition its (o : list Z) (q : Z) : Prop := o = [] \/ o = [q].

Definition launched_as (r : bytes + Z) (l : Link) : Prop :=
  match r with inl _ => brood l0 its l | inr p => brood l0 (only p) l end.

Lemma none_its l : brood l0 none l -> brood l0 its l.
Proof. intros H. eapply brood_weaken; [exact H|]. intros o q [-> _]. by left. Qed.

Lemma close_both_quiet sv K : upto (brood l0 K) (close_both sv) (fun _ => brood l0 K).
Proof. unfold close_both. do 2 quiet. by apply upto_ret. Qed.

Lemma launch_plain_own sv : upto (brood l0 none) (launch_plain exe sv) launched_as.
Proof.
  unfold launch_plain. apply brood_gets. intros l.
  eapply upto_bind; [by apply (brood_sys l0 (SysSpawn exe (l_so_path l) kChildFd sv.2) (fun _ => True))|].
  intros rc. cbv beta. destruct (a_ret rc =? 0) eqn:E; cbn [negb].
  - apply upto_ret. intros s Hs. eapply brood_weaken; [exact Hs|]. intros o q [-> _]. unfold begets. rewrite E. cbn [andb].
    destruct (a_x rc >? 0); [by right|by left].
  - eapply upto_bind; [apply close_both_quiet|]. intros ?. apply upto_ret. intros s Hs.
    eapply brood_weaken; [exact Hs|]. intros o q [-> _]. unfold begets. rewrite E. by left.
Qed.

Lemma launch_sandboxed_own sv needs res : upto (brood l0 none) (launch_sandboxed cg sv needs res) launched_as.
Proof.
  unfold launch_sandboxed. quiet.
  destruct (negb _); [eapply upto_bind; [apply close_both_quiet|]; intros ?; by apply upto_ret; intros; apply none_its|].
  quiet. destruct (negb _); [eapply upto_bind; [apply close_both_quiet|]; intros ?; by apply upto_ret; intros; apply none_its|].
  eapply upto_bind; [by apply (brood_sys l0 SysFork (fun _ => True))|]. intros pid. cbv beta.
  apply (upto_weaken (brood l0 (if a_ret pid <? 0 then none else only (a_ret pid))) _ _ launched_as); [| |done].
  2: { intros l Hl. eapply brood_weaken; [exact Hl|]. intros o q [-> _]. unfold begets.
       destruct (Z.ltb_spec (a_ret pid) 0), (Z.gtb_spec (a_ret pid) 0); try lia; [done|by right|by left]. }
  do 2 quiet. destruct (a_ret pid <? 0).
  - do 2 (eapply upto_bind; [apply close_both_quiet|]; intros ?). by apply upto_ret; intros; apply none_its.
  - quiet. cbv zeta.
    eapply (upto_bind _ _ (fun _ => brood l0 (only (a_ret pid)))).
    { destruct (_ && _); [apply brood_childless; childless|by apply upto_ret]. }
    intros prepared. apply brood_gets. intros l.
    eapply (upto_bind _ _ (fun _ => brood l0 (only (a_ret pid)))).
    { destruct (_ && _); [apply brood_childless; childless|by apply upto_ret]. }
    intros prepared'. eapply (upto_bind _ _ (fun _ => brood l0 (only (a_ret pid)))).
    { destruct (got_one _); [quiet|]; by apply upto_ret. }
    intros ?. eapply upto_bind; [apply close_both_quiet|]. intros ?. destruct (negb prepared'); [|by apply upto_ret].
    eapply upto_bind; [apply close_both_quiet|]. intros ?.
    eapply upto_bind; [by apply (brood_modify _ _ its)|]. intros ?. by apply upto_ret.
Qed.

Lemma confirm_quiet net fs res K : upto (brood l0 K) (confirm cg net fs res) (fun _ => brood l0 K).
Proof.
  assert (forall (b : bool) (m : Sys bool), childless m ->
    upto (brood l0 K) (if b then on_os m else mret true) (fun _ => brood l0 K)) as Hstep.
  { intros b m Hm. destruct b; [by apply brood_childless|by apply upto_ret]. }
  unfold confirm, child_netns_is_isolated, child_mountns_is_isolated. apply brood_gets. intros l.
  eapply upto_bind; [apply Hstep; childless|]. intros ok1. destruct (negb ok1); [by apply upto_ret|].
  eapply upto_bind; [apply Hstep; childless|]. intros ok2. destruct (negb ok2); [by apply upto_ret|].
  eapply upto_bind; [apply Hstep; childless|]. intros ok3. destruct (negb ok3); [by apply upto_ret|].
  eapply upto_bind; [by apply (brood_modify _ K K)|]. intros ?. by apply upto_ret.
Qed.

(** A launch starts one process at most, and the link records it. *)
Lemma spawn_own : upto (brood l0 none) (spawn_and_handshake exe cg) (fun _ => brood l0 its).
Proof.
  unfold spawn_and_handshake. quiet. destruct (negb _); [by apply upto_ret; intros; apply none_its|].
  cbv zeta. quiet. apply brood_gets. intros l.
  eapply (upto_bind _ _ (fun _ => brood l0 none)); [destruct (_ && _); [quiet|]; by apply upto_ret|]. intros ?.
  eapply (upto_bind _ _ (fun _ => brood l0 none));
    [destruct (resources_contained l); [apply brood_childless; childless|by apply upto_ret]|].
  intros leaf. destruct (negb leaf).
  { eapply upto_bind; [apply close_both_quiet|]. intros ?. by apply upto_ret; intros; apply none_its. }
  eapply (upto_bind _ _ launched_as); [destruct (_ || _); [apply launch_sandboxed_own|apply launch_plain_own]|].
  intros [e|pid]; [by apply upto_ret|]. cbn [launched_as]. quiet.
  eapply upto_bind; [apply (brood_modify _ _ its); [done|]; intros o q' Ho; destruct Ho as [->| ->]; [by left|by right]|]. intros ?.
  eapply upto_bind; [apply brood_childless; childless|]. intros [ch hello]. cbv beta iota. eapply upto_bind; [by apply (brood_modify _ its its)|]. intros ?.
  destruct hello as [f|]; [|by apply upto_ret].
  eapply (upto_bind _ _ (fun _ => brood l0 its)); [by intros s s' x Hs [= <- _]|]. intros [parts|]; [|by apply upto_ret].
  eapply upto_bind; [apply confirm_quiet|]. intros [e|]; by apply upto_ret.
Qed.
End launch.

(** ** Tearing down *)

(** The calls since [l0] have [T]. *)
Definition since (l0 : Link) (T : Log -> Prop) (l : Link) : Prop :=
  exists t, log (l_os l) = log (l_os l0) ++ t /\ T t.

(** What lasts when more is called. *)
Definition lasting (T : Log -> Prop) : Prop := forall t t', T t -> T (t ++ t').

Lemma since_os {A : Type} l0 T (m : Sys A) F :
  lasting T -> says m F -> upto (since l0 T) (on_os m) (fun a => since l0 (fun t => T t /\ exists t1 t2, t = t1 ++ t2 /\ F a t2)).
Proof.
  intros HT Hm l l' a (t & L & H) E. unfold on_os in E. destruct (m (l_os l)) as [os [b|e|]] eqn:E1; [|done..].
  injection E as <- <-. destruct (Hm _ _ _ E1) as (t' & L' & Ht'). exists (t ++ t').
  cbn [l_os set_os]. rewrite L', L, <-app_assoc. split; [done|]. split; [by apply HT|]. by exists t, t'.
Qed.
Lemma since_more {A : Type} l0 T (m : Sys A) : lasting T -> childless m -> upto (since l0 T) (on_os m) (fun _ => since l0 T).
Proof.
  intros HT Hm. eapply upto_weaken; [by apply (since_os l0 T m)|done|]. intros a l (t & L & H & _). by exists t.
Qed.
Lemma since_modify l0 T (g : Link -> Link) : (forall l, l_os (g l) = l_os l) -> upto (since l0 T) (modify g) (fun _ => since l0 T).
Proof. intros Hg l l' a (t & L & H) [= <- _]. exists t. by rewrite Hg. Qed.

Definition called (c : Call) (t : Log) : Prop := exists a, (c, a) ∈ t.
Lemma called_lasting c : lasting (called c).
Proof. intros t t' (a & H). exists a. set_solver. Qed.
Lemma called_says c : says (sys c) (fun _ t => called c t).
Proof. eapply says_weaken; [apply says_sys|]. intros a t ->. exists a. set_solver. Qed.
Lemma ended_lasting pid : lasting (ended pid).
Proof. intros t t'. apply ended_more. Qed.
Lemma and_lasting T T' : lasting T -> lasting T' -> lasting (fun t => T t /\ T' t).
Proof. intros H H' t t' [? ?]. auto. Qed.
Lemma imp_lasting (P : Prop) T : lasting T -> lasting (fun t => P -> T t).
Proof. intros H t t' HT HP. auto. Qed.

(** One more call, remembered. *)
Lemma since_called l0 T c : lasting T -> upto (since l0 T) (on_os (sys c)) (fun _ => since l0 (fun t => T t /\ called c t)).
Proof.
  intros HT. eapply upto_weaken; [apply since_os; [exact HT|apply called_says]|done|].
  intros a l (t & L & H & t1 & t2 & -> & b & Hb). exists (t1 ++ t2). split; [done|]. split; [done|]. exists b. set_solver.
Qed.

Lemma reap_loop_says n pid : says (reap_loop n pid) (fun b t => b = true -> ended pid t).
Proof.
  induction n as [|n IH]; cbn [reap_loop]; [by apply says_ret|]. eapply says_bind; [apply says_sys|].
  intros r t ->. destruct ((a_ret r =? pid) || (a_ret r <? 0)) eqn:E.
  - apply says_ret. intros _. left. exists r. split; [set_solver|]. apply orb_true_iff in E as [E|E]; [left|right]; lia.
  - eapply says_weaken; [exact IH|]. intros b t Ht Hb. by apply ended_app, Ht.
Qed.

Lemma reap_loop_childless n pid : childless (reap_loop n pid).
Proof. induction n as [|n IH]; cbn [reap_loop]; childless. Qed.

(** What a torn-down link no longer has: its end of the socket, its process, its view's
    mount point, its control group. *)
Definition put_away (cg : Cgroup) (l : Link) (t : Log) : Prop :=
  (forall ch, l_channel l = Some ch -> 0 <= fd ch -> called (SysClose (fd ch)) t) /\
  (0 < l_pid l -> ended (l_pid l) t) /\
  (l_fs_root l <> [] -> called (SysRmdir (l_fs_root l)) t) /\
  (l_cg_leaf l <> [] -> cg_base cg <> [] -> called (SysRmdir (cg_base cg ++ str "/" ++ l_cg_leaf l)) t).

Section teardown.
Context (cg : Cgroup) (l0 : Link).

Definition closed (t : Log) : Prop := forall ch, l_channel l0 = Some ch -> 0 <= fd ch -> called (SysClose (fd ch)) t.
Definition reaped (t : Log) : Prop := 0 < l_pid l0 -> ended (l_pid l0) t.
Definition unrooted (t : Log) : Prop := l_fs_root l0 <> [] -> called (SysRmdir (l_fs_root l0)) t.

Lemma closed_lasting : lasting closed.
Proof. intros t t' H ch E Hfd. by apply called_lasting, H. Qed.
Lemma reaped_lasting : lasting reaped.
Proof. apply imp_lasting, ended_lasting. Qed.
Lemma unrooted_lasting : lasting unrooted.
Proof. apply imp_lasting, called_lasting. Qed.

Lemma hang_up :
  upto (eq l0)
    (match l_channel l0 with
     | Some ch =>
         ch ← (if Channel_done ch then mret ch else on_os (sys_flush (queue Op_Shutdown [] ch)));
         _ ← (if fd ch >=? 0 then (_ ← on_os (sys (SysClose (fd ch))); mret tt) else mret tt);
         modify (set_channel None)
     | None => mret tt
     end) (fun _ => since l0 closed).
Proof.
  destruct (l_channel l0) as [ch|] eqn:Ech.
  2: { intros l l' a <- [= <- _]. exists []. rewrite app_nil_r. split; [done|]. intros ch E. congruence. }
  eapply (upto_bind _ _ (fun ch' => since l0 (fun t => fd ch' = fd ch))).
  { intros l l' a <- E. destruct (Channel_done ch); [by injection E as <- <-; exists []; rewrite app_nil_r|].
    unfold on_os in E. destruct (sys_flush_run (queue Op_Shutdown [] ch) (l_os l0)) as (ch' & tx & w & E1 & Hf & _).
    rewrite E1 in E. injection E as <- <-. exists []. rewrite app_nil_r. split; [done|]. rewrite Hf.
    unfold queue. destruct (failed ch); [done|]. destruct (_ >? kMaxFrameLen); [done|]. by destruct (_ >? kMaxBacklog). }
  intros ch'. eapply (upto_bind _ _ (fun _ => since l0 closed)); [|intros ?; by apply since_modify].
  destruct (Z.geb_spec (fd ch') 0) as [Hfd|Hfd].
  - eapply upto_bind; [by apply since_called; intros t t' ?|]. intros ?. apply upto_ret. intros l (t & L & E & H).
    exists t. split; [done|]. intros c Hc _. rewrite Ech in Hc. injection Hc as <-. by rewrite <-E.
  - apply upto_ret. intros l (t & L & E). exists t. split; [done|]. intros c Hc ?. rewrite Ech in Hc. injection Hc as <-. lia.
Qed.

Lemma reap :
  upto (since l0 closed)
    (if l_pid l0 >? 0 then
       reaped ← on_os (reap_loop 200 (l_pid l0));
       _ ← (if (reaped : bool) then mret tt else
              _ ← on_os (sys (SysKill (l_pid l0) 9));
              _ ← on_os (sys (SysWaitpid (l_pid l0) false));
              mret tt);
       modify (set_pid (-1))
     else mret tt) (fun _ => since l0 (fun t => closed t /\ reaped t)).
Proof.
  destruct (Z.gtb_spec (l_pid l0) 0) as [Hp|Hp].
  2: { apply upto_ret. intros l (t & L & H). exists t. split; [done|]. split; [done|]. intros ?. lia. }
  eapply upto_bind; [apply since_os; [apply closed_lasting|apply reap_loop_says]|]. intros b. cbv beta.
  eapply (upto_bind _ _ (fun _ => since l0 (fun t => closed t /\ reaped t))); [|intros ?; by apply since_modify].
  destruct b.
  - apply upto_ret. intros l (t & L & H & t1 & t2 & -> & H2). exists (t1 ++ t2). split; [done|]. split; [done|].
    intros _. by apply ended_app, H2.
  - intros l l' a (t & L & H & _) E. unfold mbind, M_bind, on_os in E.
    destruct (sys_total (SysKill (l_pid l0) 9) (l_os l)) as (x & os1 & E1 & L1). rewrite E1 in E.
    cbn [l_os set_os] in E. destruct (sys_total (SysWaitpid (l_pid l0) false) os1) as (y & os2 & E2 & L2).
    rewrite E2 in E. injection E as <- <-. exists (t ++ [(SysKill (l_pid l0) 9, x); (SysWaitpid (l_pid l0) false, y)]).
    cbn [l_os set_os]. rewrite L2, L1, L, <-!app_assoc. split; [done|]. split; [by apply closed_lasting|].
    intros _. right. exists t, x, y, []. done.
Qed.

(** Tearing a link down puts everything of it away. *)
Lemma teardown_puts_away : upto (eq l0) (teardown_child cg) (fun _ => since l0 (put_away cg l0)).
Proof.
  unfold teardown_child. intros l l' a <- E. rewrite (M_bind_ok (gets _) _ l0 l0 l0 eq_refl) in E. revert E.
  match goal with |- ?m l0 = _ -> _ => assert (upto (eq l0) m (fun _ => since l0 (put_away cg l0))) as H;
    [|intros E; exact (H _ _ _ eq_refl E)] end.
  eapply upto_bind; [apply hang_up|]. intros ?. eapply upto_bind; [apply reap|]. intros ?.
  pose proof (and_lasting _ _ closed_lasting reaped_lasting) as Hcr.
  eapply (upto_bind _ _ (fun _ => since l0 (fun t => (closed t /\ reaped t) /\ unrooted t))).
  { destruct (bool_decide_reflect (l_fs_root l0 = [])) as [Hr|Hr].
    - apply upto_ret. intros l (t & L & H). exists t. split; [done|]. split; [done|]. intros ?. done.
    - eapply upto_bind; [by apply since_called|]. intros ?. apply upto_ret. intros l (t & L & H & Hc). exists t.
      split; [done|]. split; [done|]. intros _. done. }
  intros ?. pose proof (and_lasting _ _ Hcr unrooted_lasting) as Hcru.
  assert (forall l, since l0 (fun t => ((closed t /\ reaped t) /\ unrooted t) /\
      (l_cg_leaf l0 <> [] -> cg_base cg <> [] -> called (SysRmdir (cg_base cg ++ str "/" ++ l_cg_leaf l0)) t)) l ->
    since l0 (put_away cg l0) l) as Hend.
  { intros l (t & L & [[H1 H2] H3] & H4). exists t. by split. }
  destruct (bool_decide_reflect (l_cg_leaf l0 = [])) as [Hleaf|Hleaf].
  { apply upto_ret. intros l (t & L & H). apply Hend. by exists t. }
  unfold cgroup_remove_leaf. destruct (bool_decide_reflect (cg_base cg = [])) as [Hb|Hb].
  - intros l s' x (t & L & H) [= <- _]. apply Hend. exists t. by destruct l.
  - intros l s' x Hl E. apply Hend. unfold on_os in E. unfold mbind, M_bind in E.
    destruct (sys_total (SysRmdir (cg_base cg ++ str "/" ++ l_cg_leaf l0)) (l_os l)) as (y & os & E1 & L1).
    rewrite E1 in E. injection E as <- <-. destruct Hl as (t & L & H). eexists. cbn [l_os set_os]. rewrite L1, L, <-app_assoc.
    split; [done|]. split; [by apply Hcru|]. intros _ _. exists y. set_solver.
Qed.
End teardown.

(** Nor does that start anything. *)
Lemma teardown_quiet cg l0 : upto (eq l0) (teardown_child cg) (fun _ => brood l0 (fun o _ => o = [])).
Proof.
  apply (upto_weaken (brood l0 (fun o _ => o = [])) (eq l0) _ (fun _ => brood l0 (fun o _ => o = []))); [|by intros l <-; exists []; split; [by rewrite app_nil_r|]|by auto].
  unfold teardown_child. apply brood_gets. intros l.
  eapply (upto_bind _ _ (fun _ => brood l0 (fun o _ => o = []))).
  { destruct (l_channel l) as [ch|]; [|by apply upto_ret].
    eapply (upto_bind _ _ (fun _ => brood l0 (fun o _ => o = []))).
    { destruct (Channel_done ch); [by apply upto_ret|apply brood_childless; childless]. }
    intros ch'. eapply (upto_bind _ _ (fun _ => brood l0 (fun o _ => o = []))); [|intros ?; by apply (brood_modify _ _ (fun o _ => o = []))].
    destruct (fd ch' >=? 0); [quiet|]; by apply upto_ret. }
  intros ?. eapply (upto_bind _ _ (fun _ => brood l0 (fun o _ => o = []))).
  { destruct (l_pid l >? 0); [|by apply upto_ret]. eapply upto_bind; [apply brood_childless, reap_loop_childless|]. intros b.
    eapply (upto_bind _ _ (fun _ => brood l0 (fun o _ => o = []))); [|intros ?; by apply (brood_modify _ _ (fun o _ => o = []))].
    destruct b; [by apply upto_ret|]. do 2 quiet. by apply upto_ret. }
  intros ?. eapply (upto_bind _ _ (fun _ => brood l0 (fun o _ => o = []))).
  { destruct (bool_decide _); [by apply upto_ret|]. quiet. by apply upto_ret. }
  intros ?. destruct (bool_decide _); [by apply upto_ret|]. apply brood_childless. childless.
Qed.

(** A link torn down leaves nothing, if its own process was all that was left. *)
Lemma teardown_spends cg l l' : teardown_child cg l = (l', Ok tt) -> spent_but (l_pid l) (l_os l) ->
  exists t, log (l_os l') = log (l_os l) ++ t /\ put_away cg l t /\ spent (l_os l').
Proof.
  intros E Hl. destruct (teardown_puts_away cg l l l' tt eq_refl E) as (t & L & H).
  destruct (teardown_quiet cg l l l' tt eq_refl E) as (t' & L' & Hq).
  assert (t' = t) as -> by (rewrite L in L'; by apply app_inv_head in L').
  exists t. split; [done|]. split; [done|]. intros p. rewrite L, kids_app, Hq, app_nil_r. intros Hp.
  destruct (Hl p Hp) as [He| ->]; [by apply ended_more|]. apply ended_app. destruct H as (_ & H & _).
  by apply H, (kids_positive _ (log (l_os l))).
Qed.

(** A launch leaves its own process, if nothing was left before. *)
Lemma spawn_spends exe cg l l' r : spawn_and_handshake exe cg l = (l', Ok r) -> spent (l_os l) -> spent_but (l_pid l') (l_os l').
Proof.
  intros E Hl. destruct (spawn_own exe cg l l l' r) as (t & L & Hk); [by exists []; rewrite app_nil_r|done|].
  intros p. rewrite L, kids_app. intros [Hp|Hp]%elem_of_app; [left; by apply ended_more, Hl|]. right.
  destruct Hk as [Hk|Hk]; rewrite Hk in Hp; [by apply not_elem_of_nil in Hp|by apply list_elem_of_singleton in Hp].
Qed.

(** ** A launch and its end *)

(** C22: everything a launch takes is accounted for.  From a link without a channel,
    whatever the system answers and whatever bytes the child sends,
    [spawn_and_handshake] returns, without undefined behaviour; it starts one process
    at most, which the link then records.  If it succeeds the host holds one
    descriptor more, the channel's.  And whatever it returned, [teardown_child] then
    waits until it has seen the end of that process, or kills it and waits; it closes
    the channel, removes the view's mount point and the control group; and the host
    holds the descriptors it held before, with one exception, the first
    synchronisation pipe when the second cannot be made. *)
Theorem launch_accounts exe cg l held :
  l_channel l = None -> answered (fun _ => True) (l_os l) -> holding held (l_os l) ->
  exists l1 r t1, spawn_and_handshake exe cg l = (l1, Ok r) /\
    log (l_os l1) = log (l_os l) ++ t1 /\ (kids t1 = [] \/ kids t1 = [l_pid l1]) /\
    (forall parts, r = inr parts ->
       exists ch, l_channel l1 = Some ch /\ chan_fit ch /\ holding (fd ch :: held) (l_os l1)) /\
    exists l2 t2 leak, teardown_child cg l1 = (l2, Ok tt) /\ l_channel l2 = None /\ l_pid l2 <= 0 /\
      log (l_os l2) = log (l_os l1) ++ t2 /\ put_away cg l1 t2 /\
      holding (leak ++ held) (l_os l2) /\
      (leak = [] \/ r = inl (str "sandbox sync pipe failed") /\ length leak = 2%nat).
Proof.
  intros Hnone Ha Hh. destruct (launch_balances exe cg l held Hnone Ha Hh)
    as (l1 & r & E1 & Hok & l2 & leak & E2 & Hc & Hp & Hh2 & Hleak).
  destruct (spawn_own exe cg l l l1 r) as (t1 & L1 & K1); [by exists []; rewrite app_nil_r|done|].
  destruct (teardown_puts_away cg l1 l1 l2 tt eq_refl E2) as (t2 & L2 & H2).
  exists l1, r, t1. do 4 (split; [done|]). exists l2, t2, leak. by split_and!.
Qed.
