(* ===== verification/Detection.v ===== *)
(** * Detecting what the host can enforce

    [detect_enforcement] of [src/isolation/sandbox.cpp]: two probes in processes
    of their own and a look at the control groups.  What the report says is what those
    said, nothing more. *)

From S2P Require Import Prelude Grant Protocol Channel Posix Sandbox SandboxSafety Reaping.

(** ** The probe

    The calls [t] of a probe that answered [ok]: a process it starts is waited for in
    the last call, and the answer is yes only if that process exited with 0. *)
Definition probed (ok : bool) (t : Log) : Prop :=
  (forall p, p ∈ kids t -> exists st, last t = Some (SysWaitpid p false, st)) /\
  (ok = true -> exists a st, (SysFork, a) ∈ t /\ 0 <= a_ret a /\
     last t = Some (SysWaitpid (a_ret a) false, st) /\ a_x st = 1 /\ a_y st = 0).

(** Before the fork, and between the fork and the wait. *)
Definition idle (t : Log) : Prop := kids t = [].
Definition running (a : Answer) (t : Log) : Prop := exists t1 t2, t = t1 ++ (SysFork, a) :: t2 /\ idle t1 /\ idle t2.

Lemma idle_app t t' : idle t -> idle t' -> idle (t ++ t').
Proof. unfold idle. intros H H'. by rewrite kids_app, H, H'. Qed.
Lemma running_app a t t' : running a t -> idle t' -> running a (t ++ t').
Proof.
  intros (t1 & t2 & -> & H1 & H2) H'. exists t1, (t2 ++ t'). rewrite <-app_assoc. split; [done|].
  by split; [|apply idle_app].
Qed.

Lemma idle_probed t : idle t -> probed false t.
Proof. intros H. split; [|done]. intros p. rewrite H. by intros ?%not_elem_of_nil. Qed.

(** The fork failed. *)
Lemma unforked a t : a_ret a < 0 -> running a t -> idle t.
Proof.
  intros Ha (t1 & t2 & -> & H1 & H2). apply idle_app; [done|]. unfold idle, kids in *. cbn.
  by destruct (Z.gtb_spec (a_ret a) 0); [lia|].
Qed.

Lemma waited a st t ok :
  0 <= a_ret a -> running a t -> (ok = true -> a_x st = 1 /\ a_y st = 0) ->
  probed ok (t ++ [(SysWaitpid (a_ret a) false, st)]).
Proof.
  intros Ha (t1 & t2 & -> & H1 & H2) Hst. split.
  - intros p Hp. exists st. rewrite last_snoc. do 3 f_equal. unfold idle in *.
    rewrite !kids_app, H1 in Hp. change (kids ((SysFork, a) :: t2)) with (begets (SysFork, a) ++ kids t2) in Hp.
    rewrite H2 in Hp. cbn in Hp. destruct (a_ret a >? 0); cbn in Hp; [|by apply not_elem_of_nil in Hp].
    by apply list_elem_of_singleton in Hp as ->.
  - intros Hok. exists a, st. split; [set_solver|]. split; [done|]. rewrite last_snoc. by destruct (Hst Hok).
Qed.

(** [m], after calls that have [K]. *)
Definition goes (K : Log -> Prop) (m : Sys bool) : Prop := says m (fun ok t => forall t0, K t0 -> probed ok (t0 ++ t)).

Lemma goes_bind {A : Type} (K : Log -> Prop) (m : Sys A) (f : A -> Sys bool) :
  (forall t t', K t -> idle t' -> K (t ++ t')) -> childless m -> (forall a, goes K (f a)) -> goes K (m ≫= f).
Proof.
  intros HK Hm Hf. eapply says_bind; [exact Hm|]. intros a t Ht. eapply says_weaken; [apply Hf|]. intros ok t' H t0 H0.
  rewrite app_assoc. by apply H, HK.
Qed.

Lemma goes_false (K : Log -> Prop) : (forall t, K t -> idle t) -> goes K (mret false).
Proof. intros HK. apply says_ret. intros t0 H0. rewrite app_nil_r. by apply idle_probed, HK. Qed.

Ltac quietly H := apply goes_bind; [exact H|childless|intros ?].

Lemma probe_isolation_probed n f p : says (probe_isolation n f p) probed.
Proof.
  apply (says_weaken _ (fun ok t => forall t0, idle t0 -> probed ok (t0 ++ t))); [|by intros ok t H; apply (H [])].
  change (goes idle (probe_isolation n f p)). unfold probe_isolation.
  quietly idle_app. destruct (negb _); [by apply goes_false|].
  quietly idle_app. destruct (negb _); [do 2 quietly idle_app; by apply goes_false|].
  eapply says_bind; [apply says_sys|]. intros pid t ->.
  match goal with |- says ?m _ => assert (goes (running pid) m) as H end.
  2: { eapply says_weaken; [exact H|]. intros ok t H1 t0 H0. rewrite app_assoc. apply H1. by exists t0, []. }
  do 2 quietly (running_app pid). destruct (Z.ltb_spec (a_ret pid) 0).
  { do 2 quietly (running_app pid). apply goes_false. intros t. by apply unforked. }
  quietly (running_app pid). cbv zeta. quietly (running_app pid). quietly (running_app pid).
  do 2 quietly (running_app pid). eapply says_bind; [apply says_sys|]. intros st t ->. apply says_ret. intros t0 H0.
  rewrite app_nil_r. apply waited; [done|done|]. intros [[_ Hx%Z.eqb_eq]%andb_true_iff Hy%Z.eqb_eq]%andb_true_iff. done.
Qed.

Lemma drain_procs_childless from to : childless (drain_procs from to).
Proof.
  unfold drain_procs. apply childless_bind; [apply read_text_childless|]. intros t.
  generalize (filter (fun l => l <> []) (lines t)). intros pids.
  induction pids as [|p pids IH]; cbn [drain_loop]; childless.
Qed.
#[local] Hint Resolve drain_procs_childless : reaping.

Lemma cgroup_base_childless : childless cgroup_base.
Proof. unfold cgroup_base, self_cgroup_v2_rel. childless. Qed.

(** ** The report *)

(** The status of the filesystem, the temporary directory being the answer [root]. *)
Definition saw_filesystem (root : Answer) (os : OS) (ok : bool) (os' : OS) : Prop :=
  if a_ret root =? 0 then exists os1 r t,
    probe_isolation false true (Some (build_probe_plan (a_text root))) os = (os1, Ok ok) /\
    log os1 = log os ++ t /\ probed ok t /\
    sys (SysRmdir (a_text root)) os1 = (os', Ok r)
  else ok = false /\ os' = os.

(** What detection did is over: of the calls [t], each process started was waited
    for. *)
Definition over (t : Log) : Prop := forall p, p ∈ kids t -> exists st, (SysWaitpid p false, st) ∈ t.

Lemma idle_over t : idle t -> over t.
Proof. intros H p. rewrite H. by intros ?%not_elem_of_nil. Qed.
Lemma over_app t t' : over t -> over t' -> over (t ++ t').
Proof.
  intros H H' p. rewrite kids_app. intros [[st Hst]%H|[st Hst]%H']%elem_of_app; exists st; set_solver.
Qed.
Lemma probed_over ok t : probed ok t -> over t.
Proof. intros [H _] p [st Hst]%H. exists st. apply last_Some in Hst as [l ->]. set_solver. Qed.

Lemma saw_filesystem_runs root held os :
  state (fun _ => True) held os ->
  exists ok os', saw_filesystem root os ok os' /\ state (fun _ => True) held os' /\
    exists t, log os' = log os ++ t /\ over t.
Proof.
  intros Hs. unfold saw_filesystem. destruct (a_ret root =? 0).
  2: { exists false, os. split; [done|]. split; [done|]. exists []. rewrite app_nil_r. split; [done|]. by apply idle_over. }
  set (plan := Some (build_probe_plan (a_text root))).
  pose proof (probe_isolation_balanced false true plan (fun _ => True) I held (fun _ => False) os Hs) as H.
  pose proof (probe_isolation_probed false true plan os) as Hp.
  destruct (probe_isolation false true plan os) as [os1 [ok|e|]]; [|done..].
  destruct (Hp _ _ eq_refl) as (t & L & Ht).
  pose proof (sys_plain_state _ I (SysRmdir (a_text root)) held (fun _ => False) (fun _ => eq_refl) (fun _ => eq_refl) os1 H) as H2.
  destruct (sys_total (SysRmdir (a_text root)) os1) as (r & os2 & E2 & L2). rewrite E2 in H2. exists ok, os2.
  split; [by exists os1, r, t|]. split; [done|]. exists (t ++ [(SysRmdir (a_text root), r)]).
  rewrite L2, L, <-app_assoc. split; [done|]. apply over_app; [by eapply probed_over|by apply idle_over].
Qed.

(** C24: detection is honest.  Whatever the system answers, [detect_enforcement]
    returns, and its report has one status per capability, each what was seen: the
    network is enforceable exactly if the probe of the network namespace said yes;
    the filesystem exactly if a temporary directory was given and the probe of the
    view built in it said yes; the resources exactly if a delegated control group
    limits memory or processes.  A probe says yes only if the process it forked was
    waited for and exited with 0.  Every descriptor that was opened is closed again
    and every process that was started has been waited for. *)
Theorem detect_enforcement_spec held os :
  answered (fun _ => True) os -> holding held os ->
  exists os1 root os2 os3 os' report cg,
    detect_enforcement os = (os', Ok (report, cg)) /\
    capability <$> report = [Network; Filesystem; Resources] /\
    probe_isolation true false None os = (os1, Ok (enforceable report Network)) /\
    (exists t, log os1 = log os ++ t /\ probed (enforceable report Network) t) /\
    sys (SysMkdtemp "/tmp/zen-fsprobe-XXXXXX") os1 = (os2, Ok root) /\
    saw_filesystem root os2 (enforceable report Filesystem) os3 /\
    cgroup_base os3 = (os', Ok cg) /\
    (enforceable report Resources = true <-> cg_base cg <> [] /\ (cg_memory cg || cg_pids cg) = true) /\
    holding held os' /\ exists t, log os' = log os ++ t /\ over t.
Proof.
  intros Ha Hh.
  pose proof (probe_isolation_balanced true false None (fun _ => True) I held (fun _ => False) os (conj Ha Hh)) as H1.
  destruct (probe_isolation true false None os) as [os1 [net|e|]] eqn:E1; [|done..].
  destruct (probe_isolation_probed true false None _ _ _ E1) as (t1 & L1 & P1).
  pose proof (sys_plain_state _ I (SysMkdtemp "/tmp/zen-fsprobe-XXXXXX") held (fun _ => False) (fun _ => eq_refl) (fun _ => eq_refl) os1 H1) as H2.
  destruct (sys_total (SysMkdtemp "/tmp/zen-fsprobe-XXXXXX") os1) as (root & os2 & E2 & L2). rewrite E2 in H2.
  destruct (saw_filesystem_runs root held os2 H2) as (ok & os3 & E3 & H3 & t3 & L3 & P3).
  pose proof (cgroup_base_balanced _ I held (fun _ => False) os3 H3) as H4.
  destruct (cgroup_base os3) as [os' [cg|e|]] eqn:E4; [|done..].
  destruct (cgroup_base_childless _ _ _ E4) as (t4 & L4 & P4).
  assert (exists report, detect_enforcement os = (os', Ok (report, cg)) /\
    capability <$> report = [Network; Filesystem; Resources] /\
    enforceable report Network = net /\ enforceable report Filesystem = ok /\
    enforceable report Resources = negb (bool_decide (cg_base cg = [])) && (cg_memory cg || cg_pids cg))
    as (report & E & Hc & <- & <- & Hr).
  { unfold detect_enforcement. rewrite (M_bind_ok _ _ _ _ _ E1). cbv zeta. rewrite (M_bind_ok _ _ _ _ _ E2).
    unfold saw_filesystem in E3. destruct (a_ret root =? 0); cbn [negb].
    - destruct E3 as (os4 & r & t & E3 & _ & _ & E5). rewrite (M_bind_ok _ _ os2 os3 (if ok
          then mkStatus Filesystem true "user+mount namespace (pivot_root allow-list)" []
          else mkStatus Filesystem false [] "unprivileged mount-namespace view unavailable on this host"))
        by by rewrite (M_bind_ok _ _ _ _ _ E3), (M_bind_ok _ _ _ _ _ E5).
      rewrite (M_bind_ok _ _ _ _ _ E4). eexists. split; [reflexivity|].
      destruct ok, net, (negb _ && _); by split_and!.
    - destruct E3 as [-> ->]. rewrite (M_bind_ok (mret _) _ os2 os2 _ eq_refl), (M_bind_ok _ _ _ _ _ E4).
      eexists. split; [reflexivity|]. destruct net, (negb _ && _); by split_and!. }
  exists os1, root, os2, os3, os', report, cg. do 3 (split; [done|]).
  split; [by exists t1|]. do 3 (split; [done|]).
  split. { rewrite Hr, andb_true_iff, negb_true_iff, bool_decide_eq_false. done. }
  split; [apply H4|].
  exists (t1 ++ [(SysMkdtemp "/tmp/zen-fsprobe-XXXXXX", root)] ++ t3 ++ t4). split; [by rewrite L4, L3, L2, L1, <-!app_assoc|].
  apply over_app; [by eapply probed_over|]. apply over_app; [by apply idle_over|]. apply over_app; [done|by apply idle_over].
Qed.
