(* ===== verification/HostInvariant.v ===== *)
(** * Every child on the bus is confined

    The invariant of the isolation host.  A mounted name has a proxy on the bus,
    under the id the proxy knows itself by; each capability of the child was
    resolved once, as the grant, the detection's report and the development mode
    stood at the mount; what was to be enforced is confirmed; and as long as the
    child is connected the host has seen the evidence.  Deliveries, respawns,
    crashes and the bus's own operations keep it. *)

From S2P Require Import Prelude Schema Value Registry Gate Serialize SchemaCodec Protocol Channel Grant Bus Switchboard Enqueue Invariant Dispatch Delivery Loop Residents Kernel KernelSafety Posix Sandbox Confine Host HostSafety SandboxSafety ConfineSafety Reaping.

(** ** Links *)

(** What a child was mounted on. *)
Record Terms : Type := mkTerms { t_grant : Grant; t_report : EnforcementReport; t_dev : bool }.

Definition granted (g : Grant) (c : Capability) : bool :=
  match c with
  | Network => has_os_capability g cap_Network
  | Filesystem => bool_decide (fs_ g = WriteAnywhere)
  | Resources => unlimited (res_ g)
  end.

(** The outcome the terms call for; the development mode waives only what the host
    cannot enforce. *)
Definition resolved_as (t : Terms) (c : Capability) (r : CapabilityResolution) : Prop :=
  r_capability r = c /\
  match r_outcome r with
  | Granted => granted (t_grant t) c = true
  | Enforced => granted (t_grant t) c = false /\ enforceable (t_report t) c = true
  | Uncontained => granted (t_grant t) c = false /\ enforceable (t_report t) c = false /\ t_dev t = true
  end.

(** Sane answers: the host's memory, in bytes, fits a [long long]. *)
Definition modest (a : Answer) : Prop :=
  forall n, - 2 ^ 63 <= meminfo_loop n (a_text a) * 1024 < 2 ^ 63.

Lemma modest_none : modest no_answer.
Proof. intros [|n]; cbn; lia. Qed.

Section links.
Context (exe : bytes) (cg : Cgroup).

Record launch_ok (t : Terms) (l : Link) : Prop := {
  lk_answers : answered modest (l_os l);
  lk_open : exists rest, holding (chan_fds (l_channel l) ++ rest) (l_os l);
  lk_chan : chan_sound (l_channel l);
  lk_terms : Forall2 (resolved_as t) [Network; Filesystem; Resources] (l_resolutions l);
  lk_confirmed : Forall (fun r => r_outcome r = Enforced -> confirmed r = true) (l_resolutions l);
  lk_seen c : is_Some (l_channel l) -> resolved (l_resolutions l) c = true -> evidence cg l c (log (l_os l));
  lk_kids p : p ∈ kids (log (l_os l)) -> ended p (log (l_os l)) \/ p = l_pid l /\ is_Some (l_channel l)
}.

(** What the host caches of the child. *)
Record cache_ok (l : Link) : Prop := {
  ca_accept : Forall wf_schema (l_accept l);
  ca_state : exists s v, l_state_schema l = Some s /\ wf_schema s /\ l_snapshot_value l = Some v /\
    conforms v s /\ Value_schema v = s /\ serialize v = Ok (l_snapshot_bytes l);
  ca_policy : is_Some (l_policy_value l);
  ca_signal : l_death_signaled l = true -> l_dead l = true
}.

Definition link_ok (t : Terms) (l : Link) : Prop := launch_ok t l /\ cache_ok l.

(** Whether the supervision considers the child dead, or given up on. *)
Definition life (l : Link) : bool * bool * bool := (l_dead l, l_death_signaled l, l_quarantined l).

(** What launching and tearing down leave alone. *)
Definition same_cache (l l' : Link) : Prop :=
  l_id l' = l_id l /\ life l' = life l /\ l_accept l' = l_accept l /\ l_state_schema l' = l_state_schema l /\
  l_snapshot_value l' = l_snapshot_value l /\ l_snapshot_bytes l' = l_snapshot_bytes l /\
  l_policy_value l' = l_policy_value l.

Lemma same_cache_ok l l' : same_cache l l' -> cache_ok l -> cache_ok l'.
Proof using. intros (_ & E0 & E1 & E2 & E3 & E4 & E5) [H1 H2 H3 H4]. injection E0 as F1 F2 _.
  split; by rewrite ?F1, ?F2, ?E1, ?E2, ?E3, ?E4, ?E5. Qed.

#[global] Instance same_cache_refl : Reflexive same_cache.
Proof. by intros l. Qed.
#[global] Instance same_cache_trans : Transitive same_cache.
Proof. unfold same_cache. intros l1 l2 l3. intuition congruence. Qed.

(** *** Small steps *)

Lemma set_channel_launch t l ch ch' :
  launch_ok t l -> l_channel l = Some ch -> fd ch' = fd ch -> chan_fit ch' ->
  launch_ok t (set_channel (Some ch') l).
Proof using.
  intros [H1 H2 H3 H4 H5 H6 H7] E Hfd Hf. rewrite E in *. split; cbn; try done.
  - by rewrite Hfd.
  - intros ? [= <-]. rewrite Hfd. split; [done|]. by apply (H3 ch).
  - intros c _ Hc. specialize (H6 c (mk_is_Some _ _ eq_refl) Hc). by destruct c.
  - intros p Hp. destruct (H7 p Hp) as [?|[? _]]; [by left|by right].
Qed.

Lemma queue_fd op p ch : fd (Channel.queue op p ch) = fd ch.
Proof using.
  unfold Channel.queue. destruct (failed ch); [done|]. destruct (_ >? kMaxFrameLen); [done|]. by destruct (_ >? kMaxBacklog).
Qed.

Lemma queue_fit op p ch : chan_fit ch -> chan_fit (Channel.queue op p ch).
Proof using.
  unfold chan_fit, Channel.queue. destruct (failed ch) eqn:E; [by rewrite E|]. intros H.
  destruct (_ >? kMaxFrameLen); [done|]. destruct (_ >? kMaxBacklog); [done|]. intros _. by apply H.
Qed.

Lemma queue_launch t l ch op p :
  launch_ok t l -> l_channel l = Some ch -> launch_ok t (set_channel (Some (Channel.queue op p ch)) l).
Proof using.
  intros Hl E. eapply set_channel_launch; [done|done|apply queue_fd|]. apply queue_fit. by apply (lk_chan _ _ Hl).
Qed.

(** *** Launching *)

(** A link ready to be launched. *)
Record ready (t : Terms) (l : Link) : Prop := {
  rd_answers : answered modest (l_os l);
  rd_open : exists rest, holding rest (l_os l);
  rd_channel : l_channel l = None;
  rd_terms : Forall2 (resolved_as t) [Network; Filesystem; Resources] (l_resolutions l);
  rd_spent : spent (l_os l)
}.

Lemma launch_ready t l : launch_ok t l -> l_channel l = None -> ready t l.
Proof using.
  intros [H1 H2 H3 H4 H5 H6 H7] E. rewrite E in *. split; try done. intros p Hp. by destruct (H7 p Hp) as [?|[_ []]].
Qed.

Lemma ready_launch t l :
  ready t l -> Forall (fun r => r_outcome r = Enforced -> confirmed r = true) (l_resolutions l) -> launch_ok t l.
Proof using.
  intros [H1 H2 H3 H4 H6] H5. split; rewrite ?H3; try done. intros p Hp. left. by apply H6.
Qed.

Lemma launch_but t l : launch_ok t l -> spent_but (l_pid l) (l_os l).
Proof using. intros Hl p Hp. destruct (lk_kids _ _ Hl p Hp) as [?|[? _]]; [by left|by right]. Qed.

Lemma marked t l rs :
  Forall2 (resolved_as t) [Network; Filesystem; Resources] rs -> l_resolutions l = rs ->
  let rs' := mark_confirmed (network_sandboxed l) (filesystem_sandboxed l) (resources_contained l) <$> rs in
  Forall2 (resolved_as t) [Network; Filesystem; Resources] rs' /\
  Forall (fun r => r_outcome r = Enforced -> confirmed r = true) rs' /\
  forall c, resolved rs' c = resolved rs c.
Proof using.
  unfold network_sandboxed, filesystem_sandboxed, resources_contained. intros Hrs ->.
  apply Forall2_cons_inv_l in Hrs as ([c1 o1 b1 n1] & rs1 & [E1 H1] & Hrs & ->).
  apply Forall2_cons_inv_l in Hrs as ([c2 o2 b2 n2] & rs2 & [E2 H2] & Hrs & ->).
  apply Forall2_cons_inv_l in Hrs as ([c3 o3 b3 n3] & rs3 & [E3 H3] & Hrs & ->).
  apply Forall2_nil_inv_l in Hrs as ->. cbn in E1, E2, E3. subst.
  destruct o1, o2, o3; (split; [|split; [|by intros []]]); cbn;
    repeat first [apply Forall2_nil_2|apply Forall2_cons_2|apply Forall_nil_2|apply Forall_cons_2|done].
Qed.

Lemma teardown_launch t l :
  answered modest (l_os l) -> (exists rest, holding (chan_fds (l_channel l) ++ rest) (l_os l)) ->
  (forall ch, l_channel l = Some ch -> 0 <= fd ch) ->
  Forall2 (resolved_as t) [Network; Filesystem; Resources] (l_resolutions l) -> spent_but (l_pid l) (l_os l) ->
  exists l', teardown_child cg l = (l', Ok tt) /\ ready t l' /\ same_cache l l' /\ l_resolutions l' = l_resolutions l.
Proof using.
  intros Ha (rest & Hr) Hc Ht Hk.
  pose proof (teardown_triple modest modest_none cg l rest (fun _ => False) Hc l (based_start _ l _ (conj Ha Hr))) as H.
  destruct (teardown_child cg l) as [l' [[]|e|]] eqn:E; [|done..]. destruct H as [El [Ha' Hr']].
  destruct (teardown_spends cg l l' E Hk) as (_ & _ & _ & Hsp).
  exists l'. split; [done|]. rewrite El. split; [|done]. rewrite El in Ha', Hr', Hsp. split; try done. by exists rest.
Qed.

(** A launch ends with a child that is up and confirmed, or torn down. *)
Lemma spawn_cases t l :
  ready t l ->
  exists l1 r, spawn_and_handshake exe cg l = (l1, Ok r) /\ same_cache l l1 /\
    match r with
    | inr _ => launch_ok t l1 /\ is_Some (l_channel l1)
    | inl _ => exists l2, teardown_child cg l1 = (l2, Ok tt) /\ same_cache l l2 /\ ready t l2 /\
        l_resolutions l2 = l_resolutions l
    end.
Proof using.
  intros [Ha (rest & Hr) Hc Ht Hsp].
  pose proof (spawn_triple modest modest_none exe cg l rest (fun _ => False) Hc l (based_start _ l _ (conj Ha Hr))) as H.
  destruct (spawn_and_handshake exe cg l) as [l1 [r|e|]] eqn:E1; [|done..]. exists l1, r. split; [done|].
  pose proof (spawn_spends exe cg l l1 r E1 Hsp) as Hbut.
  destruct r as [e|parts].
  - destruct H as (c & pid & leak & _ & Hs & [El [Ha' Hr']]). split; [by rewrite El|].
    destruct (teardown_launch t l1) as (l2 & E2 & Hok & Hsame & Hres).
    + done.
    + rewrite El. cbn. exists (leak ++ rest). by rewrite app_assoc, (Permutation_app_comm _ leak), <-app_assoc.
    + rewrite El. intros ch Hch. by apply (Hs ch).
    + by rewrite El.
    + done.
    + exists l2. split; [done|]. split; [|split; [done|by rewrite Hres, El]]. etrans; [|exact Hsame]. by rewrite El.
  - destruct H as (ch & pid & Hfit & Hfd & Hev & [El [Ha' Hr']]). split; [by rewrite El|]. rewrite El in Hbut.
    destruct (marked t l (l_resolutions l) Ht eq_refl) as (M1 & M2 & M3).
    rewrite El. cbn [l_channel set_os up set_resolutions set_channel]. split; [|done]. split; cbn; try done.
    + by exists rest.
    + by intros ? [= <-].
    + intros c _ Hres. rewrite M3 in Hres. specialize (Hev c Hres). rewrite El in Hev. by destruct c.
    + intros p Hp. destruct (Hbut p Hp) as [?| ->]; [by left|by right].
Qed.

(** *** What the bus does to a proxy *)

Lemma link_kept t l l' : link_ok t l -> launch_ok t l' -> same_cache l l' -> link_ok t l' /\ same_cache l l'.
Proof using. intros [_ Hc] Hl Hs. split; [split; [done|by eapply same_cache_ok]|done]. Qed.

Lemma ship_kept t m l : link_ok t l -> link_ok t (ship_deliver m l).1 /\ same_cache l (ship_deliver m l).1.
Proof using.
  intros Hl. unfold ship_deliver. rewrite (M_bind_ok (gets _) _ l l l eq_refl).
  destruct (l_channel l) as [ch|] eqn:Ech; [|done].
  destruct (serialize (payload m)) as [w|e|]; [|done..]. unfold mbind, M_bind, lift, modify. cbn [fst].
  apply (link_kept t l); [done| |done]. by apply queue_launch; [apply Hl|].
Qed.

Lemma teardown_kept t l :
  launch_ok t l ->
  exists l', teardown_child cg l = (l', Ok tt) /\ launch_ok t l' /\ same_cache l l' /\ l_channel l' = None /\ spent (l_os l').
Proof using.
  intros Hl. destruct (teardown_launch t l) as (l' & E & Hr & Hs & Hres); [apply Hl..| |apply Hl|by eapply launch_but|].
  { intros ch Hch. by apply (lk_chan _ _ Hl). }
  exists l'. split; [done|]. split; [|split; [done|split; apply Hr]]. apply ready_launch; [done|]. rewrite Hres. apply Hl.
Qed.

Lemma respawn_kept t v l :
  link_ok t l ->
  link_ok t (respawn_and_revive exe cg v l).1 /\ same_cache l (respawn_and_revive exe cg v l).1.
Proof using.
  intros Hl. unfold respawn_and_revive. rewrite (M_bind_ok (gets _) _ l l l eq_refl).
  assert (exists l0, (match l_channel l with Some _ => teardown_child cg | None => mret tt end) l = (l0, Ok tt) /\
    launch_ok t l0 /\ same_cache l l0 /\ l_channel l0 = None) as (l0 & E0 & Hl0 & Hs0 & Hc0).
  { destruct (l_channel l) eqn:Ech; [destruct (teardown_kept t l (proj1 Hl)) as (l0 & ? & ? & ? & ? & _); by exists l0|]. exists l. split; [done|]. by split; [apply Hl|]. }
  rewrite (M_bind_ok _ _ _ _ _ E0).
  destruct (spawn_cases t l0 (launch_ready _ _ Hl0 Hc0)) as (l1 & r & E1 & Hs1 & Hr). rewrite (M_bind_ok _ _ _ _ _ E1).
  destruct r as [e|parts].
  - destruct Hr as (l2 & E2 & Hs2 & Hr2 & Hres). rewrite E2. cbn [fst].
    apply (link_kept t l); [done| |by etrans]. apply ready_launch; [done|]. rewrite Hres. apply Hl0.
  - destruct Hr as [Hl1 [ch Hch]]. pose proof (link_kept t l l1 Hl Hl1 ltac:(by etrans)) as Hk.
    destruct (serialize v) as [w|e|]; [|exact Hk..]. unfold mbind, M_bind, lift, gets. rewrite Hch. cbn [deref].
    unfold modify. cbn [fst]. apply (link_kept t l); [done|by apply queue_launch|by etrans].
Qed.
End links.

(** ** Resolving the grant *)

Lemma cgroup_default_caps_balanced : balanced modest cgroup_default_caps.
Proof.
  intros held E. unfold cgroup_default_caps.
  eapply (triple_bind _ _ (fun t os => (forall n, - 2 ^ 63 <= meminfo_loop n t * 1024 < 2 ^ 63) /\ state modest held os)).
  { unfold read_text. eapply triple_bind; [by apply (sys_plain modest modest_none)|]. intros a.
    apply triple_pure. intros _. apply triple_pure. intros Ha. apply triple_ret. intros os Hs. split; [|done].
    destruct (a_ret a =? 0); [exact Ha|exact modest_none]. }
  intros t. apply triple_pure. intros Ht. specialize (Ht (S (length t))). cbv zeta.
  assert (- 2 ^ 63 <=? meminfo_loop (S (length t)) t * 1024 = true) as -> by lia.
  assert (meminfo_loop (S (length t)) t * 1024 <? 2 ^ 63 = true) as -> by lia. cbn [andb].
  eapply triple_bind; [by apply triple_value|]. intros ram. apply triple_pure. intros _. by apply triple_ret.
Qed.

Lemma build_view_plan_balanced more (more_none : more no_answer) level scoped_path exe so_path root :
  balanced more (build_view_plan level scoped_path exe so_path root).
Proof.
  unfold build_view_plan. cbv zeta. apply balanced_bind; [|intros p; apply balanced_ret].
  generalize loader_dirs as dirs. intros dirs.
  match goal with |- balanced _ (loader_loop _ ?p _) => generalize p end.
  induction dirs as [|d dirs IH]; intros p; cbn [loader_loop]; [apply balanced_ret|].
  apply balanced_bind; [by apply balanced_sys|]. intros st. apply IH.
Qed.

Lemma cgroup_default_caps_childless : childless cgroup_default_caps.
Proof. unfold cgroup_default_caps. childless. Qed.

Lemma build_view_plan_childless level scoped_path exe_path so_path root :
  childless (build_view_plan level scoped_path exe_path so_path root).
Proof.
  unfold build_view_plan. cbv zeta. apply childless_bind; [|intros p; apply childless_ret].
  generalize loader_dirs as dirs. intros dirs.
  match goal with |- childless (loader_loop _ ?p _) => generalize p end.
  induction dirs as [|d dirs IH]; intros p; cbn [loader_loop]; childless.
Qed.

(** The capabilities [cs] are resolved. *)
Record resolving (t : Terms) (cs : list Capability) (l : Link) : Prop := {
  rv_answers : answered modest (l_os l);
  rv_open : exists rest, holding rest (l_os l);
  rv_channel : l_channel l = None;
  rv_terms : Forall2 (resolved_as t) cs (l_resolutions l);
  rv_life : life l = (false, false, false);
  rv_kids : kids (log (l_os l)) = []
}.

Lemma resolving_spent t cs l : resolving t cs l -> spent (l_os l).
Proof. intros H p. rewrite (rv_kids _ _ _ H). by intros ?%not_elem_of_nil. Qed.

Lemma resolving_os {A : Type} t cs (m : Sys A) E :
  balanced modest m -> childless m -> triple (resolving t cs) (on_os m) (fun _ => resolving t cs) E.
Proof.
  intros Hm Hq l [Ha (rest & Hr) Hc Ht Hv Hk].
  pose proof (on_os_balanced modest m l rest E Hm l (based_start _ l rest (conj Ha Hr))) as H.
  pose proof (brood_childless l (fun o _ => o = []) m Hq l) as Hb.
  destruct (on_os m l) as [l' [a|e|]]; [|done..]. destruct H as [El [Ha' Hr']].
  destruct (Hb l' a) as (u & L & Hu); [exists []; split; [by rewrite app_nil_r|done]|done|].
  split; [done|by exists rest|by rewrite El..|]. by rewrite L, kids_app, Hk.
Qed.

Lemma resolving_modify t cs (g : Link -> Link) E :
  (forall l, l_os (g l) = l_os l /\ l_channel (g l) = l_channel l /\ l_resolutions (g l) = l_resolutions l /\ life (g l) = life l) ->
  triple (resolving t cs) (modify g) (fun _ => resolving t cs) E.
Proof. intros Hg l [H1 H2 H3 H4 H5 H6]. destruct (Hg l) as (E1 & E2 & E3 & E4). split; by rewrite ?E1, ?E2, ?E3, ?E4. Qed.

(** What a block answers: nothing was started, and without an error the capabilities
    [cs] are resolved. *)
Definition resolves (t : Terms) (cs : list Capability) (e : option bytes) (l : Link) : Prop :=
  spent (l_os l) /\ (e = None -> resolving t cs l).

Lemma add_resolution_ok t cs c r E :
  resolved_as t c r ->
  triple (resolving t cs) (_ ← add_resolution r; mret None : L (option bytes))
    (resolves t (cs ++ [c])) E.
Proof.
  intros Hr l Hl. split; [exact (resolving_spent t cs l Hl)|]. intros _. destruct Hl as [H1 H2 H3 H4 H5 H6].
  split; [done|done|done| |done|done]. cbn. apply Forall2_app; [done|]. by constructor.
Qed.

Lemma refusal_ok t cs c e E :
  triple (resolving t cs) (mret (Some e) : L (option bytes)) (resolves t (cs ++ [c])) E.
Proof. apply triple_ret. intros l Hl. split; [by eapply resolving_spent|done]. Qed.

Section resolve.
Context {N Ob : Type} (exe : bytes) (h : IsolationHost N Ob) (name : bytes) (grant : Grant).

Definition terms : Terms := mkTerms grant (enforcement h) (dev_mode h).

Lemma resolve_network_ok cs E :
  triple (resolving terms cs) (resolve_network h name grant)
    (resolves terms (cs ++ [Network])) E.
Proof.
  unfold resolve_network. destruct (has_os_capability grant cap_Network) eqn:Eg; [by apply add_resolution_ok|].
  destruct (enforceable (enforcement h) Network) eqn:Ee; [by apply add_resolution_ok|].
  destruct (dev_mode h) eqn:Ed; [by apply add_resolution_ok|apply refusal_ok].
Qed.

Lemma resolve_filesystem_ok cs E :
  triple (resolving terms cs) (resolve_filesystem exe h name grant)
    (resolves terms (cs ++ [Filesystem])) E.
Proof.
  unfold resolve_filesystem. cbv zeta.
  destruct (bool_decide (fs_ grant = WriteAnywhere)) eqn:Eg; [by apply add_resolution_ok|].
  destruct (enforceable (enforcement h) Filesystem) eqn:Ee.
  2: { destruct (dev_mode h) eqn:Ed; [by apply add_resolution_ok|apply refusal_ok]. }
  eapply triple_bind; [by apply resolving_os; [apply (balanced_sys modest modest_none)|childless]|]. intros root.
  destruct (a_ret root =? 0); cbn [negb]; cbv iota; [|apply refusal_ok].
  eapply triple_bind; [by apply (triple_gets (fun l => l) (resolving terms cs) (fun _ => resolving terms cs))|]. intros l.
  eapply triple_bind; [by apply resolving_os; [apply build_view_plan_balanced, modest_none|apply build_view_plan_childless]|]. intros plan.
  eapply triple_bind; [by apply resolving_modify|]. intros ?. by apply add_resolution_ok.
Qed.

Lemma resolve_resources_ok cs E :
  triple (resolving terms cs) (resolve_resources h name grant)
    (resolves terms (cs ++ [Resources])) E.
Proof.
  unfold resolve_resources. cbv zeta. destruct (unlimited (res_ grant)) eqn:Eg; [by apply add_resolution_ok|].
  destruct (enforceable (enforcement h) Resources) eqn:Ee.
  2: { destruct (dev_mode h) eqn:Ed; [by apply add_resolution_ok|apply refusal_ok]. }
  eapply triple_bind; [apply resolving_os; [apply cgroup_default_caps_balanced|apply cgroup_default_caps_childless]|]. intros caps.
  eapply triple_bind; [by apply resolving_modify|]. intros ?. by apply add_resolution_ok.
Qed.

Lemma resolve_ok E :
  triple (resolving terms []) (resolve exe h name grant)
    (fun e l => spent (l_os l) /\ (e = None -> ready terms l /\ life l = (false, false, false))) E.
Proof.
  assert (forall e cs, triple (resolves terms cs (Some e)) (mret (Some e) : L (option bytes))
    (fun e l => spent (l_os l) /\ (e = None -> ready terms l /\ life l = (false, false, false))) E) as Hstop.
  { intros e cs. apply triple_ret. intros l [Hl _]. by split. }
  unfold resolve. eapply triple_bind; [apply (resolve_network_ok [])|]. intros [e|]; [apply Hstop|].
  eapply triple_from; [intros l Hl; exact (proj2 Hl eq_refl)|].
  eapply triple_bind; [apply resolve_filesystem_ok|]. intros [e|]; [apply Hstop|].
  eapply triple_from; [intros l Hl; exact (proj2 Hl eq_refl)|].
  eapply triple_to; [|apply resolve_resources_ok]. intros e l [Hs Hl]. split; [done|]. intros He.
  destruct (Hl He) as [H1 H2 H3 H4 H5 H6]. done.
Qed.
End resolve.

(** ** The host *)

Section host.
Context {N Ob : Type} `{n_ops : ShardOps N} `{n_laws : !ShardLaws N} `{ob_ops : ObserverOps Ob}.
Context (variant_what exe : bytes) (cg : Cgroup).
#[local] Instance placed_ops : ShardOps (Placed N) := Host.placed exe cg.

Abbreviation Host := (IsolationHost N Ob).
Abbreviation HBus := (Switchboard (Placed N) Ob).
Abbreviation Mounts := (gmap ShardId Terms).

(** What is on the bus under an id: a proxy of a mounted child, or a shard of the
    application. *)
Definition lodged (T : Mounts) (id : ShardId) (sh : Placed N) : Prop :=
  match T !! id with
  | Some t => exists l, sh = Remote l /\ l_id l = id /\ link_ok cg t l
  | None => exists s, sh = Native s
  end.

Lemma lodged_handle (T : Mounts) id sh m : lodged T id sh -> ends_in (lodged T id) (handle sh m).
Proof using.
  unfold lodged. destruct (T !! id) as [t|].
  - intros (l & -> & Hid & Hl). destruct (ship_kept cg t m l Hl) as [Hk [Hk' _]].
    change (ends_in (fun sh => exists l, sh = Remote l /\ l_id l = id /\ link_ok cg t l)
      (handler_map (@Remote N) (match ship_deliver m l with
        | (l, Ok _) => Done l | (l, Throw e) => Raise l e | (l, UB) => Crash l end))).
    destruct (ship_deliver m l) as [l' [u|e|]]; cbn in *; exists l'; (split; [done|]); by rewrite Hk'.
  - intros [s ->]. change (ends_in (fun sh => exists s, sh = Native s) (handler_map (@Native N) (handle s m))).
    apply handler_map_ends, ends_always. intros s'. by exists s'.
Qed.

Lemma lodged_revive (T : Mounts) id sh v : lodged T id sh -> lodged T id (revive sh v).1.
Proof using.
  unfold lodged. destruct (T !! id) as [t|].
  - intros (l & -> & Hid & Hl). destruct (respawn_kept exe cg t v l Hl) as [Hk [Hk' _]].
    change (revive (Remote l) v) with (let '(l, r) := respawn_and_revive exe cg v l in (@Remote N l, r)).
    destruct (respawn_and_revive exe cg v l) as [l' r]. cbn in *. exists l'. split; [done|]. by rewrite Hk'.
  - intros [s ->]. change (revive (Native s) v) with (let '(s', r) := revive s v in (Native s', r)).
    destruct (revive s v) as [s' r]. by exists s'.
Qed.

Record host_ok (T : Mounts) (h : Host) : Prop := {
  ho_bus : bus_ok [] (hbus h);
  ho_schemas : deps_ok (hregistry h);
  ho_shards : holds (lodged T) (hbus h);
  ho_ids id : is_Some (T !! id) -> id < next_shard_id (hbus h) /\ is_Some (shards (hbus h) !! id);
  ho_links name id : links h !! name = Some id -> is_Some (T !! id);
  ho_named id : is_Some (T !! id) -> exists name, links h !! name = Some id;
  ho_inj name name' id : links h !! name = Some id -> links h !! name' = Some id -> name = name';
  ho_past : Forall spent (past h)
}.

(** A change of the bus and of the registry that moves no shard. *)
Lemma host_quiet (T : Mounts) h b r :
  host_ok T h -> bus_ok [] b -> stays (lodged T) (hbus h) b -> deps_ok r ->
  host_ok T (set_hregistry r (set_hbus b h)).
Proof using.
  intros [H1 H2 H3 H4 H5 H6 H7 H8] Hb Hs Hr. split; cbn; try done.
  - by apply (stays_holds _ _ _ Hs).
  - intros id Hid. rewrite (stays_next _ _ _ Hs), (stays_ids _ _ _ Hs). auto.
Qed.

Lemma host_bus (T : Mounts) h b :
  host_ok T h -> bus_ok [] b -> stays (lodged T) (hbus h) b -> host_ok T (set_hbus b h).
Proof using. intros Hh Hb Hs. exact (host_quiet T h b (hregistry h) Hh Hb Hs (ho_schemas _ _ Hh)). Qed.

Lemma on_gate_host {A : Type} (T : Mounts) (f : Z -> Z * result A) (Q : A -> Prop) :
  (forall g, (f g).2 <> UB /\ forall a, (f g).2 = Ok a -> Q a) ->
  triple (host_ok T) (bus_do (gate f)) (fun a h => Q a /\ host_ok T h) (host_ok T).
Proof using.
  intros Hf h Hh. destruct (Hf (gate_calls (hbus h))) as [Hub Hok].
  pose proof (gate_evolves [] f (hbus h) (ho_bus _ _ Hh)) as [Hb _].
  pose proof (gate_stays (lodged T) f (hbus h)) as Hs.
  unfold bus_do, gate in *. destruct (f (gate_calls (hbus h))) as [g r]. cbn [fst snd] in *.
  pose proof (host_bus T h _ Hh Hb Hs). destruct r; [split; auto|done|done].
Qed.

Lemma on_registry_host {A : Type} (T : Mounts) (m : M Registry A) (Q : A -> Prop) :
  (forall r : Registry, safely (fun _ => Q) m r) ->
  triple (host_ok T) (registry_do m) (fun a h => Q a /\ host_ok T h) (host_ok T).
Proof using.
  intros Hm h Hh. destruct (Hm (hregistry h) (ho_schemas _ _ Hh)) as (Hr & _ & Hc).
  unfold registry_do. destruct (m (hregistry h)) as [r x]. cbn [fst snd] in *.
  assert (host_ok T (set_hregistry r h)) as Hh'.
  { destruct h. exact (host_quiet T _ _ r Hh (ho_bus _ _ Hh) (reflexivity _) Hr). }
  destruct x as [a|[]|]; by auto.
Qed.

(** The link of a mounted id. *)
Lemma mounted_link (T : Mounts) h id t :
  host_ok T h -> T !! id = Some t -> exists l, link_at id h = Some l /\ l_id l = id /\ link_ok cg t l.
Proof using.
  intros Hh HT. destruct (ho_ids _ _ Hh id ltac:(by eexists)) as [_ [rec Hr]].
  pose proof (ho_shards _ _ Hh id rec Hr) as Hl. cbn in Hl. unfold lodged in Hl. rewrite HT in Hl.
  destruct Hl as (l & El & Hl). exists l. split; [|done]. unfold link_at, shard, find. rewrite Hr. cbn. by rewrite El.
Qed.

Lemma link_do_host {A : Type} (T : Mounts) id t (m : L A) (Q : A -> Link -> Prop) E :
  T !! id = Some t ->
  triple (fun l => l_id l = id /\ link_ok cg t l) m (fun a l => (l_id l = id /\ link_ok cg t l) /\ Q a l) (fun _ => False) ->
  triple (host_ok T) (link_do id m) (fun a h => host_ok T h /\ exists l, link_at id h = Some l /\ Q a l) E.
Proof using.
  intros HT Hm h Hh. destruct (mounted_link T h id t Hh HT) as (l & Hl & Hk). unfold link_do. rewrite Hl.
  specialize (Hm l Hk). destruct (m l) as [l' [a|e|]]; [|done..]. destruct Hm as [Hk' HQ].
  split; [|exists l'; split; [|done]].
  - apply host_bus; [done|by apply (set_shard_evolves [] id), Hh|]. apply update_stays. intros rec _ _. cbn.
    unfold lodged. rewrite HT. by exists l'.
  - unfold link_at, shard, find in *. cbn. rewrite lookup_alter_eq. destruct (shards (hbus h) !! id); done.
Qed.

(** *** Mounting *)

Lemma admit_part_host (T : Mounts) w door what_part :
  wf_schema door ->
  triple (host_ok T) (admit_part w (Some door) what_part)
    (fun v h => (conforms v door /\ Value_schema v = door /\ serialize v = Ok w) /\ host_ok T h) (host_ok T).
Proof using.
  intros Hd. unfold admit_part. eapply triple_bind.
  { apply (on_gate_host T _ (fun a => (exists v, (conforms v door /\ Value_schema v = door /\ serialize v = Ok w) /\
      a = Admission_accept v) \/ exists e es, a = mkAdmission None (e :: es))). intros g.
    destruct (admit_door_cases (parse w) door FirstError g Hd) as (g' & _ & [(v & Hc & Hv & _ & E)|(e & es & E)]);
      rewrite E; (split; [done|]); intros a [= <-]; [left|by right; eauto].
    exists v. split; [|done]. split; [done|]. split; [done|]. by eapply (admitted_canonical w door). }
  intros a. apply triple_pure. intros [(v & Hv & ->)|(e & es & ->)]; cbn [Admission_accept adm_ok adm_value is_Some negb].
  - eapply triple_to; [|by apply triple_value]. by intros a h [-> Hh].
  - eapply triple_bind; [by apply triple_value|]. intros x. apply triple_pure. intros _. by apply triple_throw.
Qed.

(** Reconstruction changes only what is cached. *)
Definition same_launch (l l' : Link) : Prop :=
  l_id l' = l_id l /\ l_channel l' = l_channel l /\ forall t, launch_ok cg t l -> launch_ok cg t l'.

Lemma reconstruct_host (T : Mounts) l m p s :
  (l_death_signaled l = true -> l_dead l = true) ->
  triple (host_ok T) (reconstruct_and_cache l m p s)
    (fun l' h => (cache_ok l' /\ same_launch l l') /\ host_ok T h) (host_ok T).
Proof using.
  intros Hsig. unfold reconstruct_and_cache.
  eapply triple_bind; [apply (triple_value _ _ _ _ (proj2 (proj2 (proj2 meta_schemas))))|].
  intros door. apply triple_pure. intros ->.
  eapply triple_bind; [apply admit_part_host, manifest_door_wf|]. intros mv. apply triple_pure. intros [Hmv _].
  eapply triple_bind.
  { apply (on_registry_host T _ (fun x => Forall wf_schema x.1 /\ wf_schema x.2)). intros r.
    eapply safely_weaken; [|by apply rebuild_manifest_safely].
    intros r' x [Hx [Hy _]%Forall_singleton]%Forall_app. split; [|done].
    eapply Forall_impl; [exact Hx|]. by intros sc [? _]. }
  intros [accept state]. apply triple_pure. intros [Ha Hst]. cbn [fst snd] in *. cbv zeta.
  eapply triple_bind; [apply (triple_value _ _ _ _ lifecycle_policy_schema_ok)|]. intros pdoor. apply triple_pure. intros ->.
  eapply triple_bind; [apply admit_part_host, policy_door_wf|]. intros pv. apply triple_pure. intros _.
  eapply triple_bind; [by apply admit_part_host|]. intros sv. apply triple_pure. intros (Hc & Hv & Hw).
  apply triple_ret. intros h Hh. split; [|done]. split.
  - split; cbn; [done| |by eexists|done]. by exists state, sv.
  - split; [done|]. split; [done|]. intros t [H1 H2 H3 H4 H5 H6]. by split.
Qed.

(** A cached link may be registered. *)
Lemma cached_lawful l : cache_ok l -> lawful (Remote l : Placed N).
Proof using.
  intros [Ha (s & v & _ & Hs & Hv & _ & Hvs & _) _]. split.
  - intros d x [= <-] (x' & [= ->] & Hx)%list_elem_of_fmap. by apply (proj1 (Forall_forall _ _) Ha).
  - intros w Hw. change (deref (l_snapshot_value l) = Ok w) in Hw. rewrite Hv in Hw. injection Hw as <-.
    by rewrite Hvs.
Qed.

(** The bus holds the new proxy, under the next id, which it does not know yet. *)
Definition registered (T : Mounts) (h0 : Host) (l : Link) (h : Host) : Prop :=
  exists b1 rec, h = set_hbus (hbus h) h0 /\ bus_ok [] (hbus h) /\ stays (lodged T) (hbus h0) b1 /\
    rec_shard rec = Remote l /\ shards (hbus h) = <[next_shard_id (hbus h0) := rec]> (shards b1) /\
    next_shard_id (hbus h) = next_shard_id (hbus h0) + 1.

Lemma set_hbus_hbus (b b' : HBus) h : set_hbus b (set_hbus b' h) = set_hbus b h.
Proof using. done. Qed.

Lemma register_host (T : Mounts) h l g :
  host_ok T h -> next_shard_id (hbus h) < 2 ^ 64 - 1 -> cache_ok l ->
  match bus_do (register_shard (Some (Remote l)) g) h with
  | (h', Ok id) => id = next_shard_id (hbus h) /\ registered T h l h'
  | (h', Throw _) => host_ok T h' /\ h' = set_hbus (hbus h') h
  | (_, UB) => False
  end.
Proof using.
  intros Hh Hn Hl. pose proof (ho_bus _ _ Hh) as Hb. pose proof (cached_lawful l Hl) as Hlaw.
  pose proof (register_runs (Remote l) g (hbus h) Hlaw ltac:(done)) as Hub.
  assert (shard_snapshot (Remote l : Placed N) <> UB) as Hsnap.
  { destruct (ca_state _ Hl) as (s & v & _ & _ & Hv & _). change (deref (l_snapshot_value l) <> UB). by rewrite Hv. }
  specialize (Hub Hsnap).
  destruct (register_lawful_evolves (Some (Remote l)) g (hbus h) ltac:(by intros ? [= <-]) Hn Hb) as [Hb' _].
  pose proof (register_shard_adds (lodged T) (Remote l) g (hbus h)) as Hadds.
  unfold bus_do. destruct (register_shard (Some (Remote l)) g (hbus h)) as [b r]. cbn [fst snd] in *.
  destruct Hadds as [[Hs Hno]|(b1 & rec & Hs & Hrec & -> & Hnext & Hsh)].
  - destruct r as [id|e|]; [by destruct (Hno id)| |done]. split; [by apply host_bus|done].
  - split; [done|]. pose proof (ok_next_id _ (proj1 Hb)). rewrite u64_small in Hnext by (split; lia).
    exists b1, rec. assert (shards b1 !! next_shard_id (hbus h) = None) as E.
    { apply eq_None_not_Some. rewrite (stays_ids _ _ _ Hs). intros [r Hr].
      apply (ok_records _ (proj1 Hb)) in Hr as (_ & Hid & _). lia. }
    by rewrite E in Hsh.
Qed.

(** The last two steps: the proxy learns its id, the host its name. *)
Lemma mount_end (T : Mounts) h0 l h name t :
  host_ok T h0 -> links h0 !! name = None -> link_ok cg t l -> registered T h0 l h ->
  let id := next_shard_id (hbus h0) in
  exists h', (_ ← link_do id (modify (set_link_id id)); modify (fun h => set_links (<[name := id]> (links h)) h)) h =
      (h', Ok tt) /\ host_ok (<[id := t]> T) h' /\ links h' = <[name := id]> (links h0) /\
    h' = set_links (links h') (set_hbus (hbus h') h0).
Proof using.
  intros Hh Hname Hl (b1 & rec & Eh & Hb & Hs & Hrec & Hsh & Hn). cbv zeta. set (id := next_shard_id (hbus h0)) in *.
  assert (link_at id h = Some l) as Hat.
  { unfold link_at, shard, find. rewrite Hsh, lookup_insert_eq. cbn. by rewrite Hrec. }
  unfold mbind, M_bind, link_do. rewrite Hat. unfold modify. eexists. split; [reflexivity|].
  set (l' := set_link_id id l). rewrite Eh. cbn [links set_hbus set_links hbus].
  split; [|split; [done|by destruct h0]].
  destruct (set_shard_evolves [] id (Remote l') (hbus h) Hb) as [Hb' _].
  pose proof Hh as [H1 H2 H3 H4 H5 H6 H7 H8].
  assert (T !! id = None) as HT by (apply eq_None_not_Some; intros [? _]%H4; lia).
  assert (forall nm i, links h0 !! nm = Some i -> i <> id) as Hold.
  { intros nm i Hi%H5. intros ->. by rewrite HT in Hi; destruct Hi. }
  split; cbn; try done.
  - intros i r. cbn. rewrite Hsh. destruct (decide (i = id)) as [->|Hne].
    + rewrite lookup_alter_eq, lookup_insert_eq. intros [= <-]. cbn. unfold lodged. rewrite lookup_insert_eq.
      exists l'. split; [done|]. split; [done|]. destruct Hl as [[] []]. split; split; try done.
    + rewrite lookup_alter_ne, lookup_insert_ne by done. intros Hr. unfold lodged. rewrite lookup_insert_ne by done.
      exact (stays_holds _ _ _ Hs H3 i r Hr).
  - intros i [<-|[Hne Hi]]%lookup_insert_is_Some.
    + split; [lia|]. by rewrite Hsh, lookup_alter_eq, lookup_insert_eq.
    + destruct (H4 i Hi) as [? Hs']. split; [lia|].
      rewrite Hsh, lookup_alter_ne, lookup_insert_ne by done. by rewrite (stays_ids _ _ _ Hs).
  - intros nm i. rewrite lookup_insert_is_Some'. intros [[_ <-]|[_ Hi]]%lookup_insert_Some; [by left|]. right. by eapply H5.
  - intros i [<-|[Hne Hi]]%lookup_insert_is_Some; [exists name; by rewrite lookup_insert_eq|].
    destruct (H6 i Hi) as [nm Hnm]. exists nm. rewrite lookup_insert_ne; [done|]. intros <-. congruence.
  - intros nm nm' i [[<- <-]|[_ Hi]]%lookup_insert_Some [[<- E]|[_ Hi']]%lookup_insert_Some; try done.
    + by destruct (Hold _ _ Hi').
    + subst i. by destruct (Hold _ _ Hi).
    + by eapply H7.
Qed.

(** What a mount leaves alone up to the registration. *)
Definition same_settings (h h' : Host) : Prop :=
  links h' = links h /\ enforcement h' = enforcement h /\ dev_mode h' = dev_mode h.
Definition keeps (h h' : Host) : Prop :=
  same_settings h h' /\ next_shard_id (hbus h') = next_shard_id (hbus h).

#[local] Instance keeps_refl : Reflexive keeps.
Proof using. by intros h. Qed.
#[local] Instance keeps_trans : Transitive keeps.
Proof using. unfold keeps, same_settings. intros h1 h2 h3. intuition congruence. Qed.

Lemma gate_do_keeps {A : Type} (f : Z -> Z * result A) (h : Host) : keeps h (bus_do (gate f) h).1.
Proof using. unfold bus_do, gate. by destruct (f (gate_calls (hbus h))). Qed.

Lemma registry_do_keeps {A : Type} (m : M Registry A) (h : Host) : keeps h (registry_do m h).1.
Proof using. unfold registry_do. by destruct (m (hregistry h)). Qed.

Lemma lift_host_keeps {A : Type} (r : result A) (h : Host) : keeps h (lift r h).1.
Proof using. done. Qed.

Lemma admit_part_keeps w door what (h : Host) : keeps h (admit_part w door what h).1.
Proof using.
  revert h. apply (M_bind_inv keeps); [intros; apply gate_do_keeps|]. intros a.
  destruct (negb _); [|intros; apply lift_host_keeps].
  apply (M_bind_inv keeps); intros; apply lift_host_keeps.
Qed.

Lemma reconstruct_keeps l m p s (h : Host) : keeps h (reconstruct_and_cache l m p s h).1.
Proof using.
  unfold reconstruct_and_cache. generalize manifest_schema, lifecycle_policy_schema. intros ms ps. revert h.
  do 2 (apply (M_bind_inv keeps); [intros; apply lift_host_keeps || apply admit_part_keeps|intros ?]).
  apply (M_bind_inv keeps); [intros; apply registry_do_keeps|]. intros [accept state]. cbv zeta beta.
  do 3 (apply (M_bind_inv keeps); [intros; apply lift_host_keeps || apply admit_part_keeps|intros ?]). done.
Qed.

Lemma on_link_ok {A : Type} (m : L A) l l' a (h : Host) : m l = (l', Ok a) -> on_link m l h = (h, Ok (l', a)).
Proof using. intros E. unfold on_link. by rewrite E. Qed.

(** How a mount may end. *)
Definition mounts_as (T : Mounts) (h0 : Host) (name : bytes) (grant : Grant) (r : OutOfProcessResult) (h : Host) : Prop :=
  enforcement h = enforcement h0 /\ dev_mode h = dev_mode h0 /\
  if mount_ok r then
    mount_id r = next_shard_id (hbus h0) /\ links h0 !! name = None /\
    links h = <[name := mount_id r]> (links h0) /\ host_ok (<[mount_id r := terms h0 grant]> T) h
  else links h = links h0 /\ host_ok T h.

Lemma mount_refused (T : Mounts) h0 h name grant id e :
  same_settings h0 h -> host_ok T h -> mounts_as T h0 name grant (mkMount false id e) h.
Proof using. by intros (H1 & H2 & H3) Hh. Qed.

(** A link that ends leaves nothing running. *)
Lemma retire_host (T : Mounts) (h : Host) os : host_ok T h -> spent os -> host_ok T (retire os h).
Proof using. intros [H1 H2 H3 H4 H5 H6 H7 H8] Hos. split; try done. cbn. apply Forall_app. by split; [|constructor]. Qed.

Lemma dispose_run (h : Host) l t :
  launch_ok cg t l ->
  exists l', dispose cg l h = (retire (l_os l') h, Ok tt) /\ spent (l_os l') /\ log (l_os l) `prefix_of` log (l_os l').
Proof using.
  intros Hl. destruct (teardown_kept cg t l Hl) as (l' & E & _ & _ & _ & Hsp). exists l'.
  split; [unfold dispose; by rewrite (M_bind_ok _ _ _ _ _ (on_link_ok _ _ _ _ h E))|]. split; [done|].
  destruct (teardown_spends cg l l' E (launch_but cg t l Hl)) as (t' & L & _). by exists t'.
Qed.

(** A child that is turned down at the end is torn down. *)
Lemma teardown_refused (T : Mounts) h0 (h : Host) l t name grant e :
  same_settings h0 h -> host_ok T h -> launch_ok cg t l ->
  exists h' r, (_ ← dispose cg l; mret (mkMount false 0 e)) h = (h', Ok r) /\
    mounts_as T h0 name grant r h'.
Proof using.
  intros Hs Hh Hl. destruct (dispose_run h l t Hl) as (l' & E & Hsp & _).
  rewrite (M_bind_ok _ _ _ _ _ E). eexists _, _. split; [reflexivity|]. apply mount_refused; [done|]. by apply retire_host.
Qed.

(** The part of [mount] after a good handshake. *)
Lemma mount_cached (T : Mounts) (h0 h : Host) l name grant manifest pol snapshot :
  host_ok T h -> keeps h0 h -> next_shard_id (hbus h0) < 2 ^ 64 - 1 -> links h0 !! name = None ->
  launch_ok cg (terms h0 grant) l -> (l_death_signaled l = true -> l_dead l = true) ->
  exists h' r,
    (r ← try (reconstruct_and_cache l manifest pol snapshot);
     match r with
     | inl e =>
         _ ← dispose cg l;
         mret (mkMount false 0 (str "handshake refused by the gate: " ++ what variant_what e))
     | inr l =>
         r ← try (bus_do (register_shard (Some (Remote l)) grant));
         match r with
         | inl e =>
             _ ← dispose cg l;
             mret (mkMount false 0 (str "register refused: " ++ what variant_what e))
         | inr id =>
             _ ← link_do id (modify (set_link_id id));
             _ ← modify (fun h => set_links (<[name := id]> (links h)) h);
             mret (mkMount true id [])
         end
     end) h = (h', Ok r) /\ mounts_as T h0 name grant r h'.
Proof using n_laws.
  intros Hh Hk Hn Hname Hl Hsig.
  pose proof (reconstruct_keeps l manifest pol snapshot h) as Hk1.
  pose proof (reconstruct_host T l manifest pol snapshot Hsig h Hh) as Hr.
  destruct (reconstruct_and_cache l manifest pol snapshot h) as [h1 [l1|e|]] eqn:Er; [| |done]; cbn [fst] in Hk1.
  2: { rewrite (M_bind_ok (try _) _ h h1 (inl e)) by (unfold try; by rewrite Er).
       apply (teardown_refused T h0 h1 l (terms h0 grant)); [|done..]. by destruct (keeps_trans _ _ _ Hk Hk1). }
  rewrite (M_bind_ok (try _) _ h h1 (inr l1)) by (unfold try; by rewrite Er).
  destruct Hr as [[Hc (_ & _ & Hl1)] Hh1]. specialize (Hl1 _ Hl). pose proof (keeps_trans _ _ _ Hk Hk1) as [Hs1 Hn1].
  pose proof (register_host T h1 l1 grant Hh1 ltac:(lia) Hc) as Hreg.
  destruct (bus_do (register_shard (Some (Remote l1)) grant) h1) as [h2 [id|e|]] eqn:Eb; [| |done].
  2: { rewrite (M_bind_ok (try _) _ h1 h2 (inl e)) by (unfold try; by rewrite Eb).
       destruct Hreg as [Hh2 E2]. apply (teardown_refused T h0 h2 l1 (terms h0 grant)); [|done..]. by rewrite E2. }
  rewrite (M_bind_ok (try _) _ h1 h2 (inr id)) by (unfold try; by rewrite Eb).
  destruct Hreg as [-> Hreg]. destruct Hs1 as (S1 & S2 & S3).
  destruct (mount_end T h1 l1 h2 name (terms h0 grant) Hh1 ltac:(by rewrite S1) (conj Hl1 Hc) Hreg)
    as (h3 & E3 & Hh3 & L3 & E3').
  unfold mbind, M_bind in E3 |- *.
  destruct (link_do (next_shard_id (hbus h1)) (modify (set_link_id (next_shard_id (hbus h1)))) h2) as [h2' [u|e|]]; [|done..].
  destruct (modify _ h2') as [h3' [[]|e|]]; [|done..]. injection E3 as ->.
  eexists _, _. split; [reflexivity|].
  split; [by rewrite E3'|]. split; [by rewrite E3'|]. cbn [mount_ok mount_id]. rewrite Hn1 in *.
  split; [done|]. split; [done|]. split; [by rewrite L3, S1|done].
Qed.

Lemma resolve_runs (h : Host) name so_path grant os :
  answered modest os ->
  exists l e, resolve exe h name grant (Link_new name so_path (anew os)) = (l, Ok e) /\
    spent (l_os l) /\ (e = None -> ready (terms h grant) l /\ life l = (false, false, false)).
Proof using.
  intros Ha. pose proof (resolve_ok exe h name grant (fun _ => False) (Link_new name so_path (anew os))) as H.
  assert (resolving (terms h grant) [] (Link_new name so_path (anew os))) as H0.
  { split; try done. exists []. apply perm_nil. }
  specialize (H H0).
  destruct (resolve exe h name grant (Link_new name so_path (anew os))) as [l [e|e|]]; [|destruct H..].
  by exists l, e.
Qed.

Lemma mount_host (T : Mounts) (h : Host) name so_path grant os :
  host_ok T h -> next_shard_id (hbus h) < 2 ^ 64 - 1 -> answered modest os ->
  exists h' r, mount variant_what exe cg name so_path grant os h = (h', Ok r) /\ mounts_as T h name grant r h'.
Proof using n_laws.
  intros Hh Hn Ha. unfold mount. rewrite (M_bind_ok (gets _) _ h h h eq_refl).
  destruct (bool_decide_reflect (is_Some (links h !! name))) as [|Hname].
  { eexists _, _. split; [reflexivity|]. by apply mount_refused. }
  apply eq_None_not_Some in Hname.
  destruct (resolve_runs h name so_path grant os Ha) as (l & e & E & Hsp & Hready).
  rewrite (M_bind_ok _ _ _ _ _ (on_link_ok _ _ _ _ h E)). cbv beta iota.
  destruct e as [e|].
  { eexists _, _. split; [reflexivity|]. apply mount_refused; [done|]. by apply (retire_host T h). }
  destruct (Hready eq_refl) as [Hrd Hlife].
  assert (exists h1, (if draws_leaf h grant then modify (set_leaf_counter (u64 (leaf_counter h + 1))) else mret tt) h =
    (h1, Ok tt) /\ keeps h h1 /\ host_ok T h1) as (h1 & E1 & Hk & Hh1).
  { destruct (draws_leaf h grant); [|by exists h]. eexists. split; [reflexivity|]. split; [done|].
    by destruct Hh. }
  rewrite (M_bind_ok _ _ _ _ _ E1).
  destruct (spawn_cases exe cg (terms h grant) l Hrd) as (l1 & r & E2 & (_ & Hlife1 & _) & Hcases).
  rewrite (M_bind_ok _ _ _ _ _ (on_link_ok _ _ _ _ h1 E2)). cbv beta iota.
  destruct r as [e|[[manifest pol] snapshot]].
  - destruct Hcases as (l2 & E3 & _ & Hrd2 & _).
    assert (dispose cg l1 h1 = (retire (l_os l2) h1, Ok tt)) as E4
      by (unfold dispose; by rewrite (M_bind_ok _ _ _ _ _ (on_link_ok _ _ _ _ h1 E3))).
    rewrite (M_bind_ok _ _ _ _ _ E4). eexists _, _. split; [reflexivity|].
    apply mount_refused; [apply Hk|]. apply retire_host; [done|by destruct Hrd2].
  - destruct Hcases as [Hl _]. apply mount_cached; try done. rewrite Hlife in Hlife1. by injection Hlife1 as _ -> _.
Qed.

(** *** Unmounting *)

Lemma take_off_host (T : Mounts) (h : Host) id t name :
  host_ok T h -> T !! id = Some t -> links h !! name = Some id ->
  exists h' l, bus_do (fun b => let '(b, sh) := unregister_shard id b in (b, Ok sh)) h = (h', Ok (Some (Remote l))) /\
    link_at id h = Some l /\ link_ok cg t l /\ links h' = links h /\ past h' = past h /\
    (forall i, i <> id -> link_at i h' = link_at i h) /\
    host_ok (delete id T) (set_links (delete name (links h')) h').
Proof using.
  intros Hh HT Hname. destruct (mounted_link T h id t Hh HT) as (l & Hl & _ & Hok). pose proof Hl as Hat.
  pose proof Hh as [H1 H2 H3 H4 H5 H6 H7 H8]. pose proof (unregister_evolves id (hbus h) H1) as [Hb _].
  unfold link_at, shard in Hl. unfold bus_do, unregister_shard in *.
  destruct (find id (hbus h)) as [rec|] eqn:Er; [|done]. cbn in Hl.
  destruct (rec_shard rec) as [|l'] eqn:El; [done|]. injection Hl as ->. eexists _, l. split; [reflexivity|].
  do 4 (split; [done|]). split; [intros i Hi; unfold link_at, shard, find; cbn; by rewrite lookup_delete_ne|]. cbn [fst] in Hb.
  assert (forall nm i, links h !! nm = Some i -> nm <> name -> i <> id) as Hne.
  { intros nm i Hi Hn ->. apply Hn. by eapply H7. }
  split; cbn; try done.
  - intros i r. cbn. intros [Hd Hr]%lookup_delete_Some. unfold lodged. rewrite lookup_delete_ne by done. exact (H3 i r Hr).
  - intros i [Hd Hi]%lookup_delete_is_Some. rewrite lookup_delete_ne by done. by apply H4.
  - intros nm i [Hd Hi]%lookup_delete_Some. apply lookup_delete_is_Some. split; [|by eapply H5].
    apply not_eq_sym. by eapply Hne.
  - intros i [Hd Hi]%lookup_delete_is_Some. destruct (H6 i Hi) as [nm Hnm]. exists nm. apply lookup_delete_Some.
    split; [|done]. intros <-. congruence.
  - intros nm nm' i [_ Hi]%lookup_delete_Some [_ Hi']%lookup_delete_Some. by eapply H7.
Qed.

(** Of a name taken off, the log of its link ends among the past. *)
Definition buried (h h' : Host) (id : ShardId) : Prop :=
  forall l, link_at id h = Some l -> exists os, os ∈ past h' /\ log (l_os l) `prefix_of` log os.

Lemma unmount_host (T : Mounts) (h : Host) name :
  host_ok T h ->
  exists h', unmount cg name h = (h', Ok tt) /\ links h' = delete name (links h) /\
    past h `prefix_of` past h' /\
    (forall id, if bool_decide (links h !! name = Some id) then buried h h' id else link_at id h' = link_at id h) /\
    host_ok (match links h !! name with Some id => delete id T | None => T end) h'.
Proof using n_laws.
  intros Hh. unfold unmount. rewrite (M_bind_ok (gets _) _ h h _ eq_refl).
  destruct (links h !! name) as [id|] eqn:Hname.
  2: { exists h. split; [done|]. split; [by rewrite delete_id|]. split; [done|]. by split; [intros id; case_bool_decide|]. }
  destruct (ho_links _ _ Hh name id Hname) as [t HT].
  destruct (take_off_host T h id t name Hh HT Hname) as (h1 & l & E & Hat & Hl & E1 & Hp & Hoth & Hh1).
  rewrite (M_bind_ok _ _ _ _ _ E). destruct (dispose_run h1 l t (proj1 Hl)) as (l' & E3 & Hsp & Hpre).
  rewrite (M_bind_ok _ _ _ _ _ E3). eexists. split; [reflexivity|].
  split; [cbn; by rewrite E1|]. cbn [past set_links retire].
  split; [rewrite Hp; by eexists|]. split.
  - intros i. case_bool_decide as Hi.
    + injection Hi as <-. intros m Hm. rewrite Hat in Hm. injection Hm as <-. exists (l_os l'). split; [set_solver|done].
    + apply (Hoth i). congruence.
  - exact (retire_host (delete id T) (set_links (delete name (links h1)) h1) (l_os l') Hh1 Hsp).
Qed.

(** *** A turn of the host *)

Definition put_link (id : ShardId) (l : Link) (h : Host) : Host :=
  set_hbus (update_shard id (rec_set_shard (Remote l)) (hbus h)) h.

Lemma put_link_at id l l' (h : Host) : link_at id h = Some l -> link_at id (put_link id l' h) = Some l'.
Proof using. unfold link_at, shard, find. cbn. rewrite lookup_alter_eq. by destruct (shards (hbus h) !! id). Qed.

Lemma put_link_host (T : Mounts) (h : Host) id t l :
  host_ok T h -> T !! id = Some t -> l_id l = id -> link_ok cg t l -> host_ok T (put_link id l h).
Proof using.
  intros Hh HT Hid Hl. apply host_bus; [done|by apply (set_shard_evolves [] id), Hh|].
  apply update_stays. intros rec _ _. cbn. unfold lodged. rewrite HT. by exists l.
Qed.

Lemma link_do_run {A : Type} id (m : L A) l l' r (h : Host) :
  link_at id h = Some l -> m l = (l', r) -> link_do id m h = (put_link id l' h, r).
Proof using. intros Hl E. unfold link_do. by rewrite Hl, E. Qed.

Lemma frame_effect_host (T : Mounts) (h h' : Host) id t l f :
  host_ok T h -> T !! id = Some t -> link_at id h = Some l -> l_id l = id -> link_ok cg t l ->
  frame_effect id l f h h' -> host_ok T h'.
Proof using.
  intros Hh HT Hl Hid [Hlk Hc] [orders g Hst Hdoor|v s g Hop Hs Hcf Hv Hw].
  - apply host_bus; [done| |].
    + destruct (push_all_evolves [] orders (hbus h) (ho_bus _ _ Hh)) as [Hb _].
      by destruct (evolves_tables [] (push_all orders (hbus h)) (set_gate_calls g (push_all orders (hbus h)))
        ltac:(done) ltac:(done) ltac:(done) ltac:(by intros []) Hb).
    + etrans; [apply push_all_stays|by apply stays_same].
  - assert (host_ok T (set_hbus (set_gate_calls g (hbus h)) h)) as Hh1.
    { apply host_bus; [done| |by apply stays_same]. destruct (evolves_tables [] (hbus h) (set_gate_calls g (hbus h))
        ltac:(done) ltac:(done) ltac:(done) ltac:(by intros []) (ho_bus _ _ Hh)) as [Hb _]. exact Hb. }
    change (host_ok T (put_link id (set_snapshot v (in_payload f) l) (set_hbus (set_gate_calls g (hbus h)) h))).
    apply (put_link_host T _ id t); [done..|]. split.
    + destruct Hlk. by split.
    + destruct Hc as [C1 (s' & v' & Es & Hwf & _) C3 C4]. rewrite Hs in Es. injection Es as <-.
      split; [done| |done|done]. by exists s, v.
Qed.

(** The channel's own calls. *)
Lemma io_kept t l os : link_ok cg t l -> answers os = answers (l_os l) -> log os = log (l_os l) -> link_ok cg t (set_os os l).
Proof using.
  intros [[H1 [rest H2] H3 H4 H5 H6 H7] [C1 C2 C3 C4]] Ea El. split; split; cbn; try done.
  - unfold answered. by rewrite Ea.
  - exists rest. unfold holding. by rewrite El.
  - intros c Hc Hr. rewrite El. specialize (H6 c Hc Hr). by destruct c.
  - intros p Hp. rewrite El in *. by apply H7.
Qed.

Lemma frames_host (T : Mounts) id t fs : forall h : Host,
  Forall frame_ok fs -> host_ok T h -> T !! id = Some t ->
  exists h', frames_do id fs h = (h', Ok tt) /\ host_ok T h'.
Proof using.
  induction fs as [|f fs IH]; intros h Hfs Hh HT; cbn [frames_do]; [by exists h|].
  apply Forall_cons in Hfs as [Hf Hfs]. destruct (mounted_link T h id t Hh HT) as (l & Hl & Hid & Hlk).
  destruct (ca_state _ (proj2 Hlk)) as (s & _ & Hs & Hwf & _).
  destruct (frame_handled id f h l s (proj1 (ho_bus _ _ Hh)) Hl Hid Hs Hwf) as (h1 & E & Heff).
  { destruct Hf as [_ Hz]. unfold kMaxFrameLen in Hz. lia. }
  rewrite (M_bind_ok _ _ _ _ _ E). apply IH; [done| |done]. by eapply frame_effect_host.
Qed.

Lemma exchange_host (T : Mounts) (h : Host) id t :
  host_ok T h -> T !! id = Some t -> exists h', exchange id h = (h', Ok tt) /\ host_ok T h'.
Proof using.
  intros Hh HT. destruct (mounted_link T h id t Hh HT) as (l & Hl & Hid & Hlk). unfold exchange.
  rewrite (M_bind_ok (gets _) _ h h _ eq_refl), Hl. rewrite (M_bind_ok (lift _) _ h h l eq_refl).
  destruct (l_channel l) as [ch|] eqn:Ech; [|by exists h].
  destruct (lk_chan _ _ _ (proj1 Hlk) ch Ech) as [Hfit Hfd].
  destruct (sys_flush_run ch (l_os l)) as (ch1 & tx & w & E1 & Hfd1 & Hfit1).
  set (os1 := mkOS _ _ _ _ _) in E1. set (l1 := set_os os1 l).
  rewrite (M_bind_ok _ _ _ _ _ (link_do_run id (on_os (sys_flush ch)) l l1 _ h Hl ltac:(unfold on_os; by rewrite E1))).
  pose proof (io_kept t l os1 Hlk eq_refl eq_refl : link_ok cg t l1) as Hlk1.
  pose proof (put_link_at id l l1 h Hl) as Hl1. pose proof (put_link_host T h id t l1 Hh HT Hid Hlk1) as Hh1.
  destruct (sys_poll_run ch1 os1 (Hfit1 Hfit)) as (ch2 & fs & rx & E2 & Hfd2 & Hfit2 & Hfs).
  set (os2 := mkOS _ _ _ _ _) in E2. set (l2 := set_os os2 l1).
  rewrite (M_bind_ok _ _ _ _ _ (link_do_run id (on_os (sys_poll ch1)) l1 l2 _ _ Hl1 ltac:(unfold on_os; change (l_os l1) with os1; by rewrite E2))).
  cbv beta iota. pose proof (io_kept t l1 os2 Hlk1 eq_refl eq_refl : link_ok cg t l2) as Hlk2.
  pose proof (put_link_at id l1 l2 _ Hl1) as Hl2. pose proof (put_link_host T _ id t l2 Hh1 HT Hid Hlk2) as Hh2.
  set (l3 := set_channel (Some ch2) l2).
  rewrite (M_bind_ok _ _ _ _ _ (link_do_run id (modify (set_channel (Some ch2))) l2 l3 _ _ Hl2 eq_refl)).
  apply (frames_host T id t); [done| |done]. apply (put_link_host T _ id t); [done|done|done|].
  destruct Hlk2 as [L2 [C1 C2 C3 C4]]. split; [|by split].
  apply (set_channel_launch cg t l2 ch); [done|exact Ech|by rewrite Hfd2|done].
Qed.

(** Supervision keeps the invariant, however its steps end. *)
Lemma host_bind {A B : Type} (T : Mounts) (m : M Host A) (f : A -> M Host B) :
  (forall h, host_ok T h -> host_ok T (m h).1) -> (forall a h, host_ok T h -> host_ok T (f a h).1) ->
  forall h, host_ok T h -> host_ok T ((m ≫= f) h).1.
Proof using.
  intros Hm Hf h Hh. specialize (Hm h Hh). unfold mbind, M_bind. destruct (m h) as [h' [a|e|]]; [by apply Hf|done..].
Qed.

Lemma link_do_keeps {A : Type} (T : Mounts) id t (m : L A) (h : Host) :
  T !! id = Some t -> (forall l, link_ok cg t l -> link_ok cg t (m l).1 /\ l_id (m l).1 = l_id l) ->
  host_ok T h -> host_ok T (link_do id m h).1.
Proof using.
  intros HT Hm Hh. destruct (mounted_link T h id t Hh HT) as (l & Hl & Hid & Hlk).
  destruct (Hm l Hlk) as [Hk Hi]. destruct (m l) as [l' r] eqn:E. rewrite (link_do_run id m l l' r h Hl E).
  cbn [fst] in *. apply (put_link_host T h id t); [done|done|by rewrite Hi|done].
Qed.

Lemma teardown_keeps t l :
  link_ok cg t l -> link_ok cg t (teardown_child cg l).1 /\ l_id (teardown_child cg l).1 = l_id l.
Proof using.
  intros Hl. destruct (teardown_kept cg t l (proj1 Hl)) as (l' & E & Hl' & Hs & _). rewrite E.
  destruct (link_kept cg t l l' Hl Hl' Hs) as [? [? _]]. done.
Qed.

Lemma set_life_keeps t d s q l :
  (s = true -> d = true) -> link_ok cg t l -> link_ok cg t (set_life d s q l) /\ l_id (set_life d s q l) = l_id l.
Proof using. by intros Hsd [[] []]; split; [split; split|]. Qed.

Lemma reload_host (T : Mounts) id w (h : Host) : host_ok T h -> host_ok T (bus_do (reload id w) h).1.
Proof using n_laws.
  intros Hh. unfold bus_do. destruct (reload_evolves id w (hbus h) (ho_bus _ _ Hh)) as [Hb _].
  pose proof (reload_stays (lodged T) (fun id => lodged_revive T id) id w (hbus h)) as Hs.
  destruct (reload id w (hbus h)) as [b r]. by apply host_bus.
Qed.

(** The link under one id, while the bus works: [Q] of it is kept if revivals and
    deliveries keep it. *)
Lemma link_stays (T : Mounts) id (h : Host) b l (Q : Link -> Prop) :
  stays (fun i sh => lodged T i sh /\ (i = id -> exists l, sh = Remote l /\ Q l)) (hbus h) b ->
  host_ok T h -> is_Some (T !! id) -> link_at id h = Some l -> Q l ->
  exists l', link_at id (set_hbus b h) = Some l' /\ Q l'.
Proof using.
  intros Hs Hh HT Hl HQ. unfold link_at, shard, find in *. cbn.
  destruct (ho_ids _ _ Hh id HT) as [_ Hid]. rewrite <-(stays_ids _ _ _ Hs) in Hid. destruct Hid as [rec Hr].
  assert (exists l', rec_shard rec = Remote l' /\ Q l') as (l' & E & HQ').
  { apply (stays_holds _ _ _ Hs) in Hr; [by destruct Hr as [_ Hr]; apply Hr|].
    intros i r Hi. split; [exact (ho_shards _ _ Hh i r Hi)|]. intros ->. exists l. split; [|done].
    rewrite Hi in Hl. cbn in Hl. destruct (rec_shard r); [done|by injection Hl as ->]. }
  exists l'. split; [|done]. rewrite Hr. cbn. by rewrite E.
Qed.

(** A revival leaves the supervision's flags alone, and a death the link. *)
Lemma reload_life (T : Mounts) id t w (h : Host) l :
  host_ok T h -> T !! id = Some t -> link_at id h = Some l ->
  exists l', link_at id (bus_do (reload id w) h).1 = Some l' /\ life l' = life l.
Proof using n_laws.
  intros Hh HT Hl. set (P := fun i sh => lodged T i sh /\ (i = id -> exists l', sh = Remote l' /\ life l' = life l)).
  assert (forall i sh v, P i sh -> P i (revive sh v).1) as HP.
  { intros i sh v [H1 H2]. split; [by apply lodged_revive|]. intros ->. destruct (H2 eq_refl) as (l1 & -> & E).
    unfold lodged in H1. rewrite HT in H1. destruct H1 as (? & [= <-] & _ & Hlk).
    destruct (respawn_kept exe cg t v l1 Hlk) as [_ (_ & Hlife & _)].
    change (revive (Remote l1) v) with (let '(l, r) := respawn_and_revive exe cg v l1 in (@Remote N l, r)).
    destruct (respawn_and_revive exe cg v l1) as [l2 r]. exists l2. split; [done|]. cbn in *. congruence. }
  pose proof (reload_stays P HP id w (hbus h)) as Hs.
  unfold bus_do. destruct (reload id w (hbus h)) as [b r]. cbn [fst] in *.
  by apply (link_stays T id h b l (fun l' => life l' = life l)).
Qed.

Lemma kill_host (T : Mounts) id t (h : Host) l :
  host_ok T h -> T !! id = Some t -> link_at id h = Some l ->
  host_ok T (bus_do (kill id) h).1 /\ link_at id (bus_do (kill id) h).1 = Some l.
Proof using.
  intros Hh HT Hl. unfold bus_do. destruct (kill_evolves id (hbus h) (ho_bus _ _ Hh)) as [Hb _].
  pose proof (kill_stays (lodged T) id (hbus h)) as Hs.
  pose proof (kill_stays (fun i sh => lodged T i sh /\ (i = id -> exists l', sh = Remote l' /\ l' = l)) id (hbus h)) as Hs'.
  destruct (kill id (hbus h)) as [b r]. cbn [fst] in *. split; [by apply host_bus|].
  by destruct (link_stays T id h b l (fun l' => l' = l) Hs' Hh ltac:(by eexists) Hl eq_refl) as (l' & ? & ->).
Qed.

(** How a turn of supervision leaves a child: with a channel, or given up and torn
    down. *)
Definition settled (l : Link) : Prop :=
  (l_dead l = false /\ is_Some (l_channel l)) \/ (l_quarantined l = true /\ l_dead l = true /\ l_channel l = None).

(** Still to be recovered. *)
Definition due (l : Link) : Prop := l_dead l = true /\ l_quarantined l = false.

Lemma due_life l l' : life l' = life l -> due l -> due l'.
Proof using. unfold life, due. intros [= -> _ ->]. done. Qed.

(** The end of [recover], once the revival returned. *)
Lemma recover_end (T : Mounts) id t (h : Host) l ro :
  host_ok T h -> T !! id = Some t -> link_at id h = Some l -> l_dead l = true ->
  exists h' l', (if revived ro && bool_decide (is_Some (l_channel l))
     then link_do id (modify (fun l => set_life false false (l_quarantined l) l))
     else
       _ ← link_do id (modify (fun l => set_life true (l_death_signaled l) true l));
       link_do id (teardown_child cg)) h = (h', Ok tt) /\
    host_ok T h' /\ link_at id h' = Some l' /\ settled l'.
Proof using.
  intros Hh HT Hl Hd. destruct (mounted_link T h id t Hh HT) as (l' & Hl' & Hid & Hlk).
  rewrite Hl in Hl'. injection Hl' as <-.
  destruct (revived ro && bool_decide (is_Some (l_channel l))) eqn:Eb.
  - apply andb_true_iff in Eb as [_ Hc%bool_decide_eq_true]. set (l1 := set_life false false (l_quarantined l) l).
    rewrite (link_do_run id (modify (fun l => set_life false false (l_quarantined l) l)) l l1 _ h Hl eq_refl).
    exists (put_link id l1 h), l1. split; [done|].
    split; [by apply (put_link_host T h id t); [..|apply set_life_keeps]|]. split; [by eapply put_link_at|]. by left.
  - set (l1 := set_life true (l_death_signaled l) true l).
    rewrite (M_bind_ok _ _ _ _ _
      (link_do_run id (modify (fun l => set_life true (l_death_signaled l) true l)) l l1 _ h Hl eq_refl)).
    assert (link_ok cg t l1) as Hlk1 by (by apply set_life_keeps).
    pose proof (put_link_host T h id t l1 Hh HT Hid Hlk1) as Hh1. pose proof (put_link_at id l l1 h Hl) as Ht1.
    destruct (teardown_kept cg t l1 (proj1 Hlk1)) as (l2 & E2 & Hl2 & Hs2 & Hc2 & _).
    rewrite (link_do_run id _ l1 l2 _ _ Ht1 E2). destruct (link_kept cg t l1 l2 Hlk1 Hl2 Hs2) as [Hlk2 (Hid2 & Hlife2 & _)].
    eexists _, l2. split; [reflexivity|]. split; [apply (put_link_host T _ id t); [done|done|by rewrite Hid2|done]|].
    split; [by eapply put_link_at|]. right. injection Hlife2 as F1 _ F3. by rewrite F1, F3.
Qed.

Lemma recover_settles (T : Mounts) (h : Host) id t l :
  host_ok T h -> T !! id = Some t -> link_at id h = Some l -> due l ->
  match recover exe cg id h with
  | (h', Ok _) => host_ok T h' /\ exists l', link_at id h' = Some l' /\ settled l'
  | (h', _) => host_ok T h' /\ exists l', link_at id h' = Some l' /\ due l'
  end.
Proof using n_laws.
  intros Hh HT Hl Hdue. destruct (mounted_link T h id t Hh HT) as (l' & Hl' & Hid & Hlk).
  rewrite Hl in Hl'. injection Hl' as <-. unfold recover.
  destruct (teardown_kept cg t l (proj1 Hlk)) as (l1 & E1 & Hl1 & Hs1 & _).
  rewrite (M_bind_ok _ _ _ _ _ (link_do_run id _ l l1 _ h Hl E1)).
  destruct (link_kept cg t l l1 Hlk Hl1 Hs1) as [Hlk1 (Hid1 & Hlife1 & _)]. rewrite Hid in Hid1.
  pose proof (put_link_host T h id t l1 Hh HT Hid1 Hlk1) as Hh1. pose proof (put_link_at id l l1 h Hl) as Ht1.
  set (h1 := put_link id l1 h) in *.
  rewrite (M_bind_ok (gets _) _ h1 h1 _ eq_refl), Ht1, (M_bind_ok (lift _) _ h1 h1 l1 eq_refl), Hid1.
  pose proof (reload_host T id (l_snapshot_bytes l1) h1 Hh1) as Hh2.
  destruct (reload_life T id t (l_snapshot_bytes l1) h1 l1 Hh1 HT Ht1) as (l2 & Ht2 & Hlife2).
  assert (due l2) as Hdue2 by (eapply due_life; [exact Hlife2|by eapply due_life]).
  unfold mbind at 1, M_bind at 1.
  destruct (bus_do (reload id (l_snapshot_bytes l1)) h1) as [h2 [ro|e|]]; cbn [fst] in *.
  2, 3: split; [done|by exists l2].
  rewrite (M_bind_ok (gets _) _ h2 h2 _ eq_refl), Ht2, (M_bind_ok (lift _) _ h2 h2 l2 eq_refl).
  destruct (recover_end T id t h2 l2 ro Hh2 HT Ht2 (proj1 Hdue2)) as (h3 & l3 & -> & ? & ? & ?).
  split; [done|]. by exists l3.
Qed.

(** A child that needs nothing. *)
Definition well (l : Link) : Prop :=
  l_dead l = false /\ exists ch, l_channel l = Some ch /\ Channel_done ch = false.

Lemma supervise_settles (T : Mounts) (h : Host) id t l :
  host_ok T h -> T !! id = Some t -> link_at id h = Some l ->
  match supervise exe cg id h with
  | (h', Ok _) => host_ok T h' /\ exists l', link_at id h' = Some l' /\
      ((l_quarantined l = true /\ l' = l) \/ well l' \/ settled l')
  | (h', _) => host_ok T h' /\ exists l', link_at id h' = Some l' /\ due l'
  end.
Proof using n_laws.
  intros Hh HT Hl. destruct (mounted_link T h id t Hh HT) as (l' & Hl' & Hid & Hlk).
  rewrite Hl in Hl'. injection Hl' as <-. unfold supervise.
  rewrite (M_bind_ok (gets _) _ h h _ eq_refl), Hl, (M_bind_ok (lift _) _ h h l eq_refl).
  destruct (l_quarantined l) eqn:Eq; [split; [done|]; exists l; by split; [|left]|]. cbv zeta.
  set (dead_now := match l_channel l with None => true | Some ch => Channel_done ch end).
  assert (forall h l, host_ok T h -> link_at id h = Some l -> due l ->
    match (l' ← gets (link_at id); l' ← lift (deref l'); if l_dead l' then recover exe cg id else mret tt) h with
    | (h', Ok _) => host_ok T h' /\ exists l', link_at id h' = Some l' /\ ((false = true /\ l' = l) \/ well l' \/ settled l')
    | (h', _) => host_ok T h' /\ exists l', link_at id h' = Some l' /\ due l'
    end) as Hrec.
  { intros k m Hk Hm Hdue. rewrite (M_bind_ok (gets _) _ k k _ eq_refl), Hm, (M_bind_ok (lift _) _ k k m eq_refl).
    rewrite (proj1 Hdue). pose proof (recover_settles T k id t m Hk HT Hm Hdue) as Hr.
    destruct (recover exe cg id k) as [k' [u|e|]]; [|exact Hr..]. destruct Hr as [? (m' & ? & ?)].
    split; [done|]. exists m'. split; [done|]. by right; right. }
  destruct (dead_now && negb (l_death_signaled l)) eqn:Ed.
  - set (l1 := set_life true true (l_quarantined l) l).
    assert (host_ok T (put_link id l1 h)) as Hh1.
    { apply (put_link_host T h id t); [done|done|exact Hid|]. by apply set_life_keeps. }
    pose proof (put_link_at id l l1 h Hl) as Ht1.
    destruct (kill_host T id t _ l1 Hh1 HT Ht1) as [Hh2 Ht2]. rewrite Hid.
    assert (due l1) as Hdue by (by split).
    assert ((_ ← link_do id (modify (fun l => set_life true true (l_quarantined l) l)); bus_do (kill id)) h =
      bus_do (kill id) (put_link id l1 h)) as E.
    { by rewrite (M_bind_ok _ _ _ _ _ (link_do_run id (modify (fun l => set_life true true (l_quarantined l) l)) l l1 _ h Hl eq_refl)). }
    unfold mbind at 1, M_bind at 1. rewrite E.
    destruct (bus_do (kill id) (put_link id l1 h)) as [h2 [u|e|]]; cbn [fst] in *.
    + pose proof (Hrec h2 l1 Hh2 Ht2 Hdue) as Hr.
      match goal with |- match ?x with _ => _ end => destruct x as [h3 [u'|e|]] end; [|exact Hr..].
      destruct Hr as [? (m' & ? & [[[=] _]|?])]. split; [done|]. exists m'. by split; [|right].
    + split; [done|by exists l1].
    + split; [done|by exists l1].
  - rewrite (M_bind_ok (mret tt) _ h h tt eq_refl). destruct (l_dead l) eqn:Edead.
    + apply (Hrec h l); done.
    + rewrite (M_bind_ok (gets _) _ h h _ eq_refl), Hl, (M_bind_ok (lift _) _ h h l eq_refl), Edead.
      split; [done|]. exists l. split; [done|]. right. left. split; [done|].
      assert (l_death_signaled l = false) as Hsig.
      { destruct (l_death_signaled l) eqn:Es; [|done]. by rewrite (ca_signal _ (proj2 Hlk) Es) in Edead. }
      rewrite Hsig, andb_true_r in Ed. unfold dead_now in Ed. destruct (l_channel l) as [ch|]; [|done]. by exists ch.
Qed.
End host.
