(* ===== verification/HostRun.v ===== *)
(** * Every reachable host

    The isolation host with its bus, from its construction on: the steps it can
    take, and what holds after any number of them, whatever the system answers and
    whatever the children send. *)

From S2P Require Import Prelude Schema Value Registry Gate Serialize SchemaCodec Protocol Channel Grant Bus Switchboard Enqueue Invariant Dispatch Delivery Loop Residents Kernel KernelSafety Posix Sandbox Confine Host HostSafety SandboxSafety ConfineSafety Reaping HostInvariant.

Section run.
Context {N Ob : Type} `{n_ops : ShardOps N} `{n_laws : !ShardLaws N} `{ob_ops : ObserverOps Ob}.
Context (variant_what exe : bytes) (cg : Cgroup).
#[local] Instance placed_ops : ShardOps (Placed N) := Host.placed exe cg.

Abbreviation Host := (IsolationHost N Ob).
Abbreviation HBus := (Switchboard (Placed N) Ob).
Abbreviation Mounts := (gmap ShardId Terms).

(** What is mounted, on which terms, after a mount and after an unmount. *)
Definition after_mount (T : Mounts) (h : Host) (grant : Grant) (r : result OutOfProcessResult) : Mounts :=
  match r with
  | Ok r => if mount_ok r then <[mount_id r := terms h grant]> T else T
  | _ => T
  end.
Definition after_unmount (T : Mounts) (h : Host) (name : bytes) : Mounts :=
  match links h !! name with Some id => delete id T | None => T end.

(** The steps of a host, with the terms of its mounts beside it: its operations,
    those of the switchboard, and the application's own shards. *)
Inductive host_step : Mounts * Host -> Mounts * Host -> Prop :=
| hs_mount T h name so_path grant os h' r :
    next_shard_id (hbus h) < 2 ^ 64 - 1 -> answered modest os ->
    mount variant_what exe cg name so_path grant os h = (h', r) ->
    host_step (T, h) (after_mount T h grant r, h')
| hs_unmount T h name h' r :
    unmount cg name h = (h', r) -> host_step (T, h) (after_unmount T h name, h')
| hs_turn T h fuel h' r : Host.step exe cg fuel h = Some (h', r) -> host_step (T, h) (T, h')
| hs_dev_mode T h on : host_step (T, h) (T, set_dev_mode on h)
| hs_enforcement T h report : host_step (T, h) (T, override_enforcement_for_test report h)
| hs_bus T h b : bus_step (hbus h) b -> host_step (T, h) (T, set_hbus b h)
| hs_register T h s g :
    next_shard_id (hbus h) < 2 ^ 64 - 1 ->
    host_step (T, h) (T, set_hbus (register_shard (Some (Native s)) g (hbus h)).1 h)
| hs_unregister T h id : T !! id = None -> host_step (T, h) (T, set_hbus (unregister_shard id (hbus h)).1 h).

(** A host as constructed, over a fresh bus. *)
Definition fresh (g : Z) (report : EnforcementReport) : Mounts * Host := (∅, Host_new (Switchboard_new g) report).

Lemma fresh_ok g report : host_ok cg (fresh g report).1 (fresh g report).2.
Proof using.
  split; cbn; try done.
  - apply new_ok.
  - intros id Hid. rewrite lookup_empty in Hid. by destruct Hid.
  - intros id Hid. rewrite lookup_empty in Hid. by destruct Hid.
Qed.

(** *** Each step keeps the invariant *)

Lemma for_links_host (T : Mounts) (f : ShardId -> M Host unit) ids :
  (forall id h, is_Some (T !! id) -> host_ok cg T h -> host_ok cg T (f id h).1) ->
  Forall (fun id => is_Some (T !! id)) ids ->
  forall h, host_ok cg T h -> host_ok cg T (for_links ids f h).1.
Proof using.
  intros Hf Hids. induction Hids as [|id ids Hid Hids IH]; intros h Hh; cbn [for_links]; [done|].
  apply (host_bind cg T); [by intros; apply Hf|by intros; apply IH|done].
Qed.

Lemma link_ids (T : Mounts) (h : Host) :
  host_ok cg T h -> Forall (fun id => is_Some (T !! id)) (by_name (links h)).*2.
Proof using.
  intros Hh. apply Forall_forall. intros id Hid. apply list_elem_of_fmap in Hid as ([name i] & -> & Hni).
  apply by_name_elem in Hni. by eapply (ho_links _ _ _ Hh).
Qed.

Lemma exchange_keeps (T : Mounts) id (h : Host) :
  is_Some (T !! id) -> host_ok cg T h -> host_ok cg T (exchange id h).1.
Proof using. intros [t HT] Hh. by destruct (exchange_host cg T h id t Hh HT) as (h' & -> & ?). Qed.

Lemma supervise_keeps (T : Mounts) id (h : Host) :
  is_Some (T !! id) -> host_ok cg T h -> host_ok cg T (supervise exe cg id h).1.
Proof using n_laws.
  intros [t HT] Hh. destruct (mounted_link cg T h id t Hh HT) as (l & Hl & _).
  pose proof (supervise_settles exe cg T h id t l Hh HT Hl) as Hs.
  destruct (supervise exe cg id h) as [h' [u|e|]]; apply Hs.
Qed.

Lemma turn_host (T : Mounts) fuel (h h' : Host) r :
  host_ok cg T h -> Host.step exe cg fuel h = Some (h', r) -> host_ok cg T h'.
Proof using n_laws.
  intros Hh E. unfold Host.step in E. cbv zeta in E. pose proof (link_ids T h Hh) as Hids.
  pose proof (for_links_host T exchange _ (fun id h => exchange_keeps T id h) Hids h Hh) as H1.
  destruct (for_links _ exchange h) as [h1 [u|e|]]; cbn [fst] in H1; [|by injection E as <- _..].
  unfold pump_do in E. destruct (pump fuel (hbus h1)) as [[b rb]|] eqn:Ep; [|done].
  assert (host_ok cg T (set_hbus b h1)) as H2.
  { destruct (bus_step_quiet (lodged cg T) (hbus h1) b (lodged_handle exe cg T) (lodged_revive exe cg T)
      (ho_bus _ _ _ H1) (bs_pump _ _ _ _ Ep)) as [Hb Hs]. by apply host_bus. }
  destruct rb as [u'|e|]; [|by injection E as <- _..].
  pose proof (for_links_host T (supervise exe cg) _ (fun id h => supervise_keeps T id h) Hids _ H2) as H3.
  injection E as E. by rewrite E in H3.
Qed.

Lemma register_native_host (T : Mounts) (h : Host) s g :
  host_ok cg T h -> next_shard_id (hbus h) < 2 ^ 64 - 1 ->
  host_ok cg T (set_hbus (register_shard (Some (Native s)) g (hbus h)).1 h).
Proof using n_laws.
  intros Hh Hn. pose proof (ho_bus _ _ _ Hh) as Hb. pose proof (ok_next_id _ (proj1 Hb)).
  assert (lawful (Native s : Placed N)) as Hlaw by apply (shards_lawful s).
  destruct (register_lawful_evolves (Some (Native s)) g (hbus h) ltac:(by intros ? [= <-]) Hn Hb) as [Hb' _].
  pose proof (register_shard_adds (lodged cg T) (Native s) g (hbus h)) as Hadds.
  destruct (register_shard (Some (Native s)) g (hbus h)) as [b r]. cbn [fst snd] in *.
  destruct Hadds as [[Hs _]|(b1 & rec & Hs & Hrec & _ & Hnext & Hsh)]; [by apply host_bus|].
  rewrite u64_small in Hnext by (split; lia). destruct Hh as [H1 H2 H3 H4 H5 H6 H7 H8].
  assert (T !! next_shard_id (hbus h) = None) as HT by (apply eq_None_not_Some; intros [? _]%H4; lia).
  split; cbn; try done.
  - intros id r'. rewrite Hsh. destruct (shards b1 !! next_shard_id (hbus h)); [by apply (stays_holds _ _ _ Hs H3)|].
    intros [[<- <-]|[_ Hr]]%lookup_insert_Some; [|by apply (stays_holds _ _ _ Hs H3)].
    unfold lodged. rewrite HT, Hrec. by exists s.
  - intros id Hid. destruct (H4 id Hid) as [? Hs']. split; [lia|]. rewrite <-(stays_ids _ _ _ Hs) in Hs'. rewrite Hsh.
    destruct (shards b1 !! next_shard_id (hbus h)); [done|]. apply lookup_insert_is_Some'. by right.
Qed.

Lemma unregister_native_host (T : Mounts) (h : Host) id :
  host_ok cg T h -> T !! id = None -> host_ok cg T (set_hbus (unregister_shard id (hbus h)).1 h).
Proof using.
  intros [H1 H2 H3 H4 H5 H6 H7 H8] HT. destruct (unregister_evolves id (hbus h) H1) as [Hb _].
  unfold unregister_shard in *. destruct (find id (hbus h)); [|by destruct h]. cbn [fst] in *. split; cbn; try done.
  - intros i r. cbn. intros [_ Hr]%lookup_delete_Some. by apply H3.
  - intros i Hi. destruct (H4 i Hi) as [? ?]. split; [done|]. rewrite lookup_delete_ne; [done|].
    intros <-. rewrite HT in Hi. by destruct Hi.
Qed.

Lemma host_step_ok x y : host_step x y -> host_ok cg x.1 x.2 -> host_ok cg y.1 y.2.
Proof using n_laws.
  destruct 1 as [T h name so_path grant os h' r Hn Ha E|T h name h' r E|T h fuel h' r E|T h on|T h report|T h b Hs|T h s g Hn|T h id HT];
    cbn [fst snd]; intros Hh.
  - destruct (mount_host variant_what exe cg T h name so_path grant os Hh Hn Ha) as (h1 & x & E1 & _ & _ & Hm).
    rewrite E in E1. injection E1 as -> ->. cbn [after_mount]. by destruct (mount_ok x); destruct Hm as [? Hm]; [apply Hm|].
  - destruct (unmount_host cg T h name Hh) as (h1 & E1 & _ & _ & _ & Hh1). rewrite E in E1. by injection E1 as -> _.
  - by eapply turn_host.
  - by destruct Hh.
  - by destruct Hh.
  - destruct (bus_step_quiet (lodged cg T) (hbus h) b (lodged_handle exe cg T) (lodged_revive exe cg T)
      (ho_bus _ _ _ Hh) Hs) as [Hb Hst]. by apply host_bus.
  - by apply register_native_host.
  - by apply unregister_native_host.
Qed.

Lemma reachable_host g report x : rtc host_step (fresh g report) x -> host_ok cg x.1 x.2.
Proof using n_laws.
  intros Hs. pose proof (fresh_ok g report) as H0. revert H0.
  induction Hs as [|x y z Hxy _ IH]; [done|]. intros Hx. apply IH. by eapply host_step_ok.
Qed.

(** ** What holds of it *)

Lemma link_at_mounted (T : Mounts) (h : Host) id l :
  host_ok cg T h -> link_at id h = Some l -> exists t, T !! id = Some t /\ l_id l = id /\ link_ok cg t l.
Proof using.
  intros Hh Hl. unfold link_at, shard, find in Hl. destruct (shards (hbus h) !! id) as [rec|] eqn:Hr; [|done].
  pose proof (ho_shards _ _ _ Hh id rec Hr) as Hlg. cbn in Hl, Hlg. unfold lodged in Hlg.
  destruct (T !! id) as [t|]; [|destruct Hlg as [s E]; by rewrite E in Hl].
  destruct Hlg as (l' & E & Hlg). rewrite E in Hl. injection Hl as <-. by exists t.
Qed.

Lemma link_at_iff (T : Mounts) (h : Host) id : host_ok cg T h -> is_Some (link_at id h) <-> is_Some (T !! id).
Proof using.
  intros Hh. split.
  - intros [l Hl]. destruct (link_at_mounted T h id l Hh Hl) as (t & HT & _). by exists t.
  - intros [t HT]. destruct (mounted_link cg T h id t Hh HT) as (l & Hl & _). by exists l.
Qed.

(** C17: every child is confined as its grant says.  In every reachable host, a proxy
    on the bus knows the id it stands under, belongs to exactly one mounted name,
    and each of the three capabilities was resolved exactly once at its mount: granted
    only if the grant gives it, left uncontained only in development mode on a host
    that cannot enforce it, enforced otherwise.  What is enforced is confirmed, and
    while the child is connected the host has itself seen it: namespaces that differ
    from its own, or the child in its control group with the limits in force. *)
Theorem children_confined g report (T : Mounts) (h : Host) id l :
  rtc host_step (fresh g report) (T, h) -> link_at id h = Some l ->
  l_id l = id /\
  (exists name, links h !! name = Some id /\ forall name', links h !! name' = Some id -> name' = name) /\
  (exists t, T !! id = Some t /\ Forall2 (resolved_as t) [Network; Filesystem; Resources] (l_resolutions l)) /\
  Forall (fun r => r_outcome r = Enforced -> confirmed r = true) (l_resolutions l) /\
  (forall c, is_Some (l_channel l) -> resolved (l_resolutions l) c = true -> evidence cg l c (log (l_os l))).
Proof using n_laws.
  intros Hs Hl. pose proof (reachable_host g report (T, h) Hs) as Hh. cbn in Hh.
  destruct (link_at_mounted T h id l Hh Hl) as (t & HT & Hid & [Hlk _]). split; [done|]. split.
  { destruct (ho_named _ _ _ Hh id ltac:(by eexists)) as [name Hn]. exists name. split; [done|].
    intros name' Hn'. by eapply (ho_inj _ _ _ Hh). }
  split; [exists t; split; [done|apply Hlk]|]. split; apply Hlk.
Qed.

(** C18: mounting is fail-safe.  In every reachable host, [mount] returns, whatever the
    system answers and whatever the child sends, without undefined behaviour and
    without an exception.  On success the name stands for a new proxy, under the
    next id, confined as the grant, the report and the development mode say now.  On
    refusal no name and no proxy was added or lost. *)
Theorem mount_fail_safe g report (T : Mounts) (h : Host) name so_path grant os :
  rtc host_step (fresh g report) (T, h) ->
  next_shard_id (hbus h) < 2 ^ 64 - 1 -> answered modest os ->
  exists h' r, mount variant_what exe cg name so_path grant os h = (h', Ok r) /\
    if mount_ok r then
      links h !! name = None /\ links h' = <[name := mount_id r]> (links h) /\
      mount_id r = next_shard_id (hbus h) /\
      exists l, link_at (mount_id r) h' = Some l /\
        Forall2 (resolved_as (terms h grant)) [Network; Filesystem; Resources] (l_resolutions l) /\
        Forall (fun r => r_outcome r = Enforced -> confirmed r = true) (l_resolutions l)
    else links h' = links h /\ forall id, is_Some (link_at id h') <-> is_Some (link_at id h).
Proof using n_laws.
  intros Hs Hn Ha. pose proof (reachable_host g report (T, h) Hs) as Hh. cbn in Hh.
  destruct (mount_host variant_what exe cg T h name so_path grant os Hh Hn Ha) as (h' & r & E & _ & _ & Hm).
  exists h', r. split; [done|]. destruct (mount_ok r).
  - destruct Hm as (Hid & Hname & Hlinks & Hh'). do 3 (split; [done|]).
    destruct (mounted_link cg _ h' (mount_id r) (terms h grant) Hh') as (l & Hl & _ & [Hlk _]); [apply lookup_insert_eq|].
    exists l. split; [done|]. split; apply Hlk.
  - destruct Hm as [Hlinks Hh']. split; [done|]. intros id. by rewrite (link_at_iff T h' id Hh'), (link_at_iff T h id Hh).
Qed.

(** What a child's link was when it was taken off, or what it still is. *)
Definition kept_or_buried (h h' : Host) : Prop :=
  past h `prefix_of` past h' /\
  forall id l, link_at id h = Some l ->
    link_at id h' = Some l \/ exists os, os ∈ past h' /\ log (l_os l) `prefix_of` log os.

#[local] Instance kept_or_buried_trans : Transitive kept_or_buried.
Proof using.
  intros h1 h2 h3 [P1 L1] [P2 L2]. split; [by etrans|]. intros id l Hl.
  destruct (L1 id l Hl) as [H2|(os & Hos & Hpre)]; [by apply L2|]. right. exists os. split; [|done].
  destruct P2 as [k ->]. apply elem_of_app. by left.
Qed.

Lemma unmount_buries (T : Mounts) (h : Host) name : host_ok cg T h ->
  exists T' h', unmount cg name h = (h', Ok tt) /\ host_ok cg T' h' /\ links h' = delete name (links h) /\
    kept_or_buried h h'.
Proof using n_laws.
  intros Hh. destruct (unmount_host cg T h name Hh) as (h' & E & El & Hp & Hb & Hh').
  eexists _, h'. split; [done|]. split; [done|]. split; [done|]. split; [done|]. intros id l Hl.
  specialize (Hb id). case_bool_decide; [right; by apply Hb|left; by rewrite Hb].
Qed.

Lemma unmount_all_host names : forall (T : Mounts) (h : Host), host_ok cg T h ->
  exists T' h', unmount_all cg names h = (h', Ok tt) /\ host_ok cg T' h' /\ kept_or_buried h h' /\
    forall name, is_Some (links h' !! name) -> is_Some (links h !! name) /\ name ∉ names.
Proof using n_laws.
  induction names as [|nm names IH]; intros T h Hh; cbn [unmount_all].
  { exists T, h. split; [done|]. split; [done|]. split; [split; [done|by left]|]. intros name ?. split; [done|set_solver]. }
  destruct (unmount_buries T h nm Hh) as (T1 & h1 & E & Hh1 & E1 & Hk1). rewrite (M_bind_ok _ _ _ _ _ E).
  destruct (IH _ h1 Hh1) as (T' & h' & E' & Hh' & Hk & Hn). exists T', h'. split; [done|]. split; [done|].
  split; [by etrans|]. intros name Hname. destruct (Hn name Hname) as [[i Hi] Hni]. rewrite E1 in Hi.
  apply lookup_delete_Some in Hi as [Hne Hi]. split; [by exists i|set_solver].
Qed.

(** C21: no child outlives its host.  In every reachable host the destructor returns,
    without undefined behaviour, and after it no name is mounted and no proxy is on
    the bus.  Every child process the host started for any link, whether the link was
    mounted until now, unmounted before or refused at its mount, has been waited for
    until its end was seen, or was killed and waited for. *)
Theorem host_destroyed g report (T : Mounts) (h : Host) :
  rtc host_step (fresh g report) (T, h) ->
  exists h', Host_destroy cg h = (h', Ok tt) /\ links h' = ∅ /\ (forall id, link_at id h' = None) /\
    past h `prefix_of` past h' /\
    (forall id l, link_at id h = Some l -> exists os, os ∈ past h' /\ log (l_os l) `prefix_of` log os) /\
    (forall os p, os ∈ past h' -> p ∈ kids (log os) -> ended p (log os)).
Proof using n_laws.
  intros Hs. pose proof (reachable_host g report (T, h) Hs) as Hh. cbn in Hh.
  unfold Host_destroy. rewrite (M_bind_ok (gets _) _ h h _ eq_refl).
  destruct (unmount_all_host (by_name (links h)).*1 T h Hh) as (T' & h' & E & Hh' & [Hp Hk] & Hn).
  exists h'. split; [done|].
  assert (links h' = ∅) as El.
  { apply map_eq. intros nm. rewrite lookup_empty. apply eq_None_not_Some. intros Hnm.
    destruct (Hn nm Hnm) as [? Hni]. by apply Hni, by_name_names. }
  assert (forall id, link_at id h' = None) as Hno.
  { intros id. apply eq_None_not_Some. rewrite (link_at_iff T' h' id Hh'). intros Hid.
    destruct (ho_named _ _ _ Hh' id Hid) as [nm Hnm]. by rewrite El, lookup_empty in Hnm. }
  do 3 (split; [done|]). split.
  - intros id l Hl. destruct (Hk id l Hl) as [Hl'|Hl']; [|done]. by rewrite Hno in Hl'.
  - intros os p Hos. pose proof (ho_past _ _ _ Hh') as Hsp. rewrite Forall_forall in Hsp. by apply Hsp.
Qed.

(** No child's bytes stop the host.  In every reachable host, whatever the
    sockets deliver, taking a mounted child's frames in returns, without undefined
    behaviour and without an exception. *)
Theorem exchange_safe g report (T : Mounts) (h : Host) id :
  rtc host_step (fresh g report) (T, h) -> is_Some (link_at id h) ->
  exists h', exchange id h = (h', Ok tt) /\ is_Some (link_at id h').
Proof using n_laws.
  intros Hs Hl. pose proof (reachable_host g report (T, h) Hs) as Hh. cbn in Hh.
  apply (link_at_iff T h id Hh) in Hl as [t HT]. destruct (exchange_host cg T h id t Hh HT) as (h' & E & Hh').
  exists h'. split; [done|]. rewrite (link_at_iff T h' id Hh'). by exists t.
Qed.
End run.
