(* ===== verification/Supervision.v ===== *)
(** * Supervision

    The turn of [IsolationHost::step] that looks after one child: what a child found
    down goes through, and what the bus, asked to revive it, decides.  The switchboard's
    [reload] is the one decision: the host only kills, tears down, asks, and acts on
    the answer. *)

From S2P Require Import Prelude Schema Value Registry Gate Serialize SchemaCodec Protocol Channel Grant Bus Switchboard Enqueue Invariant Dispatch Delivery Loop Lifecycle Residents Posix Sandbox Confine Host HostSafety SandboxSafety ConfineSafety Reaping HostInvariant HostRun.

Section supervision.
Context {N Ob : Type} `{n_ops : ShardOps N} `{n_laws : !ShardLaws N} `{ob_ops : ObserverOps Ob}.
Context (variant_what exe : bytes) (cg : Cgroup).
#[local] Instance placed_ops : ShardOps (Placed N) := Host.placed exe cg.

Abbreviation Host := (IsolationHost N Ob).
Abbreviation HBus := (Switchboard (Placed N) Ob).
Abbreviation Mounts := (gmap ShardId Terms).

(** The host has no channel to the child, or a spent one. *)
Definition gone (l : Link) : bool := match l_channel l with None => true | Some ch => Channel_done ch end.

(** The first death of a child is marked, and reported to the bus. *)
Definition struck (id : ShardId) (l : Link) (h : Host) (l0 : Link) (h0 : Host) : Prop :=
  if gone l && negb (l_death_signaled l)
  then l0 = set_life true true false l /\ bus_do (kill id) (put_link id l0 h) = (h0, Ok tt) /\
    alive id (hbus h0) = false
  else l0 = l /\ h0 = h.

(** The last good state of a shard is one [serialize] refuses. *)
Definition unencodable (id : ShardId) (b : HBus) : Prop :=
  exists rec, shards b !! id = Some rec /\ forall w, serialize (last_known_good rec) <> Ok w.

(** *** What the bus answers *)

(** A child launched again: the handshake fails and the link is torn down, or a state
    as [P] says is queued to the child that came up. *)
Definition relaunched (P : bytes -> Prop) (l l' : Link) : Prop :=
  exists l1 r, spawn_and_handshake exe cg l = (l1, Ok r) /\
    match r with
    | inl _ => teardown_child cg l1 = (l', Ok tt) /\ l_channel l' = None
    | inr _ => exists ch u, l_channel l1 = Some ch /\ P u /\
        l' = set_channel (Some (Channel.queue Op_Revive u ch)) l1
    end.

Lemma relaunched_weaken (P Q : bytes -> Prop) l l' : (forall u, P u -> Q u) -> relaunched P l l' -> relaunched Q l l'.
Proof using.
  intros H (l1 & r & E & Hr). exists l1, r. split; [done|]. destruct r; [done|].
  destruct Hr as (ch & u & ? & ? & ?). exists ch, u. auto.
Qed.

Lemma respawn_runs t v l :
  link_ok cg t l -> l_channel l = None ->
  match respawn_and_revive exe cg v l with
  | (l', Ok _) => relaunched (fun u => serialize v = Ok u) l l'
  | _ => forall u, serialize v <> Ok u
  end.
Proof using.
  intros Hl Hc. unfold respawn_and_revive. rewrite (M_bind_ok (gets _) _ l l l eq_refl), Hc.
  rewrite (M_bind_ok (mret tt) _ l l tt eq_refl).
  destruct (spawn_cases exe cg t l (launch_ready cg _ _ (proj1 Hl) Hc)) as (l1 & r & E1 & _ & Hr).
  rewrite (M_bind_ok _ _ _ _ _ E1). destruct r as [e|parts].
  - destruct Hr as (l2 & E2 & _ & Hready & _). rewrite E2. exists l1, (inl e).
    split; [done|]. split; [done|apply Hready].
  - destruct Hr as [_ [ch Hch]]. unfold mbind, M_bind, lift, gets.
    destruct (serialize v) as [u|e|]; [|done..]. rewrite Hch. cbn [deref]. unfold modify.
    exists l1, (inr parts). split; [done|]. by exists ch, u.
Qed.

(** What a plan says of the answer, and of the shard's life. *)
Definition plan_revives (p : plan) : bool := match p with Stay _ => false | Resume _ _ _ _ => true end.
Definition plan_out (p : plan) : ReviveOutcome := match p with Stay o => o | Resume _ _ _ o => o end.

(** The bytes the plan's state has: the candidate's, or those of the last good state. *)
Definition resumes_as (rec : ShardRecord (Placed N)) (w : bytes) (out : ReviveOutcome) (u : bytes) : Prop :=
  if from_last_known_good out then serialize (last_known_good rec) = Ok u else u = w.

Lemma reload_plan_out rec pv w g p : reload_plan (Sh := Placed N) rec pv w g p -> revived (plan_out p) = plan_revives p.
Proof using. by destruct 1. Qed.

Lemma reload_plan_state rec pv w g state lkg used out :
  wf_schema (state_schema rec) -> reload_plan (Sh := Placed N) rec pv w g (Resume state lkg used out) ->
  (forall u, serialize state = Ok u -> resumes_as rec w out u) /\
  ((forall u, serialize state <> Ok u) -> forall u, serialize (last_known_good rec) <> Ok u).
Proof using.
  intros Hwf H. unfold resumes_as. inversion H as [| |n fb v _ _ (g' & Ha)|n e|]; subst; cbn [from_last_known_good]; [|done].
  pose proof (admitted_canonical w (state_schema rec) FirstError g g' (Admission_accept lkg) lkg Hwf Ha eq_refl) as E.
  split; [intros u Hu; congruence|]. intros Hno. by destruct (Hno w).
Qed.

(** The bus's answer [ro] to a link [l] without a channel, and the link [l'] it leaves. *)
Definition answered_by (id : ShardId) (w : bytes) (l : Link) (b0 : HBus) (ro : ReviveOutcome) (l' : Link) : Prop :=
  if revived ro then exists rec, shards b0 !! id = Some rec /\ relaunched (resumes_as rec w ro) l l' else l' = l.

Lemma reload_answer (T : Mounts) (h : Host) id t l w :
  watching (Ob := Ob) -> host_ok cg T h -> T !! id = Some t -> link_at id h = Some l -> l_channel l = None ->
  match reload id w (hbus h) with
  | (b, Ok ro) => alive id b = revived ro || alive id (hbus h) /\
      exists l', link_at id (set_hbus b h) = Some l' /\ answered_by id w l (hbus h) ro l'
  | _ => unencodable id (hbus h)
  end.
Proof using n_laws.
  intros Hwatch Hh HT Hl Hc. destruct (mounted_link cg T h id t Hh HT) as (l' & Hl' & _ & Hlk).
  rewrite Hl in Hl'. injection Hl' as <-. pose proof Hl as Hat. unfold link_at, shard, find in Hl.
  destruct (shards (hbus h) !! id) as [rec|] eqn:Hr; [|done]. cbn in Hl.
  destruct (rec_shard rec) as [|l'] eqn:Hsh; [done|]. injection Hl as ->.
  destruct (ca_policy _ (proj2 Hlk)) as [pv Hpv].
  destruct (ok_records _ (proj1 (ho_bus _ _ _ Hh)) id rec Hr) as (_ & _ & Hrec).
  destruct (reload_spec id w (hbus h) rec pv (ho_bus _ _ _ Hh) Hr) as (p & Hp & Hk & Hx).
  { rewrite Hsh. change (policy (Remote l)) with (deref (l_policy_value l)). by rewrite Hpv. }
  pose proof (reload_plan_out _ _ _ _ _ Hp) as Hout.
  assert (alive id (hbus h) = rec_alive rec) as Eal by (unfold alive, find; by rewrite Hr).
  destruct p as [out|state lkg used out]; cbn [plan_out plan_revives] in Hout.
  - destruct (reload id w (hbus h)) as [b r]. cbn [fst snd] in Hx. destruct Hx as (Hs & _ & Hw).
    rewrite (Hw Hwatch). unfold answered_by. rewrite Hout. split; [unfold alive, find; by rewrite Hs|].
    exists l. split; [|done]. unfold link_at, shard, find. cbn. by rewrite Hs, Hr; cbn; rewrite Hsh.
  - destruct (reload_plan_state _ _ _ _ _ _ _ _ (ok_state_wf _ _ Hrec) Hp) as [Hsays Hno].
    pose proof (respawn_runs t state l Hlk Hc) as Hrun. rewrite Hsh in Hx.
    change (revive (Remote l) state) with (let '(l, r) := respawn_and_revive exe cg state l in (@Remote N l, r)) in Hx.
    destruct (respawn_and_revive exe cg state l) as [l' r], (reload id w (hbus h)) as [b res].
    cbn [fst snd] in Hx. destruct Hx as (Hs & Hok & Hw).
    destruct r as [[]|e|].
    2, 3: by destruct res as [ro|?|]; [destruct (Hok ro eq_refl)|exists rec; auto..].
    rewrite (Hw Hwatch eq_refl).
    unfold answered_by. rewrite Hout. unfold alive, find, link_at, shard. cbn. rewrite Hs, lookup_insert_eq.
    split; [done|]. exists l'. split; [unfold find; by rewrite Hs, lookup_insert_eq|]. exists rec.
    split; [done|]. exact (relaunched_weaken _ _ _ _ Hsays Hrun).
Qed.

(** *** A turn, step by step *)

Lemma kill_watched id (b : HBus) :
  watching (Ob := Ob) -> is_Some (shards b !! id) -> exists b', kill id b = (b', Ok tt) /\ alive id b' = false.
Proof using.
  intros Hwatch [rec Hr]. unfold kill. rewrite (M_bind_ok (gets _) _ b b _ eq_refl). unfold find. rewrite Hr.
  rewrite (M_bind_ok (modify _) _ b _ tt eq_refl). set (b1 := update_shard id _ b).
  set (ev := lifecycle_event _ _ _ _ _). destruct (grows_frame _ _ (emit_grows ev b1)) as (_ & Hs & _).
  destruct (emit_watching Hwatch ev b1) as (Hw & _). destruct (emit ev b1) as [b2 r]. cbn [fst snd] in *. subst r.
  exists b2. split; [done|]. unfold alive, find. rewrite Hs. cbn. by rewrite lookup_alter_eq, Hr.
Qed.

(** A child found down, before the bus is asked: its link torn down and marked dead,
    [h1] being the host then. *)
Definition laid_out (id : ShardId) (l : Link) (h : Host) (l1 : Link) (h1 : Host) : Prop :=
  exists l0 h0, struck id l h l0 h0 /\ teardown_child cg l0 = (l1, Ok tt) /\ h1 = put_link id l1 h0 /\
    link_at id h1 = Some l1 /\ l_channel l1 = None /\ due l1 /\ spent (l_os l1).

(** What is done with the bus's answer: a child that came back connected is marked
    well, any other is given up and torn down. *)
Definition acted_on (id : ShardId) (ro : ReviveOutcome) (l2 : Link) (h2 h' : Host) : Prop :=
  if revived ro && bool_decide (is_Some (l_channel l2)) then h' = put_link id (set_life false false false l2) h2
  else exists l3, teardown_child cg (set_life true (l_death_signaled l2) true l2) = (l3, Ok tt) /\
    h' = put_link id l3 h2 /\ l_dead l3 = true /\ l_quarantined l3 = true /\ l_channel l3 = None /\ spent (l_os l3).

(** The last lines of [recover]. *)
Definition act (id : ShardId) (ro : ReviveOutcome) : M Host unit :=
  l ← gets (link_at id);
  l ← lift (deref l);
  if revived ro && bool_decide (is_Some (l_channel l))
  then link_do id (modify (fun l => set_life false false (l_quarantined l) l))
  else
    _ ← link_do id (modify (fun l => set_life true (l_death_signaled l) true l));
    link_do id (teardown_child cg).

Lemma put_link_twice id l l' (h : Host) : put_link id l' (put_link id l h) = put_link id l' h.
Proof using.
  unfold put_link, set_hbus, update_shard. cbn. f_equal. unfold set_shards. cbn. f_equal.
  apply map_eq. intros i. destruct (decide (i = id)) as [->|Hi].
  - rewrite !lookup_alter_eq. by destruct (shards (hbus h) !! id) as [[]|].
  - by rewrite !lookup_alter_ne.
Qed.

Lemma recover_laid_out (T : Mounts) (h : Host) id t l :
  host_ok cg T h -> T !! id = Some t -> link_at id h = Some l -> due l ->
  exists l1 h1, teardown_child cg l = (l1, Ok tt) /\ h1 = put_link id l1 h /\ link_at id h1 = Some l1 /\
    l_channel l1 = None /\ due l1 /\ spent (l_os l1) /\ host_ok cg T h1 /\
    recover exe cg id h = (ro ← bus_do (reload id (l_snapshot_bytes l)); act id ro) h1.
Proof using.
  intros Hh HT Hl Hdue. destruct (mounted_link cg T h id t Hh HT) as (l' & Hl' & Hid & Hlk).
  rewrite Hl in Hl'. injection Hl' as <-. unfold recover.
  destruct (teardown_kept cg t l (proj1 Hlk)) as (l1 & E1 & Hl1 & Hs1 & Hc1 & Hsp1).
  rewrite (M_bind_ok _ _ _ _ _ (link_do_run id _ l l1 _ h Hl E1)).
  destruct (link_kept cg t l l1 Hlk Hl1 Hs1) as [Hlk1 (Hid1 & Hlife1 & _ & _ & _ & Hsnap & _)]. rewrite Hid in Hid1.
  pose proof (put_link_host cg T h id t l1 Hh HT Hid1 Hlk1) as Hh1. pose proof (put_link_at id l l1 h Hl) as Ht1.
  exists l1, (put_link id l1 h). do 4 (split; [done|]). split; [by eapply due_life|]. split; [done|]. split; [done|].
  rewrite (M_bind_ok (gets _) _ _ _ _ eq_refl), Ht1, (M_bind_ok (lift _) _ _ _ l1 eq_refl), Hid1, Hsnap.
  done.
Qed.

Lemma act_runs (T : Mounts) (h : Host) id t l ro :
  host_ok cg T h -> T !! id = Some t -> link_at id h = Some l -> due l ->
  exists h', act id ro h = (h', Ok tt) /\ acted_on id ro l h h'.
Proof using.
  intros Hh HT Hl [Hd Hq]. destruct (mounted_link cg T h id t Hh HT) as (l' & Hl' & Hid & Hlk).
  rewrite Hl in Hl'. injection Hl' as <-. unfold act, acted_on.
  rewrite (M_bind_ok (gets _) _ h h _ eq_refl), Hl, (M_bind_ok (lift _) _ h h l eq_refl).
  destruct (revived ro && bool_decide (is_Some (l_channel l))) eqn:Eb.
  - rewrite (link_do_run id (modify (fun l => set_life false false (l_quarantined l) l)) l _ (Ok tt) h Hl eq_refl), Hq.
    by eexists.
  - set (l2 := set_life true (l_death_signaled l) true l).
    rewrite (M_bind_ok _ _ _ _ _
      (link_do_run id (modify (fun l => set_life true (l_death_signaled l) true l)) l l2 (Ok tt) h Hl eq_refl)).
    assert (link_ok cg t l2) as Hlk2 by (by apply set_life_keeps).
    destruct (teardown_kept cg t l2 (proj1 Hlk2)) as (l3 & E3 & _ & (_ & Hlife & _) & Hc & Hsp).
    rewrite (link_do_run id _ l2 l3 _ _ (put_link_at id l l2 h Hl) E3), put_link_twice.
    eexists. split; [reflexivity|]. exists l3. split; [done|]. injection Hlife as -> _ ->. done.
Qed.

Lemma put_link_alive id l i (h : Host) : alive i (hbus (put_link id l h)) = alive i (hbus h).
Proof using.
  unfold alive, find. cbn. destruct (decide (i = id)) as [->|Hi]; [|by rewrite lookup_alter_ne].
  rewrite lookup_alter_eq. by destruct (shards (hbus h) !! id).
Qed.

Lemma acted_alive id ro l (h h' : Host) : acted_on id ro l h h' -> alive id (hbus h') = alive id (hbus h).
Proof using.
  unfold acted_on. destruct (revived ro && _); [intros ->; apply put_link_alive|].
  intros (l3 & _ & -> & _). apply put_link_alive.
Qed.

(** Down to the question: [supervise] on a child found down. *)
Lemma supervise_down (T : Mounts) (h : Host) id t l :
  watching (Ob := Ob) -> host_ok cg T h -> T !! id = Some t -> link_at id h = Some l ->
  l_quarantined l = false -> l_dead l || gone l = true ->
  exists l1 h1, laid_out id l h l1 h1 /\ host_ok cg T h1 /\
    supervise exe cg id h = (ro ← bus_do (reload id (l_snapshot_bytes l)); act id ro) h1.
Proof using.
  intros Hwatch Hh HT Hl Hq Hdown. destruct (mounted_link cg T h id t Hh HT) as (l' & Hl' & Hid & Hlk).
  rewrite Hl in Hl'. injection Hl' as <-. unfold supervise.
  rewrite (M_bind_ok (gets _) _ h h _ eq_refl), Hl, (M_bind_ok (lift _) _ h h l eq_refl), Hq. cbv zeta.
  change (match l_channel l with None => true | Some ch => Channel_done ch end) with (gone l).
  destruct (gone l && negb (l_death_signaled l)) eqn:Ed.
  - set (l0 := set_life true true false l).
    assert (host_ok cg T (put_link id l0 h)) as Hh0.
    { apply (put_link_host cg T h id t); [done|done|exact Hid|]. by apply set_life_keeps. }
    pose proof (put_link_at id l l0 h Hl) as Ht0.
    destruct (kill_host cg T id t _ l0 Hh0 HT Ht0) as [Hhk Htk].
    destruct (kill_watched id (hbus (put_link id l0 h)) Hwatch) as (b & Eb & Hal); [by apply (ho_ids _ _ _ Hh0); exists t|].
    assert (bus_do (kill id) (put_link id l0 h) = (set_hbus b (put_link id l0 h), Ok tt)) as Ek
      by (unfold bus_do; by rewrite Eb).
    rewrite Ek in Hhk, Htk. cbn [fst] in Hhk, Htk.
    assert ((_ ← link_do id (modify (fun l => set_life true true (l_quarantined l) l)); bus_do (kill (l_id l))) h =
      (set_hbus b (put_link id l0 h), Ok tt)) as E.
    { rewrite (M_bind_ok _ _ _ _ _ (link_do_run id (modify (fun l => set_life true true (l_quarantined l) l)) l _ (Ok tt) h Hl eq_refl)).
      by rewrite Hq, Hid. }
    rewrite (M_bind_ok _ _ _ _ _ E), (M_bind_ok (gets _) _ _ _ _ eq_refl), Htk, (M_bind_ok (lift _) _ _ _ l0 eq_refl).
    change (l_dead l0) with true. cbv iota.
    destruct (recover_laid_out T _ id t l0 Hhk HT Htk) as (l1 & h1 & E1 & Eh1 & Ht1 & Hc1 & Hdue1 & Hsp1 & Hh1 & ->); [by split|].
    exists l1, h1. split; [|by split]. exists l0, (set_hbus b (put_link id l0 h)). unfold struck. rewrite Ed.
    by split_and!.
  - rewrite (M_bind_ok (mret tt) _ h h tt eq_refl).
    assert (l_dead l = true) as Hdead.
    { destruct (l_death_signaled l) eqn:Es; [by apply (ca_signal _ (proj2 Hlk))|].
      rewrite andb_true_r in Ed. by rewrite Ed, orb_false_r in Hdown. }
    rewrite (M_bind_ok (gets _) _ h h _ eq_refl), Hl, (M_bind_ok (lift _) _ h h l eq_refl), Hdead.
    destruct (recover_laid_out T h id t l Hh HT Hl) as (l1 & h1 & E1 & Eh1 & Ht1 & Hc1 & Hdue1 & Hsp1 & Hh1 & ->); [by split|].
    exists l1, h1. split; [|by split]. exists l, h. unfold struck. rewrite Ed. by split_and!.
Qed.

(** C20: a crashed child does not stay down unnoticed.  In every reachable host whose
    observers only watch, one turn of supervision on a mounted child that is not given
    up leaves it alone while it is connected and not marked dead.  A child found down
    is marked dead, reported dead to the bus the first time, and torn down, its process
    seen to its end; then the bus is asked once, with the child's last snapshot, to
    revive it ([reload]: its policy, its budget, its gate).  If the bus says yes the
    child is launched again; if it came up it is sent that snapshot, or the bus's last
    good state where [reload] fell back to it, and the link is marked well.  If it did
    not come up, or the bus said no, the link is given up, quarantined and torn down
    with no process left.  The bus counts it alive afterwards if its
    answer was a revival, even one that started no child.  The turn fails to
    return only if the bus's own last good state of the child cannot be encoded; when
    that throws the child is still marked dead, to be recovered in the next turn. *)
Theorem supervision_settles g report (T : Mounts) (h : Host) id l :
  watching (Ob := Ob) -> rtc (host_step variant_what exe cg) (fresh g report) (T, h) ->
  link_at id h = Some l -> l_quarantined l = false ->
  if negb (l_dead l || gone l) then supervise exe cg id h = (h, Ok tt)
  else exists l1 h1, laid_out id l h l1 h1 /\
    match reload id (l_snapshot_bytes l) (hbus h1) with
    | (b, Ok ro) => exists l2 h', supervise exe cg id h = (h', Ok tt) /\
        link_at id (set_hbus b h1) = Some l2 /\ answered_by id (l_snapshot_bytes l) l1 (hbus h1) ro l2 /\
        acted_on id ro l2 (set_hbus b h1) h' /\
        alive id (hbus h') = revived ro || alive id (hbus h1)
    | (b, Throw e) => supervise exe cg id h = (set_hbus b h1, Throw e) /\ unencodable id (hbus h1) /\
        exists l2, link_at id (set_hbus b h1) = Some l2 /\ due l2
    | (b, UB) => supervise exe cg id h = (set_hbus b h1, UB) /\ unencodable id (hbus h1)
    end.
Proof using n_laws.
  intros Hwatch Hs Hl Hq. pose proof (reachable_host variant_what exe cg g report (T, h) Hs) as Hh. cbn in Hh.
  destruct (link_at_mounted cg T h id l Hh Hl) as (t & HT & Hid & Hlk).
  destruct (l_dead l || gone l) eqn:Hdown; cbn [negb].
  2: { apply orb_false_iff in Hdown as [Hd Hg]. unfold supervise.
    rewrite (M_bind_ok (gets _) _ h h _ eq_refl), Hl, (M_bind_ok (lift _) _ h h l eq_refl), Hq. cbv zeta.
    change (match l_channel l with None => true | Some ch => Channel_done ch end) with (gone l). rewrite Hg.
    cbn [andb]. rewrite (M_bind_ok (mret tt) _ h h tt eq_refl), (M_bind_ok (gets _) _ h h _ eq_refl), Hl.
    by rewrite (M_bind_ok (lift _) _ h h l eq_refl), Hd. }
  destruct (supervise_down T h id t l Hwatch Hh HT Hl Hq Hdown) as (l1 & h1 & Hlaid & Hh1 & E).
  exists l1, h1. split; [done|]. destruct Hlaid as (l0 & h0 & _ & _ & _ & Ht1 & Hc1 & Hdue1 & _).
  pose proof (reload_answer T h1 id t l1 (l_snapshot_bytes l) Hwatch Hh1 HT Ht1 Hc1) as Ha.
  pose proof (reload_host exe cg T id (l_snapshot_bytes l) h1 Hh1) as Hh2.
  destruct (reload_life exe cg T id t (l_snapshot_bytes l) h1 l1 Hh1 HT Ht1) as (l2 & Ht2 & Hlife2).
  rewrite E. unfold mbind, M_bind. unfold bus_do in *.
  destruct (reload id (l_snapshot_bytes l) (hbus h1)) as [b [ro|e|]]; cbn [fst] in Hh2, Ht2.
  - destruct Ha as (Hal & l2' & Ht2' & Hans). rewrite Ht2 in Ht2'. injection Ht2' as <-.
    destruct (act_runs T _ id t l2 ro Hh2 HT Ht2) as (h' & Eh' & Hact); [by eapply due_life|].
    exists l2, h'. do 4 (split; [done|]). by rewrite (acted_alive id ro _ _ _ Hact).
  - split; [done|]. split; [done|]. exists l2. split; [done|by eapply due_life].
  - by split.
Qed.
End supervision.
