(* ===== verification/HostScenarios.v ===== *)
(** * Concrete runs of the isolation host

    A host that can enforce everything mounts a child with no rights at all; the
    child crashes and cannot be started again.  The theorems about the host, its
    children and the system calls made for them, applied to these runs. *)

From S2P Require Import Prelude Schema Value Registry Gate Binary Serialize SchemaCodec Protocol Channel Grant Bus Switchboard Enqueue Invariant Scenarios Residents Posix Sandbox Confine Host HostSafety SandboxSafety ConfineSafety Reaping Detection HostInvariant HostRun Supervision.

(** ** What the system answers *)

Definition yes : Answer := mkAnswer 0 FOther [] 0 0.
Definition no : Answer := no_answer.
Definition ret (r : Z) : Answer := mkAnswer r FOther [] 0 0.
Definition pair (x y : Z) : Answer := mkAnswer 0 FOther [] x y.
Definition text (t : bytes) : Answer := mkAnswer 0 FOther t 0 0.

(** A memory and process controller. *)
Definition cg : Cgroup := mkCgroup "/sys/fs/cgroup/z" true true false.
Definition report : EnforcementReport :=
  [mkStatus Network true [] []; mkStatus Filesystem true [] []; mkStatus Resources true [] []].

(** The system during the mount, call by call. *)
Definition mount_answers : list Answer :=
  (* the view root, the five directories of the loader, the memory *)
  [text "/tmp/zen-sb-1"; no; no; no; no; no; no] ++
  (* the socket pair, the root, the control group with its three limits *)
  [pair 10 11; yes; yes; yes; yes; yes; yes] ++
  (* the two pipes, the fork, the child's signal *)
  [pair 12 13; pair 14 15; ret 100; yes; yes; mkAnswer 1 FOther [chr 1] 0 0] ++
  (* the id maps *)
  [ret 5; ret 4; yes; ret 1000; ret 5; ret 9; yes; ret 1000; ret 5; ret 9; yes] ++
  (* the move, the release, the ends closed, the clock *)
  [yes; ret 1; yes; yes; yes; ret 0] ++
  (* the namespaces, the control group *)
  [pair 1 2; pair 1 3; pair 1 4; pair 1 5; text "0::/z/zen-shard-0"] ++
  [text ("536870912" ++ [chr 10]); text ("512" ++ [chr 10])].

(** The child's greeting, then the end of its stream. *)
Definition manifest_bytes : bytes :=
  match (m ← encode_manifest [Some player] player; serialize m) with Ok w => w | _ => [] end.
Definition policy_bytes : bytes := match serialize two_lives with Ok w => w | _ => [] end.
Definition snapshot_wire : bytes := match serialize ami with Ok w => w | _ => [] end.
Definition hello_frame : Incoming :=
  mkIncoming Op_Hello (put_bytes (put_bytes (put_bytes [] manifest_bytes) policy_bytes) snapshot_wire).

Definition child_os : OS :=
  mkOS mount_answers [] [] [Got (frame hello_frame); RecvError EAGAIN; Got []] [].

(** ** The runs *)

Abbreviation Lab := (IsolationHost Echo (list BusEvent)).

Definition host0 : Lab := Host_new (Switchboard_new 0) report.
Definition exe : bytes := "/opt/zen/shard-host".

Definition host1 : Lab := (mount [] exe cg "kid" "/opt/zen/kid.so" nothing child_os host0).1.
Definition mounted1 := (mount [] exe cg "kid" "/opt/zen/kid.so" nothing child_os host0).2.

Example host1_mounted : mounted1 = Ok (mkMount true 1 []).
Proof. vm_compute. reflexivity. Qed.

Definition mounts1 : gmap ShardId Terms := after_mount ∅ host0 nothing mounted1.

Lemma child_os_answered : answered modest (child_os).
Proof.
  unfold answered. cbn [answers child_os mount_answers]. repeat apply Forall_cons_2; try apply Forall_nil_2;
    (split; [by split|]); intros n; destruct n as [|[|[|n]]]; vm_compute; by split.
Qed.

Lemma host1_reached : rtc (host_step [] exe cg) (fresh 0 report) (mounts1, host1).
Proof.
  apply rtc_once. apply (hs_mount [] exe cg ∅ host0 "kid" "/opt/zen/kid.so" nothing child_os);
    [by vm_compute|exact child_os_answered|]. apply surjective_pairing.
Qed.

(** The child's link. *)
Definition kid : Link := default (Link_new [] [] child_os) (link_at 1 host1).

Lemma kid_there : link_at 1 host1 = Some kid.
Proof. vm_compute. reflexivity. Qed.

(** A turn later the child's stream has ended, and the system gives no answers any
    more: no socket pair for a new child. *)
Definition host2 : Lab := from_option fst host1 (Host.step exe cg 10 host1).

Lemma host2_reached : rtc (host_step [] exe cg) (fresh 0 report) (mounts1, host2).
Proof.
  eapply rtc_r; [exact host1_reached|]. apply (hs_turn [] exe cg mounts1 host1 10 host2 (Ok tt)).
  vm_compute. reflexivity.
Qed.

(** The first turn took the end of the stream in and already gave the child up. *)
Example host2_given_up : quarantined "kid" host2 = true.
Proof. vm_compute. reflexivity. Qed.

(** Given up by its host, the child is still alive for the bus, which goes on
    recording deliveries to it: the revival returned, though no child was started. *)
Example given_up_yet_alive : quarantined "kid" host2 = true /\ alive 1 (hbus host2) = true.
Proof. split; vm_compute; reflexivity. Qed.

(** ** The theorems applied *)

(** The child sends its state to itself. *)
Definition emit_frame : Incoming :=
  mkIncoming Op_Emit (put_u64 (put_u64 (put_u64 (put_u8 [] 0) 1) 0) 7 ++ snapshot_wire).

Lemma kid_state : l_id kid = 1 /\ l_state_schema kid = Some player /\ is_Some (l_channel kid) /\ l_quarantined kid = false.
Proof. split; [|split; [|split]]; [vm_compute; reflexivity..|eexists; vm_compute; reflexivity|vm_compute; reflexivity]. Qed.

Lemma child_confined_witness :
  exists h', handle_child_frame 1 emit_frame host1 = (h', Ok tt) /\ frame_effect 1 kid emit_frame host1 h'.
Proof.
  apply (child_confined 1 emit_frame host1 kid player).
  - exact (proj1 (ho_bus _ _ _ (reachable_host [] exe cg 0 report _ host1_reached))).
  - exact kid_there.
  - exact (proj1 kid_state).
  - exact (proj1 (proj2 kid_state)).
  - exact player_wf.
  - by vm_compute.
Defined.

Lemma children_confined_witness :
  Forall2 (resolved_as (terms host0 nothing)) [Network; Filesystem; Resources] (l_resolutions kid) /\
  evidence cg kid Network (log (l_os kid)).
Proof.
  destruct (children_confined [] exe cg 0 report mounts1 host1 1 kid host1_reached kid_there)
    as (_ & _ & (t & Ht & Hr) & _ & Hev).
  assert (mounts1 !! (1 : Z) = Some (terms host0 nothing)) as Ht' by (vm_compute; reflexivity).
  rewrite Ht in Ht'. injection Ht' as ->. split; [exact Hr|].
  apply Hev; [exact (proj1 (proj2 (proj2 kid_state)))|vm_compute; reflexivity].
Defined.

Lemma mount_fail_safe_witness :
  exists h' r, mount [] exe cg "kid" "/opt/zen/kid.so" nothing child_os host0 = (h', Ok r) /\
    links h' = <[str "kid" := mount_id r]> ∅.
Proof.
  destruct (mount_fail_safe [] exe cg 0 report ∅ host0 "kid" "/opt/zen/kid.so" nothing child_os
    (rtc_refl _ _) ltac:(by vm_compute) child_os_answered) as (h' & r & E & H).
  assert (mounted1 = Ok r) as Er by (unfold mounted1; by rewrite E).
  assert (mount_ok r = true) as Hok by (rewrite host1_mounted in Er; injection Er as <-; reflexivity).
  rewrite Hok in H. exists h', r. split; [exact E|exact (proj1 (proj2 H))].
Defined.

(** The bus revives the child on its own; the system gives no answers any more, so the
    child is down afterwards. *)
Definition host3 : Lab := set_hbus (reload (H := Host.placed exe cg) 1 snapshot_wire (hbus host1)).1 host1.
Definition kid3 : Link := default kid (link_at 1 host3).

Lemma host3_reached : rtc (host_step [] exe cg) (fresh 0 report) (mounts1, host3).
Proof. eapply rtc_r; [exact host1_reached|]. apply hs_bus, bs_reload. Qed.

Lemma kid3_down : link_at 1 host3 = Some kid3 /\ l_quarantined kid3 = false /\ l_dead kid3 || gone kid3 = true.
Proof. split; [|split]; vm_compute; reflexivity. Qed.

Lemma supervision_settles_witness :
  exists l1 h1, laid_out cg 1 kid3 host3 l1 h1 /\ l_channel l1 = None.
Proof.
  pose proof (supervision_settles [] exe cg 0 report mounts1 host3 1 kid3 log_watches host3_reached
    (proj1 kid3_down) (proj1 (proj2 kid3_down))) as H. rewrite (proj2 (proj2 kid3_down)) in H.
  destruct H as (l1 & h1 & Hl & _). exists l1, h1. split; [exact Hl|]. by destruct Hl as (l0 & h0 & _ & _ & _ & _ & ? & _).
Defined.

Lemma host_destroyed_witness :
  exists h', Host_destroy cg host1 = (h', Ok tt) /\ links h' = ∅ /\
    exists os, os ∈ past h' /\ 100 ∈ kids (log os) /\ ended 100 (log os).
Proof.
  destruct (host_destroyed [] exe cg 0 report mounts1 host1 host1_reached) as (h' & E & El & _ & _ & Hb & Hsp).
  exists h'. split; [exact E|]. split; [exact El|]. destruct (Hb 1 kid kid_there) as (os & Hos & k & Hk).
  assert (100 ∈ kids (log os)) as Hkid.
  { rewrite Hk, kids_app. apply elem_of_app. left. refine (bool_decide_unpack _ _). vm_compute. exact I. }
  exists os. split; [exact Hos|]. split; [exact Hkid|]. by apply Hsp.
Defined.

Lemma exchange_safe_witness : exists h', exchange 1 host1 = (h', Ok tt) /\ is_Some (link_at 1 h').
Proof.
  exact (exchange_safe [] exe cg 0 report mounts1 host1 1 host1_reached (mk_is_Some _ _ kid_there)).
Defined.

(** A child launched without a sandbox. *)
Definition plain_os : OS :=
  mkOS [pair 10 11; yes; pair 100 0; yes; ret 0] [] [] [Got (frame hello_frame)] [].
Definition plain_link : Link := Link_new "kid" "/opt/zen/kid.so" plain_os.

Lemma launch_accounts_witness :
  exists l1 r l2, spawn_and_handshake exe cg plain_link = (l1, Ok r) /\
    teardown_child cg l1 = (l2, Ok tt) /\ l_channel l2 = None /\ exists leak, holding (leak ++ []) (l_os l2).
Proof.
  destruct (launch_accounts exe cg plain_link [] eq_refl) as (l1 & r & t1 & E & _ & _ & _ & l2 & t2 & leak & E2 & Hc & _ & _ & _ & Hh & _).
  - unfold answered. cbn. repeat apply Forall_cons_2; try apply Forall_nil_2; by split; [split|].
  - constructor.
  - exists l1, r, l2. split; [exact E|]. split; [exact E2|]. split; [exact Hc|]. by exists leak.
Defined.

(** The second pipe cannot be made: the first stays open. *)
Definition leaky_link : Link :=
  set_resolutions [mkResolution Network Enforced false []]
    (Link_new "kid" "/opt/zen/kid.so" (mkOS [pair 10 11; yes; pair 12 13] [] [] [] [])).

Example pipe_leaked :
  holding [12; 13] (l_os (teardown_child cg (spawn_and_handshake exe cg leaky_link).1).1).
Proof. unfold holding. vm_compute. solve_Permutation. Qed.

Lemma detect_enforcement_spec_witness :
  exists os' report cg, detect_enforcement (mkOS [] [] [] [] []) = (os', Ok (report, cg)) /\ holding [] os'.
Proof.
  destruct (detect_enforcement_spec [] (mkOS [] [] [] [] [])) as (os1 & root & os2 & os3 & os' & rep & c & E & _ & _ & _ & _ & _ & _ & _ & Hh & _).
  - constructor.
  - constructor.
  - exists os', rep, c. split; [exact E|exact Hh].
Defined.

Lemma parse_ll_roundtrip_witness : parse_ll (to_string_signed (-42) ++ [chr 10]) = -42.
Proof. apply (parse_ll_roundtrip (-42)). by vm_compute. Defined.
