(* ===== verification/Child.v ===== *)
(** * The child program

    [src/isolation/shard_host_main.cpp]: the process the isolation host launches.
    It loads one library, says Hello, and serves the frames of its socket until the
    parent goes, a Deliver is cut short or a Shutdown comes.

    Its socket blocks.  What [send] and [recv] return is an input, as in [Channel]:
    a list of results for [send], and for [recv] the chunks as they arrive, of which
    a call takes no more than it asked for and leaves the rest.  Past its list a
    socket is closed: [send] fails, [recv] reports the end.  The octets sent are
    an output, the wire. *)

From S2P Require Import Prelude Binary Protocol Channel Abi Kernel Sandbox.

Record Child (I : Type) : Type := mkChild {
  g_sock : Z;
  c_tx : list SendResult; c_rx : list RecvResult; c_wire : bytes;
  c_lib : bool; c_instance : option I
}.
Arguments mkChild {I} _ _ _ _ _ _.
Arguments g_sock {I} _.
Arguments c_tx {I} _.
Arguments c_rx {I} _.
Arguments c_wire {I} _.
Arguments c_lib {I} _.
Arguments c_instance {I} _.

(** A process as it starts, on a socket. *)
Definition Child_new {I : Type} (tx : list SendResult) (rx : list RecvResult) : Child I :=
  mkChild (-1) tx rx [] false None.

Definition set_sock {I : Type} (fd : Z) (c : Child I) : Child I :=
  mkChild fd (c_tx c) (c_rx c) (c_wire c) (c_lib c) (c_instance c).
Definition set_tx {I : Type} (tx : list SendResult) (w : bytes) (c : Child I) : Child I :=
  mkChild (g_sock c) tx (c_rx c) w (c_lib c) (c_instance c).
Definition set_rx {I : Type} (rx : list RecvResult) (c : Child I) : Child I :=
  mkChild (g_sock c) (c_tx c) rx (c_wire c) (c_lib c) (c_instance c).
Definition set_lib {I : Type} (o : bool) (c : Child I) : Child I :=
  mkChild (g_sock c) (c_tx c) (c_rx c) (c_wire c) o (c_instance c).
Definition set_child_instance {I : Type} (i : option I) (c : Child I) : Child I :=
  mkChild (g_sock c) (c_tx c) (c_rx c) (c_wire c) (c_lib c) i.

(** ** The socket *)

(** The loop of [write_all]; [wire] grows by what each call sent. *)
Fixpoint send_loop (io : list SendResult) (p : bytes) (off : Z) (wire : bytes)
  : bool * list SendResult * bytes :=
  if off <? zlen p then
    match io with
    | [] => (false, [], wire)
    | Sent n :: io =>
        if n >? 0 then send_loop io p (u64 (off + n)) (wire ++ take (Z.to_nat n) (drop (Z.to_nat off) p))
        else (false, io, wire)
    | SendError EINTR :: io => send_loop io p off wire
    | SendError _ :: io => (false, io, wire)
    end
  else (true, io, wire).

(** The loop of [read_exact]: [None] for its [false], else the [n] octets. *)
Fixpoint recv_exact (io : list RecvResult) (n : Z) (got : bytes) : option bytes * list RecvResult :=
  if zlen got <? n then
    match io with
    | [] => (None, [])
    | Got b :: io =>
        if zlen b >? 0 then
          let asked := u64 (n - zlen got) in
          if zlen b <=? asked then recv_exact io n (got ++ b)
          else (Some (got ++ take (Z.to_nat asked) b), Got (drop (Z.to_nat asked) b) :: io)
        else (None, io)
    | RecvError EINTR :: io => recv_exact io n got
    | RecvError _ :: io => (None, io)
    end
  else (Some got, io).

Section child.
Context {I : Type} `{l_ops : LibraryOps I}.

Definition write_all (p : bytes) : M (Child I) bool := fun c =>
  let '(ok, io, w) := send_loop (c_tx c) p 0 (c_wire c) in (set_tx io w c, Ok ok).

Definition send_frame (op : Z) (payload : bytes) : M (Child I) unit :=
  let frame := put_u32 [] (u32 (zlen payload)) in
  let frame := put_u8 frame op in
  let frame := frame ++ payload in
  _ ← write_all frame; mret tt.

Definition read_exact (n : Z) : M (Child I) (option bytes) := fun c =>
  let '(r, io) := recv_exact (c_rx c) n [] in (set_rx io c, Ok r).

Definition read_frame : M (Child I) (option Incoming) :=
  header ← read_exact 5;
  match header with
  | None => mret None
  | Some header =>
      h ← lift (read_header (Cursor_new header)).2;
      let '(len, op) := (h : Z * Z) in
      if len >? kMaxFrameLen then mret None else
      payload ← (if len >? 0 then read_exact len else mret (Some []));
      mret (mkIncoming op <$> payload)
  end.

(** ** The library *)

(** A call of a thunk on a destroyed instance is undefined. *)
Definition the_instance : M (Child I) I := c ← gets (fun c => c); lift (deref (c_instance c)).

Definition destroy_instance : M (Child I) unit :=
  _ ← the_instance; modify (set_child_instance None).

Definition ship_emit (kind target reply_to correlation : Z) (payload : bytes) : M (Child I) Z :=
  let out := put_u8 [] kind in
  let out := put_u64 out target in
  let out := put_u64 out reply_to in
  let out := put_u64 out correlation in
  _ ← send_frame Op_Emit (out ++ payload);
  mret ZEN_OK.

Definition emit_snapshot : M (Child I) bool :=
  i ← the_instance;
  r ← lift (abi_snapshot i);
  let '(snap, st) := (r : bytes * Z) in
  if negb (st =? ZEN_OK) then mret false else
  _ ← send_frame Op_Snapshot snap; mret true.

Definition zen_child_send (target reply_to correlation : Z) (payload : bytes) : M (Child I) Z :=
  ship_emit kEmitSend target reply_to correlation payload.
Definition zen_child_publish (reply_to correlation : Z) (payload : bytes) : M (Child I) Z :=
  ship_emit kEmitPublish 0 reply_to correlation payload.

(** The library's run of [handle] over the two callbacks. *)
Fixpoint child_calls (c : LibCall I) : M (Child I) Z :=
  match c with
  | LibReturn i st => _ ← modify (set_child_instance (Some i)); mret st
  | LibSend i target reply_to correlation payload k =>
      _ ← modify (set_child_instance (Some i));
      st ← zen_child_send target reply_to correlation payload;
      child_calls (k st)
  | LibPublish i reply_to correlation payload k =>
      _ ← modify (set_child_instance (Some i));
      st ← zen_child_publish reply_to correlation payload;
      child_calls (k st)
  | LibCrash _ => lift UB
  end.

(** ** The program *)

(** [describe && policy && snapshot], and the payload of Hello. *)
Definition hello_parts_of (i : I) : result (option (bytes * bytes * bytes)) :=
  m ← abi_describe i;
  if negb (m.2 =? ZEN_OK) then Ok None else
  p ← abi_policy i;
  if negb (p.2 =? ZEN_OK) then Ok None else
  s ← abi_snapshot i;
  if negb (s.2 =? ZEN_OK) then Ok None else Ok (Some (m.1, p.1, s.1)).

Definition hello_payload (x : bytes * bytes * bytes) : bytes :=
  let '(manifest, pol, snapshot) := x in
  put_bytes (put_bytes (put_bytes [] manifest) pol) snapshot.

(** One turn of the loop, after its frame was read: whether to go on. *)
Definition serve_frame (f : Incoming) : M (Child I) bool :=
  if in_op f =? Op_Deliver then
    x ← lift (parse_payload (both (both Cursor_u64 Cursor_u64) Cursor_u64) (in_payload f));
    match x with
    | None => mret false
    | Some (sender, reply_to, correlation, w) =>
        i ← the_instance;
        _ ← child_calls (abi_handle i sender reply_to correlation w);
        _ ← emit_snapshot;
        mret true
    end
  else if in_op f =? Op_Revive then
    state ← lift (Cursor_rest (Cursor_new (in_payload f))).2;
    i ← the_instance;
    let '(i, st) := abi_revive i state in
    _ ← modify (set_child_instance (Some i));
    _ ← lift st;
    _ ← emit_snapshot;
    mret true
  else mret (negb (in_op f =? Op_Shutdown)).

(** The [for (;;)]: a frame takes five octets or more from those that arrive. *)
Fixpoint serve (rounds : nat) : M (Child I) unit :=
  match rounds with
  | O => lift UB
  | S rounds =>
      f ← read_frame;
      match f with
      | None => mret tt
      | Some f =>
          go ← serve_frame f;
          if (go : bool) then serve rounds else mret tt
      end
  end.

(** The octets a socket will deliver before its end. *)
Fixpoint arrived (io : list RecvResult) : bytes :=
  match io with
  | [] => []
  | Got b :: io => if zlen b >? 0 then b ++ arrived io else []
  | RecvError EINTR :: io => arrived io
  | RecvError _ :: _ => []
  end.

(** [std::atoi], in range. *)
Definition atoi (s : bytes) : Z := default 0 (scan_ll s).1.

(** [main]: the exit code.  [disk] is the loader. *)
Definition main (disk : bytes -> bytes + LibFile I) (argv : list bytes) : M (Child I) Z :=
  match argv with
  | _ :: fd :: so_path :: _ =>
      _ ← modify (set_sock (atoi fd));
      match disk so_path with
      | inl _ => mret 3
      | inr lib =>
          _ ← modify (set_lib true);
          match exported_symbol lib with
          | None => mret 4
          | Some None => mret 5
          | Some (Some abi) =>
              if negb (abi_version abi =? ZEN_ABI_VERSION) then mret 5 else
              match create abi with
              | None => mret 6
              | Some i =>
                  _ ← modify (set_child_instance (Some i));
                  parts ← lift (hello_parts_of i);
                  match parts with
                  | None => _ ← destroy_instance; mret 7
                  | Some parts =>
                      _ ← send_frame Op_Hello (hello_payload parts);
                      rounds ← gets (fun c => S (length (arrived (c_rx c))));
                      _ ← serve rounds;
                      _ ← destroy_instance;
                      _ ← modify (set_lib false);
                      mret 0
                  end
              end
          end
      end
  | _ => mret 2
  end.
End child.
