(* ===== verification/ChildRun.v ===== *)
(** * The child refines a conversation

    What the child program is for: it answers a sequence of frames by a sequence
    of frames.  [conversation] says which, on whole frames and without a socket;
    the program does it over octets that arrive and leave in any chunks. *)

From S2P Require Import Prelude Schema Value Registry Gate Native Binary Serialize Protocol Channel Grant Bus Abi Kernel Confine Host Child.

(** ** The conversation *)

Definition emitted (kind target reply_to correlation : Z) (w : bytes) : Incoming :=
  mkIncoming Op_Emit (le_bytes 1 kind ++ le_bytes 8 target ++ le_bytes 8 reply_to ++
                      le_bytes 8 correlation ++ w).

Section conversation.
Context {I : Type} `{l_ops : LibraryOps I}.

(** What a run of [handle] says, every callback answering [ZEN_OK]. *)
Fixpoint uttered (c : LibCall I) : result (list Incoming * I) :=
  match c with
  | LibReturn i _ => Ok ([], i)
  | LibSend _ target reply_to correlation w k =>
      x ← uttered (k ZEN_OK);
      Ok (emitted kEmitSend target reply_to correlation w :: x.1, x.2)
  | LibPublish _ reply_to correlation w k =>
      x ← uttered (k ZEN_OK);
      Ok (emitted kEmitPublish 0 reply_to correlation w :: x.1, x.2)
  | LibCrash _ => UB
  end.

Definition snapshot_frame (i : I) : result (list Incoming) :=
  r ← abi_snapshot i;
  Ok (if r.2 =? ZEN_OK then [mkIncoming Op_Snapshot r.1] else []).

(** The answer to one frame, and the instance after it; [None] ends the
    conversation. *)
Definition reaction (i : I) (f : Incoming) : result (option (list Incoming * I)) :=
  if in_op f =? Op_Deliver then
    x ← parse_payload (both (both Cursor_u64 Cursor_u64) Cursor_u64) (in_payload f);
    match x with
    | None => Ok None
    | Some (sender, reply_to, correlation, w) =>
        x ← uttered (abi_handle i sender reply_to correlation w);
        s ← snapshot_frame x.2;
        Ok (Some (x.1 ++ s, x.2))
    end
  else if in_op f =? Op_Revive then
    let '(i, st) := abi_revive i (in_payload f) in
    _ ← st;
    s ← snapshot_frame i;
    Ok (Some (s, i))
  else Ok (if in_op f =? Op_Shutdown then None else Some ([], i)).

Fixpoint conversation (i : I) (fs : list Incoming) : result (list Incoming) :=
  match fs with
  | [] => Ok []
  | f :: fs =>
      r ← reaction i f;
      match r with
      | None => Ok []
      | Some (out, i) => rest ← conversation i fs; Ok (out ++ rest)
      end
  end.

(** ** The socket *)

(** A parent that takes what it is sent. *)
Definition willing (r : SendResult) : Prop :=
  match r with Sent n => 0 < n < 2 ^ 63 | SendError e => e = EINTR end.

Lemma send_loop_spec io p : forall off wire,
  Forall willing io -> 0 <= off -> zlen p < 2 ^ 63 ->
  let '(ok, io', w) := send_loop io p off wire in
  Forall willing io' /\ let all := wire ++ drop (Z.to_nat off) p in
  (w = all \/ io' = [] /\ w `prefix_of` all).
Proof.
  assert (forall off (wire : bytes), zlen p <= off -> wire = wire ++ drop (Z.to_nat off) p) as Hend.
  { intros off wire H. rewrite drop_ge, app_nil_r; [done|]. unfold zlen in H. lia. }
  induction io as [|r io IH]; intros off wire Hio Ho Hp; cbn [send_loop];
    destruct (Z.ltb_spec off (zlen p)) as [Hlt|Hge].
  1: { split; [done|]. right. split; [done|]. by apply prefix_app_r. }
  1: { split; [done|]. left. by apply Hend. }
  2: { split; [done|]. left. by apply Hend. }
  apply Forall_cons in Hio as [Hr Hio]. destruct r as [n|e]; cbn in Hr; [|subst e; by apply IH].
  destruct (Z.gtb_spec n 0) as [_|]; [|lia]. rewrite u64_small by (unfold in_u64; lia).
  specialize (IH (off + n) (wire ++ take (Z.to_nat n) (drop (Z.to_nat off) p)) Hio ltac:(lia) Hp).
  replace (Z.to_nat (off + n)) with (Z.to_nat off + Z.to_nat n)%nat in IH by lia.
  by rewrite <-drop_drop, <-app_assoc, take_drop in IH.
Qed.

Lemma recv_exact_spec io n : forall got,
  0 <= n < 2 ^ 62 -> zlen got <= n ->
  let need := n - zlen got in
  if need <=? zlen (arrived io) then
    exists io', recv_exact io n got = (Some (got ++ take (Z.to_nat need) (arrived io)), io') /\
      arrived io' = drop (Z.to_nat need) (arrived io)
  else exists io', recv_exact io n got = (None, io').
Proof.
  induction io as [|r io IH]; intros got Hn Hg; cbv zeta; pose proof (zlen_nonneg got) as Hg0.
  - cbn [recv_exact arrived]. change (zlen []) with 0. destruct (Z.leb_spec (n - zlen got) 0), (Z.ltb_spec (zlen got) n);
      try lia; eexists; [|done]. rewrite take_nil, app_nil_r. split; [done|]. by rewrite drop_nil.
  - destruct (Z.ltb_spec (zlen got) n) as [Hlt|Hge].
    2: { pose proof (zlen_nonneg (arrived (r :: io))). destruct (Z.leb_spec (n - zlen got) (zlen (arrived (r :: io)))); [|lia].
         exists (r :: io). replace (Z.to_nat (n - zlen got)) with 0%nat by lia. cbn [recv_exact].
         destruct (Z.ltb_spec (zlen got) n); [lia|]. by rewrite take_0, app_nil_r. }
    assert ((n - zlen got <=? 0) = false) as Hno by (apply Z.leb_gt; lia).
    cbn [recv_exact arrived]. destruct (Z.ltb_spec (zlen got) n); [|lia].
    destruct r as [b|[| |]]; change (zlen []) with 0; [|rewrite Hno; by eexists|by apply IH|rewrite Hno; by eexists].
    destruct (Z.gtb_spec (zlen b) 0) as [Hb|Hb]; [|change (zlen []) with 0; rewrite Hno; by eexists].
    rewrite u64_small by (unfold in_u64; lia). destruct (Z.leb_spec (zlen b) (n - zlen got)) as [Hfit|Hover].
    + specialize (IH (got ++ b) Hn). rewrite zlen_app in IH. specialize (IH ltac:(lia)). cbv zeta in IH.
      rewrite zlen_app. replace (n - (zlen got + zlen b)) with (n - zlen got - zlen b) in IH by lia.
      replace (n - zlen got - zlen b <=? zlen (arrived io)) with (n - zlen got <=? zlen b + zlen (arrived io)) in IH
        by (destruct (Z.leb_spec (n - zlen got) (zlen b + zlen (arrived io))),
              (Z.leb_spec (n - zlen got - zlen b) (zlen (arrived io))); lia).
      destruct (n - zlen got <=? zlen b + zlen (arrived io)); [|done]. destruct IH as (io' & Er & Ea). exists io'. rewrite Er, Ea.
      assert (Z.to_nat (n - zlen got) = (length b + Z.to_nat (n - zlen got - zlen b))%nat) as -> by (unfold zlen in *; lia).
      by rewrite take_app_add, drop_app_add, <-app_assoc.
    + rewrite zlen_app. pose proof (zlen_nonneg (arrived io)). destruct (Z.leb_spec (n - zlen got) (zlen b + zlen (arrived io))); [|lia].
      rewrite take_app_le, drop_app_le by (unfold zlen in *; lia). eexists. split; [reflexivity|].
      cbn [arrived].
      assert (zlen (drop (Z.to_nat (n - zlen got)) b) > 0) by (unfold zlen in *; rewrite length_drop; lia).
      destruct (Z.gtb_spec (zlen (drop (Z.to_nat (n - zlen got)) b)) 0); [done|lia].
Qed.

(** ** A child at work

    [said] is what it meant to say so far, [heard] what it can still hear.  A wire
    that closed early holds a prefix. *)
Definition talking (said heard : bytes) (i : I) (c : Child I) : Prop :=
  Forall willing (c_tx c) /\
  (c_wire c = said \/ c_tx c = [] /\ c_wire c `prefix_of` said) /\
  arrived (c_rx c) = heard /\ c_instance c = Some i /\ c_lib c = true.

Abbreviation never := (fun _ : Child I => False).

Lemma le_bytes_u32 v : le_bytes 4 (u32 v) = le_bytes 4 v.
Proof.
  rewrite <-(le_bytes_le_value (le_bytes 4 v)), length_le_bytes, le_value_le_bytes. done.
Qed.

Lemma frame_written op p : put_u8 (put_u32 [] (u32 (zlen p))) op ++ p = frame (mkIncoming op p).
Proof. by rewrite put_u8_spec, put_u32_spec, le_bytes_u32, <-!app_assoc. Qed.

Lemma send_frame_says said heard i op p :
  zlen p < 2 ^ 62 ->
  triple (talking said heard i) (send_frame op p)
    (fun _ => talking (said ++ frame (mkIncoming op p)) heard i) never.
Proof.
  intros Hp c (Hw & Hs & Hr & Hi & Hl). unfold send_frame, write_all, mbind, M_bind. cbv zeta.
  rewrite frame_written. set (fr := frame _).
  assert (zlen fr < 2 ^ 63) as Hf by (unfold fr; rewrite zlen_frame; cbn [in_payload]; lia).
  pose proof (send_loop_spec (c_tx c) fr 0 (c_wire c) Hw ltac:(lia) Hf) as H.
  destruct (send_loop (c_tx c) fr 0 (c_wire c)) as [[ok io] w] eqn:E. cbn [drop Z.to_nat] in H.
  destruct H as [Hio H]. split; [done|]. cbn [set_tx c_wire c_tx c_rx c_instance c_lib]. split; [|done].
  destruct Hs as [Hs|[Htx Hs]].
  { rewrite Hs in H. exact H. }
  right. rewrite Htx in E. assert (io = [] /\ w = c_wire c) as [-> ->].
  { unfold fr in E. cbn [send_loop] in E. destruct (_ <? _); by injection E as _ <- <-. }
  split; [done|]. etrans; [exact Hs|]. by exists fr.
Qed.

Lemma the_instance_is said heard i :
  triple (talking said heard i) the_instance (fun x c => x = i /\ talking said heard i c) never.
Proof. intros c Hc. unfold the_instance, mbind, M_bind, gets. destruct Hc as (H1 & H2 & H3 & H4 & H5). by rewrite H4. Qed.

Lemma becomes said heard i i' :
  triple (talking said heard i) (modify (set_child_instance (Some i'))) (fun _ => talking said heard i') never.
Proof. intros c (H1 & H2 & H3 & _ & H5). done. Qed.

Lemma emit_says said heard i kind target reply_to correlation w :
  zlen w < 2 ^ 61 ->
  triple (talking said heard i) (ship_emit kind target reply_to correlation w)
    (fun st c => st = ZEN_OK /\ talking (said ++ frame (emitted kind target reply_to correlation w)) heard i c) never.
Proof.
  intros Hw. unfold ship_emit. cbv zeta. rewrite !put_u64_spec, put_u8_spec, <-!app_assoc. cbn [app].
  eapply triple_bind; [apply send_frame_says|].
  - rewrite !zlen_app, !zlen_le_bytes. lia.
  - intros ?; cbv beta; by apply triple_ret.
Qed.

(** Frames of a length the program can hold. *)
Definition short (f : Incoming) : Prop := zlen (in_payload f) < 2 ^ 61.

Lemma emitted_short kind target reply_to correlation w :
  short (emitted kind target reply_to correlation w) -> zlen w < 2 ^ 61.
Proof. unfold short. cbn [emitted in_payload]. rewrite !zlen_app, !zlen_le_bytes. lia. Qed.

Lemma stream_cons f fs : stream (f :: fs) = frame f ++ stream fs.
Proof. by rewrite <-stream_one, <-stream_app. Qed.

Lemma child_calls_say c : forall said heard i0 fs i,
  uttered c = Ok (fs, i) -> Forall short fs ->
  triple (talking said heard i0) (child_calls c) (fun _ => talking (said ++ stream fs) heard i) never.
Proof.
  induction c as [j st|j target reply_to correlation w k IH|j reply_to correlation w k IH|j];
    intros said heard i0 fs i H Hs; cbn [uttered child_calls] in *.
  - injection H as <- <-. change (stream []) with (@nil ascii). rewrite app_nil_r.
    eapply triple_bind; [apply becomes|]. intros ?; cbv beta; by apply triple_ret.
  - inv_bind H. injection H as <- <-. apply Forall_cons in Hs as [Hw Hs].
    eapply triple_bind; [apply becomes|]. intros ?; cbv beta.
    eapply triple_bind; [by apply emit_says; eapply emitted_short|]. intros st. apply triple_pure. intros ->.
    rewrite stream_cons, app_assoc. apply IH; [|done]. by destruct r.
  - inv_bind H. injection H as <- <-. apply Forall_cons in Hs as [Hw Hs].
    eapply triple_bind; [apply becomes|]. intros ?; cbv beta.
    eapply triple_bind; [by apply emit_says; eapply emitted_short|]. intros st. apply triple_pure. intros ->.
    rewrite stream_cons, app_assoc. apply IH; [|done]. by destruct r.
  - done.
Qed.

Lemma emit_snapshot_says said heard i fs :
  snapshot_frame i = Ok fs -> Forall short fs ->
  triple (talking said heard i) emit_snapshot (fun _ => talking (said ++ stream fs) heard i) never.
Proof.
  intros H Hs. unfold snapshot_frame in H. inv_bind H. injection H as <-. unfold emit_snapshot.
  eapply triple_bind; [apply the_instance_is|]. intros x. apply triple_pure. intros ->.
  eapply triple_bind; [by apply triple_value|]. intros x. apply triple_pure. intros ->.
  destruct r as [snap st]. cbn [fst snd] in *. destruct (st =? ZEN_OK); cbn [negb].
  - apply Forall_cons in Hs as [Hw _]. rewrite stream_one.
    eapply triple_bind; [apply send_frame_says; unfold short in Hw; cbn in Hw; lia|]. intros ?; cbv beta; by apply triple_ret.
  - change (stream []) with (@nil ascii). rewrite app_nil_r. by apply triple_ret.
Qed.

(** ** What it hears *)

Lemma read_exact_hears said heard i n :
  0 <= n < 2 ^ 62 ->
  triple (talking said heard i) (read_exact n)
    (fun r c => match r with
                | Some p => n <= zlen heard /\ p = take (Z.to_nat n) heard /\ talking said (drop (Z.to_nat n) heard) i c
                | None => zlen heard < n /\ exists h, talking said h i c
                end) never.
Proof.
  intros Hn c (Hw & Hs & Hr & Hi & Hl). unfold read_exact.
  pose proof (recv_exact_spec (c_rx c) n [] Hn ltac:(change (zlen []) with 0; lia)) as H. cbv zeta in H.
  change (zlen []) with 0 in H. rewrite Z.sub_0_r, Hr in H. destruct (Z.leb_spec n (zlen heard)).
  - destruct H as (io & -> & Ea). by split_and!.
  - destruct H as (io & ->). split; [done|]. by exists (arrived io).
Qed.

(** What stands where a frame would, and is none. *)
Definition no_frame (s : bytes) : Prop := incomplete s \/ oversized s.

Lemma frame_is_frame f s : frame_ok f -> ~ no_frame (frame f ++ s).
Proof.
  intros Hf [H|(l & o & t & E & Hl & Hu & Ho)]; [by eapply incomplete_frame|].
  rewrite frame_header in E. apply header_inj in E as (E1 & _); [|by apply frame_len_u32|done|apply Hf|done].
  destruct Hf as [_ Hf]. lia.
Qed.

Lemma read_frame_hears said heard i :
  triple (talking said heard i) read_frame
    (fun r c => match r with
                | Some f => exists rest, heard = frame f ++ rest /\ frame_ok f /\ talking said rest i c
                | None => no_frame heard /\ exists h, talking said h i c
                end) never.
Proof.
  unfold read_frame. eapply triple_bind; [apply read_exact_hears; lia|]. intros [header|]; cbv beta iota.
  2: { apply triple_ret. intros c [Hlt Hc]. split; [|done]. by left; left. }
  apply triple_pure. intros H5. destruct (header_split heard H5) as (l & o & t & Hl & Ho & E & Et).
  apply triple_pure. intros ->. change (Z.to_nat 5) with 5%nat. rewrite Et, read_header_spec by done.
  eapply triple_bind; [by apply triple_value|]. intros x. apply triple_pure. intros ->. cbv beta iota.
  assert (drop 5 heard = t) as ->.
  { rewrite E, app_assoc. apply drop_app_length'. by rewrite length_app, !length_le_bytes. }
  destruct (Z.gtb_spec l kMaxFrameLen) as [Hbig|Hsmall].
  { apply triple_ret. intros c Hc. split; [right; by exists l, o, t|by exists t]. }
  unfold kMaxFrameLen, in_u32 in *.
  eapply (triple_bind _ _ (fun r c => match r with
    | Some p => l <= zlen t /\ p = take (Z.to_nat l) t /\ talking said (drop (Z.to_nat l) t) i c
    | None => zlen t < l /\ exists h, talking said h i c end)).
  { destruct (Z.gtb_spec l 0); [apply read_exact_hears; lia|]. apply triple_ret. intros c Hc.
    replace l with 0 by lia. split; [apply zlen_nonneg|]. by split. }
  intros [p|]; cbv beta iota; apply triple_ret.
  - intros c (Hle & -> & Hc). set (p := take _ t).
    assert (zlen p = l) as Hp by (unfold p, zlen in *; rewrite length_take; lia).
    exists (drop (Z.to_nat l) t). split; [|split; [split; cbn; [done|unfold kMaxFrameLen; lia]|done]].
    rewrite frame_header. cbn [in_payload in_op]. rewrite Hp. unfold p. by rewrite take_drop.
  - intros c [Hlt Hc]. split; [|done]. left. right. exists l, o, t. split; [done|]. unfold kMaxFrameLen. lia.
Qed.

(** ** Serving *)

Lemma serve_frame_reacts said heard i f r :
  frame_ok f -> reaction i f = Ok r -> (forall out i', r = Some (out, i') -> Forall short out) ->
  triple (talking said heard i) (serve_frame f)
    (fun go c => match r with
                 | Some (out, i') => go = true /\ talking (said ++ stream out) heard i' c
                 | None => go = false /\ talking said heard i c
                 end) never.
Proof.
  intros Hf H Hout. unfold reaction in H. unfold serve_frame. destruct (in_op f =? Op_Deliver).
  { destruct (parse_payload _ (in_payload f)) as [x|e|] eqn:Ep; [|done..]. cbn [mbind result_bind] in H.
    eapply triple_bind; [by apply triple_value|]. intros x'. apply triple_pure. intros ->.
    destruct x as [[[[sender reply_to] correlation] w]|]; [|injection H as <-; by apply triple_ret].
    inv_bind H. inv_bind H. injection H as <-. specialize (Hout _ _ eq_refl). destruct r0 as [out i']. cbn [fst snd] in *.
    apply Forall_app in Hout as [Ho Hs].
    eapply triple_bind; [apply the_instance_is|]. intros x. apply triple_pure. intros ->.
    eapply triple_bind; [by apply child_calls_say|]. intros ?; cbv beta.
    eapply triple_bind; [by apply emit_snapshot_says|]. intros ?; cbv beta.
    apply triple_ret. intros c Hc. split; [done|]. by rewrite stream_app, app_assoc. }
  destruct (in_op f =? Op_Revive).
  { destruct Hf as [_ Hf]. unfold kMaxFrameLen in Hf. destruct (Cursor_new_ok (in_payload f)) as [Hc Hu]; [lia|].
    destruct (Cursor_rest_spec _ Hc) as (c' & -> & _). cbn [snd]. rewrite Hu.
    eapply triple_bind; [by apply triple_value|]. intros x. apply triple_pure. intros ->.
    eapply triple_bind; [apply the_instance_is|]. intros x. apply triple_pure. intros ->.
    destruct (abi_revive i (in_payload f)) as [i' st]. inv_bind H. inv_bind H. injection H as <-.
    specialize (Hout _ _ eq_refl). eapply triple_bind; [apply becomes|]. intros ?; cbv beta.
    eapply triple_bind; [by apply triple_value|]. intros x. apply triple_pure. intros _.
    eapply triple_bind; [by apply emit_snapshot_says|]. intros ?; cbv beta. by apply triple_ret. }
  injection H as <-. destruct (in_op f =? Op_Shutdown); apply triple_ret; [done|].
  intros c Hc. change (stream []) with (@nil ascii). by rewrite app_nil_r.
Qed.

Lemma serve_converses fs : forall said i rest out rounds,
  Forall frame_ok fs -> no_frame rest -> conversation i fs = Ok out -> Forall short out ->
  (length (stream fs ++ rest) < rounds)%nat ->
  triple (talking said (stream fs ++ rest) i) (serve rounds)
    (fun _ c => exists h i', talking (said ++ stream out) h i' c) never.
Proof.
  induction fs as [|f fs IH]; intros said i rest out rounds Hfs Hrest H Hout Hlen;
    (destruct rounds as [|rounds]; [lia|]); cbn [serve conversation] in *;
    (eapply triple_bind; [apply read_frame_hears|]); intros [g|]; cbv beta iota.
  - intros c (r & E & Hg & _). change (stream []) with (@nil ascii) in E. cbn [app] in E. subst rest.
    by destruct (frame_is_frame g r Hg).
  - injection H as <-. apply triple_ret. intros c [_ [h Hc]]. exists h, i. change (stream []) with (@nil ascii).
    by rewrite app_nil_r.
  - apply Forall_cons in Hfs as [Hf Hfs]. apply triple_pre. intros c (r & E & Hg & Hc).
    rewrite stream_cons, <-app_assoc in E. apply frame_inj in E as [-> <-]; [|done..].
    apply (triple_from _ (talking said (stream fs ++ rest) i)); [by intros ? ->|].
    inv_bind H. destruct r as [[o1 i1]|].
    + inv_bind H. injection H as <-. apply Forall_app in Hout as [Ho1 Ho].
      eapply triple_bind; [apply (serve_frame_reacts _ _ _ _ _ Hg Er); by intros ?? [= <- <-]|].
      intros go; cbv beta iota. apply triple_pure. intros ->.
      eapply triple_to; [|apply IH; try done].
      * intros _ s' (h & i' & Hs). exists h, i'. by rewrite stream_app, app_assoc.
      * rewrite stream_cons, !length_app in Hlen. rewrite length_app.
        assert (5 <= zlen (frame g)) by (rewrite zlen_frame; pose proof (zlen_nonneg (in_payload g)); lia).
        unfold zlen in *. lia.
    + injection H as <-. eapply triple_bind; [by apply (serve_frame_reacts _ _ _ _ _ Hg Er)|].
      intros go; cbv beta iota. apply triple_pure. intros ->. apply triple_ret. intros s' Hs.
      exists (stream fs ++ rest), i. change (stream []) with (@nil ascii). by rewrite app_nil_r.
  - apply Forall_cons in Hfs as [Hf Hfs]. intros c [Hno _]. rewrite stream_cons, <-app_assoc in Hno.
    by destruct (frame_is_frame f (stream fs ++ rest) Hf).
Qed.

(** ** The program *)

(** Whatever arrives is a sequence of whole frames, and then none. *)
Lemma heard_frames s :
  zlen s < 2 ^ 62 -> exists fs rest, s = stream fs ++ rest /\ Forall frame_ok fs /\ no_frame rest.
Proof.
  intros Hs. pose proof (zlen_nonneg s).
  destruct (frames_loop_spec (S (length s)) s 0 []) as (bad & pos & fs & _ & _ & Hfs & E & Hend); [lia|done|unfold zlen; lia|].
  exists fs, (drop (Z.to_nat pos) s). split; [exact E|]. split; [done|]. destruct bad; [by right|by left].
Qed.

(** The library [main] serves with, as the loader gives it. *)
Definition loads (disk : bytes -> bytes + LibFile I) (so_path : bytes) (i : I) : Prop :=
  exists abi, disk so_path = inr (mkFile (Some (Some abi))) /\ abi_version abi = ZEN_ABI_VERSION /\ create abi = Some i.

(** From the greeting on. *)
Definition converse (parts : bytes * bytes * bytes) : M (Child I) unit :=
  _ ← send_frame Op_Hello (hello_payload parts);
  rounds ← gets (fun c => S (length (arrived (c_rx c))));
  serve rounds.

Lemma main_converses disk exe fd so_path more tx rx i parts :
  loads disk so_path i -> hello_parts_of i = Ok (Some parts) ->
  main disk (exe :: fd :: so_path :: more) (Child_new tx rx) =
    (_ ← converse parts; _ ← destroy_instance; _ ← modify (set_lib false); mret 0)
      (mkChild (atoi fd) tx rx [] true (Some i)).
Proof.
  intros (abi & Hd & Hv & Hc) Hh. unfold main, converse, mbind, M_bind, modify, lift, gets. rewrite Hd.
  cbn [exported_symbol]. rewrite Hv, Z.eqb_refl. cbn [negb]. rewrite Hc, Hh.
  cbn [set_child_instance set_lib set_sock Child_new g_sock c_tx c_rx c_wire c_lib c_instance].
  by destruct (send_frame _ _ _) as [? [?|?|]].
Qed.

Lemma converse_says said i fs rest out parts :
  Forall frame_ok fs -> no_frame rest -> conversation i fs = Ok out ->
  zlen (hello_payload parts) < 2 ^ 61 -> Forall short out ->
  triple (talking said (stream fs ++ rest) i) (converse parts)
    (fun _ c => exists h i', talking (said ++ stream (mkIncoming Op_Hello (hello_payload parts) :: out)) h i' c) never.
Proof.
  intros Hfs Hrest Hout Hlen Hs. unfold converse.
  eapply triple_bind; [apply send_frame_says; lia|]. intros ?; cbv beta. apply triple_pre. intros c Hc.
  set (said' := said ++ frame _) in *.
  apply (triple_bind _ _ (fun n c => n = S (length (stream fs ++ rest)) /\ talking said' (stream fs ++ rest) i c)).
  { apply triple_gets. intros ? ->. split; [|done]. by rewrite (proj1 (proj2 (proj2 Hc))). }
  intros n. apply triple_pure. intros ->. eapply triple_to; [|by eapply serve_converses; try done; lia].
  intros _ s' (h & i' & Hs'). exists h, i'. by rewrite stream_cons, app_assoc.
Qed.

Lemma child_runs disk exe fd so_path more tx rx i parts fs rest out :
  loads disk so_path i -> hello_parts_of i = Ok (Some parts) ->
  arrived rx = stream fs ++ rest -> Forall frame_ok fs -> no_frame rest -> Forall willing tx ->
  conversation i fs = Ok out -> zlen (hello_payload parts) < 2 ^ 61 -> Forall short out ->
  let said := stream (mkIncoming Op_Hello (hello_payload parts) :: out) in
  exists c, main disk (exe :: fd :: so_path :: more) (Child_new tx rx) = (c, Ok 0) /\
    c_instance c = None /\ c_lib c = false /\
    c_wire c `prefix_of` said /\ (c_tx c <> [] -> c_wire c = said).
Proof.
  intros Hi Hh Hrx Hfs Hrest Htx Hout Hlen Hs said.
  rewrite (main_converses disk exe fd so_path more tx rx i parts Hi Hh). set (c0 := mkChild _ _ _ _ _ _).
  assert (talking [] (stream fs ++ rest) i c0) as H0 by (split; [done|]; split; [by left|done]).
  pose proof (converse_says [] i fs rest out parts Hfs Hrest Hout Hlen Hs c0 H0) as H. cbn [app] in H.
  destruct (converse parts c0) as [c1 [u|e|]] eqn:E; [|done..]. rewrite (M_bind_ok _ _ _ _ _ E).
  destruct H as (h & i' & (Hw & Hsaid & _ & Hi' & Hl)).
  unfold destroy_instance, the_instance, mbind, M_bind, gets, lift. rewrite Hi'. cbn [deref modify mret M_ret].
  eexists. split; [reflexivity|]. cbn. split; [done|]. split; [done|]. split.
  - by destruct Hsaid as [->|[_ ?]].
  - intros Hne. by destruct Hsaid as [?|[? _]].
Qed.
(** C25: the child refines the conversation.  Whatever frames arrive, in whatever chunks
    and however cut short, the program on a library whose entry points return says
    Hello and answers the frames as [conversation] does; it sends exactly the stream
    of those frames as long as the parent takes them, and a prefix of it if the
    parent stops.  It then exits with 0, the instance destroyed once and the library
    closed. *)
Theorem child_converses disk exe fd so_path more tx rx i parts fs rest out :
  loads disk so_path i -> hello_parts_of i = Ok (Some parts) ->
  arrived rx = stream fs ++ rest -> Forall frame_ok fs -> no_frame rest -> Forall willing tx ->
  conversation i fs = Ok out -> zlen (hello_payload parts) < 2 ^ 61 -> Forall short out ->
  let said := stream (mkIncoming Op_Hello (hello_payload parts) :: out) in
  exists c, main disk (exe :: fd :: so_path :: more) (Child_new tx rx) = (c, Ok 0) /\
    c_instance c = None /\ c_lib c = false /\
    c_wire c `prefix_of` said /\ (c_tx c <> [] -> c_wire c = said).
Proof. apply child_runs. Qed.

(** The host hears what the conversation says.  If the parent's socket brings the
    octets the child sent, in any chunks and up to any point, then polling it as the
    host does yields frames of the conversation, from the Hello on, in order and
    intact. *)
Theorem host_hears_child disk exe fd so_path more tx rx i parts fs rest out :
  loads disk so_path i -> hello_parts_of i = Ok (Some parts) ->
  arrived rx = stream fs ++ rest -> Forall frame_ok fs -> no_frame rest -> Forall willing tx ->
  conversation i fs = Ok out -> Forall frame_ok (mkIncoming Op_Hello (hello_payload parts) :: out) ->
  exists c, main disk (exe :: fd :: so_path :: more) (Child_new tx rx) = (c, Ok 0) /\
    forall fd' io ch r io', data io `prefix_of` c_wire c -> poll io (Channel_new fd') = Some (ch, r, io') ->
      exists got, r = Ok got /\ got `prefix_of` mkIncoming Op_Hello (hello_payload parts) :: out.
Proof.
  intros Hi Hh Hrx Hfs Hrest Htx Hout Hok.
  assert (forall f, frame_ok f -> short f) as Hshort.
  { intros f [_ Hf]. unfold short, kMaxFrameLen in *. lia. }
  pose proof (Forall_impl _ _ _ Hok Hshort) as Hsh. apply Forall_cons in Hsh as [Hs1 Hs2].
  destruct (child_runs disk exe fd so_path more tx rx i parts fs rest out Hi Hh Hrx Hfs Hrest Htx Hout Hs1 Hs2)
    as (c & E & _ & _ & Hw & _).
  exists c. split; [done|]. intros fd' io ch r io' Hd Hp.
  destruct (poll_run io (Channel_new fd') ch r io' (fun _ => Channel_new_chan_ok fd') Hp)
    as (pre & got & -> & -> & Hgot & Ein & _).
  exists got. split; [done|]. apply (stream_prefix got _ (inbox ch)); [done|done|].
  cbn [inbox Channel_new app] in Ein. rewrite <-Ein. etrans; [|exact Hw]. etrans; [|exact Hd].
  rewrite data_app. by apply prefix_app_r.
Qed.

(** ** Refusing to start *)

Inductive refused (disk : bytes -> bytes + LibFile I) : list bytes -> Z -> Prop :=
| refused_arguments argv : (length argv < 3)%nat -> refused disk argv 2
| refused_open exe fd so more e : disk so = inl e -> refused disk (exe :: fd :: so :: more) 3
| refused_symbol exe fd so more : disk so = inr (mkFile None) -> refused disk (exe :: fd :: so :: more) 4
| refused_null exe fd so more : disk so = inr (mkFile (Some None)) -> refused disk (exe :: fd :: so :: more) 5
| refused_version exe fd so more abi :
    disk so = inr (mkFile (Some (Some abi))) -> abi_version abi <> ZEN_ABI_VERSION ->
    refused disk (exe :: fd :: so :: more) 5
| refused_create exe fd so more abi :
    disk so = inr (mkFile (Some (Some abi))) -> abi_version abi = ZEN_ABI_VERSION -> create abi = None ->
    refused disk (exe :: fd :: so :: more) 6
| refused_hello exe fd so more i :
    loads disk so i -> hello_parts_of i = Ok None -> refused disk (exe :: fd :: so :: more) 7.

(** C28: a child that cannot start says so by its exit code and nothing else: for each
    reason, too few arguments, a library that does not open, no entry point, a null
    or foreign descriptor, no instance, an instance that cannot describe itself,
    [main] returns that reason's code, has sent nothing and leaves no instance. *)
Theorem child_refuses disk argv tx rx code :
  refused disk argv code ->
  exists c, main disk argv (Child_new tx rx) = (c, Ok code) /\
    c_wire c = [] /\ c_tx c = tx /\ c_rx c = rx /\ c_instance c = None.
Proof.
  destruct 1 as [argv Hl|exe fd so more e Hd|exe fd so more Hd|exe fd so more Hd|exe fd so more abi Hd Hv
    |exe fd so more abi Hd Hv Hc|exe fd so more i (abi & Hd & Hv & Hc) Hh].
  { exists (Child_new tx rx). destruct argv as [|? [|? [|? ?]]]; cbn in Hl; try lia; done. }
  all: unfold main, mbind, M_bind, modify, lift, gets; rewrite Hd; cbn [exported_symbol].
  4: apply Z.eqb_neq in Hv; rewrite Hv; cbn [negb].
  5-6: rewrite Hv, Z.eqb_refl, Hc; cbn [negb].
  6: rewrite Hh; unfold destroy_instance, the_instance, mbind, M_bind, modify, lift, gets; cbn.
  all: by eexists.
Qed.
End conversation.

(** ** Parent and child understand each other *)

Lemma payload_read {A : Type} (read : M Cursor (option A)) enc ok `{!Field read enc ok} x w s :
  ok x -> s = enc x ++ w -> zlen s < 2 ^ 64 -> parse_payload read s = Ok (Some (x, w)).
Proof.
  intros Hx Hs Hl. destruct (parse_payload_spec read enc ok s Hl) as (r & -> & Hr).
  by rewrite (proj2 (Hr x w) (conj Hx Hs)).
Qed.

(** What the host puts into a Deliver frame. *)
Definition deliver_payload (sender reply_to correlation : Z) (w : bytes) : bytes :=
  put_u64 (put_u64 (put_u64 [] sender) reply_to) correlation ++ w.

Lemma deliver_read sender reply_to correlation w :
  in_u64 sender -> in_u64 reply_to -> in_u64 correlation -> zlen w < 2 ^ 61 ->
  parse_payload (both (both Cursor_u64 Cursor_u64) Cursor_u64) (deliver_payload sender reply_to correlation w) =
    Ok (Some (sender, reply_to, correlation, w)).
Proof.
  intros Hs Hr Hc Hw. unfold deliver_payload. rewrite !put_u64_spec. cbn [app].
  eapply (payload_read _ _ _ (sender, reply_to, correlation) w); [done| |].
  - cbn [fst snd]. by rewrite <-!app_assoc.
  - rewrite !zlen_app, !zlen_le_bytes. lia.
Qed.

Lemma hello_short m p s : zlen m < 2 ^ 32 -> zlen p < 2 ^ 32 -> zlen s < 2 ^ 32 -> zlen (hello_payload (m, p, s)) < 2 ^ 62.
Proof.
  intros Hm Hp Hs. unfold hello_payload. rewrite !put_bytes_spec by done. cbn [app].
  rewrite !zlen_app, !zlen_le_bytes. lia.
Qed.

Lemma hello_read m p s : zlen m < 2 ^ 32 -> zlen p < 2 ^ 32 -> zlen s < 2 ^ 32 ->
  hello_parts (hello_payload (m, p, s)) = Ok (Some (m, p, s)).
Proof.
  intros Hm Hp Hs. unfold hello_parts, hello_payload. rewrite !put_bytes_spec by done. cbn [app].
  set (h := _ ++ _). assert (h = bytes_enc m ++ bytes_enc p ++ bytes_enc s) as Eh
    by (unfold h, bytes_enc; by rewrite <-!app_assoc).
  destruct (Cursor_new_ok h) as [Hc Hu].
  { rewrite Eh. unfold bytes_enc. rewrite !zlen_app, !zlen_le_bytes. lia. }
  destruct (field_read (both (both Cursor_bytes Cursor_bytes) Cursor_bytes) _ _ _ (m, p, s) [] Hc)
    as (c' & E & _); [done| |by rewrite E].
  cbn [fst snd]. by rewrite app_nil_r, Hu, Eh, app_assoc.
Qed.

Lemma emit_read kind target reply_to correlation w :
  0 <= kind < 2 ^ 8 -> in_u64 target -> in_u64 reply_to -> in_u64 correlation -> zlen w < 2 ^ 61 ->
  parse_payload emit_header (in_payload (emitted kind target reply_to correlation w)) =
    Ok (Some (kind, target, reply_to, correlation, w)).
Proof.
  intros Hk Ht Hr Hc Hw. cbn [emitted in_payload].
  eapply (payload_read emit_header _ _ (kind, target, reply_to, correlation) w); [done| |].
  - cbn [fst snd]. by rewrite <-!app_assoc.
  - rewrite !zlen_app, !zlen_le_bytes. lia.
Qed.

(** What the host's [ship_deliver] puts on the way. *)
Lemma deliver_queued m l ch w :
  l_channel l = Some ch -> chan_ok ch -> failed ch = false -> zlen (outbox ch) < 2 ^ 62 ->
  serialize (payload m) = Ok w -> zlen (unsent ch) + 29 + zlen w <= kMaxBacklog ->
  let f := mkIncoming Op_Deliver (deliver_payload (sender m) (reply_to m) (correlation m) w) in
  exists ch', ship_deliver m l = (set_channel (Some ch') l, Ok tt) /\ failed ch' = false /\
    frame_ok f /\ unsent ch' = unsent ch ++ frame f.
Proof.
  intros Hl Hok Hf Hb Hw Hfit f. set (p := in_payload f).
  assert (zlen p = 24 + zlen w) as Hp.
  { unfold p, f, deliver_payload. cbn [in_payload]. rewrite !put_u64_spec. cbn [app]. rewrite !zlen_app, !zlen_le_bytes. lia. }
  destruct (queue_run Op_Deliver p ch (fun _ => Hok) Hb ltac:(done)) as (_ & _ & H & Hfail).
  assert (failed (Channel.queue Op_Deliver p ch) = false) as Hf'.
  { rewrite (Hfail Hf). unfold kMaxFrameLen, kMaxBacklog in *. pose proof (zlen_nonneg (unsent ch)).
    apply orb_false_intro; lia. }
  destruct (H Hf') as (_ & _ & Hfr & Hun). exists (Channel.queue Op_Deliver p ch).
  split; [|done]. unfold ship_deliver, mbind, M_bind, gets, lift, modify. by rewrite Hl, Hw.
Qed.

(** C27: the two ends speak one protocol.  The child's Hello is a frame whose payload
    the host splits into the three parts that went in; what the child's [ship_emit]
    writes is a frame that the host's [handle_child_frame] routes with the kind, the
    target, the reply address, the correlation and the value's octets that went in;
    and what the host's [ship_deliver] queues is a frame in which the child reads the
    message's sender, reply address and correlation and its serialized payload. *)
Theorem protocol_agrees {I N Ob : Type} `{l_ops : LibraryOps I} `{n_ops : ShardOps N} `{ob_ops : ObserverOps Ob} :
  (forall m p s said heard (i : I) c, zlen m < 2 ^ 32 -> zlen p < 2 ^ 32 -> zlen s < 2 ^ 32 -> talking said heard i c ->
     exists f c', send_frame Op_Hello (hello_payload (m, p, s)) c = (c', Ok tt) /\ talking (said ++ frame f) heard i c' /\
       in_op f = Op_Hello /\ hello_parts (in_payload f) = Ok (Some (m, p, s))) /\
  (forall kind target reply_to correlation w said heard (i : I) c,
     0 <= kind < 2 ^ 8 -> in_u64 target -> in_u64 reply_to -> in_u64 correlation -> zlen w < 2 ^ 61 -> talking said heard i c ->
     exists f c', ship_emit kind target reply_to correlation w c = (c', Ok ZEN_OK) /\ talking (said ++ frame f) heard i c' /\
       forall id (h : IsolationHost N Ob) l, link_at id h = Some l ->
         handle_child_frame id f h = route_emit (l_id l) kind target reply_to correlation w h) /\
  (forall m l ch w,
     l_channel l = Some ch -> chan_ok ch -> failed ch = false -> zlen (outbox ch) < 2 ^ 62 ->
     serialize (payload m) = Ok w -> zlen (unsent ch) + 29 + zlen w <= kMaxBacklog ->
     in_u64 (sender m) -> in_u64 (reply_to m) -> in_u64 (correlation m) ->
     exists f ch', ship_deliver m l = (set_channel (Some ch') l, Ok tt) /\ failed ch' = false /\
       unsent ch' = unsent ch ++ frame f /\ in_op f = Op_Deliver /\
       parse_payload (both (both Cursor_u64 Cursor_u64) Cursor_u64) (in_payload f) =
         Ok (Some (sender m, reply_to m, correlation m, w))).
Proof.
  split; [|split].
  - intros m p s said heard i c Hm Hp Hs Hc. exists (mkIncoming Op_Hello (hello_payload (m, p, s))).
    pose proof (send_frame_says said heard i Op_Hello (hello_payload (m, p, s)) (hello_short m p s Hm Hp Hs) c Hc) as H.
    destruct (send_frame _ _ c) as [c' [[]|e|]]; [|done..]. exists c'. do 3 (split; [done|]). by apply hello_read.
  - intros kind target reply_to correlation w said heard i c Hk Ht Hr Hco Hw Hc.
    exists (emitted kind target reply_to correlation w).
    pose proof (emit_says said heard i kind target reply_to correlation w Hw c Hc) as H.
    destruct (ship_emit _ _ _ _ _ c) as [c' [st|e|]]; [|done..]. destruct H as [-> H]. exists c'. do 2 (split; [done|]).
    intros id h l Hl. unfold handle_child_frame. rewrite (M_bind_ok (gets _) _ h h _ eq_refl), Hl.
    rewrite (M_bind_ok (lift _) _ h h l eq_refl). cbn [in_op emitted]. rewrite Z.eqb_refl.
    by rewrite (M_bind_ok (lift _) _ h h _ (f_equal (pair h) (emit_read kind target reply_to correlation w Hk Ht Hr Hco Hw))).
  - intros m l ch w Hl Hok Hf Hb Hw Hfit Hs Hr Hc.
    destruct (deliver_queued m l ch w Hl Hok Hf Hb Hw Hfit) as (ch' & E & Hf' & _ & Hu).
    eexists _, ch'. split; [exact E|]. split; [done|]. split; [exact Hu|]. split; [done|].
    apply deliver_read; try done. pose proof (zlen_nonneg (unsent ch)). unfold kMaxBacklog in *. lia.
Qed.

Section remote.
Context {S : Type} `{s_ops : ShardOps S}.

(** The shard's own door for a value. *)
Definition opens_to (s : S) (v : Value) : Prop :=
  exists accepted, accepted_schemas s = Ok accepted /\
    find_door accepted (Schema_name (Value_schema v)) (Schema_version (Value_schema v)) = Ok (Some (Value_schema v)).

(** What the child reacts with: the handler's calls on the canonical value, then the
    snapshot. *)
Lemma exported_reacts (s : S) v sender reply_to correlation w :
  built_value v -> nameable (Value_schema v) -> storable (Value_schema v) v -> conforms v (Value_schema v) ->
  opens_to s v -> serialize v = Ok w ->
  in_u64 sender -> in_u64 reply_to -> in_u64 correlation -> zlen w < 2 ^ 61 ->
  reaction (mkExported s) (mkIncoming Op_Deliver (deliver_payload sender reply_to correlation w)) =
    (x ← uttered (lib_map mkExported
           (through_host (handle s (mkMessage (canon_value v) sender reply_to correlation))));
     snap ← snapshot_frame x.2;
     Ok (Some (x.1 ++ snap, x.2))).
Proof.
  intros Hb Hn Hst Hc (accepted & Ha & Hd) Hw Hs Hr Hco Hlen. unfold reaction. cbn [in_op in_payload].
  rewrite Z.eqb_refl, deliver_read by done. cbn [mbind result_bind].
  cbn [abi_handle Exported_ops ex_shard]. unfold do_handle.
  destruct (persist_admit v FirstError 0 Hb Hn Hst Hc) as (w' & Ew & Eadm & _). rewrite Hw in Ew. injection Ew as <-.
  assert (wf_schema (Value_schema v)) as Hwf by (destruct v; by destruct Hb).
  rewrite serialize_ok in Hw; [|done|done|by apply (proj2 wire_encodes _ Hwf 0)].
  assert (claimed_name (parse w) = Schema_name (Value_schema v) /\
    claimed_version (parse w) = Schema_version (Value_schema v)) as [-> ->].
  { injection Hw as <-. by rewrite parse_native by (by apply nameable_header). }
  rewrite Ha. cbn [mbind result_bind]. by rewrite Hd, Eadm.
Qed.

(** C26: a shard does not notice the process boundary.  The host's [ship_deliver] of a
    message, whose storable value conforms to a schema the shard accepts, queues one
    frame; and the child's [serve_frame], handed that frame with the shard exported,
    runs the shard's own [handle] on that message, NaNs made canonical, sends what
    the handler sends, in order, then the snapshot, keeps the shard the handler left,
    and goes on. *)
Theorem remote_handle (s : S) m l ch w out s' snap :
  let v := payload m in
  built_value v -> nameable (Value_schema v) -> storable (Value_schema v) v -> conforms v (Value_schema v) ->
  opens_to s v -> serialize v = Ok w -> in_u64 (sender m) -> in_u64 (reply_to m) -> in_u64 (correlation m) ->
  l_channel l = Some ch -> chan_ok ch -> failed ch = false -> zlen (outbox ch) < 2 ^ 62 ->
  zlen (unsent ch) + 29 + zlen w <= kMaxBacklog ->
  uttered (lib_map mkExported
    (through_host (handle s (mkMessage (canon_value v) (sender m) (reply_to m) (correlation m))))) = Ok (out, s') ->
  snapshot_frame s' = Ok snap -> Forall short (out ++ snap) ->
  exists f ch',
    (ship_deliver m l = (set_channel (Some ch') l, Ok tt) /\ failed ch' = false /\ unsent ch' = unsent ch ++ frame f) /\
    forall said heard c, talking said heard (mkExported s) c ->
      exists c', serve_frame f c = (c', Ok true) /\ talking (said ++ stream (out ++ snap)) heard s' c'.
Proof.
  intros v Hb Hn Hst Hc Ho Hw Hs Hr Hco Hl Hok Hf Hbig Hfit Hut Hsnap Hshort.
  destruct (deliver_queued m l ch w Hl Hok Hf Hbig Hw Hfit) as (ch' & E & Hf' & Hfr & Hu).
  eexists _, ch'. split; [by split_and!; [exact E|done|exact Hu]|]. intros said heard c Ht.
  assert (zlen w < 2 ^ 61) as Hlen by (pose proof (zlen_nonneg (unsent ch)); unfold kMaxBacklog in *; lia).
  pose proof (exported_reacts s v (sender m) (reply_to m) (correlation m) w Hb Hn Hst Hc Ho Hw Hs Hr Hco Hlen) as Hre.
  rewrite Hut in Hre. cbn [mbind result_bind fst snd] in Hre. rewrite Hsnap in Hre. cbn [mbind result_bind] in Hre.
  pose proof (serve_frame_reacts said heard (mkExported s) _ _ Hfr Hre ltac:(by intros ? ? [= <- <-]) c Ht) as H.
  destruct (serve_frame _ c) as [c' [go|e|]]; [|done..]. destruct H as [-> H]. by exists c'.
Qed.
End remote.
