(* ===== verification/ChildScenarios.v ===== *)
(** * A concrete run of the child program

    The child serves an exported echo shard: it is handed a message, a state and a
    Shutdown in chunks of seven octets, followed by what it does not read. *)

From S2P Require Import Prelude Schema Value Registry Gate Native Binary Serialize Protocol Channel Grant Bus Scenarios Abi Kernel Posix Confine Host Child ChildRun.

Definition echo : Exported Echo := mkExported (mkEcho 2 (hero 7)).
Definition echo_abi : ZenShardAbi (Exported Echo) := mkAbi ZEN_ABI_VERSION (Some echo).
Definition echo_disk (path : bytes) : bytes + LibFile (Exported Echo) := inr (mkFile (Some (Some echo_abi))).

Lemma echo_loads so_path : loads echo_disk so_path echo.
Proof. by exists echo_abi. Qed.

Definition hero_bytes (n : Z) : bytes := match serialize (hero n) with Ok w => w | _ => [] end.

Definition orders : list Incoming :=
  [mkIncoming Op_Deliver (deliver_payload 1 0 9 (hero_bytes 3));
   mkIncoming Op_Revive (hero_bytes 5);
   mkIncoming 99 (str "unknown");
   mkIncoming Op_Deliver (deliver_payload 1 0 10 (str "noise"));
   mkIncoming Op_Shutdown []].

(** Seven octets at a time, with an interruption before each. *)
Fixpoint chunks (n : nat) (s : bytes) : list RecvResult :=
  match n with
  | O => []
  | S n => match s with [] => [] | _ => RecvError EINTR :: Got (take 7 s) :: chunks n (drop 7 s) end
  end.
Definition arriving : list RecvResult := chunks 1000 (stream orders ++ str "left").
Definition taking : list SendResult := mjoin (replicate 200 [Sent 5; SendError EINTR]).

Definition greeting : bytes * bytes * bytes :=
  match hello_parts_of echo with Ok (Some p) => p | _ => ([], [], []) end.
Definition answer : list Incoming := match conversation echo orders with Ok out => out | _ => [] end.

(** The echo, the snapshot after it, the revived state, and the state again after
    the noise was refused. *)
Example answered_with :
  in_op <$> answer = [Op_Emit; Op_Snapshot; Op_Snapshot; Op_Snapshot] /\
  in_payload <$> answer !! 3%nat = Some (hero_bytes 5).
Proof. split; by vm_compute. Qed.

Lemma orders_ok : Forall frame_ok orders.
Proof. apply (bool_decide_unpack (Forall (fun f => 0 <= in_op f < 2 ^ 8 /\ zlen (in_payload f) <= kMaxFrameLen) orders)). by vm_compute. Qed.

Lemma left_over : no_frame (str "left").
Proof. left. left. by vm_compute. Qed.

Lemma taking_willing : Forall willing taking.
Proof.
  unfold taking. induction (200%nat) as [|n IH]; [done|]. cbn. by repeat constructor.
Qed.

Definition done_child : Child (Exported Echo) :=
  (main echo_disk [str "zen-shard-host"; str "3"; str "echo.so"] (Child_new taking arriving)).1.

Lemma child_converses_witness :
  exists c, main echo_disk [str "zen-shard-host"; str "3"; str "echo.so"] (Child_new taking arriving) = (c, Ok 0) /\
    c_instance c = None /\ c_lib c = false /\
    c_wire c `prefix_of` stream (mkIncoming Op_Hello (hello_payload greeting) :: answer) /\
    (c_tx c <> [] -> c_wire c = stream (mkIncoming Op_Hello (hello_payload greeting) :: answer)).
Proof.
  apply (child_converses echo_disk (str "zen-shard-host") (str "3") (str "echo.so") [] taking arriving echo
    greeting orders (str "left") answer).
  - apply echo_loads.
  - by vm_compute.
  - by vm_compute.
  - apply orders_ok.
  - apply left_over.
  - apply taking_willing.
  - by vm_compute.
  - by vm_compute.
  - apply (bool_decide_unpack (Forall (fun f => zlen (in_payload f) < 2 ^ 61) answer)). by vm_compute.
Defined.

Lemma host_hears_child_witness :
  exists c, main echo_disk [str "zen-shard-host"; str "3"; str "echo.so"] (Child_new taking arriving) = (c, Ok 0) /\
    forall fd' io ch r io', data io `prefix_of` c_wire c -> poll io (Channel_new fd') = Some (ch, r, io') ->
      exists got, r = Ok got /\ got `prefix_of` mkIncoming Op_Hello (hello_payload greeting) :: answer.
Proof.
  apply (host_hears_child echo_disk (str "zen-shard-host") (str "3") (str "echo.so") [] taking arriving echo
    greeting orders (str "left") answer).
  - apply echo_loads.
  - by vm_compute.
  - by vm_compute.
  - apply orders_ok.
  - apply left_over.
  - apply taking_willing.
  - by vm_compute.
  - apply (bool_decide_unpack (Forall (fun f => 0 <= in_op f < 2 ^ 8 /\ zlen (in_payload f) <= kMaxFrameLen)
      (mkIncoming Op_Hello (hello_payload greeting) :: answer))). by vm_compute.
Defined.

Lemma child_refuses_witness :
  exists c, main (fun _ => inl (str "no such file")) [str "zen-shard-host"; str "3"; str "none.so"]
      (Child_new taking arriving : Child (Exported Echo)) = (c, Ok 3) /\
    c_wire c = [] /\ c_tx c = taking /\ c_rx c = arriving /\ c_instance c = None.
Proof.
  apply (child_refuses (fun _ => inl (str "no such file")) [str "zen-shard-host"; str "3"; str "none.so"] taking
    arriving 3).
  by apply (refused_open _ _ _ _ _ (str "no such file")).
Defined.

Definition ami_bytes : bytes := match serialize ami with Ok w => w | _ => [] end.

(** A proxy with an open channel, a child at work and a message between them. *)
Definition ami_link : Link := set_channel (Some (Channel_new 3)) (Link_new (str "echo") (str "echo.so") (mkOS [] [] [] [] [])).
Definition ami_child : Child (Exported Echo) := mkChild 3 taking [] [] true (Some echo).
Definition ami_message : Message := mkMessage ami 1 0 9.

Lemma ami_talking : talking [] [] echo ami_child.
Proof. split; [apply taking_willing|]. by split; [left|]. Qed.

Definition ami_said : list Incoming * Exported Echo :=
  match uttered (lib_map mkExported (through_host (handle (mkEcho 2 (hero 7)) (mkMessage (canon_value ami) 1 0 9)))) with
  | Ok x => x
  | _ => ([], echo)
  end.
Definition ami_snap : list Incoming := match snapshot_frame ami_said.2 with Ok fs => fs | _ => [] end.

Lemma remote_handle_witness :
  exists f ch',
    (ship_deliver ami_message ami_link = (set_channel (Some ch') ami_link, Ok tt) /\ failed ch' = false /\
     unsent ch' = frame f) /\
    exists c', serve_frame f ami_child = (c', Ok true) /\ talking (stream (ami_said.1 ++ ami_snap)) [] ami_said.2 c'.
Proof.
  destruct (remote_handle (mkEcho 2 (hero 7)) ami_message ami_link (Channel_new 3) ami_bytes ami_said.1 ami_said.2 ami_snap
    ami_built ami_nameable ami_storable ami_conforms) as (f & ch' & H1 & H2).
  - exists [Some player]. by vm_compute.
  - by vm_compute.
  - by vm_compute.
  - by vm_compute.
  - by vm_compute.
  - reflexivity.
  - apply Channel_new_chan_ok.
  - reflexivity.
  - by vm_compute.
  - by vm_compute.
  - by vm_compute.
  - by vm_compute.
  - apply (bool_decide_unpack (Forall (fun f => zlen (in_payload f) < 2 ^ 61) (ami_said.1 ++ ami_snap))). by vm_compute.
  - exists f, ch'. split; [exact H1|]. exact (H2 [] [] ami_child ami_talking).
Defined.

Lemma protocol_agrees_witness :
  (exists f c', send_frame Op_Hello (hello_payload (str "m", ami_bytes, str "s")) ami_child = (c', Ok tt) /\
     talking (frame f) [] echo c' /\ hello_parts (in_payload f) = Ok (Some (str "m", ami_bytes, str "s"))) /\
  (exists f c', ship_emit kEmitSend 2 0 9 ami_bytes ami_child = (c', Ok ZEN_OK) /\ talking (frame f) [] echo c') /\
  (exists f ch', ship_deliver ami_message ami_link = (set_channel (Some ch') ami_link, Ok tt) /\ unsent ch' = frame f /\
     parse_payload (both (both Cursor_u64 Cursor_u64) Cursor_u64) (in_payload f) = Ok (Some (1, 0, 9, ami_bytes))).
Proof.
  destruct (protocol_agrees (I := Exported Echo) (N := Echo) (Ob := list BusEvent)) as (H1 & H2 & H3). split; [|split].
  - destruct (H1 (str "m") ami_bytes (str "s") [] [] echo ami_child) as (f & c' & E & T & _ & P);
      [by vm_compute|by vm_compute|by vm_compute|apply ami_talking|]. by exists f, c'.
  - destruct (H2 kEmitSend 2 0 9 ami_bytes [] [] echo ami_child) as (f & c' & E & T & _);
      [by vm_compute|by vm_compute|by vm_compute|by vm_compute|by vm_compute|apply ami_talking|]. by exists f, c'.
  - destruct (H3 ami_message ami_link (Channel_new 3) ami_bytes) as (f & ch' & E & _ & U & _ & P);
      [reflexivity|apply Channel_new_chan_ok|reflexivity|by vm_compute|by vm_compute|by vm_compute|by vm_compute|by vm_compute|by vm_compute|].
    by exists f, ch'.
Defined.

(** A state the shard refuses goes unnoticed: the child answers with the state it
    had, which the host takes for the last good one. *)
Example revive_refusal_hidden :
  reaction echo (mkIncoming Op_Revive (str "noise")) =
    Ok (Some ([mkIncoming Op_Snapshot (hero_bytes 7)], echo)).
Proof. vm_compute. reflexivity. Qed.
