(* ===== verification/Shape.v ===== *)
(** * Shapes: schemas and conversions from a struct

    [include/zen/author/shape.hpp] derives, at compile time, a schema from a struct
    registered with [ZEN_SHAPE] and the conversions between the struct and a
    [Value].  Here the C++ types a field may have are a syntax, [Ty], with the types
    themselves as its meaning, [Member]; what the templates select by overloading is
    recursion on [Ty].  A struct is the tuple of its registered members. *)

From S2P Require Import Prelude Schema Value Gate.

(** ** The types of fields *)

(** [zen_name], [zen_version] and [zen_fields()]; a field entry names its member. *)
Inductive Ty : Type :=
| TyInt | TyFloat | TyText | TyBool | TyBytes
| TyVector (t : Ty)
| TyShape (s : Shape)
with Shape : Type := mkShape (zen_name : bytes) (zen_version : Z) (zen_fields : Entries)
with Entries : Type := NoEntry | FieldEntry (name : bytes) (t : Ty) (rest : Entries).

(** A [double] is its 64 bits, as in a cell. *)
Fixpoint Member (t : Ty) : Type :=
  match t with
  | TyInt => Z | TyFloat => Z | TyText => bytes | TyBool => bool | TyBytes => bytes
  | TyVector t => list (Member t)
  | TyShape s => Struct s
  end
with Struct (s : Shape) : Type := match s with mkShape _ _ fs => Members fs end
with Members (fs : Entries) : Type :=
  match fs with NoEntry => unit | FieldEntry _ t rest => (Member t * Members rest)%type end.

(** ** The schema *)

Fixpoint type_ref_for (t : Ty) : result TypeRef :=
  match t with
  | TyInt => type_of KInt
  | TyFloat => type_of KFloat
  | TyText => type_of KText
  | TyBool => type_of KBool
  | TyBytes => type_of KBytes
  | TyVector t => el ← type_ref_for t; Ok (type_list el)
  | TyShape s => sc ← build_schema s; type_message (Some sc)
  end
with build_schema (s : Shape) : result Schema :=
  match s with
  | mkShape name version fs => b ← add_entries fs (builder name version); builder_build b
  end
with add_entries (fs : Entries) (b : SchemaBuilder) : result SchemaBuilder :=
  match fs with
  | NoEntry => Ok b
  | FieldEntry name t rest =>
      tr ← type_ref_for t; add_entries rest (builder_add (mkField name tr true) b)
  end.

(** Built once; a value and a later use see the same schema. *)
Definition schema_of (s : Shape) : result Schema := build_schema s.

(** ** Struct to value *)

(** The loop over a vector, either way. *)
Fixpoint each {A B : Type} (f : A -> result B) (l : list A) : result (list B) :=
  match l with
  | [] => Ok []
  | a :: l => b ← f a; bs ← each f l; Ok (b :: bs)
  end.

Fixpoint to_cell (t : Ty) : Member t -> result Cell :=
  match t return Member t -> result Cell with
  | TyInt => fun v => Ok (CInt v)
  | TyFloat => fun v => Ok (CFloat v)
  | TyText => fun v => Ok (CText v)
  | TyBool => fun v => Ok (CBool v)
  | TyBytes => fun v => Ok (CBytes v)
  | TyVector t => fun v => arr ← each (to_cell t) v; Ok (CList arr)
  | TyShape s => fun u => v ← to_value s u; Ok (CMessage (Some v))
  end
with to_value (s : Shape) : Struct s -> result Value :=
  match s return Struct s -> result Value with
  | mkShape name version fs => fun obj =>
      sc ← schema_of (mkShape name version fs);
      v ← Value_new (Some sc);
      set_members fs obj v
  end
with set_members (fs : Entries) : Members fs -> Value -> result Value :=
  match fs return Members fs -> Value -> result Value with
  | NoEntry => fun _ v => Ok v
  | FieldEntry name t rest => fun obj v =>
      c ← to_cell t obj.1; v ← Value_set v name c; set_members rest obj.2 v
  end.

(** ** Value to struct *)

Fixpoint from_cell (t : Ty) : Cell -> result (Member t) :=
  match t return Cell -> result (Member t) with
  | TyInt => as_int
  | TyFloat => as_float
  | TyText => as_text
  | TyBool => as_bool
  | TyBytes => as_bytes
  | TyVector t => fun c => arr ← as_list c; each (from_cell t) arr
  | TyShape s => fun c => v ← as_message c; v ← deref v; from_value s v
  end
with from_value (s : Shape) : Value -> result (Struct s) :=
  match s return Value -> result (Struct s) with
  | mkShape _ _ fs => fun v => get_members fs v
  end
with get_members (fs : Entries) : Value -> result (Members fs) :=
  match fs return Value -> result (Members fs) with
  | NoEntry => fun _ => Ok tt
  | FieldEntry name t rest => fun v =>
      c ← deref (Value_get v name); m ← from_cell t c; ms ← get_members rest v; Ok (m, ms)
  end.

(** ** What the compiler sees to *)

Definition shape_name (s : Shape) : bytes := match s with mkShape n _ _ => n end.
Definition shape_version (s : Shape) : Z := match s with mkShape _ v _ => v end.
Definition shape_entries (s : Shape) : Entries := match s with mkShape _ _ fs => fs end.

Fixpoint entry_names (fs : Entries) : list bytes :=
  match fs with NoEntry => [] | FieldEntry name _ rest => name :: entry_names rest end.

(** The members of a struct have distinct names that are not empty, and a version
    is 32 bits wide; so in nested structs. *)
Fixpoint declared_ty (t : Ty) : Prop :=
  match t with TyVector t => declared_ty t | TyShape s => declared s | _ => True end
with declared (s : Shape) : Prop :=
  match s with
  | mkShape _ version fs =>
      in_u32 version /\ NoDup (entry_names fs) /\ Forall (fun n => n <> []) (entry_names fs) /\ declared_entries fs
  end
with declared_entries (fs : Entries) : Prop :=
  match fs with NoEntry => True | FieldEntry _ t rest => declared_ty t /\ declared_entries rest end.

Scheme Ty_mut := Induction for Ty Sort Prop
  with Shape_mut := Induction for Shape Sort Prop
  with Entries_mut := Induction for Entries Sort Prop.
Combined Scheme shape_ind from Ty_mut, Shape_mut, Entries_mut.

(** ** The derived schema *)

(** The fields a struct declares by hand. *)
Fixpoint entry_fields (fs : Entries) : result (list Field) :=
  match fs with
  | NoEntry => Ok []
  | FieldEntry name t rest => tr ← type_ref_for t; fl ← entry_fields rest; Ok (mkField name tr true :: fl)
  end.

Lemma add_entries_eq fs : forall b,
  add_entries fs b = (fl ← entry_fields fs; Ok (mkBuilder (sb_name b) (sb_version b) (sb_fields b ++ fl))).
Proof.
  induction fs as [|name t rest IH]; intros b; cbn [entry_fields add_entries].
  - cbn [mbind result_bind]. rewrite app_nil_r. by destruct b.
  - destruct (type_ref_for t); [|done..]. cbn [mbind result_bind]. rewrite IH.
    cbn [builder_add sb_name sb_version sb_fields]. destruct (entry_fields rest); [|done..].
    cbn [mbind result_bind]. by rewrite <-app_assoc.
Qed.

Lemma derived :
  (forall t, declared_ty t -> exists tr, type_ref_for t = Ok tr /\ wf_type tr) /\
  (forall s, declared s -> exists sc fl, build_schema s = Ok sc /\ wf_schema sc /\
     entry_fields (shape_entries s) = Ok fl /\
     Schema_name sc = shape_name s /\ Schema_version sc = shape_version s /\ Schema_fields sc = fl) /\
  (forall fs, declared_entries fs -> exists fl, entry_fields fs = Ok fl /\
     fname <$> fl = entry_names fs /\ Forall (fun f => required f = true) fl /\ Forall (fun f => wf_type (ftype f)) fl).
Proof.
  apply shape_ind; cbn [declared_ty declared declared_entries type_ref_for].
  1-5: intros _; eexists; (split; [reflexivity|]); by constructor.
  - intros t IH Ht. destruct (IH Ht) as (tr & -> & Hw). eexists. split; [reflexivity|]. by constructor.
  - intros s IH Hs. destruct (IH Hs) as (sc & fl & -> & Hw & _). eexists. split; [reflexivity|]. by constructor.
  - intros name version fs IH (Hv & Hnd & Hne & Hfs). destruct (IH Hfs) as (fl & Efl & En & _ & Hw).
    cbn [build_schema shape_entries]. rewrite add_entries_eq, Efl. cbn [mbind result_bind builder sb_name sb_version sb_fields app].
    unfold builder_build. cbn [sb_name sb_version sb_fields].
    assert (Forall (fun f => messages_wf (ftype f)) fl) as Hm.
    { eapply Forall_impl; [exact Hw|]. intros f. apply wf_type_messages_wf. }
    assert (valid_fields fl) as Hvalid.
    { split; [by rewrite En|]. split.
      - rewrite <-En, Forall_fmap in Hne. exact Hne.
      - eapply Forall_impl; [exact Hw|]. intros f. apply wf_type_valid. }
    destruct (Schema_new_cases name version fl) as [(_ & cid & _ & Esc)|[[] _]]; [|done].
    exists (mkSchema name version fl cid), fl. split; [exact Esc|]. split; [|done].
    apply (proj1 (proj2 (Schema_new_iff name version fl Hv Hm) _) Esc).
  - intros _. exists []. split; [done|]. split; [done|]. by split.
  - intros name t IHt rest IHr [Ht Hr]. cbn [entry_fields entry_names].
    destruct (IHt Ht) as (tr & -> & Hw). destruct (IHr Hr) as (fl & -> & <- & H1 & H2).
    eexists. split; [reflexivity|]. split; [done|]. split; by constructor.
Qed.

(** The derived schema is the hand-built one.  For every declared struct, [schema_of]
    succeeds and gives the schema that the constructor, hence a builder, gives for
    the struct's name, version and members in order, each required and of the type
    its C++ type stands for: same fields, same content id. *)
Theorem schema_of_spec s :
  declared s ->
  exists sc fl, schema_of s = Ok sc /\ wf_schema sc /\
    entry_fields (shape_entries s) = Ok fl /\ fname <$> fl = entry_names (shape_entries s) /\
    Forall (fun f => required f = true) fl /\
    Schema_new (shape_name s) (shape_version s) fl = Ok sc.
Proof.
  intros Hs. destruct (proj1 (proj2 derived) s Hs) as (sc & fl & E & Hw & Efl & Hn & Hv & Hf).
  destruct s as [name version fs]. cbn [shape_entries shape_name shape_version] in *.
  destruct Hs as (Hver & _ & _ & Hfs). destruct (proj2 (proj2 derived) fs Hfs) as (fl' & Efl' & En & Hr & Hwt).
  rewrite Efl in Efl'. injection Efl' as <-. exists sc, fl. do 5 (split; [done|]).
  assert (Forall (fun f => messages_wf (ftype f)) fl) as Hm.
  { eapply Forall_impl; [exact Hwt|]. intros f. apply wf_type_messages_wf. }
  by apply (proj2 (Schema_new_iff name version fl Hver Hm)).
Qed.

(** ** Converting to a value and back *)

Lemma each_mapM {A B : Type} (f : A -> result B) (R : A -> B -> Prop) l :
  (forall a, exists b, f a = Ok b /\ R a b) -> exists bs, each f l = Ok bs /\ Forall2 R l bs.
Proof.
  intros Hf. induction l as [|a l (bs & IH & HR)]; [by exists []|]. destruct (Hf a) as (b & Hb & Hab).
  exists (b :: bs). cbn [each]. rewrite Hb. cbn [mbind result_bind]. rewrite IH. split; [done|by constructor].
Qed.

Lemma each_back {A B : Type} (g : B -> result A) (l : list A) bs :
  Forall2 (fun a b => g b = Ok a) l bs -> each g bs = Ok l.
Proof. induction 1 as [|a b l bs Hab _ IH]; [done|]. cbn [each]. rewrite Hab. cbn [mbind result_bind]. by rewrite IH. Qed.

(** A value being filled: the members of [fs] go to the slots after those of [fl0]. *)
Definition filling (fs : Entries) (o : Members fs) : Prop :=
  forall sc fl0 fl sl, entry_fields fs = Ok fl -> Schema_fields sc = fl0 ++ fl ->
    NoDup (fname <$> Schema_fields sc) -> length sl = length fl0 ->
    exists cs, set_members fs o (mkValue sc (sl ++ replicate (length fl) None)) = Ok (mkValue sc (sl ++ (Some <$> cs))) /\
      Forall2 (fun f c => conforms_cell (ftype f) c) fl cs /\
      get_members fs (mkValue sc (sl ++ (Some <$> cs))) = Ok o.

Lemma conversions :
  (forall t, declared_ty t -> forall tr, type_ref_for t = Ok tr ->
     forall m, exists c, to_cell t m = Ok c /\ conforms_cell tr c /\ from_cell t c = Ok m) /\
  (forall s, declared s -> forall o, exists sc v, schema_of s = Ok sc /\ to_value s o = Ok v /\
     Value_schema v = sc /\ aligned v /\ conforms_value sc v /\ from_value s v = Ok o) /\
  (forall fs, declared_entries fs -> forall o, filling fs o).
Proof.
  apply shape_ind; cbn [declared_ty declared declared_entries].
  1-5: intros _ tr [= <-] m; eexists; split; [reflexivity|done].
  - intros t IH Ht tr H m. cbn [type_ref_for] in H. inv_bind H. injection H as <-.
    destruct (each_mapM (to_cell t) (fun m c => conforms_cell r c /\ from_cell t c = Ok m) m)
      as (cs & E & Hcs).
    { intros a. destruct (IH Ht r Er a) as (c & Hc & H). by exists c. }
    exists (CList cs). cbn [to_cell]. rewrite E. split; [done|]. split.
    + cbn. apply Forall_forall. intros c Hc. apply list_elem_of_lookup in Hc as [i Hi].
      destruct (Forall2_lookup_r _ _ _ _ _ Hcs Hi) as (a & _ & Ha & _). exact Ha.
    + cbn [from_cell as_list mbind result_bind]. apply each_back. eapply Forall2_impl; [exact Hcs|]. by intros a b [_ ?].
  - intros s IH Hs tr H m. cbn [type_ref_for] in H. destruct (IH Hs m) as (sc & v & Esc & Ev & Hsc & _ & Hc & Hb).
    unfold schema_of in Esc. rewrite Esc in H. injection H as <-. exists (CMessage (Some v)). cbn [to_cell]. rewrite Ev.
    split; [done|]. split; [by cbn; rewrite Hsc|]. cbn [from_cell as_message mbind result_bind deref]. exact Hb.
  - intros name version fs IH (Hv & Hnd & Hne & Hfs) o.
    destruct (proj1 (proj2 derived) (mkShape name version fs)) as (sc & fl & Esc & Hw & Efl & _ & _ & Hfl); [done|].
    cbn [shape_entries] in Efl. pose proof (wf_schema_nodup sc Hw) as Hndf.
    destruct (IH Hfs o sc [] fl [] Efl Hfl Hndf eq_refl) as (cs & Es & Hcs & Hg). cbn [app] in *.
    exists sc, (mkValue sc (Some <$> cs)). split; [exact Esc|]. cbn [to_value]. unfold schema_of. rewrite Esc.
    cbn [mbind result_bind Value_new]. rewrite Hfl. split; [exact Es|]. split; [done|].
    pose proof (Forall2_length _ _ _ Hcs) as Hlen. split.
    { unfold aligned. cbn [Value_slots Value_schema]. by rewrite length_fmap, Hfl. }
    split; [|exact Hg]. apply conforms_value_fields. apply Forall_forall. intros f Hf.
    apply list_elem_of_lookup in Hf as [i Hi]. unfold conforms_field, Value_get. cbn [Value_schema].
    rewrite (field_index_lookup _ _ _ Hndf Hi). rewrite Hfl in Hi.
    destruct (Forall2_lookup_l _ _ _ _ _ Hcs Hi) as (c & Hci & Hc). unfold Value_at. cbn [Value_slots].
    by rewrite list_lookup_fmap, Hci.
  - intros _ o sc fl0 fl sl [= <-] Hfl Hnd Hl. exists []. split; [done|]. split; [constructor|]. by destruct o.
  - intros name t IHt rest IHr [Ht Hr] [m ms] sc fl0 fl sl H Hfl Hnd Hl. cbn [entry_fields] in H.
    inv_bind H. inv_bind H. injection H as <-. destruct (IHt Ht r Er m) as (c & Ec & Hc & Hb).
    assert (Schema_fields sc = (fl0 ++ [mkField name r true]) ++ r0) as Hfl' by (by rewrite <-app_assoc).
    assert (Schema_fields sc !! length sl = Some (mkField name r true)) as Hi.
    { rewrite Hfl, Hl. by apply list_lookup_middle. }
    destruct (IHr Hr ms sc (fl0 ++ [mkField name r true]) r0 (sl ++ [Some c]) Er0 Hfl' Hnd) as (cs & Es & Hcs & Hg).
    { rewrite !length_app, Hl. done. }
    exists (c :: cs). assert (forall x, (sl ++ [Some c]) ++ x = sl ++ Some c :: x) as Ea by (intros x; by rewrite <-app_assoc).
    rewrite !Ea in Es. rewrite Ea in Hg.
    pose proof (field_index_lookup _ _ _ Hnd Hi) as Hix. cbn [fname] in Hix.
    split; [|split; [by constructor|]].
    + cbn [set_members fst snd]. rewrite Ec. cbn [mbind result_bind].
      rewrite (Value_set_ok _ _ _ (length sl)) by exact Hix. cbn [mbind result_bind Value_schema Value_slots length replicate].
      rewrite insert_app_r_alt by lia. rewrite Nat.sub_diag. exact Es.
    + cbn [get_members]. unfold Value_get. cbn [Value_schema]. rewrite Hix. unfold Value_at. cbn [Value_slots fmap list_fmap].
      rewrite list_lookup_middle by done. cbn [mjoin option_join deref mbind result_bind]. rewrite Hb.
      cbn [mbind result_bind]. by rewrite Hg.
Qed.

(** C33: a struct and its value say the same.  For every declared struct, [to_value] of any
    object succeeds; the value claims the derived schema and the gate would admit
    it there, and [from_value] gives back that very object. *)
Theorem shape_roundtrip s o :
  declared s ->
  exists sc v, schema_of s = Ok sc /\ to_value s o = Ok v /\ Value_schema v = sc /\ aligned v /\
    conforms v sc /\ from_value s v = Ok o.
Proof.
  intros Hs. destruct (proj1 (proj2 conversions) s Hs o) as (sc & v & E1 & E2 & E3 & E4 & E5 & E6).
  exists sc, v. do 4 (split; [done|]). split; [|done]. split; [by rewrite E3|done].
Qed.

(** ** Reading what the gate admitted *)

Lemma from_conforming :
  (forall t, forall tr, type_ref_for t = Ok tr -> forall c, conforms_cell tr c -> exists m, from_cell t c = Ok m) /\
  (forall s, forall sc, build_schema s = Ok sc -> forall v, conforms_value sc v -> exists o, from_value s v = Ok o) /\
  (forall fs, forall fl, entry_fields fs = Ok fl -> forall v, Forall (conforms_field v) fl -> exists o, get_members fs v = Ok o).
Proof.
  apply shape_ind; cbn [type_ref_for].
  1-5: intros tr [= <-] c Hc; destruct c; try done; by eexists.
  - intros t IH tr H c Hc. inv_bind H. injection H as <-. cbn in Hc. destruct c as [| | | | | |a]; try done.
    cbn [from_cell as_list mbind result_bind]. induction Hc as [|c a Hc _ [ms Ems]]; [by exists []|].
    destruct (IH r Er c Hc) as [m Em]. exists (m :: ms). cbn [each]. rewrite Em. cbn [mbind result_bind]. by rewrite Ems.
  - intros s IH tr H c Hc. inv_bind H. injection H as <-. cbn in Hc. destruct c as [| | | | |[v|]|]; try done.
    destruct Hc as [_ Hc]. cbn [from_cell as_message mbind result_bind deref]. by apply (IH r Er).
  - intros name version fs IH sc H v Hc. cbn [build_schema] in H. inv_bind H. cbn [from_value].
    rewrite add_entries_eq in Er. inv_bind Er. injection Er as <-. apply (IH r0 Er0).
    rewrite conforms_value_fields in Hc. unfold builder_build in H. cbn [sb_name sb_version sb_fields app builder] in H.
    unfold Schema_new in H. inv_bind H. inv_bind H. by injection H as <-.
  - intros fl [= <-] v _. by exists tt.
  - intros name t IHt rest IHr fl H v Hv. inv_bind H. inv_bind H. injection H as <-. apply Forall_cons in Hv as [Hf Hv].
    unfold conforms_field in Hf. cbn [fname ftype required] in Hf. cbn [get_members].
    destruct (Value_get v name) as [c|]; [|done]. cbn [deref mbind result_bind].
    destruct (IHt r Er c Hf) as [m ->]. cbn [mbind result_bind].
    destruct (IHr r0 Er0 v Hv) as [ms ->]. by eexists.
Qed.

Lemma from_value_of s sc v : schema_of s = Ok sc -> conforms v sc -> exists o, from_value s v = Ok o.
Proof. intros Hsc [_ Hc]. by apply (proj1 (proj2 from_conforming) s sc Hsc v). Qed.

(** The conversion's precondition is what the gate gives.  On every value that conforms
    to a struct's schema, which is what the gate admits there, [from_value] returns
    an object: it meets no null cell, no cell of another kind, no null message. *)
Theorem from_value_admitted s sc v :
  schema_of s = Ok sc -> conforms v sc -> exists o, from_value s v = Ok o.
Proof. apply from_value_of. Qed.
