(* ===== verification/Authored.v ===== *)
(** * Authored shards

    [include/zen/author/shard.hpp]: [ShardBase] makes a [Shard] of a state struct, a
    handler for each accepted struct and a list of emitted ones.  The CRTP parameters
    and the author's own functions are a class, [Authored]; [ShardBase_ops] is the
    virtual interface the template derives, and [Mail] what a handler may do. *)

From S2P Require Import Prelude Schema Value Registry Gate Grant Bus Switchboard Enqueue Invariant Residents Shape.

(** ** Mail *)

Record Mail : Type := mkMail { mail_in : Message; mail_self : ShardId }.
Definition mail_sender (m : Mail) : ShardId := sender (mail_in m).
Definition mail_reply_to (m : Mail) : ShardId := reply_to (mail_in m).
Definition mail_correlation (m : Mail) : Z := correlation (mail_in m).

Section mail.
Context {Self : Type} (self : Self) (m : Mail).

(** A conversion inside the handler. *)
Definition converted (v : result Value) (k : Value -> Handler Self) : Handler Self :=
  match v with Ok v => k v | Throw e => Raise self e | UB => Crash self end.

Definition mail_reply {T : Shape} (msg : Struct T) (k : Ticket -> Handler Self) : Handler Self :=
  converted (to_value T msg) (fun v =>
    SendTo self (reply_to (mail_in m)) (mkMessage v (mail_self m) (mail_self m) (correlation (mail_in m))) k).
Definition mail_send {T : Shape} (target : ShardId) (msg : Struct T) (correlation : Z)
    (k : Ticket -> Handler Self) : Handler Self :=
  converted (to_value T msg) (fun v => SendTo self target (mkMessage v (mail_self m) 0 correlation) k).
Definition mail_publish {T : Shape} (msg : Struct T) (correlation : Z) (k : Z -> Handler Self) : Handler Self :=
  converted (to_value T msg) (fun v => PublishAll self (mkMessage v (mail_self m) 0 correlation) k).
End mail.

(** ** The author's part *)

Record LifecyclePolicy : Set := mkPolicy { lp_max_reloads : Z; lp_revive_from_last_good : bool }.
Definition LifecyclePolicy_default : LifecyclePolicy := mkPolicy 4 true.

(** [void on(const S&, Mail&)]. *)
Inductive Door (Self : Type) : Type :=
| mkDoor (s : Shape) (on : Self -> Struct s -> Mail -> Handler Self).
Arguments mkDoor {Self} _ _.
Definition door_shape {Self : Type} (d : Door Self) : Shape := match d with mkDoor s _ => s end.

(** [ShardBase<Self, State, Accept<A...>, Emit<E...>>], with the two members it keeps
    in [Self]. *)
Class Authored (Self : Type) : Type := {
  State : Shape;
  state_ : Self -> Struct State;
  set_state_ : Struct State -> Self -> Self;
  self_ : Self -> ShardId;
  zen_set_self : ShardId -> Self -> Self;
  doors : list (Door Self);
  emits : list Shape;
  policy_config : Self -> LifecyclePolicy
}.

Section base.
Context {Self : Type} `{Authored Self}.

Definition emitted_schemas : result (list Schema) := each schema_of emits.

Definition unrouted (v : Value) : exn :=
  logic_error (str "zen::author::ShardBase: delivered message of shape '" ++ Schema_name (Value_schema v) ++
    str " v" ++ to_string (Schema_version (Value_schema v)) ++
    str "' matched no handler — accept-set and handler set are out of sync").

(** The fold over [dispatch_to]. *)
Fixpoint dispatch (ds : list (Door Self)) (self : Self) (m : Message) (mail : Mail) : Handler Self :=
  match ds with
  | [] => Raise self (unrouted (payload m))
  | mkDoor s on :: ds =>
      match schema_of s with
      | Ok sc =>
          if negb (same_identity sc (Value_schema (payload m))) then dispatch ds self m mail else
          match from_value s (payload m) with
          | Ok o => on self o mail
          | Throw e => Raise self e
          | UB => Crash self
          end
      | Throw e => Raise self e
      | UB => Crash self
      end
  end.

Definition ShardBase_policy (self : Self) : result Value :=
  let p := policy_config self in
  door ← lifecycle_policy_schema;
  v ← Value_new (Some door);
  v ← Value_set v "max_reloads" (CInt (lp_max_reloads p));
  Value_set v "revive_from_last_good" (CBool (lp_revive_from_last_good p)).

Definition ShardBase_ops : ShardOps Self := {|
  accepted_schemas _ := l ← each (fun d => schema_of (door_shape d)) doors; Ok (Some <$> (l : list Schema));
  handle self m := dispatch doors self m (mkMail m (self_ self));
  shard_snapshot self := to_value State (state_ self);
  policy := ShardBase_policy;
  revive self v := match from_value State v with
                   | Ok s => (set_state_ s self, Ok tt)
                   | Throw e => (self, Throw e)
                   | UB => (self, UB)
                   end
|}.

(** ** Mounting *)

Fixpoint allow_each (ss : list Schema) (g : Grant) : Grant :=
  match ss with
  | [] => g
  | s :: ss => allow_each ss (allow_to_any g (Schema_name s) (Schema_version s))
  end.
Definition emit_default_grant : result Grant := ss ← emitted_schemas; Ok (allow_each ss nothing).
End base.

Section mount.
Context {Self Sh Ob : Type} `{Authored Self} `{sh_ops : ShardOps Sh} `{ob_ops : ObserverOps Ob}.
(** How the bus holds an authored shard among its others. *)
Context (up : Self -> Sh).

(** The raw pointer kept is to the shard as registered: [register_shard] reads it
    only. *)
Definition mount_granted (grant : Grant) (shard : Self) : M (Switchboard Sh Ob) ShardId :=
  id ← register_shard (Some (up shard)) grant;
  _ ← modify (update_shard id (rec_set_shard (up (zen_set_self id shard))));
  mret id.
Definition mount_authored (shard : Self) : M (Switchboard Sh Ob) ShardId :=
  grant ← lift (emit_default_grant (Self := Self));
  mount_granted grant shard.
End mount.

(** ** What the compiler sees to

    Every struct named is declared, and no two accepted structs have one name and
    version. *)
Class AuthoredLaws (Self : Type) `{Authored Self} : Prop := {
  state_declared : declared State;
  doors_declared : Forall (fun d : Door Self => declared (door_shape d)) doors;
  emits_declared : Forall declared emits;
  doors_distinct : NoDup ((fun d : Door Self => (shape_name (door_shape d), shape_version (door_shape d))) <$> doors);
  state_set self s : state_ (set_state_ s self) = s
}.

Section laws.
Context {Self : Type} `{AuthoredLaws Self}.
#[local] Existing Instance ShardBase_ops.

Lemma schema_of_declared s : declared s ->
  exists sc, schema_of s = Ok sc /\ wf_schema sc /\ Schema_name sc = shape_name s /\ Schema_version sc = shape_version s.
Proof. intros Hs. destruct (proj1 (proj2 derived) s Hs) as (sc & fl & ? & ? & _ & ? & ? & _). by exists sc. Qed.

Lemma each_schemas l : Forall declared l ->
  exists ss, each schema_of l = Ok ss /\ Forall wf_schema ss /\
    Forall2 (fun s sc => Schema_name sc = shape_name s /\ Schema_version sc = shape_version s) l ss.
Proof.
  induction 1 as [|s l Hs _ (ss & E & Hw & Hss)]; [by exists []|]. destruct (schema_of_declared s Hs) as (sc & Es & ? & ?).
  exists (sc :: ss). cbn [each]. rewrite Es. cbn [mbind result_bind]. rewrite E. split; [done|]. by split; constructor.
Qed.

Lemma each_doors (ds : list (Door Self)) :
  each (fun d => schema_of (door_shape d)) ds = each schema_of (door_shape <$> ds).
Proof. induction ds as [|d ds IH]; [done|]. cbn [each fmap list_fmap]. destruct (schema_of _); [|done..]. cbn. by rewrite IH. Qed.

(** An authored shard is a lawful one. *)
#[export] Instance ShardBase_laws : ShardLaws Self.
Proof using Type*.
  split.
  - intros self l s E Hs. cbn [accepted_schemas ShardBase_ops] in E. rewrite each_doors in E.
    destruct (each_schemas (door_shape <$> doors)) as (ss & E' & Hw & _); [apply Forall_fmap, doors_declared|].
    rewrite E' in E. injection E as <-. apply list_elem_of_fmap in Hs as (sc & [= ->] & Hs).
    rewrite Forall_forall in Hw. by apply Hw.
  - intros self v E. cbn [shard_snapshot ShardBase_ops] in E.
    destruct (schema_of_declared State state_declared) as (sc & Esc & Hw & _).
    destruct (proj1 (proj2 conversions) State state_declared (state_ self)) as (sc' & v' & Esc' & Ev & <- & _).
    rewrite Ev in E. injection E as <-. rewrite Esc in Esc'. by injection Esc' as <-.
Qed.

(** ** Dispatch *)

Lemma dispatch_reaches ds self m mail s on sc :
  Forall (fun d : Door Self => declared (door_shape d)) ds ->
  NoDup ((fun d : Door Self => (shape_name (door_shape d), shape_version (door_shape d))) <$> ds) ->
  mkDoor s on ∈ ds -> schema_of s = Ok sc ->
  same_identity sc (Value_schema (payload m)) = true -> conforms (payload m) sc ->
  exists o, from_value s (payload m) = Ok o /\ dispatch ds self m mail = on self o mail.
Proof.
  intros Hd Hnd Hin Hsc Hid Hc. destruct (proj1 (proj2 from_conforming) s sc Hsc (payload m) (proj2 Hc)) as [o Ho].
  exists o. split; [done|]. induction ds as [|d ds IH]; [by apply not_elem_of_nil in Hin|].
  apply Forall_cons in Hd as [Hs' Hd]. apply NoDup_cons in Hnd as [Hn Hnd].
  apply elem_of_cons in Hin as [<-|Hin].
  - cbn [dispatch]. rewrite Hsc, Hid. cbn [negb]. by rewrite Ho.
  - destruct d as [s' on']. cbn [dispatch door_shape] in *. destruct (schema_of_declared s' Hs') as (sc' & -> & _ & Hn' & Hv').
    destruct (same_identity sc' (Value_schema (payload m))) eqn:Hid'; cbn [negb]; [|by apply IH].
    exfalso. apply Hn. apply list_elem_of_fmap. exists (mkDoor s on). split; [|done]. cbn [door_shape].
    assert (declared s) as Hs by (rewrite Forall_forall in Hd; exact (Hd _ Hin)).
    destruct (schema_of_declared s Hs) as (sc2 & E & _ & Hn2 & Hv2). rewrite Hsc in E. injection E as <-.
    unfold same_identity in Hid, Hid'. apply andb_prop in Hid as [[Ha%bool_decide_eq_true Hb%Z.eqb_eq]%andb_prop _].
    apply andb_prop in Hid' as [[Ha'%bool_decide_eq_true Hb'%Z.eqb_eq]%andb_prop _]. congruence.
Qed.

Lemma accepted_door (self : Self) accepted door :
  accepted_schemas self = Ok accepted -> Some door ∈ accepted ->
  exists s on, mkDoor s on ∈ doors /\ schema_of s = Ok door.
Proof using Type*.
  intros E Hd. cbn [accepted_schemas ShardBase_ops] in E. inv_bind E. injection E as <-.
  apply list_elem_of_fmap in Hd as (sc & [= ->] & Hd). revert r Er Hd.
  induction (doors : list (Door Self)) as [|[s on] ds IH]; intros r Er Hd; cbn [each] in Er.
  { injection Er as <-. by apply not_elem_of_nil in Hd. }
  inv_bind Er. inv_bind Er. injection Er as <-. apply elem_of_cons in Hd as [->|Hd].
  - exists s, on. split; [by left|done].
  - destruct (IH _ Er1 Hd) as (s' & on' & Hin & Es). exists s', on'. split; [by right|done].
Qed.

(** C34: a delivered message reaches its handler.  Whatever message the bus delivers, that
    is one conforming to a door the shard accepts and claiming its name and version,
    the shard runs the handler written for that struct, on the object the payload
    converts to; it never throws that accept-set and handler set are out of sync,
    and never reads a missing cell. *)
Theorem authored_routes (self : Self) (m : Message) accepted door :
  accepted_schemas self = Ok accepted -> Some door ∈ accepted ->
  Schema_name door = Schema_name (Value_schema (payload m)) ->
  Schema_version door = Schema_version (Value_schema (payload m)) -> conforms (payload m) door ->
  exists s on o, mkDoor s on ∈ doors /\ schema_of s = Ok door /\ from_value s (payload m) = Ok o /\
    handle self m = on self o (mkMail m (self_ self)).
Proof using Type*.
  intros E Hd Hn Hv Hc. destruct (accepted_door self accepted door E Hd) as (s & on & Hin & Es).
  assert (same_identity door (Value_schema (payload m)) = true) as Hid.
  { unfold same_identity. rewrite Hn, Hv, (proj1 Hc), !Z.eqb_refl. by rewrite bool_decide_true. }
  destruct (dispatch_reaches doors self m (mkMail m (self_ self)) s on door doors_declared doors_distinct Hin Es Hid Hc)
    as (o & Ho & E').
  by exists s, on, o.
Qed.

(** ** The derived life cycle *)

Lemma ShardBase_policy_ok (self : Self) : exists p, ShardBase_policy self = Ok p /\ conforms p policy_door.
Proof using Type*.
  eexists. unfold ShardBase_policy. rewrite lifecycle_policy_schema_ok. split; [reflexivity|].
  split; [done|]. apply conforms_value_fields. by repeat constructor.
Qed.

(** C35: what is derived from the state struct is sound.  An authored shard always has a
    snapshot, which the gate admits at its own schema; reviving any shard of the
    class from it restores exactly the state it was taken of; reviving from any value
    that conforms to the snapshot's schema succeeds; and the policy it shows is one
    the lifecycle grammar admits. *)
Theorem authored_lifecycle (self other : Self) :
  exists v, shard_snapshot self = Ok v /\ conforms v (Value_schema v) /\
    revive other v = (set_state_ (state_ self) other, Ok tt) /\
    state_ (revive other v).1 = state_ self /\
    (forall w, conforms w (Value_schema v) -> (revive other w).2 = Ok tt) /\
    exists p, policy self = Ok p /\ conforms p policy_door.
Proof using Type*.
  destruct (proj1 (proj2 conversions) State state_declared (state_ self)) as (sc & v & Esc & Ev & <- & _ & Hc & Hb).
  exists v. cbn [shard_snapshot revive policy ShardBase_ops]. rewrite Hb. cbn [fst]. split; [done|].
  split; [by split|]. split; [done|]. split; [apply state_set|]. split; [|apply ShardBase_policy_ok].
  intros w [_ Hw]. destruct (proj1 (proj2 from_conforming) State _ Esc w Hw) as [o ->]. done.
Qed.

(** ** The default grant *)

Lemma allow_each_permits ss : forall g n v t,
  permits (allow_each ss g) n v t = true <->
  permits g n v t = true \/ exists s, s ∈ ss /\ Schema_name s = n /\ Schema_version s = v.
Proof.
  induction ss as [|s ss IH]; intros g n v t; cbn [allow_each]; [set_solver|].
  rewrite IH. unfold allow_to_any. rewrite permits_push, orb_true_iff, rule_permits_iff. cbn.
  split.
  - intros [[Hg|([[=]|[En Ev]] & _)]|(x & Hx & Ex)]; [by left|right; exists s|right; exists x];
      (split; [rewrite elem_of_cons; auto|done]).
  - intros [Hg|(x & [->|Hx]%elem_of_cons & En & Ev)]; [by do 2 left| |right; by exists x].
    left. right. split; [by right|by left].
Qed.

Lemma allow_each_os ss : forall g, os_ (allow_each ss g) = os_ g.
Proof. induction ss as [|s ss IH]; intros g; [done|]. cbn [allow_each]. by rewrite IH. Qed.

(** An authored shard is granted what it declares.  The default grant of a shard
    permits sending exactly the structs of its [Emit] list, to anyone, and no
    operating-system capability. *)
Theorem emit_default_grant_spec :
  exists g, emit_default_grant (Self := Self) = Ok g /\
    (forall n v t, permits g n v t = true <-> exists s, s ∈ emits /\ shape_name s = n /\ shape_version s = v) /\
    forall cap, 0 <= cap -> has_os_capability g cap = false.
Proof using Type*.
  destruct (each_schemas emits emits_declared) as (ss & E & _ & Hss).
  exists (allow_each ss nothing). unfold emit_default_grant, emitted_schemas. rewrite E. split; [done|]. split.
  - intros n v t. rewrite allow_each_permits. split.
    + intros [[=]|(sc & Hsc & <- & <-)]. apply list_elem_of_lookup in Hsc as [i Hi].
      destruct (Forall2_lookup_r _ _ _ _ _ Hss Hi) as (s & Hs & -> & ->). exists s. split; [|done].
      by eapply list_elem_of_lookup_2.
    + intros (s & Hs & <- & <-). right. apply list_elem_of_lookup in Hs as [i Hi].
      destruct (Forall2_lookup_l _ _ _ _ _ Hss Hi) as (sc & Hsc & ? & ?). exists sc. split; [|done].
      by eapply list_elem_of_lookup_2.
  - intros cap Hcap. apply not_true_is_false. rewrite has_os_capability_bits by done. rewrite allow_each_os.
    intros [Hn Hb]. apply Hn, Z.bits_inj'. intros i Hi. rewrite Z.bits_0. apply not_true_is_false.
    intros Ht. specialize (Hb i Hi Ht). by rewrite Z.bits_0 in Hb.
Qed.
End laws.

Section mounted.
Context {Self Sh Ob : Type} `{AuthoredLaws Self} `{sh_ops : ShardOps Sh} `{ob_ops : ObserverOps Ob}.
Context (up : Self -> Sh).

(** Mounting tells the shard who it is: if [mount] returns an id, it is the next id of
    the bus, and the shard registered there carries it, so what its handlers send is
    stamped with it. *)
Theorem mount_tells_self (shard : Self) grant (b : Switchboard Sh Ob) id :
  shards b !! next_shard_id b = None ->
  (mount_granted up grant shard b).2 = Ok id ->
  id = next_shard_id b /\
  Switchboard.shard id (mount_granted up grant shard b).1 = Some (up (zen_set_self id shard)).
Proof.
  intros Hfree. unfold mount_granted.
  pose proof (register_shard_adds (fun _ _ => True) (up shard) grant b) as Hadds.
  destruct (register_shard (Some (up shard)) grant b) as [b1 [i|e|]] eqn:E; unfold mbind, M_bind; rewrite E; [|done..].
  cbn [modify mret M_ret fst snd] in *. intros [= ->].
  destruct Hadds as [[_ Hno]|(b0 & rec & Hs & _ & Eid & _ & Hsh)]; [by destruct (Hno id)|].
  injection Eid as ->. split; [done|].
  destruct (shards b0 !! next_shard_id b) eqn:E0.
  { exfalso. destruct (proj1 (stays_ids _ _ _ Hs (next_shard_id b))) as [? E']; [by eexists|]. by rewrite Hfree in E'. }
  unfold Switchboard.shard, find, update_shard. cbn [set_shards shards]. rewrite Hsh, lookup_alter_eq, lookup_insert_eq. done.
Qed.
End mounted.
