(* ===== verification/Control.v ===== *)
(** * The kernel's message door

    [include/zen/kernel/control.hpp]: a shard whose handlers call the kernel.  They run
    inside the bus's dispatch loop and change the bus through the kernel: a handler
    is a computation over the kernel's world, whose bus holds the shard itself.
    [ControlBus] has the loop around it. *)

From S2P Require Import Prelude Schema Value Gate Grant Bus Switchboard Abi Kernel Shape Authored.

(** ** Shapes *)

Definition LoadLibrary : Shape :=
  mkShape "LoadLibrary" 1 (FieldEntry "name" TyText (FieldEntry "path" TyText NoEntry)).
Definition ReloadLibrary : Shape :=
  mkShape "ReloadLibrary" 1 (FieldEntry "name" TyText (FieldEntry "path" TyText NoEntry)).
Definition UnloadLibrary : Shape := mkShape "UnloadLibrary" 1 (FieldEntry "name" TyText NoEntry).
Definition ControlState : Shape := mkShape "ControlState" 1 (FieldEntry "ops" TyInt NoEntry).

(** ** The shard *)

(** Its two members from [ShardBase]; the kernel it points to is the world's. *)
Record ControlShard : Type := mkControl { control_state : Struct ControlState; control_self : ShardId }.
Definition ops (c : ControlShard) : Z := (control_state c).1.
Definition count (c : ControlShard) : ControlShard := mkControl (ops c + 1, tt) (control_self c).

(** What [ShardBase] derives apart from [handle]: its handlers call the kernel, which
    no tree of calls to the bus expresses, so here they are [Crash], run by
    nothing; [control_handle] below is the shard's [handle]. *)
Definition by_the_world (s : Shape) : Door ControlShard := mkDoor s (fun c _ _ => Crash c).

#[export] Instance Control_authored : Authored ControlShard := {
  State := ControlState;
  state_ := control_state;
  set_state_ s c := mkControl s (control_self c);
  self_ := control_self;
  zen_set_self id c := mkControl (control_state c) id;
  doors := [by_the_world LoadLibrary; by_the_world ReloadLibrary; by_the_world UnloadLibrary];
  emits := [];
  policy_config _ := LifecyclePolicy_default
}.

(** The host's own shards, the control shard among them. *)
Inductive Manned (N : Type) : Type :=
| Own (sh : N)
| Manning (c : ControlShard).
Arguments Own {N} _.
Arguments Manning {N} _.

#[export] Instance Manned_ops {N : Type} `{ShardOps N} : ShardOps (Manned N) := {
  accepted_schemas x := match x with Own s => accepted_schemas s | Manning c => @accepted_schemas _ ShardBase_ops c end;
  handle x m := match x with
                | Own s => handler_map Own (handle s m)
                | Manning c => handler_map Manning (@handle _ ShardBase_ops c m)
                end;
  shard_snapshot x := match x with Own s => shard_snapshot s | Manning c => @shard_snapshot _ ShardBase_ops c end;
  policy x := match x with Own s => policy s | Manning c => @policy _ ShardBase_ops c end;
  revive x v := match x with
                | Own s => let '(s, r) := revive s v in (Own s, r)
                | Manning c => let '(c, r) := @revive _ ShardBase_ops c v in (Manning c, r)
                end
}.

(** ** Handlers *)

Section control.
Context {N I Ob : Type} `{n_ops : ShardOps N} `{l_ops : LibraryOps I} `{ob_ops : ObserverOps Ob}.
Context (variant_what : bytes) (disk : bytes -> bytes + LibFile I).
Abbreviation KWorld := (World (Manned N) I Ob).

(** The control shard the bus holds under [id]. *)
Definition control_at (id : ShardId) (w : KWorld) : option ControlShard :=
  match shard id (kbus w) with Some (Plain (Manning c)) => Some c | _ => None end.
Definition set_control (id : ShardId) (c : ControlShard) (w : KWorld) : KWorld :=
  set_kbus (update_shard id (rec_set_shard (Plain (Manning c))) (kbus w)) w.

(** [++state_.ops]: signed overflow is undefined. *)
Definition count_op (id : ShardId) : M KWorld unit := fun w =>
  match control_at id w with
  | Some c => if ops c =? 2 ^ 63 - 1 then (w, UB) else (set_control id (count c) w, Ok tt)
  | None => (w, UB)
  end.

Definition on_LoadLibrary (id : ShardId) (m : Struct LoadLibrary) : M KWorld unit :=
  let '(name, (path, _)) := m in
  _ ← count_op id; _ ← load variant_what disk name path; mret tt.
Definition on_ReloadLibrary (id : ShardId) (m : Struct ReloadLibrary) : M KWorld unit :=
  let '(name, (path, _)) := m in
  _ ← count_op id; _ ← reload_from variant_what disk name path; mret tt.
Definition on_UnloadLibrary (id : ShardId) (m : Struct UnloadLibrary) : M KWorld unit :=
  let '(name, _) := m in
  _ ← count_op id; _ ← unload name; mret tt.

(** One step of the fold of [ShardBase::handle]. *)
Definition control_dispatch (s : Shape) (on : Struct s -> M KWorld unit) (v : Value) (rest : M KWorld unit)
  : M KWorld unit :=
  sc ← lift (schema_of s);
  if negb (same_identity sc (Value_schema v)) then rest else
  o ← lift (from_value s v); on o.

Definition control_handle (id : ShardId) (m : Message) : M KWorld unit :=
  let v := payload m in
  control_dispatch LoadLibrary (on_LoadLibrary id) v
    (control_dispatch ReloadLibrary (on_ReloadLibrary id) v
      (control_dispatch UnloadLibrary (on_UnloadLibrary id) v
        (lift (Throw (unrouted v))))).

(** ** Mounting *)

Definition mount_control : M KWorld ShardId :=
  on_bus (mount_authored (fun c => Plain (Manning c)) (mkControl (0, tt) 0)).
End control.

(** ** The load capability *)

Definition load_capability (control : ShardId) : Grant :=
  let g := allow nothing (shape_name LoadLibrary) (shape_version LoadLibrary) control in
  let g := allow g (shape_name ReloadLibrary) (shape_version ReloadLibrary) control in
  allow g (shape_name UnloadLibrary) (shape_version UnloadLibrary) control.

(** ** What the door does *)

(** What the bus establishes before it calls [handle]. *)
Definition delivered_as (s : Shape) (v : Value) : Prop :=
  exists sc, schema_of s = Ok sc /\ Schema_name sc = Schema_name (Value_schema v) /\
    Schema_version sc = Schema_version (Value_schema v) /\ conforms v sc.

Lemma delivered_identity s v sc :
  delivered_as s v -> schema_of s = Ok sc -> same_identity sc (Value_schema v) = true.
Proof.
  intros (sc' & E & Hn & Hv & Hc & _) E'. rewrite E in E'. injection E' as ->. unfold same_identity.
  rewrite Hn, Hv, Hc, !Z.eqb_refl. by rewrite bool_decide_true.
Qed.

Lemma other_identity s s' v sc' :
  delivered_as s v -> declared s -> declared s' -> shape_name s <> shape_name s' -> schema_of s' = Ok sc' ->
  same_identity sc' (Value_schema v) = false.
Proof.
  intros (sc & E & Hn & _) Hs Hs' Hne E'. destruct (schema_of_declared s Hs) as (x & Ex & _ & Hx & _).
  destruct (schema_of_declared s' Hs') as (x' & Ex' & _ & Hx' & _). rewrite E in Ex. rewrite E' in Ex'.
  injection Ex as <-. injection Ex' as <-. unfold same_identity. by rewrite bool_decide_false by congruence.
Qed.

Lemma control_declared : declared LoadLibrary /\ declared ReloadLibrary /\ declared UnloadLibrary.
Proof.
  split_and!; cbn; (split; [done|]); (split; [by apply (bool_decide_unpack _)|]); split; by repeat constructor.
Qed.

Lemma text_member n rest v x o :
  get_members (FieldEntry n TyText rest) v = Ok (x, o) ->
  Value_get v n = Some (CText x) /\ get_members rest v = Ok o.
Proof.
  cbn [get_members]. destruct (Value_get v n) as [[]|]; cbn; try done.
  destruct (get_members rest v); cbn; try done. by intros [= -> ->].
Qed.

Section driven.
Context {N I Ob : Type} `{n_ops : ShardOps N} `{l_ops : LibraryOps I} `{ob_ops : ObserverOps Ob}.
Context (variant_what : bytes) (disk : bytes -> bytes + LibFile I).
Abbreviation KWorld := (World (Manned N) I Ob).

Lemma dispatch_hit s (on : Struct s -> M KWorld unit) v rest w :
  delivered_as s v -> exists o, from_value s v = Ok o /\ control_dispatch s on v rest w = on o w.
Proof.
  intros Hd. pose proof Hd as (sc & E & _ & _ & Hc). destruct (from_value_of s sc v E Hc) as [o Ho]. exists o. split; [done|].
  unfold control_dispatch. rewrite (M_bind_ok (lift _) _ w w sc) by (by rewrite E).
  rewrite (delivered_identity s v sc Hd E). cbn [negb]. by rewrite (M_bind_ok (lift _) _ w w o) by (by rewrite Ho).
Qed.

Lemma dispatch_miss s s' (on : Struct s' -> M KWorld unit) v rest w :
  delivered_as s v -> declared s -> declared s' -> shape_name s <> shape_name s' ->
  control_dispatch s' on v rest w = rest w.
Proof.
  intros Hd Hs Hs' Hne. destruct (schema_of_declared s' Hs') as (sc & E & _). unfold control_dispatch.
  rewrite (M_bind_ok (lift _) _ w w sc) by (by rewrite E). by rewrite (other_identity s s' v sc Hd Hs Hs' Hne E).
Qed.

(** The kernel is operated by message.  A delivered LoadLibrary, ReloadLibrary or
    UnloadLibrary makes the control shard count it and run that operation of the
    kernel, and no other, with the name and the path its fields hold; the
    operation's result is dropped, its exception leaves the handler. *)
Theorem control_drives_kernel id (m : Message) c (w : KWorld) :
  control_at id w = Some c -> ops c < 2 ^ 63 - 1 ->
  let counted {A : Type} (op : M KWorld A) : KWorld * result unit :=
    let '(w', r) := op (set_control id (count c) w) in (w', _ ← r; Ok tt) in
  (delivered_as LoadLibrary (payload m) -> exists name path,
     Value_get (payload m) "name" = Some (CText name) /\ Value_get (payload m) "path" = Some (CText path) /\
     control_handle variant_what disk id m w = counted (load variant_what disk name path)) /\
  (delivered_as ReloadLibrary (payload m) -> exists name path,
     Value_get (payload m) "name" = Some (CText name) /\ Value_get (payload m) "path" = Some (CText path) /\
     control_handle variant_what disk id m w = counted (reload_from variant_what disk name path)) /\
  (delivered_as UnloadLibrary (payload m) -> exists name,
     Value_get (payload m) "name" = Some (CText name) /\
     control_handle variant_what disk id m w = counted (unload name)).
Proof.
  intros Hc Hops counted. destruct control_declared as (HL & HR & HU).
  assert (forall (A : Type) (op : M KWorld A),
    (_ ← count_op id; _ ← op; mret tt) w = counted A op) as Hcount.
  { intros A op. unfold counted, count_op, mbind, M_bind. rewrite Hc.
    destruct (Z.eqb_spec (ops c) (2 ^ 63 - 1)); [lia|].
    destruct (op (set_control id (count c) w)) as [w' [a|e|]]; done. }
  split; [|split]; intros Hd; unfold control_handle.
  - edestruct (dispatch_hit LoadLibrary) as ([name [path u]] & Ho & ->); [exact Hd|].
    apply text_member in Ho as [Hn [Hp _]%text_member]. exists name, path. split; [done|]. split; [done|]. apply Hcount.
  - rewrite (dispatch_miss ReloadLibrary LoadLibrary) by done.
    edestruct (dispatch_hit ReloadLibrary) as ([name [path u]] & Ho & ->); [exact Hd|].
    apply text_member in Ho as [Hn [Hp _]%text_member]. exists name, path. split; [done|]. split; [done|]. apply Hcount.
  - rewrite (dispatch_miss UnloadLibrary LoadLibrary), (dispatch_miss UnloadLibrary ReloadLibrary) by done.
    edestruct (dispatch_hit UnloadLibrary) as ([name u] & Ho & ->); [exact Hd|].
    apply text_member in Ho as [Hn _]. exists name. split; [done|]. apply Hcount.
Qed.
End driven.

(** Driving the kernel is a capability of its own.  What [load_capability] permits is
    sending one of the three structs to the control shard and nothing else, to no
    one else, with no operating-system capability. *)
Theorem load_capability_spec control n v t :
  (permits (load_capability control) n v t = true <->
   t = control /\ v = 1 /\ (n = str "LoadLibrary" \/ n = str "ReloadLibrary" \/ n = str "UnloadLibrary")) /\
  os_ (load_capability control) = 0.
Proof.
  split; [|done]. unfold load_capability, allow. rewrite !permits_push, !orb_true_iff, !rule_permits_iff.
  cbn. naive_solver.
Qed.
