(* ===== verification/AuthorScenarios.v ===== *)
(** * Concrete authored structs and shards

    A struct with every type of field, a shard that counts the pings it answers, and
    the kernel's door: the theorems about shapes, authored shards and the control
    shard applied to them. *)

From S2P Require Import Prelude Schema Value Gate Serialize Grant Bus Switchboard Scenarios Abi Kernel KernelSafety KernelScenarios Shape Authored Control.

(** ** Structs *)

Definition Point : Shape := mkShape "Point" 2 (FieldEntry "x" TyInt (FieldEntry "y" TyFloat NoEntry)).
Definition Everything : Shape :=
  mkShape "Everything" 1
    (FieldEntry "label" TyText (FieldEntry "on" TyBool (FieldEntry "raw" TyBytes
    (FieldEntry "origin" (TyShape Point) (FieldEntry "path" (TyVector (TyShape Point))
    (FieldEntry "grid" (TyVector (TyVector TyInt)) NoEntry)))))).

Definition everything : Struct Everything :=
  (str "map", (true, ([chr 0; chr 255], ((1, (4607182418800017408, tt)),
    ([(2, (0, tt)); (3, (0, tt))], ([[1; 2]; []; [3]], tt)))))).

Ltac declare := repeat (split; [first [done|by apply (bool_decide_unpack _)|by repeat constructor]|]); try done.

Lemma Point_declared : declared Point.
Proof. cbn. declare. Qed.
Lemma Everything_declared : declared Everything.
Proof. cbn. declare. Qed.

Lemma schema_of_spec_witness :
  exists sc fl, schema_of Point = Ok sc /\ wf_schema sc /\
    entry_fields (shape_entries Point) = Ok fl /\ fname <$> fl = [str "x"; str "y"] /\
    Forall (fun f => required f = true) fl /\ Schema_new "Point" 2 fl = Ok sc.
Proof. exact (schema_of_spec Point Point_declared). Defined.

Lemma shape_roundtrip_witness :
  exists sc v, schema_of Everything = Ok sc /\ to_value Everything everything = Ok v /\ Value_schema v = sc /\
    aligned v /\ conforms v sc /\ from_value Everything v = Ok everything.
Proof. exact (shape_roundtrip Everything everything Everything_declared). Defined.

Lemma from_value_admitted_witness : exists o, from_value (mkShape "PlayerState" 1
    (FieldEntry "hp" TyInt (FieldEntry "name" TyText NoEntry))) ami = Ok o.
Proof.
  apply (from_value_admitted _ player ami).
  - by vm_compute.
  - exact ami_conforms.
Defined.

(** ** A shard *)

Definition Count : Shape := mkShape "Count" 1 (FieldEntry "n" TyInt NoEntry).
Definition Ping : Shape := mkShape "Ping" 1 (FieldEntry "seq" TyInt NoEntry).
Definition Pong : Shape := mkShape "Pong" 1 (FieldEntry "seq" TyInt NoEntry).

Lemma pings_declared : declared Count /\ declared Ping /\ declared Pong.
Proof. cbn. split_and!; first [done|by apply (bool_decide_unpack _)|by repeat constructor]. Qed.

Record Pinger : Type := mkPinger { pinged : Z; pinger_id : ShardId }.

Definition on_ping (p : Pinger) (m : Struct Ping) (mail : Mail) : Handler Pinger :=
  let p := mkPinger (pinged p + 1) (pinger_id p) in
  mail_reply p mail (T := Pong) (m.1, tt) (fun _ => Done p).

#[export] Instance Pinger_authored : Authored Pinger := {
  State := Count;
  state_ p := (pinged p, tt);
  set_state_ s p := mkPinger s.1 (pinger_id p);
  self_ p := pinger_id p;
  zen_set_self id p := mkPinger (pinged p) id;
  doors := [mkDoor Ping on_ping];
  emits := [Pong];
  policy_config _ := LifecyclePolicy_default
}.

#[export] Instance Pinger_laws : AuthoredLaws Pinger.
Proof.
  destruct pings_declared as (Hc & Hi & Ho). split.
  - exact Hc.
  - by apply Forall_singleton.
  - by apply Forall_singleton.
  - apply NoDup_singleton.
  - by intros p [n []].
Qed.

#[local] Existing Instance ShardBase_ops.

Definition pinger : Pinger := mkPinger 4 0.
Definition ping_schema : Schema := match schema_of Ping with Ok s => s | _ => player end.
Definition ping : Message := mkMessage (mkValue ping_schema [Some (CInt 7)]) 5 6 8.

Lemma authored_routes_witness :
  exists s on o, mkDoor s on ∈ (doors : list (Door Pinger)) /\ schema_of s = Ok ping_schema /\
    from_value s (payload ping) = Ok o /\ handle pinger ping = on pinger o (mkMail ping 0).
Proof.
  refine (authored_routes pinger ping [Some ping_schema] ping_schema _ _ _ _ _).
  - by vm_compute.
  - by left.
  - done.
  - done.
  - by vm_compute.
Defined.

(** It answers to the reply address, under the correlation. *)
Example ping_answered :
  match handle pinger ping with
  | SendTo p target m k =>
      (pinged p, target, sender m, reply_to m, correlation m) = (5, 6, 0, 0, 8) /\
      to_value Pong (7, tt) = Ok (payload m) /\ k 0 = Done p
  | _ => False
  end.
Proof. vm_compute. done. Qed.

Lemma authored_lifecycle_witness :
  exists v, shard_snapshot pinger = Ok v /\ conforms v (Value_schema v) /\
    revive (mkPinger 0 9) v = (mkPinger 4 9, Ok tt) /\ state_ (revive (mkPinger 0 9) v).1 = (4, tt) /\
    (forall w, conforms w (Value_schema v) -> (revive (mkPinger 0 9) w).2 = Ok tt) /\
    exists p, policy pinger = Ok p /\ conforms p policy_door.
Proof. exact (authored_lifecycle pinger (mkPinger 0 9)). Defined.

Lemma emit_default_grant_spec_witness :
  exists g, emit_default_grant (Self := Pinger) = Ok g /\
    (forall n v t, permits g n v t = true <-> exists s, s ∈ [Pong] /\ shape_name s = n /\ shape_version s = v) /\
    forall cap, 0 <= cap -> has_os_capability g cap = false.
Proof. exact (emit_default_grant_spec (Self := Pinger)). Defined.

Definition quiet_bus : Switchboard Pinger (list BusEvent) := Switchboard_new 0.

Lemma mount_tells_self_witness :
  1 = next_shard_id quiet_bus /\
  Switchboard.shard 1 (mount_granted (fun p => p) nothing pinger quiet_bus).1 = Some (mkPinger 4 1).
Proof.
  refine (mount_tells_self (fun p : Pinger => p) pinger nothing quiet_bus 1 _ _).
  - by vm_compute.
  - by vm_compute.
Defined.

(** ** The kernel's door *)

Definition load_order : Message :=
  mkMessage (match to_value LoadLibrary (str "g", (str "libgrump.so", tt)) with Ok v => v | _ => ami end) 3 0 0.
Definition lab : World (Manned Echo) (Exported Grump) (list BusEvent) :=
  (mount_control (Kernel_new (Switchboard_new 0))).1.

Lemma load_delivered : delivered_as LoadLibrary (payload load_order).
Proof.
  exists (Value_schema (payload load_order)). split; [by vm_compute|]. split; [done|]. split; [done|].
  split; [done|]. apply conforms_value_fields. vm_compute. by repeat constructor.
Qed.

Lemma control_drives_kernel_witness :
  control_at 1 lab = Some (mkControl (0, tt) 1) /\
  exists name path,
    Value_get (payload load_order) "name" = Some (CText name) /\
    Value_get (payload load_order) "path" = Some (CText path) /\
    control_handle [] grump_disk 1 load_order lab =
      (let '(w, r) := load [] grump_disk name path (set_control 1 (mkControl (1, tt) 1) lab) in (w, _ ← r; Ok tt)).
Proof.
  assert (control_at 1 lab = Some (mkControl (0, tt) 1)) as Hc by (by vm_compute). split; [exact Hc|].
  exact (proj1 (control_drives_kernel [] grump_disk 1 load_order _ lab Hc eq_refl) load_delivered).
Defined.
