(* ===== verification/ControlBus.v ===== *)
(** * The control shard on the bus

    The dispatch loop of a bus that holds the control shard.  Its handler runs inside
    [deliver_one] and, through the kernel, registers, swaps and unregisters shards of
    the very bus that is delivering; so a delivery is a computation over the kernel's
    world, the same as [deliver_one] up to the virtual call of [handle]. *)

From S2P Require Import Prelude Schema Value Registry Gate Serialize SchemaCodec Grant Bus Switchboard Enqueue Invariant Dispatch Delivery Loop Residents Abi Kernel KernelSafety Shape Authored Control.

(** ** The loop *)

Section world.
Context {N I Ob : Type} `{n_ops : ShardOps N} `{l_ops : LibraryOps I} `{ob_ops : ObserverOps Ob}.
Context (variant_what : bytes).
Abbreviation KWorld := (World (Manned N) I Ob).

(** [rec->shard->handle(trusted, bus)]. *)
Definition handle_world (disk : bytes -> bytes + LibFile I) (id : ShardId) (trusted : Message) : M KWorld unit :=
  fun w => match control_at id w with
           | Some _ => control_handle variant_what disk id trusted w
           | None => on_bus (handle_at id trusted) w
           end.

Definition deliver_world (disk : bytes -> bytes + LibFile I) (env : Envelope) : M KWorld unit :=
  c ← on_bus (challenge env);
  match c with
  | inl r => on_bus (refuse env r)
  | inr v =>
      _ ← handle_world disk (env_target env)
            (mkMessage v (sender (env_msg env)) (reply_to (env_msg env)) (correlation (env_msg env)));
      _ ← on_bus (modify (record (env_seq env) Delivered Refusal_default));
      on_bus (emit (delivery_event env EvDelivered Refusal_default (Some v)))
  end.

(** What the loader finds may change between deliveries: [disks n] is what it finds
    when [n] are left to the fuel. *)
Fixpoint drain_world (disks : nat -> bytes -> bytes + LibFile I) (fuel : nat) (w : KWorld)
  : option (KWorld * result unit) :=
  match queue (kbus w) with
  | [] => Some (w, Ok tt)
  | env :: rest =>
      if stop_requested (kbus w) then Some (w, Ok tt) else
      match fuel with
      | O => None
      | S fuel =>
          match deliver_world (disks fuel) env (set_kbus (set_queue rest (kbus w)) w) with
          | (w, Ok _) => drain_world disks fuel w
          | (w, r) => Some (w, r)
          end
      end
  end.

Definition pump_world (disks : nat -> bytes -> bytes + LibFile I) (fuel : nat) (w : KWorld)
  : option (KWorld * result unit) :=
  if in_dispatch (kbus w) then Some (w, Ok tt) else
  match drain_world disks fuel (set_kbus (set_flags true false (kbus w)) w) with
  | Some (w, Ok _) => Some (set_kbus (set_flags false (stop_requested (kbus w)) (kbus w)) w, Ok tt)
  | r => r
  end.
End world.

(** ** The control shard is a lawful one *)

#[export] Instance Control_laws : AuthoredLaws ControlShard.
Proof.
  destruct control_declared as (HL & HR & HU). split.
  - cbn. split; [done|]. split; [by apply (bool_decide_unpack _)|]. split; by repeat constructor.
  - cbn [doors Control_authored by_the_world door_shape]. by repeat apply Forall_cons_2.
  - constructor.
  - apply (bool_decide_unpack _). by vm_compute.
  - by intros c s.
Qed.

#[export] Instance Manned_laws {N : Type} `{ShardLaws N} : ShardLaws (Manned N).
Proof.
  split.
  - intros [sh|c] l s; [apply (accepted_wf sh)|apply (@accepted_wf _ _ ShardBase_laws c)].
  - intros [sh|c] v; [apply (snapshot_wf sh)|apply (@snapshot_wf _ _ ShardBase_laws c)].
Qed.

(** ** What the kernel does to the deliveries

    Whatever the kernel does to its bus, the queue and the journal only grow at the
    back: what is in flight stays in flight. *)

Section appends.
Context {Sh Ob : Type} `{sh_ops : ShardOps Sh} `{ob_ops : ObserverOps Ob}.
Abbreviation Bus := (Switchboard Sh Ob).

Definition appends (b b' : Bus) : Prop :=
  exists l, queue b' = queue (push_all l b) /\ journal b' = journal (push_all l b) /\
    next_seq b' = next_seq (push_all l b) /\
    (observers b = [] -> l = [] /\ observers b' = []).

Lemma appends_same (b b' : Bus) :
  queue b' = queue b -> journal b' = journal b -> next_seq b' = next_seq b -> observers b' = observers b ->
  appends b b'.
Proof. intros E1 E2 E3 E4. exists []. split_and!; [done..|]. by rewrite E4. Qed.

#[global] Instance appends_refl : Reflexive appends.
Proof. intros b. by apply appends_same. Qed.

#[global] Instance appends_trans : Transitive appends.
Proof.
  intros b b1 b2 (l1 & Q1 & J1 & N1 & O1) (l2 & Q2 & J2 & N2 & O2). exists (l1 ++ l2).
  rewrite push_all_app, !push_all_eq. rewrite push_all_eq in Q1, J1, N1, Q2, J2, N2. cbn in *.
  rewrite Q2, J2, N2, Q1, J1, N1. split_and!; [done..|]. intros E. destruct (O1 E) as [-> E']. by destruct (O2 E') as [-> ?].
Qed.


(** What was in flight still is. *)
Lemma flight_kept fl (b b' : Bus) : appends b b' -> bus_ok fl b -> bus_ok [] b' -> bus_ok fl b'.
Proof.
  intros (l & EQ & EJ & EN & _) Hb [Ht _]. split; [done|].
  destruct (push_all_evolves fl l b Hb) as [[_ [H1 H2 H3]] _].
  split; unfold unrecorded, awaits in *; by rewrite ?EQ, ?EJ, ?EN.
Qed.

Lemma gate_appends {A : Type} (f : Z -> Z * result A) (b : Bus) : appends b (gate f b).1.
Proof. unfold gate. destruct (f (gate_calls b)). by apply appends_same. Qed.

Lemma emit_appends ev (b : Bus) : appends b (emit ev b).1.
Proof.
  destruct (observers b) as [|o obs] eqn:E.
  - unfold emit. rewrite E. cbn. done.
  - destruct (emit_grows ev b) as (l & obs' & s & -> & _). exists l. split_and!; [done..|]. by rewrite E.
Qed.

Lemma revive_at_appends id v (b : Bus) : appends b (revive_at id v b).1.
Proof.
  unfold revive_at. destruct (find id b) as [rec|]; [|done].
  destruct (revive (rec_shard rec) v). by apply appends_same.
Qed.

Ltac appends :=
  repeat first
    [ done | by apply appends_same | apply emit_appends | apply gate_appends | apply revive_at_appends
    | match goal with
      | |- appends ?b ((?m ≫= ?f) ?b).1 =>
          revert b; apply (M_bind_inv appends); [intros ?|intros ? ?]
      | |- context [match ?x with _ => _ end] => destruct x
      end ].

Lemma register_schema_at_appends s (b : Bus) : appends b (register_schema_at s b).1.
Proof. unfold register_schema_at. destruct (register_schema _ s). by apply appends_same. Qed.

Lemma accept_loop_appends declared : forall acc (b : Bus), appends b (accept_loop declared acc b).1.
Proof.
  induction declared as [|[s|] declared IH]; intros acc b; cbn [accept_loop]; [done| |done].
  revert b. apply (M_bind_inv appends); [apply register_schema_at_appends|intros; apply IH].
Qed.

Lemma register_shard_appends sh g (b : Bus) : appends b (register_shard sh g b).1.
Proof.
  destruct sh as [sh|]; [|done]. cbn [register_shard]. revert b.
  apply (M_bind_inv appends); [done|]. intros declared.
  apply (M_bind_inv appends); [apply accept_loop_appends|]. intros acc.
  apply (M_bind_inv appends); [done|]. intros snap.
  apply (M_bind_inv appends); [apply register_schema_at_appends|]. intros _.
  apply (M_bind_inv appends); [apply gate_appends|]. intros seeded b. appends.
Qed.

Lemma swap_state_appends id w (b : Bus) : appends b (swap_state id w b).1.
Proof. unfold swap_state. appends. Qed.

Lemma unregister_appends id (b : Bus) : appends b (unregister_shard id b).1.
Proof. unfold unregister_shard. destruct (find id b); [by apply appends_same|done]. Qed.
End appends.

Section kernel.
Context {N I Ob : Type} `{n_ops : ShardOps N} `{l_ops : LibraryOps I} `{ob_ops : ObserverOps Ob}.
Context (variant_what : bytes) (disk : bytes -> bytes + LibFile I).
Abbreviation AnyWorld := (World N I Ob).

Definition world_appends (w w' : AnyWorld) : Prop := appends (kbus w) (kbus w').

#[global] Instance world_appends_refl : Reflexive world_appends.
Proof. intros w. apply appends_refl. Qed.
#[global] Instance world_appends_trans : Transitive world_appends.
Proof. intros w1 w2 w3 H1 H2. unfold world_appends in *. by etrans. Qed.

Lemma on_bus_appends {A : Type} (m : M _ A) (w : AnyWorld) :
  appends (kbus w) (m (kbus w)).1 -> world_appends w (on_bus m w).1.
Proof. unfold on_bus, world_appends. by destruct (m (kbus w)). Qed.

Lemma on_bus_bind {A B : Type} (m : M _ A) (f : A -> M _ B) (w : AnyWorld) :
  on_bus (m ≫= f) w = (a ← on_bus m; on_bus (f a)) w.
Proof. unfold on_bus, mbind, M_bind. by destruct (m (kbus w)) as [b [a|e|]]. Qed.

Lemma try_appends {A : Type} (m : M AnyWorld A) w : world_appends w (m w).1 -> world_appends w (try m w).1.
Proof. unfold try. by destruct (m w) as [w' []]. Qed.

(** A step that leaves the bus alone. *)
Lemma aside {A : Type} (m : M AnyWorld A) w : kbus (m w).1 = kbus w -> world_appends w (m w).1.
Proof. unfold world_appends. by intros ->. Qed.

Lemma lib_open_appends path w : world_appends w (lib_open disk path w).1.
Proof. apply aside. unfold lib_open. by destruct (disk path). Qed.
Lemma lib_close_appends h w : world_appends w (lib_close h w).1.
Proof. apply aside. unfold lib_close. by case_bool_decide. Qed.
Lemma create_appends h abi w : world_appends w (create_instance h abi w).1.
Proof. apply aside. unfold create_instance. case_bool_decide; [by destruct (create abi)|done]. Qed.
Lemma destroy_appends h n w : world_appends w (Kernel.destroy h n w).1.
Proof. apply aside. unfold Kernel.destroy. by destruct (callable h n w). Qed.
Lemma call_appends {A : Type} h n (r : result A) w : world_appends w (Kernel.call h n r w).1.
Proof. apply aside. unfold Kernel.call. by destruct (callable h n w). Qed.
Lemma on_registry_appends {A : Type} (m : M Registry A) w : world_appends w (on_registry m w).1.
Proof. apply aside. unfold on_registry. by destruct (m (kregistry w)). Qed.
Lemma discard_appends h n w : world_appends w (discard h n w).1.
Proof. revert w. apply (M_bind_inv world_appends); intros; [apply destroy_appends|apply lib_close_appends]. Qed.

Ltac moves :=
  repeat first
    [ done | apply lib_open_appends | apply lib_close_appends | apply create_appends | apply destroy_appends
    | apply call_appends | apply on_registry_appends | apply discard_appends
    | apply on_bus_appends;
        first [apply register_shard_appends|apply swap_state_appends|apply gate_appends|by apply appends_same]
    | apply try_appends
    | match goal with
      | |- world_appends ?w (modify ?f ?w).1 => by apply (aside (modify f))
      | |- world_appends ?w ((?m ≫= ?f) ?w).1 =>
          revert w; apply (M_bind_inv world_appends); [intros ?|intros ? ?]
      | |- context [match ?x with _ => _ end] => destruct x
      end ].

Lemma reconstruct_appends h n i w : world_appends w (reconstruct h n i w).1.
Proof.
  revert w. apply (M_bind_inv world_appends); [intros; apply call_appends|]. intros [x st].
  destruct (negb _); [done|]. generalize manifest_schema. intros ms.
  apply (M_bind_inv world_appends); [done|]. intros door.
  apply (M_bind_inv world_appends); [intros; apply on_bus_appends, gate_appends|]. intros a.
  destruct (negb _); apply (M_bind_inv world_appends); try done. intros m w. apply on_registry_appends.
Qed.

Lemma load_appends name path w : world_appends w (load variant_what disk name path w).1.
Proof. unfold load. repeat first [apply reconstruct_appends|progress moves]. Qed.

Lemma rebind_at_appends id h n i w : world_appends w (rebind_at id h n i w).1.
Proof. unfold rebind_at. moves. Qed.

Lemma reload_from_appends name path w : world_appends w (reload_from variant_what disk name path w).1.
Proof. unfold reload_from. repeat first [apply reconstruct_appends|apply rebind_at_appends|progress moves]. Qed.

Lemma unload_appends name w : world_appends w (unload name w).1.
Proof.
  unfold unload, reset_shard. moves. apply on_bus_appends.
  pose proof (unregister_appends (ld_id l) (kbus s)) as Hu. by destruct (unregister_shard (ld_id l) (kbus s)).
Qed.
End kernel.

(** ** The world stays good *)

Section good.
Context {N I Ob : Type} `{n_ops : ShardOps N} `{n_laws : !ShardLaws N}.
Context `{l_ops : LibraryOps I} `{lib_laws : !LibraryLaws I} `{ob_ops : ObserverOps Ob}.
Context (variant_what : bytes) (Hcalm : forall (o : Ob) ev, (notify o ev).2 <> UB).
Abbreviation KWorld := (World (Manned N) I Ob).

(** Good, with [L] the bus's next id. *)
Definition good (L : Z) (w : KWorld) : Prop := exists Ls T, world_ok ∅ L Ls T None w.

Lemma good_bus L (w : KWorld) b :
  good L w -> bus_ok [] b -> (forall T : gmap Z (option (Z * Z)), stays (fun id => bound (T !! id)) (kbus w) b) -> good L (set_kbus b w).
Proof.
  intros (Ls & T & Hw) Hb Hs. exists Ls, T.
  exact (world_quiet ∅ L Ls T None w b (kregistry w) Hw Hb (Hs T) (wk_schemas _ _ _ _ _ _ Hw)).
Qed.

(** A good world with [fl] in flight, whose next id an operation moves by at most
    one. *)
Definition underway (L : Z) (fl : list Z) (w : KWorld) : Prop := good L w /\ bus_ok fl (kbus w).
Definition keeps (w w' : KWorld) : Prop :=
  forall L fl, underway L fl w -> L < 2 ^ 64 - 1 -> exists L', L <= L' <= L + 1 /\ underway L' fl w'.

Lemma keeps_refl (w : KWorld) : keeps w w.
Proof. intros L fl Hw _. exists L. split; [lia|done]. Qed.

Lemma underway_bus L fl fl' (w : KWorld) b :
  underway L fl w -> evolves fl fl' (kbus w) b -> (forall T : gmap Z (option (Z * Z)), stays (fun id => bound (T !! id)) (kbus w) b) ->
  underway L fl' (set_kbus b w).
Proof.
  intros [Hg Hb] He Hs. destruct (He Hb) as [Hb' _]. split; [|done]. apply good_bus; [done| |done].
  by eapply bus_ok_drop.
Qed.

(** One of the host's own shards replaced by another. *)
Lemma plain_underway L fl id s s' (w : KWorld) :
  shard id (kbus w) = Some (Plain s) -> underway L fl w ->
  underway L fl (set_kbus (update_shard id (rec_set_shard (Plain s')) (kbus w)) w).
Proof.
  intros Hs Hw. apply (underway_bus _ _ _ _ _ Hw).
  - apply evolves_tables; [done..|]. apply tables_update. intros rec' _ [H1 H2 H3 H4]. by split.
  - intros T. apply update_stays. intros rec Hr Hb. unfold shard, find in Hs. rewrite Hr in Hs.
    injection Hs as Hs. rewrite Hs in Hb. cbn.
    destruct (T !! id) as [[p|]|]; cbn in *; [by destruct Hb as (? & [=] & _)|done|by eexists].
Qed.

Lemma count_op_underway L fl id (w : KWorld) : underway L fl w -> underway L fl (count_op id w).1.
Proof.
  intros Hw. unfold count_op, control_at. destruct (shard id (kbus w)) as [[[sh|c]|a]|] eqn:Hs; try done.
  destruct (_ =? _); [done|]. by apply (plain_underway L fl id (Manning c)).
Qed.

(** An order of the control shard: it counts, then runs one operation. *)
Lemma order_keeps {A : Type} id (op : M KWorld A) (w : KWorld) :
  (forall w, world_appends w (op w).1) ->
  (forall L w, good L w -> L < 2 ^ 64 - 1 -> exists L', L <= L' <= L + 1 /\ good L' (op w).1) ->
  keeps w ((_ ← count_op id; _ ← op; mret tt) w).1.
Proof.
  intros Ha Hop L fl Hw HL. apply (count_op_underway L fl id) in Hw.
  unfold mbind, M_bind. destruct (count_op id w) as [w1 [u|e|]]; cbn [fst] in Hw; [|by apply keeps_refl..].
  destruct Hw as [Hg Hb]. destruct (Hop L w1 Hg HL) as (L' & HL' & Hg'). specialize (Ha w1).
  assert (underway L' fl (op w1).1) as Hu.
  { split; [done|]. apply (flight_kept _ _ _ Ha Hb). destruct Hg' as (Ls & T & Hw'). apply Hw'. }
  exists L'. split; [done|]. by destruct (op w1) as [w2 []].
Qed.

Lemma load_moves disk name path L (w : KWorld) :
  good L w -> L < 2 ^ 64 - 1 -> exists L', L <= L' <= L + 1 /\ good L' (load variant_what disk name path w).1.
Proof.
  intros (Ls & T & Hw) HL. destruct (wk_frame _ _ _ _ _ _ Hw) as [EL _].
  destruct (load_good variant_what ∅ L Ls T disk name path w Hw ltac:(lia) (lookup_empty _)) as (w' & r & -> & Hl). unfold loads in Hl.
  destruct (load_ok r); [destruct Hl as (_ & h & n & ?); exists (L + 1)|exists L]; (split; [lia|]); by do 2 eexists.
Qed.

Lemma reload_moves disk name path L (w : KWorld) :
  good L w -> good L (reload_from variant_what disk name path w).1.
Proof.
  intros (Ls & T & Hw). pose proof (reload_world_ok variant_what ∅ disk Hcalm L Ls T name path w Hw) as Hr.
  assert (forall r w', reloads ∅ L Ls T name r w' -> good L w') as Hgood.
  { intros r w' [[? _]|(rec & p & h & n & _ & _ & _ & ? & _)]; by do 2 eexists. }
  destruct (reload_from variant_what disk name path w) as [w' [r|e|]]; [..|done]; by eapply Hgood.
Qed.

Lemma unload_moves name L (w : KWorld) : good L w -> good L (unload name w).1.
Proof.
  intros (Ls & T & Hw). pose proof (unload_ok ∅ (E := fun _ => False) L Ls T name (fun rec _ => nobody_away T rec) w Hw) as Hu.
  destruct (unload name w) as [w' [r|e|]]; [|done|done].
  destruct (Ls !! name) as [rec|]; destruct Hu as [-> ?]; by do 2 eexists.
Qed.

Lemma dispatch_keeps s (on : Struct s -> M KWorld unit) v rest (w : KWorld) :
  (forall o, keeps w (on o w).1) -> keeps w (rest w).1 -> keeps w (control_dispatch s on v rest w).1.
Proof.
  intros Hon Hrest. unfold control_dispatch, mbind, M_bind, lift.
  destruct (schema_of s) as [sc|e|]; [|apply keeps_refl..]. destruct (negb _); [done|].
  destruct (from_value s v) as [o|e|]; [apply Hon|apply keeps_refl..].
Qed.

Lemma control_handle_keeps disk id m (w : KWorld) : keeps w (control_handle variant_what disk id m w).1.
Proof.
  unfold control_handle. apply dispatch_keeps; [|apply dispatch_keeps; [|apply dispatch_keeps; [|apply keeps_refl]]].
  - intros [name [path u]]. apply order_keeps; [intros; apply load_appends|]. intros. by apply load_moves.
  - intros [name [path u]]. apply order_keeps; [intros; apply reload_from_appends|]. intros L w' Hg _. exists L.
    split; [lia|]. by apply reload_moves.
  - intros [name u]. apply order_keeps; [intros; apply unload_appends|]. intros L w' Hg _. exists L.
    split; [lia|]. by apply unload_moves.
Qed.
Lemma bus_keeps {A : Type} fl fl' (m : M _ A) L (w : KWorld) :
  underway L fl w -> evolves fl fl' (kbus w) (m (kbus w)).1 ->
  (forall T : gmap Z (option (Z * Z)), stays (fun id => bound (T !! id)) (kbus w) (m (kbus w)).1) ->
  underway L fl' (on_bus m w).1.
Proof.
  intros Hw He Hs. unfold on_bus. destruct (m (kbus w)) as [b r]. by apply (underway_bus L fl).
Qed.

Lemma handle_world_keeps disk id m (w : KWorld) : keeps w (handle_world variant_what disk id m w).1.
Proof.
  unfold handle_world. destruct (control_at id w); [apply control_handle_keeps|].
  intros L fl Hw _. exists L. split; [lia|]. apply (bus_keeps fl fl); [done|apply handle_at_evolves|].
  intros T. apply handle_at_stays. intros ? ? ?. by apply bound_handle.
Qed.

(** ** Deliveries *)

Lemma on_bus_eq {A : Type} (m : M _ A) (w : KWorld) b r :
  m (kbus w) = (b, r) -> on_bus m w = (set_kbus b w, r).
Proof. unfold on_bus. by intros ->. Qed.

(** A delivery on a bus with the control shard: a refusal as [deliver_one] refuses,
    or the target's handler. *)
Lemma deliver_world_run disk env (w : KWorld) :
  tables_ok (kbus w) ->
  (exists r, verdict (kbus w) env (Some r) /\
     deliver_world variant_what disk env w =
       on_bus (refuse env r) (set_kbus (set_gate_calls (calls_after (kbus w) r) (kbus w)) w)) \/
  (verdict (kbus w) env None /\
     deliver_world variant_what disk env w =
       (_ ← handle_world variant_what disk (env_target env) (env_msg env);
        _ ← on_bus (modify (record (env_seq env) Delivered Refusal_default));
        on_bus (emit (delivery_event env EvDelivered Refusal_default (Some (payload (env_msg env))))))
         (set_kbus (set_gate_calls (u64 (gate_calls (kbus w) + 1)) (kbus w)) w)).
Proof.
  intros Ht. unfold deliver_world.
  destruct (challenge_run env (kbus w) Ht) as [(r & Hv & E)|(rec & Hv & _ & E)]; [left; exists r|right];
    (split; [exact Hv|]); rewrite (M_bind_ok _ _ _ _ _ (on_bus_eq _ _ _ _ E)); [done|].
  by destruct (env_msg env).
Qed.

Lemma deliver_world_good disk env L (w : KWorld) :
  underway L [env_seq env] w -> L < 2 ^ 64 - 1 ->
  exists L', L <= L' <= L + 1 /\ underway L' [] (deliver_world variant_what disk env w).1.
Proof.
  intros Hw HL. pose proof Hw as [_ [Ht _]].
  assert (forall g, underway L [env_seq env] (set_kbus (set_gate_calls g (kbus w)) w)) as Hg.
  { intros g. apply (underway_bus L [env_seq env] _ w _ Hw);
      [by apply evolves_tables; [..|intros []]|intros T; by apply stays_same]. }
  destruct (deliver_world_run disk env w Ht) as [(r & _ & ->)|(_ & ->)].
  { exists L. split; [lia|].
    apply (bus_keeps [env_seq env] []); [apply Hg|apply refuse_evolves|intros T; apply refuse_stays]. }
  unfold mbind at 1, M_bind at 1.
  destruct (handle_world_keeps disk (env_target env) (env_msg env) _ L [env_seq env]
    (Hg (u64 (gate_calls (kbus w) + 1))) HL) as (L' & HL' & Hw'). exists L'. split; [done|].
  destruct (handle_world variant_what disk (env_target env) (env_msg env) _) as [w1 [u|e|]]; cbn [fst] in *;
    [|by destruct Hw' as [? ?%bus_ok_drop]..].
  apply (bus_keeps [env_seq env] [] (modify (record (env_seq env) Delivered Refusal_default))) in Hw';
    [|apply record_evolves|intros T; apply modify_record_stays].
  unfold mbind, M_bind. destruct (on_bus (modify _) w1) as [w2 [u2|e|]]; [|done..].
  apply (bus_keeps [] []); [done|apply emit_evolves|intros T; apply emit_stays].
Qed.

Lemma drain_world_good disks fuel : forall L (w w' : KWorld) r,
  underway L [] w -> L + Z.of_nat fuel < 2 ^ 64 ->
  drain_world variant_what disks fuel w = Some (w', r) ->
  exists L', L <= L' <= L + Z.of_nat fuel /\ underway L' [] w'.
Proof.
  induction fuel as [|fuel IH]; intros L w w' r Hw HL; cbn [drain_world];
    (destruct (queue (kbus w)) as [|env rest] eqn:Eq; [intros [= <- _]; exists L; split; [lia|done]|]);
    (destruct (stop_requested (kbus w)); [intros [= <- _]; exists L; split; [lia|done]|]); [done|].
  assert (underway L [env_seq env] (set_kbus (set_queue rest (kbus w)) w)) as Hq.
  { apply (underway_bus L [] _ w _ Hw); [by apply dequeue_evolves|intros T; by apply stays_same]. }
  destruct (deliver_world_good (disks fuel) env L _ Hq ltac:(lia)) as (L1 & HL1 & Hw1).
  destruct (deliver_world variant_what (disks fuel) env _) as [w1 [u|e|]]; cbn [fst] in Hw1.
  - intros E. destruct (IH L1 w1 w' r Hw1 ltac:(lia) E) as (L' & ? & ?). exists L'. split; [lia|done].
  - intros [= <- _]. exists L1. split; [lia|done].
  - intros [= <- _]. exists L1. split; [lia|done].
Qed.

Lemma pump_world_good disks fuel L (w w' : KWorld) r :
  underway L [] w -> L + Z.of_nat fuel < 2 ^ 64 ->
  pump_world variant_what disks fuel w = Some (w', r) -> world_good w'.
Proof.
  intros Hw HL. unfold pump_world.
  assert (forall L w, underway L [] w -> world_good w) as Hgood
    by (intros ? ? [(Ls & T & ?) _]; by do 3 eexists).
  destruct (in_dispatch (kbus w)); [intros [= <- _]; by eapply Hgood|].
  assert (forall L d s w, underway L [] w -> underway L [] (set_kbus (set_flags d s (kbus w)) w)) as Hf.
  { intros L0 d s w0 H0. apply (underway_bus L0 [] _ w0 _ H0); [apply flags_evolves|intros T; by apply stays_same]. }
  destruct (drain_world variant_what disks fuel _) as [[w1 r1]|] eqn:E; [|done].
  apply (drain_world_good disks fuel L) in E as (L' & _ & Hw1); [|by apply Hf|done].
  destruct r1; intros [= <- _]; eapply Hgood; [by apply Hf|exact Hw1..].
Qed.
(** ** When the loop ends

    With no observers and shards that only listen, every delivery takes one order
    from the queue, whatever the control shard does with it. *)

Definition silent {A : Type} (h : Handler A) : Prop :=
  match h with Done _ | Raise _ _ | Crash _ => True | _ => False end.

Context (listening : forall (sh : Hosted (Manned N) I) m, silent (handle sh m)).

Lemma on_bus_result {A : Type} (m : M _ A) (w : KWorld) : kbus (on_bus m w).1 = (m (kbus w)).1.
Proof. unfold on_bus. by destruct (m (kbus w)). Qed.

Lemma handle_at_appends id m (b : Switchboard (Hosted (Manned N) I) Ob) : appends b (handle_at id m b).1.
Proof using listening.
  unfold handle_at. destruct (find id b) as [rec|]; [|done].
  pose proof (listening (rec_shard rec) m) as Hs.
  destruct (handle (rec_shard rec) m); try done; by apply appends_same.
Qed.

Lemma control_dispatch_appends s (on : Struct s -> M KWorld unit) v rest (w : KWorld) :
  (forall o, world_appends w (on o w).1) -> world_appends w (rest w).1 ->
  world_appends w (control_dispatch s on v rest w).1.
Proof.
  intros Hon Hrest. unfold control_dispatch, mbind, M_bind, lift.
  destruct (schema_of s) as [sc|e|]; [|apply world_appends_refl..]. destruct (negb _); [done|].
  destruct (from_value s v) as [o|e|]; [apply Hon|apply world_appends_refl..].
Qed.

Lemma order_appends {A : Type} id (op : M KWorld A) (w : KWorld) :
  (forall w, world_appends w (op w).1) -> world_appends w ((_ ← count_op id; _ ← op; mret tt) w).1.
Proof.
  intros Hop. revert w. apply (M_bind_inv world_appends).
  - intros w. unfold count_op. destruct (control_at id w) as [c|]; [|apply world_appends_refl].
    destruct (_ =? _); [apply world_appends_refl|]. by apply appends_same.
  - intros u. apply (M_bind_inv world_appends); [exact Hop|]. intros a w. apply world_appends_refl.
Qed.

Lemma handle_world_appends disk id m (w : KWorld) : world_appends w (handle_world variant_what disk id m w).1.
Proof using listening.
  unfold handle_world. destruct (control_at id w); [|apply on_bus_appends, handle_at_appends].
  unfold control_handle.
  apply control_dispatch_appends; [|apply control_dispatch_appends; [|apply control_dispatch_appends;
    [|apply world_appends_refl]]]; [intros [? [? ?]]|intros [? [? ?]]|intros [? ?]]; apply order_appends; intros.
  - apply load_appends.
  - apply reload_from_appends.
  - apply unload_appends.
Qed.

(** Without observers nothing is enqueued. *)
Definition still (w w' : KWorld) : Prop :=
  observers (kbus w) = [] -> observers (kbus w') = [] /\ queue (kbus w') = queue (kbus w).

#[local] Instance still_trans : Transitive still.
Proof. intros w1 w2 w3 H1 H2 E. destruct (H1 E) as [E1 <-]. by apply H2. Qed.

Lemma appends_still (w w' : KWorld) : world_appends w w' -> still w w'.
Proof. intros (l & Hq & _ & _ & Hl) E. destruct (Hl E) as [-> ?]. by split. Qed.

Lemma record_still seq d r (w : KWorld) : still w (on_bus (modify (record seq d r)) w).1.
Proof. intros E. rewrite on_bus_result. unfold modify, record. cbn. by case_match. Qed.

Lemma emit_still ev (w : KWorld) : still w (on_bus (emit ev) w).1.
Proof. apply appends_still, on_bus_appends, emit_appends. Qed.

Lemma deliver_world_still disk env (w : KWorld) :
  tables_ok (kbus w) -> still w (deliver_world variant_what disk env w).1.
Proof using listening.
  intros Ht. destruct (deliver_world_run disk env w Ht) as [(r & _ & ->)|(_ & ->)];
    match goal with |- still _ (_ (set_kbus ?b w)).1 => trans (set_kbus b w); [done|generalize (set_kbus b w)] end.
  - intros w1. unfold refuse. rewrite on_bus_bind. revert w1.
    apply (M_bind_inv still); [apply record_still|intros _; apply emit_still].
  - apply (M_bind_inv still); [intros; apply appends_still, handle_world_appends|]. intros _.
    apply (M_bind_inv still); [apply record_still|intros _; apply emit_still].
Qed.

Lemma drain_world_ends disks fuel : forall L (w : KWorld),
  underway L [] w -> L + Z.of_nat fuel < 2 ^ 64 -> observers (kbus w) = [] ->
  (length (queue (kbus w)) <= fuel)%nat -> is_Some (drain_world variant_what disks fuel w).
Proof using listening Hcalm n_laws lib_laws.
  induction fuel as [|fuel IH]; intros L w Hw HL Ho Hq; cbn [drain_world];
    (destruct (queue (kbus w)) as [|env rest] eqn:Eq; [done|]); cbn in Hq; [lia|].
  destruct (stop_requested (kbus w)); [done|].
  assert (underway L [env_seq env] (set_kbus (set_queue rest (kbus w)) w)) as Hu.
  { apply (underway_bus L [] _ w _ Hw); [by apply dequeue_evolves|intros T; by apply stays_same]. }
  destruct (deliver_world_good (disks fuel) env L _ Hu ltac:(lia)) as (L1 & HL1 & Hw1).
  destruct (deliver_world_still (disks fuel) env _ (proj1 (proj2 Hu)) Ho) as [Ho1 Hq1].
  destruct (deliver_world variant_what (disks fuel) env _) as [w1 [u|e|]]; [|done..]. cbn [fst] in *.
  apply (IH L1); [done|lia|done|]. rewrite Hq1. cbn. lia.
Qed.

(** ** Every reachable world *)

(** What a host with a control shard does: the kernel's own steps, mounting the
    shard, and pumping, with fuel that does not exhaust the ids.  Among the kernel's
    steps is a pump of the bus alone, which such a host does not take; the invariant
    holds after it too. *)
Inductive crew_step : KWorld -> KWorld -> Prop :=
| cs_kernel w w' : kernel_step variant_what w w' -> crew_step w w'
| cs_mount w : next_shard_id (kbus w) < 2 ^ 64 - 1 -> crew_step w (mount_control w).1
| cs_pump disks fuel w w' r :
    next_shard_id (kbus w) + Z.of_nat fuel < 2 ^ 64 ->
    pump_world variant_what disks fuel w = Some (w', r) -> crew_step w w'.

Lemma good_underway (w : KWorld) : world_good w -> underway (next_shard_id (kbus w)) [] w.
Proof.
  intros (L & Ls & T & Hw). destruct (wk_frame _ _ _ _ _ _ Hw) as [-> _].
  split; [by exists Ls, T|apply Hw].
Qed.

Lemma underway_good L fl (w : KWorld) : underway L fl w -> world_good w.
Proof. intros [(Ls & T & Hw) _]. by exists L, Ls, T. Qed.

Lemma mount_control_good (w : KWorld) :
  world_good w -> next_shard_id (kbus w) < 2 ^ 64 - 1 -> world_good (mount_control w).1.
Proof.
  intros (L & Ls & T & Hw) HL. unfold mount_control, mount_authored, mount_granted.
  rewrite (on_bus_eq _ w _ _ (surjective_pairing _)). cbn [fst].
  unfold lift, emit_default_grant, emitted_schemas, each. cbn [emits Control_authored mbind result_bind M_bind].
  pose proof (register_plain_good (Manning (mkControl (0, tt) 0)) (allow_each [] nothing) w ltac:(by exists L, Ls, T) HL) as Hg.
  pose proof (register_shard_adds (fun _ _ => True) (Plain (Manning (mkControl (0, tt) 0)) : Hosted (Manned N) I)
    (allow_each [] nothing) (kbus w)) as Hadds.
  unfold mbind, M_bind. destruct (register_shard _ _ (kbus w)) as [b [id|e|]]; cbn [fst snd] in *; [|done..].
  destruct Hadds as [[_ Hno]|(b1 & rec & Hs & Hrec & Eid & _ & Hsh)]; [by destruct (Hno id)|].
  apply good_underway in Hg. apply (underway_good (next_shard_id b) []).
  apply (plain_underway _ _ id (Manning (mkControl (0, tt) 0)) (Manning (mkControl (0, tt) id)) (set_kbus b w)); [|done].
  assert (shards b1 !! next_shard_id (kbus w) = None) as Hfree.
  { apply eq_None_not_Some. rewrite (stays_ids _ _ _ Hs). intros [r Hr].
    destruct (ok_records _ (proj1 (wk_bus _ _ _ _ _ _ Hw)) _ r Hr) as (_ & ? & _). lia. }
  injection Eid as ->. rewrite Hfree in Hsh. unfold shard, find. cbn. by rewrite Hsh, lookup_insert_eq, <-Hrec.
Qed.

Lemma crew_step_good (w w' : KWorld) : crew_step w w' -> world_good w -> world_good w'.
Proof.
  intros [w0 w1 Hk|w0 Hn|disks fuel w0 w1 r Hn Hp] Hg.
  - by eapply kernel_step_good.
  - by apply mount_control_good.
  - exact (pump_world_good disks fuel _ w0 w1 r (good_underway w0 Hg) Hn Hp).
Qed.

Lemma crew_good g (w : KWorld) : rtc crew_step (Kernel_new (Switchboard_new g)) w -> world_good w.
Proof.
  intros Hs. assert (world_good (Kernel_new (Switchboard_new g) : KWorld)) as Hg by apply new_good.
  revert Hg. induction Hs as [|w1 w2 w3 H1 _ IH]; [done|]. intros Hg. by eapply IH, crew_step_good.
Qed.

(** C14: loading, reloading and unloading from inside the dispatch loop is as safe as from
    outside.  However the host mounts control shards and pumps, whatever orders
    arrive, with whatever the disk holds at each delivery, and however a handler
    ends: no adapter on the bus points into a closed library or to a destroyed
    instance, no two share an instance, every live instance belongs to one, and
    destroying the kernel then leaves no name, no instance and no adapter. *)
Theorem crew_safe g (w : KWorld) :
  rtc crew_step (Kernel_new (Switchboard_new g)) w ->
  residents_alive w /\
  exists w', Kernel_destroy w = (w', Ok tt) /\ libs w' = ∅ /\ instances w' = ∅ /\
    forall id a, shard id (kbus w') <> Some (Adapted a).
Proof.
  intros Hs%crew_good. split; [by apply good_alive|by apply good_destroyed].
Qed.
(** C16: pumping a crew ends.  In every reachable world, with no observers and with shards
    that only listen, one round of fuel for every order waiting is enough: the loop
    returns, whatever the orders make of the kernel and however they end. *)
Theorem crew_pump_ends g (w : KWorld) disks :
  rtc crew_step (Kernel_new (Switchboard_new g)) w -> observers (kbus w) = [] ->
  next_shard_id (kbus w) + zlen (queue (kbus w)) < 2 ^ 64 ->
  is_Some (pump_world variant_what disks (length (queue (kbus w))) w).
Proof.
  intros Hs%crew_good Ho HL. unfold pump_world. destruct (in_dispatch (kbus w)); [done|].
  pose proof (good_underway w Hs) as Hw.
  destruct (drain_world_ends disks (length (queue (kbus w))) (next_shard_id (kbus w))
    (set_kbus (set_flags true false (kbus w)) w)) as [[w1 [u|e|]] ->]; try done.
  apply (underway_bus _ [] _ w _ Hw); [apply flags_evolves|intros T; by apply stays_same].
Qed.
End good.

(** ** Who drives the kernel *)

Section guarded.
Context {N I Ob : Type} `{n_ops : ShardOps N} `{n_laws : !ShardLaws N}.
Context `{l_ops : LibraryOps I} `{ob_ops : ObserverOps Ob}.
Context (variant_what : bytes) (disk : bytes -> bytes + LibFile I).
Abbreviation KWorld := (World (Manned N) I Ob).

(** What is the kernel's alone. *)
Definition own_part (w : KWorld) : Registry * gmap bytes Loaded * gset Z * gmap Z Z * Z :=
  (kregistry w, libs w, open_libs w, instances w, next_native w).

Lemma on_bus_own {A : Type} (m : M _ A) (w : KWorld) : own_part (on_bus m w).1 = own_part w.
Proof. unfold on_bus. by destruct (m (kbus w)). Qed.

Lemma rest_own {A B : Type} (m : M KWorld A) (f : A -> M KWorld B) (w : KWorld) :
  (forall a w, own_part (f a w).1 = own_part w) -> own_part ((m ≫= f) w).1 = own_part (m w).1.
Proof. intros Hf. unfold mbind, M_bind. destruct (m w) as [w1 []]; [apply Hf|done..]. Qed.

Lemma bind_cong {A B : Type} (m m' : M KWorld A) (f f' : A -> M KWorld B) w :
  m w = m' w -> (forall a w, f a w = f' a w) -> (m ≫= f) w = (m' ≫= f') w.
Proof. intros E Hf. unfold mbind, M_bind. rewrite E. by destruct (m' w) as [w1 []]. Qed.

Lemma deliver_world_other env (w : KWorld) :
  tables_ok (kbus w) -> control_at (env_target env) w = None ->
  deliver_world variant_what disk env w = on_bus (deliver_one env) w.
Proof.
  intros Ht Hc. trans (on_bus (c ← challenge env;
    match c with
    | inl r => refuse env r
    | inr v =>
        _ ← handle_at (env_target env)
              (mkMessage v (sender (env_msg env)) (reply_to (env_msg env)) (correlation (env_msg env)));
        _ ← modify (record (env_seq env) Delivered Refusal_default);
        emit (delivery_event env EvDelivered Refusal_default (Some v))
    end) w); [|unfold on_bus; by rewrite deliver_one_challenge].
  rewrite on_bus_bind. unfold deliver_world.
  destruct (challenge_run env (kbus w) Ht) as [(r & _ & E)|(rec & _ & _ & E)];
    rewrite !(M_bind_ok _ _ _ _ _ (on_bus_eq _ _ _ _ E)); [done|].
  rewrite on_bus_bind. apply bind_cong; [|intros; by rewrite on_bus_bind]. unfold handle_world.
  change (control_at (env_target env) (set_kbus _ w)) with (control_at (env_target env) w). by rewrite Hc.
Qed.

Lemma deliver_world_control env (w : KWorld) c :
  tables_ok (kbus w) -> control_at (env_target env) w = Some c ->
  let run := deliver_world variant_what disk env w in
  (exists r, verdict (kbus w) env (Some r) /\ own_part run.1 = own_part w) \/
  (verdict (kbus w) env None /\
   own_part run.1 = own_part (control_handle variant_what disk (env_target env) (env_msg env)
     (set_kbus (set_gate_calls (u64 (gate_calls (kbus w) + 1)) (kbus w)) w)).1).
Proof.
  intros Ht Hc. cbv zeta. destruct (deliver_world_run variant_what disk env w Ht) as [(r & Hv & ->)|(Hv & ->)].
  - left. exists r. split; [exact Hv|]. by rewrite on_bus_own.
  - right. split; [exact Hv|]. rewrite rest_own.
    + unfold handle_world. change (control_at (env_target env) (set_kbus _ w)) with (control_at (env_target env) w).
      by rewrite Hc.
    + intros u w1. rewrite rest_own by (intros; apply on_bus_own). apply on_bus_own.
Qed.

(** C15: the kernel is only driven by those who may.  On a good bus with a control shard, a
    delivery to any other shard is [deliver_one]'s; one to the control shard is
    refused as [deliver_one] refuses, touching nothing of the kernel's, or it is
    authorized and conforms to a door, and then the shard's handler runs on that
    very message, and what it does to the kernel is all that is done to it.  So a
    delivery that changes the kernel's registry, names, libraries or instances is
    one to a control shard, sent by the host itself or by a shard whose grant
    permits that message to that control shard. *)
Theorem kernel_guarded env (w : KWorld) :
  tables_ok (kbus w) ->
  let run := deliver_world variant_what disk env w in
  let s := Value_schema (payload (env_msg env)) in
  (control_at (env_target env) w = None -> run = on_bus (deliver_one env) w) /\
  (forall c, control_at (env_target env) w = Some c ->
     (exists r, verdict (kbus w) env (Some r) /\ own_part run.1 = own_part w) \/
     (verdict (kbus w) env None /\
      own_part run.1 = own_part (control_handle variant_what disk (env_target env) (env_msg env)
        (set_kbus (set_gate_calls (u64 (gate_calls (kbus w) + 1)) (kbus w)) w)).1)) /\
  (own_part run.1 <> own_part w ->
     (exists c, control_at (env_target env) w = Some c) /\
     (env_gated env = true -> exists rec, find (sender (env_msg env)) (kbus w) = Some rec /\
        permits (rec_grant rec) (Schema_name s) (Schema_version s) (env_target env) = true)).
Proof.
  intros Ht run s. pose proof (deliver_world_other env w Ht) as Hother.
  pose proof (fun c => deliver_world_control env w c Ht) as Hcontrol. split; [exact Hother|]. split; [exact Hcontrol|].
  intros Hne. destruct (control_at (env_target env) w) as [c|] eqn:Hc.
  2: { destruct Hne. unfold run. by rewrite Hother, on_bus_own. }
  split; [by exists c|]. intros Hg. destruct (Hcontrol c eq_refl) as [(r & _ & E)|[Hv _]]; [done|].
  inversion Hv as [| | | | |rec door Hr Ha Hau]; subst. apply authorized_iff in Hau; [|done].
  unfold permitted in Hau. destruct (find _ (kbus w)) as [rec'|]; [by exists rec'|done].
Qed.
End guarded.
