(* ===== verification/ControlScenarios.v ===== *)
(** * A kernel driven by messages

    A host mounts the control shard and two shards of its own, one holding the load
    capability, one holding nothing; both order a library loaded. *)

From S2P Require Import Prelude Schema Value Registry Gate Serialize Grant Bus Switchboard Enqueue Invariant Dispatch Delivery Scenarios Residents Abi Kernel KernelSafety KernelScenarios Shape Authored Control AuthorScenarios ControlBus.

Abbreviation Crew := (World (Manned Echo) (Exported Grump) (list BusEvent)).

Definition hire (g : Grant) (w : Crew) : Crew :=
  set_kbus (register_shard (Some (Plain (Own (mkEcho 0 ami)))) g (kbus w)).1 w.
Definition say (from to : ShardId) (m : Message) (w : Crew) : Crew := set_kbus (send_as from to m (kbus w)).1 w.

Definition order_unload : Message :=
  mkMessage (match to_value UnloadLibrary (str "g", tt) with Ok v => v | _ => ami end) 0 0 0.

Definition crew : Crew := hire nothing (hire (load_capability 1) lab).
Definition ordered : Crew := say 3 1 order_unload (say 2 1 load_order (say 3 1 load_order crew)).
Definition any_time (n : nat) : bytes -> bytes + LibFile (Exported Grump) := grump_disk.
Definition pumped : Crew := from_option fst ordered (pump_world [] any_time 5 ordered).

(** The shard without the capability changes nothing; the other's order is carried
    out, and the control shard counts it. *)
Example carried_out :
  (outcome 1 (kbus pumped), disposition (outcome 2 (kbus pumped)), outcome 3 (kbus pumped)) =
    (mkOutcome Refused (refusal_of CapabilityDenied), Delivered,
     mkOutcome Refused (refusal_of CapabilityDenied)) /\
  is_loaded "g" ordered = false /\ is_loaded "g" pumped = true /\
  control_at 1 pumped = Some (mkControl (1, tt) 1).
Proof. split_and!; by vm_compute. Qed.

#[export] Instance Echo_calm : ShardLaws (Manned Echo) := Manned_laws.

Lemma hire_step g w : next_shard_id (kbus w) < 2 ^ 64 - 1 -> crew_step [] w (hire g w).
Proof. intros Hn. apply cs_kernel. exact (ks_register [] (Own (mkEcho 0 ami)) g w Hn). Qed.

Lemma say_step from to m w : crew_step [] w (say from to m w).
Proof. apply cs_kernel, ks_bus, bs_send_as. Qed.

Lemma crew_step_ordered : rtc (crew_step []) (Kernel_new (Switchboard_new 0)) ordered.
Proof.
  unfold ordered, crew. do 3 (eapply rtc_r; [|apply say_step]).
  do 2 (eapply rtc_r; [|apply hire_step; by vm_compute]). apply rtc_once.
  exact (cs_mount [] (Kernel_new (Switchboard_new 0)) eq_refl).
Qed.

Lemma pumped_runs : exists r, pump_world [] any_time 5 ordered = Some (pumped, r).
Proof.
  cut (is_Some (pump_world [] any_time 5 ordered)); [|refine (bool_decide_unpack _ _); vm_compute; exact I].
  unfold pumped. generalize (pump_world [] any_time 5 ordered). intros o [[w r] ->]. by exists r.
Qed.

Lemma pumped_reached : rtc (crew_step []) (Kernel_new (Switchboard_new 0)) pumped.
Proof.
  destruct pumped_runs as [r E]. eapply rtc_r; [exact crew_step_ordered|].
  refine (cs_pump [] any_time 5 _ _ r _ E). by vm_compute.
Qed.

Lemma crew_safe_witness :
  is_loaded "g" pumped = true /\ residents_alive pumped /\
  exists w', Kernel_destroy pumped = (w', Ok tt) /\ libs w' = ∅ /\ instances w' = ∅ /\
    forall id a, shard id (kbus w') <> Some (Adapted a).
Proof. split; [by vm_compute|]. exact (crew_safe [] log_calm 0 pumped pumped_reached). Defined.

(** The second order waiting. *)
Definition granted_order : Envelope := mkEnvelope (set_sender load_order 2) 1 2 true.

Lemma ordered_tables : tables_ok (kbus ordered).
Proof. destruct (crew_good [] log_calm 0 ordered crew_step_ordered) as (L & Ls & T & Hw). apply Hw. Qed.

Lemma kernel_guarded_witness :
  queue (kbus ordered) !! 1%nat = Some granted_order /\
  own_part (deliver_world [] grump_disk granted_order ordered).1 <> own_part ordered /\
  exists rec, find 2 (kbus ordered) = Some rec /\ permits (rec_grant rec) "LoadLibrary" 1 1 = true.
Proof.
  assert (own_part (deliver_world [] grump_disk granted_order ordered).1 <> own_part ordered) as Hne.
  { intros E. apply (f_equal (fun p => bool_decide (is_Some (p.1.1.1.2 !! str "g")))) in E.
    revert E. vm_compute. done. }
  split; [by vm_compute|]. split; [exact Hne|].
  destruct (proj2 (proj2 (kernel_guarded [] grump_disk granted_order ordered ordered_tables)) Hne) as [_ H].
  exact (H eq_refl).
Defined.

(** A host all of whose shards only listen: three orders from the host itself wait. *)
#[export] Instance Grump_lawful : ShardLaws Grump.
Proof.
  split; intros [].
  - intros l s [= <-] Hs. apply list_elem_of_singleton in Hs as [= ->]. exact player_wf.
  - intros v [= <-]. exact player_wf.
Qed.

Lemma silent_map {A B : Type} (g : A -> B) (h : Handler A) : silent h -> silent (handler_map g h).
Proof. by destruct h. Qed.

Lemma grumps_listen (sh : Hosted (Manned Grump) (Exported Grump)) m : silent (handle sh m).
Proof.
  destruct sh as [[s|c]|a]; [done| |].
  - apply (silent_map Plain), (silent_map Manning).
    cbn [handle ShardBase_ops doors Control_authored dispatch by_the_world]. by repeat case_match.
  - apply (silent_map Adapted). cbn [handle HostAdapter_ops]. unfold HostAdapter_handle.
    destruct (serialize (payload m)); [|done..]. cbn [abi_handle Exported_ops]. unfold do_handle.
    repeat case_match; done.
Qed.

Abbreviation Quiet := (World (Manned Grump) (Exported Grump) (list BusEvent)).
Definition quiet_lab : Quiet := (mount_control (Kernel_new (Switchboard_new 0))).1.
Definition tell (m : Message) (w : Quiet) : Quiet := set_kbus (send 1 m (kbus w)).1 w.
Definition quiet_orders : Quiet := tell order_unload (tell load_order (tell load_order quiet_lab)).

Lemma quiet_reached : rtc (crew_step []) (Kernel_new (Switchboard_new 0)) quiet_orders.
Proof.
  unfold quiet_orders. do 3 (eapply rtc_r; [|apply cs_kernel, ks_bus, bs_send]). apply rtc_once.
  exact (cs_mount [] (Kernel_new (Switchboard_new 0)) eq_refl).
Qed.

Lemma crew_pump_ends_witness :
  is_Some (pump_world [] any_time (length (queue (kbus quiet_orders))) quiet_orders).
Proof.
  refine (crew_pump_ends [] log_calm grumps_listen 0 quiet_orders any_time quiet_reached _ _); by vm_compute.
Defined.
