(* ===== verification/Seed.v ===== *)
(** * The historical seed

    [src/nucleus.cpp], a stand-alone program with a gate of its own, older than the
    library: schemas, values, [conforms] and [admit], then builders, a printer, the
    blind console, a shard revived through the gate, and three scenes.

    Objects live behind shared pointers, which may form cycles; a store gives the
    schema and the value each pointer refers to, and nothing here writes to it.
    [conforms] and [print_value] recurse as deep as the values go: they take fuel
    and are [None] without it.  What is printed is a list of insertions into
    [std::cout]. *)

From S2P Require Import Prelude.

(** ** The grammar *)

Inductive Kind : Set := Int | Float | Text | Bool | Message.
#[export] Instance Kind_eq_dec : EqDecision Kind.
Proof. solve_decision. Defined.

Definition name_of (k : Kind) : bytes :=
  match k with
  | Int => "Int" | Float => "Float" | Text => "Text" | Bool => "Bool" | Message => "Message"
  end.

Record Field : Set := mkField { f_name : bytes; f_kind : Kind; f_schema : option Z; f_required : bool }.
Record Schema : Set := mkSchema { s_name : bytes; s_fields : list Field }.

(** A double is its bits; a cell may hold a null pointer. *)
Inductive Cell : Set :=
| CellInt (n : Z) | CellFloat (bits : Z) | CellText (s : bytes) | CellBool (b : bool) | CellValue (p : option Z).
Record Value : Set := mkValue { v_schema : option Z; v_cells : gmap bytes Cell }.

Record Admission : Set := mkAdmission { a_ok : bool; a_reason : bytes; a_value : option Value }.

Definition quoted (s : bytes) : bytes := str "'" ++ s ++ str "'".
Definition missing (f : Field) : bytes := str "missing required field " ++ quoted (f_name f).
Definition wrong_type (f : Field) : bytes :=
  str "field " ++ quoted (f_name f) ++ str " has the wrong type (expected " ++ name_of (f_kind f) ++ str ")".

Section store.
Context (schema_at : Z -> Schema) (value_at : Z -> Value).

(** [cell_matches], calling [conforms] on what a cell points to. *)
Definition cell_matches (conforms : Value -> Schema -> bytes -> option (bool * bytes)) (c : Cell) (f : Field)
  : option bool :=
  match f_kind f with
  | Int => Some (match c with CellInt _ => true | _ => false end)
  | Float => Some (match c with CellFloat _ => true | _ => false end)
  | Text => Some (match c with CellText _ => true | _ => false end)
  | Bool => Some (match c with CellBool _ => true | _ => false end)
  | Message =>
      match c with
      | CellValue (Some p) =>
          match v_schema (value_at p), f_schema f with
          | Some q, Some r =>
              if negb (bool_decide (s_name (schema_at q) = s_name (schema_at r))) then Some false else
              fst <$> conforms (value_at p) (schema_at r) []
          | _, _ => Some false
          end
      | _ => Some false
      end
  end.

(** The loop over the fields, and [why]. *)
Fixpoint fields_conform (matches : Cell -> Field -> option bool) (v : Value) (fs : list Field) (why : bytes)
  : option (bool * bytes) :=
  match fs with
  | [] => Some (true, why)
  | f :: fs =>
      match v_cells v !! f_name f with
      | None => if f_required f then Some (false, missing f) else fields_conform matches v fs why
      | Some c =>
          match matches c f with
          | None => None
          | Some false => Some (false, wrong_type f)
          | Some true => fields_conform matches v fs why
          end
      end
  end.

Fixpoint conforms (fuel : nat) (v : Value) (s : Schema) (why : bytes) : option (bool * bytes) :=
  match fuel with
  | O => None
  | S fuel => fields_conform (cell_matches (conforms fuel)) v (s_fields s) why
  end.

Definition admit_seed (fuel : nat) (v : Value) (door : Schema) : option Admission :=
  match v_schema v with
  | None => Some (mkAdmission false "value carries no shape; it cannot say what it is" None)
  | Some p =>
      if negb (bool_decide (s_name (schema_at p) = s_name door)) then
        Some (mkAdmission false (str "value claims to be " ++ quoted (s_name (schema_at p)) ++
          str ", this door admits only " ++ quoted (s_name door)) None)
      else
        match conforms fuel v door [] with
        | None => None
        | Some (false, why) =>
            Some (mkAdmission false (str "value claims " ++ quoted (s_name door) ++ str " but " ++ why) None)
        | Some (true, _) => Some (mkAdmission true [] (Some v))
        end
  end.

(** ** Staging *)

(** One [<<] into [std::cout]. *)
Inductive Insertion : Set := PutText (s : bytes) | PutInt (n : Z) | PutDouble (bits : Z).
Definition put (s : string) : Insertion := PutText (str s).
Definition newline : Insertion := PutText [chr 10].

Definition schema (name : bytes) (fields : list Field) : Schema := mkSchema name fields.
Definition f (n : bytes) (k : Kind) : Field := mkField n k None true.

Definition pad (indent : Z) : bytes := replicate (Z.to_nat indent) (chr 32).

(** The loop over the cells, in the order of their names; [print] prints a nested
    value. *)
Fixpoint print_cells (print : Value -> option (list Insertion)) (indent : Z) (cells : list (bytes * Cell))
  : option (list Insertion) :=
  match cells with
  | [] => Some []
  | (key, c) :: cells =>
      body ← match c with
             | CellValue None => Some [newline; PutText (pad indent); put "    <null>"; newline]
             | CellValue (Some p) => out ← print (value_at p); Some (newline :: out)
             | CellBool b => Some [put (if b then "true" else "false"); newline]
             | CellText x => Some [PutText [chr 34]; PutText x; PutText [chr 34; chr 10]]
             | CellInt n => Some [PutInt n; newline]
             | CellFloat d => Some [PutDouble d; newline]
             end;
      rest ← print_cells print indent cells;
      Some ([PutText (pad indent); put "  "; PutText key; put " = "] ++ body ++ rest)
  end.

Fixpoint print_value (fuel : nat) (v : Value) (indent : Z) : option (list Insertion) :=
  match fuel with
  | O => None
  | S fuel =>
      cells ← print_cells (fun v => print_value fuel v (indent + 4)) indent (by_name (v_cells v));
      Some ([PutText (pad indent);
             PutText (match v_schema v with Some p => s_name (schema_at p) | None => str "<shapeless>" end);
             put " {"; newline] ++ cells ++ [PutText (pad indent); put "}"; newline])
  end.

Definition report (a : Admission) : list Insertion :=
  if a_ok a then [put "    -> ADMITTED"; newline]
  else [put "    -> REFUSED: "; PutText (a_reason a); newline].

(** The console fills a shape it is handed; [source] is asked for each field. *)
Fixpoint fill (source : Field -> Cell) (fs : list Field) (v : Value) : list Insertion * Value :=
  match fs with
  | [] => ([], v)
  | fld :: fs =>
      let '(out, v) := fill source fs (mkValue (v_schema v) (<[f_name fld := source fld]> (v_cells v))) in
      ([put "    console:   field '"; PutText (f_name fld); put "' : "; PutText (name_of (f_kind fld)); newline]
       ++ out, v)
  end.

Definition construct_blind (shape : option Z) (source : Field -> Cell) : result (list Insertion * Value) :=
  p ← deref shape;
  let s := schema_at p in
  let '(out, v) := fill source (s_fields s) (mkValue shape ∅) in
  Ok ([put "    console: I was never told what a '"; PutText (s_name s); put "' is. Reading its shape."; newline]
      ++ out, v).

(** *** A shard that declares how it wishes to return *)

Record Shard : Set := mkShard {
  sh_name : bytes; state_schema : option Z; sh_policy : Value; last_known_good : Value; reloads_used : Z
}.

(** What it was, what was printed, and how it ended; [None] without fuel. *)
Definition Play (A : Type) : Type := Shard * list Insertion -> option ((Shard * list Insertion) * result A).

#[local] Instance Play_ret : MRet Play := fun A a s => Some (s, Ok a).
#[local] Instance Play_bind : MBind Play := fun A B k m s =>
  match m s with
  | None => None
  | Some (s, Ok a) => k a s
  | Some (s, Throw e) => Some (s, Throw e)
  | Some (s, UB) => Some (s, UB)
  end.

Definition say (out : list Insertion) : Play unit := fun s => Some ((s.1, s.2 ++ out), Ok tt).
Definition self : Play Shard := fun s => Some (s, Ok s.1).
Definition become (g : Shard -> Shard) : Play unit := fun s => Some ((g s.1, s.2), Ok tt).
Definition fueled {A : Type} (o : option A) : Play A := fun s => a ← o; Some (s, Ok a).
Definition yields {A : Type} (r : result A) : Play A := fun s => Some (s, r).

(** [v.cells.at(name)], and the two [std::get]s. *)
Definition cell_at (v : Value) (name : bytes) : result Cell :=
  match v_cells v !! name with Some c => Ok c | None => Throw (out_of_range "map::at") end.
Definition get_bool (c : Cell) : result bool := match c with CellBool b => Ok b | _ => Throw bad_variant_access end.
Definition get_int (c : Cell) : result Z := match c with CellInt n => Ok n | _ => Throw bad_variant_access end.

Definition woken (lkg : Value -> Value) (s : Shard) : Shard :=
  mkShard (sh_name s) (state_schema s) (sh_policy s) (lkg (last_known_good s)) (reloads_used s + 1).

Definition revive (fuel : nat) (candidate : Value) (policy_door : Schema) : Play unit :=
  s ← self;
  pol ← fueled (admit_seed fuel (sh_policy s) policy_door);
  if negb (a_ok (pol : Admission)) then say [put "    policy itself refused: "; PutText (a_reason pol); newline] else
  c ← yields (cell_at (sh_policy s) "revive_from_last_good");
  revive_lkg ← yields (get_bool c);
  c ← yields (cell_at (sh_policy s) "max_reloads");
  max ← yields (get_int c);
  if reloads_used s >=? max then
    say [put "    "; PutText (sh_name s); put " has spent its reloads. It stays gone."; newline]
  else
  _ ← say [put "    a candidate state arrives; the threshold challenges it:"; newline];
  lock ← yields (deref (state_schema s));
  a ← fueled (admit_seed fuel candidate (schema_at lock));
  if a_ok (a : Admission) then
    _ ← say [put "    -> ADMITTED. "; PutText (sh_name s); put " wakes as:"; newline];
    out ← fueled (print_value fuel candidate 6);
    _ ← say out;
    become (woken (fun _ => candidate))
  else
    _ ← say [put "    -> REFUSED: "; PutText (a_reason a); newline];
    if (revive_lkg : bool) then
      _ ← say [put "    the self said: revive from last good. "; PutText (sh_name s); put " wakes as:"; newline];
      out ← fueled (print_value fuel (last_known_good s) 6);
      _ ← say out;
      become (woken (fun lkg => lkg))
    else
      say [put "    no fallback was permitted. "; PutText (sh_name s); put " stays gone."; newline].
End store.

#[export] Existing Instances Play_ret Play_bind.

(** ** What conforming means *)

Section spec.
Context (schema_at : Z -> Schema) (value_at : Z -> Value).

Inductive conforming : Value -> Schema -> Prop :=
| conforming_fields v s :
    (forall f, f ∈ s_fields s -> v_cells v !! f_name f = None -> f_required f = false) ->
    (forall f c, f ∈ s_fields s -> v_cells v !! f_name f = Some c -> fits c f) -> conforming v s
with fits : Cell -> Field -> Prop :=
| fits_int n f : f_kind f = Int -> fits (CellInt n) f
| fits_float d f : f_kind f = Float -> fits (CellFloat d) f
| fits_text s f : f_kind f = Text -> fits (CellText s) f
| fits_bool b f : f_kind f = Bool -> fits (CellBool b) f
| fits_message p q r f :
    f_kind f = Message -> v_schema (value_at p) = Some q -> f_schema f = Some r ->
    s_name (schema_at q) = s_name (schema_at r) -> conforming (value_at p) (schema_at r) ->
    fits (CellValue (Some p)) f.

(** One field, and the first offence in the order of the fields. *)
Definition holds (v : Value) (f : Field) : Prop :=
  match v_cells v !! f_name f with None => f_required f = false | Some c => fits c f end.

Definition offends (v : Value) (f : Field) (why : bytes) : Prop :=
  match v_cells v !! f_name f with
  | None => f_required f = true /\ why = missing f
  | Some c => ~ fits c f /\ why = wrong_type f
  end.

Definition first_offence (v : Value) (fs : list Field) (why : bytes) : Prop :=
  exists pre f post, fs = pre ++ f :: post /\ Forall (holds v) pre /\ offends v f why.

Lemma conforming_holds v s : conforming v s <-> Forall (holds v) (s_fields s).
Proof.
  rewrite Forall_forall. unfold holds. split.
  - intros [v' s' Hn Hs] f Hf. destruct (_ !! _) eqn:E; eauto.
  - intros Hh. constructor; intros f; [intros Hf E|intros c Hf E]; specialize (Hh f Hf); by rewrite E in Hh.
Qed.

(** Values that do not contain themselves: what the recursion needs. *)
Inductive acyclic : Value -> Prop :=
| acyclic_cells v : (forall n p, v_cells v !! n = Some (CellValue (Some p)) -> acyclic (value_at p)) -> acyclic v.

(** [o] is the answer, whatever the fuel beyond some amount. *)
Definition settles {A : Type} (run : nat -> option A) (P : A -> Prop) : Prop :=
  exists a N, P a /\ forall n, (N <= n)%nat -> run n = Some a.

Lemma settles_weaken {A : Type} (run : nat -> option A) (P Q : A -> Prop) :
  settles run P -> (forall a, P a -> Q a) -> settles run Q.
Proof. intros (a & N & Ha & Hn) HPQ. exists a, N. auto. Qed.

Lemma settles_ret {A : Type} (a : A) (P : A -> Prop) : P a -> settles (fun _ => Some a) P.
Proof. intros Ha. by exists a, 0%nat. Qed.

Lemma settles_bind {A B : Type} (run : nat -> option A) (k : nat -> A -> option B) P Q :
  settles run P -> (forall a, P a -> settles (fun n => k n a) Q) ->
  settles (fun n => a ← run n; k n a) Q.
Proof.
  intros (a & N & Ha & Hn) Hk. destruct (Hk a Ha) as (b & N' & Hb & Hn'). exists b, (max N N')%nat.
  split; [done|]. intros n Hle. rewrite Hn by lia. cbn. apply Hn'. lia.
Qed.

Lemma settles_S {A : Type} (run : nat -> option A) P :
  settles (fun n => run (S n)) P -> settles run P.
Proof.
  intros (a & N & Ha & Hn). exists a, (S N). split; [done|]. intros [|n] Hle; [lia|]. apply Hn. lia.
Qed.

Lemma settles_ext {A : Type} (run run' : nat -> option A) P :
  (forall n, run n = run' n) -> settles run' P -> settles run P.
Proof. intros E (a & N & Ha & Hn). exists a, N. split; [done|]. intros n Hle. rewrite E. auto. Qed.

(** What the loop answers, when every cell has its answer. *)
Definition answers (v : Value) (fs : list Field) (why : bytes) (r : bool * bytes) : Prop :=
  (Forall (holds v) fs /\ r = (true, why)) \/ (exists w, first_offence v fs w /\ r = (false, w)).

Lemma fields_settle matches v fs why :
  (forall f c, f ∈ fs -> v_cells v !! f_name f = Some c ->
     settles (fun n => matches n c f) (fun b => b = true <-> fits c f)) ->
  settles (fun n => fields_conform (matches n) v fs why) (answers v fs why).
Proof.
  induction fs as [|f fs IH]; intros Hm; cbn [fields_conform].
  { apply settles_ret. left. by split. }
  assert (forall r, answers v fs why r -> holds v f -> answers v (f :: fs) why r) as Hnext.
  { intros r [[Hall ->]|(w & (pre & g & post & -> & Hpre & Ho) & ->)] Hf; [left|right]; [by split; [constructor|]|].
    exists w. split; [|done]. exists (f :: pre), g, post. split; [done|]. by split; [constructor|]. }
  assert (forall w, offends v f w -> answers v (f :: fs) why (false, w)) as Hhere.
  { intros w Ho. right. exists w. split; [|done]. exists [], f, fs. by split; [|split; [constructor|]]. }
  specialize (IH (fun g c Hg => Hm g c (list_elem_of_further _ _ _ Hg))). unfold holds, offends in Hnext, Hhere.
  specialize (Hm f). destruct (v_cells v !! f_name f) as [c|].
  - eapply settles_ext; [|apply (settles_bind (fun n => matches n c f)
      (fun n b => if b then fields_conform (matches n) v fs why else Some (false, wrong_type f)) _ _
      (Hm c (list_elem_of_here _ _) eq_refl))].
    + intros n. cbv beta. by destruct (matches n c f) as [[]|].
    + intros [] Hb.
      * eapply settles_weaken; [exact IH|]. intros r Hr. apply Hnext; [exact Hr|by apply Hb].
      * apply settles_ret, Hhere. split; [|done]. intros Hf. by apply Hb in Hf.
  - destruct (f_required f); [by apply settles_ret, Hhere|].
    eapply settles_weaken; [exact IH|]. intros r Hr. by apply Hnext.
Qed.

Lemma offence_fails v fs w : first_offence v fs w -> ~ Forall (holds v) fs.
Proof.
  intros (pre & g & post & -> & _ & Ho) [_ [Hg _]%Forall_cons]%Forall_app. unfold holds, offends in *.
  destruct (v_cells v !! f_name g); [by destruct Ho|]. destruct Ho as [Ho _]. congruence.
Qed.

Lemma conforms_settles v : acyclic v -> forall s why,
  settles (fun n => conforms schema_at value_at n v s why) (answers v (s_fields s) why).
Proof.
  induction 1 as [v _ IH]; intros s why. apply settles_S. cbn [conforms].
  apply fields_settle. intros f c _ Hc. unfold cell_matches.
  assert (forall (b : bool) (P : Prop), (b = true <-> P) -> settles (fun _ => Some b) (fun b => b = true <-> P))
    as Hret by (intros; by apply settles_ret).
  destruct (f_kind f) eqn:Ek;
    [apply Hret; destruct c; (split; [intros [=]; by constructor|inversion 1; congruence])..|].
  destruct c as [| | | |[p|]];
    try (apply Hret; (split; [intros [=]|inversion 1; congruence])).
  destruct (v_schema (value_at p)) as [q|] eqn:Eq; [|apply Hret; split; [intros [=]|inversion 1; congruence]].
  destruct (f_schema f) as [r|] eqn:Er; [|apply Hret; split; [intros [=]|inversion 1; congruence]].
  case_bool_decide as En; cbn [negb]; [|apply Hret; split; [intros [=]|inversion 1; congruence]].
  eapply settles_ext; [|eapply (settles_bind _ (fun _ x => Some x.1)); [apply (IH _ p Hc (schema_at r) [])|]].
  { intros n. cbv beta. by destruct (conforms _ _ n (value_at p) (schema_at r) []). }
  intros x Hx. apply settles_ret. split.
  - destruct Hx as [[Hh ->]|(w & _ & ->)]; [|intros [=]]. intros _.
    eapply fits_message; [done..|]. by apply conforming_holds.
  - intros Hf. inversion Hf as [| | | |p' q' r' f' _ _ Er' _ Hcf]; subst. rewrite Er in Er'. injection Er' as <-.
    apply conforming_holds in Hcf. destruct Hx as [[_ ->]|(w & Ho & _)]; [done|]. by apply offence_fails in Ho.
Qed.

(** What the gate answers. *)
Definition admitted (v : Value) (door : Schema) : Prop :=
  exists p, v_schema v = Some p /\ s_name (schema_at p) = s_name door /\ conforming v door.

Lemma admit_settles v door :
  acyclic v ->
  settles (fun n => admit_seed schema_at value_at n v door) (fun a =>
    (a_ok a = true <-> admitted v door) /\
    (a_ok a = true -> a_value a = Some v /\ a_reason a = []) /\
    (a_ok a = false -> a_value a = None /\
       match v_schema v with
       | None => a_reason a = str "value carries no shape; it cannot say what it is"
       | Some p =>
           (s_name (schema_at p) <> s_name door /\
              a_reason a = str "value claims to be " ++ quoted (s_name (schema_at p)) ++
                str ", this door admits only " ++ quoted (s_name door)) \/
           exists why, first_offence v (s_fields door) why /\
              a_reason a = str "value claims " ++ quoted (s_name door) ++ str " but " ++ why
       end)).
Proof.
  intros Hv. unfold admit_seed, admitted. destruct (v_schema v) as [p|] eqn:Ep.
  2: { apply settles_ret. cbn. split; [|done]. split; [intros [=]|intros (? & [=] & _)]. }
  case_bool_decide as En; cbn [negb].
  2: { apply settles_ret. cbn. split; [split; [intros [=]|intros (? & [= <-] & ? & _); done]|].
       split; [intros [=]|]. intros _. split; [done|]. by left. }
  eapply settles_ext; [|eapply (settles_bind _ (fun _ (x : bool * bytes) => Some (if x.1
    then mkAdmission true [] (Some v)
    else mkAdmission false (str "value claims " ++ quoted (s_name door) ++ str " but " ++ x.2) None)));
    [apply (conforms_settles v Hv door [])|]].
  { intros n. cbv beta. by destruct (conforms _ _ n v door []) as [[[] why]|]. }
  intros x Hx. apply settles_ret.
  destruct Hx as [[Hh ->]|(w & Ho & ->)]; cbn.
  - split; [|done]. split; [intros _|done]. exists p. split; [done|]. split; [done|]. by apply conforming_holds.
  - split; [|split; [intros [=]|]].
    + split; [intros [=]|]. intros (_ & _ & _ & Hc). by apply conforming_holds, (offence_fails v _ w) in Hc.
    + intros _. split; [done|]. right. by exists w.
Qed.

(** The gate of the seed.  On a value that does not contain itself it always
    answers: it admits the value, and hands that very value on, exactly when the value
    has a shape, claims the door's name and conforms to the door; else it refuses,
    with no value and a reason, for a shape that is missing, for another name, or
    for the first field, in the order of the door, that is missing or of the wrong
    type. *)
Theorem admit_seed_spec v door :
  acyclic v ->
  settles (fun n => admit_seed schema_at value_at n v door) (fun a =>
    (a_ok a = true <-> admitted v door) /\
    (a_ok a = true -> a_value a = Some v /\ a_reason a = []) /\
    (a_ok a = false -> a_value a = None /\
       match v_schema v with
       | None => a_reason a = str "value carries no shape; it cannot say what it is"
       | Some p =>
           (s_name (schema_at p) <> s_name door /\
              a_reason a = str "value claims to be " ++ quoted (s_name (schema_at p)) ++
                str ", this door admits only " ++ quoted (s_name door)) \/
           exists why, first_offence v (s_fields door) why /\
              a_reason a = str "value claims " ++ quoted (s_name door) ++ str " but " ++ why
       end)).
Proof. apply admit_settles. Qed.
(** ** Revival *)

Lemma print_cells_settle (print : nat -> Value -> option (list Insertion)) indent cells :
  (forall n p, (n, CellValue (Some p)) ∈ cells -> settles (fun k => print k (value_at p)) (fun _ => True)) ->
  settles (fun k => print_cells value_at (print k) indent cells) (fun _ => True).
Proof.
  induction cells as [|[key c] cells IH]; intros Hp; cbn [print_cells]; [by apply settles_ret|].
  apply settles_bind with (P := fun _ => True).
  - destruct c as [| | | |[p|]]; try by apply settles_ret. apply settles_bind with (P := fun _ => True);
      [apply (Hp key); left|intros; by apply settles_ret].
  - intros body _. apply settles_bind with (P := fun _ => True); [|intros; by apply settles_ret].
    apply IH. intros n p Hn. apply (Hp n). by right.
Qed.

Lemma print_value_settles v : acyclic v -> forall indent,
  settles (fun n => print_value schema_at value_at n v indent) (fun _ => True).
Proof.
  induction 1 as [v _ IH]; intros indent. apply settles_S. cbn [print_value].
  apply settles_bind with (P := fun _ => True); [|intros; by apply settles_ret].
  apply print_cells_settle. intros n p Hn. apply (IH n). by apply by_name_elem.
Qed.

(** A door for the policies [revive] reads. *)
Definition policy_grammar (door : Schema) : Prop :=
  f "max_reloads" Int ∈ s_fields door /\ f "revive_from_last_good" Bool ∈ s_fields door.

Lemma policy_cells v door :
  policy_grammar door -> conforming v door ->
  exists max lkg, v_cells v !! str "max_reloads" = Some (CellInt max) /\
    v_cells v !! str "revive_from_last_good" = Some (CellBool lkg).
Proof.
  intros [Hm Hl] Hc%conforming_holds. rewrite Forall_forall in Hc.
  apply Hc in Hm, Hl. unfold holds in Hm, Hl. cbn [f f_name f_required] in *.
  destruct (v_cells v !! str "max_reloads") as [c|]; [|done].
  destruct (v_cells v !! str "revive_from_last_good") as [c'|]; [|done].
  inversion Hm; try done. inversion Hl; try done. subst. by eexists _, _.
Qed.

Lemma play_fueled {A B : Type} (run : nat -> option A) (k : nat -> A -> Play B) s P Q :
  settles run P -> (forall a, P a -> settles (fun n => k n a s) Q) ->
  settles (fun n => Play_bind A B (k n) (fueled (run n)) s) Q.
Proof.
  intros Hr Hk. eapply settles_ext; [|exact (settles_bind run (fun n a => k n a s) P Q Hr Hk)].
  intros n. unfold Play_bind, fueled. by destruct (run n).
Qed.

Lemma play_yields {A B : Type} (a : A) (k : nat -> A -> Play B) s Q :
  settles (fun n => k n a s) Q -> settles (fun n => Play_bind A B (k n) (yields (Ok a)) s) Q.
Proof. done. Qed.

Lemma play_say {B : Type} more (k : nat -> unit -> Play B) s Q :
  settles (fun n => k n tt (s.1, s.2 ++ more)) Q -> settles (fun n => Play_bind unit B (k n) (say more) s) Q.
Proof. done. Qed.

(** What a revival makes of the shard. *)
Definition revives (sh : Shard) (candidate : Value) (lock policy_door : Schema) (sh' : Shard) : Prop :=
  (~ admitted (sh_policy sh) policy_door /\ sh' = sh) \/
  (admitted (sh_policy sh) policy_door /\ exists max lkg,
     v_cells (sh_policy sh) !! str "max_reloads" = Some (CellInt max) /\
     v_cells (sh_policy sh) !! str "revive_from_last_good" = Some (CellBool lkg) /\
     ((max <= reloads_used sh /\ sh' = sh) \/
      (reloads_used sh < max /\
        ((admitted candidate lock /\ sh' = woken (fun _ => candidate) sh) \/
         (~ admitted candidate lock /\ lkg = true /\ sh' = woken (fun x => x) sh) \/
         (~ admitted candidate lock /\ lkg = false /\ sh' = sh))))).

Lemma gate_answers v door :
  acyclic v -> settles (fun n => admit_seed schema_at value_at n v door) (fun a => a_ok a = true <-> admitted v door).
Proof. intros Hv. eapply settles_weaken; [exact (admit_settles v door Hv)|]. by intros a [Ha _]. Qed.

(** The candidate's turn. *)
Lemma revive_candidate candidate lock (lkg : bool) (s : Shard) out (sh0 : Shard) :
  acyclic candidate -> acyclic (last_known_good sh0) ->
  settles (fun n => (a ← fueled (admit_seed schema_at value_at n candidate lock);
    if a_ok (a : Admission) then
      _ ← say [put "    -> ADMITTED. "; PutText (sh_name sh0); put " wakes as:"; newline];
      out ← fueled (print_value schema_at value_at n candidate 6);
      _ ← say out;
      become (woken (fun _ => candidate))
    else
      _ ← say [put "    -> REFUSED: "; PutText (a_reason a); newline];
      if lkg then
        _ ← say [put "    the self said: revive from last good. "; PutText (sh_name sh0); put " wakes as:"; newline];
        out ← fueled (print_value schema_at value_at n (last_known_good sh0) 6);
        _ ← say out;
        become (woken (fun lkg => lkg))
      else
        say [put "    no fallback was permitted. "; PutText (sh_name sh0); put " stays gone."; newline]) (s, out))
    (fun res => exists s' more, res = ((s', out ++ more), Ok tt) /\
       ((admitted candidate lock /\ s' = woken (fun _ => candidate) s) \/
        (~ admitted candidate lock /\ lkg = true /\ s' = woken (fun x => x) s) \/
        (~ admitted candidate lock /\ lkg = false /\ s' = s))).
Proof.
  intros Hc Hl. apply (play_fueled _ _ _ (fun a => a_ok a = true <-> admitted candidate lock)); [by apply gate_answers|].
  intros a Ha. destruct (a_ok a).
  - cbn [say Play_bind mbind fst snd]. apply (play_fueled _ _ _ (fun _ => True)); [by apply print_value_settles|].
    intros o _. apply settles_ret. eexists _, _. cbn [fst snd]. rewrite <-!app_assoc. split; [done|]. left. by split; [apply Ha|].
  - assert (~ admitted candidate lock) as Hn by (intros H; by apply Ha in H).
    destruct lkg; cbn [say Play_bind mbind fst snd].
    + apply (play_fueled _ _ _ (fun _ => True)); [by apply print_value_settles|].
      intros o _. apply settles_ret. eexists _, _. cbn [fst snd]. rewrite <-!app_assoc. split; [done|]. right. by left.
    + apply settles_ret. eexists _, _. cbn [fst snd]. rewrite <-!app_assoc. split; [done|]. right. by right.
Qed.

(** Revival is what the self declared.  With a grammar of policies that declares what
    [revive] reads, and on values that do not contain themselves, [revive] returns, throws
    nothing and changes the shard in exactly one of these ways: a policy that the
    grammar does not admit, and one whose reloads are spent, leave it as it was; a
    candidate its own lock admits becomes its last good state; else the last good
    state comes back, if the policy permits it.  Either kind of waking counts. *)
Theorem revive_seed_spec sh out candidate lock policy_door :
  policy_grammar policy_door -> state_schema sh = Some lock ->
  acyclic (sh_policy sh) -> acyclic candidate -> acyclic (last_known_good sh) ->
  settles (fun n => revive schema_at value_at n candidate policy_door (sh, out)) (fun res =>
    exists sh' more, res = ((sh', out ++ more), Ok tt) /\
      revives sh candidate (schema_at lock) policy_door sh').
Proof.
  intros Hg Hlock Hp Hc Hl. unfold revive. cbn [self Play_bind mbind fst snd].
  apply (play_fueled _ _ _ (fun a => a_ok a = true <-> admitted (sh_policy sh) policy_door)); [by apply gate_answers|].
  intros pol Hpol. unfold revives. destruct (a_ok pol); cbn [negb].
  2: { apply settles_ret. eexists _, _. split; [done|]. left. split; [|done]. intros H. by apply Hpol in H. }
  pose proof (proj1 Hpol eq_refl) as Had. pose proof Had as (_ & _ & _ & Hcf).
  destruct (policy_cells _ _ Hg Hcf) as (max & lkg & Em & El).
  unfold cell_at. cbn [fst snd]. rewrite Em, El. do 4 (apply play_yields; cbv beta; cbn [get_bool get_int]).
  destruct (reloads_used sh >=? max) eqn:Emax; rewrite Z.geb_leb in Emax.
  { apply settles_ret. eexists _, _. split; [done|]. right. split; [done|]. exists max, lkg.
    split; [done|]. split; [done|]. left. split; [by apply Z.leb_le|done]. }
  apply Z.leb_gt in Emax. rewrite Hlock. apply play_say, play_yields. cbv beta. cbn [fst snd].
  eapply settles_weaken; [apply (revive_candidate candidate (schema_at lock) lkg sh _ sh Hc Hl)|].
  intros res (sh' & more & -> & H). exists sh'. eexists. rewrite <-app_assoc. split; [done|]. right. split; [done|].
  exists max, lkg. split; [done|]. split; [done|]. by right.
Qed.

(** The budget and the lock, over a shard's life: whatever candidates arrive, it wakes
    no more often than its policy says, its policy and its lock are never changed,
    and its last good state is always one the lock admits. *)
Theorem seed_life sh sh' lock policy_door max :
  state_schema sh = Some lock -> v_cells (sh_policy sh) !! str "max_reloads" = Some (CellInt max) ->
  0 <= reloads_used sh <= max -> admitted (last_known_good sh) (schema_at lock) ->
  rtc (fun s s' => exists c, revives s c (schema_at lock) policy_door s') sh sh' ->
  reloads_used sh <= reloads_used sh' <= max /\ sh_policy sh' = sh_policy sh /\
  state_schema sh' = state_schema sh /\ admitted (last_known_good sh') (schema_at lock).
Proof.
  intros Hlock Hm Hu Hl Hs. induction Hs as [s|s s1 s' (c & Hr) _ IH]; [by split_and!; try lia|].
  destruct Hr as [[_ ->]|(_ & max' & lkg & Em & _ & [[_ ->]|[Hlt Hr]])]; [by apply IH..|].
  rewrite Hm in Em. injection Em as <-.
  destruct Hr as [[Ha ->]|[(_ & _ & ->)|(_ & _ & ->)]]; [..|by apply IH].
  - destruct IH as (IH1 & ?); [done|done|cbn; lia|exact Ha|]. cbn in IH1. split; [lia|done].
  - destruct IH as (IH1 & ?); [done|done|cbn; lia|exact Hl|]. cbn in IH1. split; [lia|done].
Qed.
End spec.
