(* ===== verification/SeedScenes.v ===== *)
(** * The seed's scenes

    [main] of [src/nucleus.cpp]: three scenes, their objects at the addresses they are
    made at, and what they print. *)

From S2P Require Import Prelude Seed.

Definition Move : Z := 1.
Definition Spawn : Z := 2.
Definition SetColor : Z := 3.
Definition PlayerState : Z := 4.
Definition ReloadPolicy : Z := 5.
Definition EphemeralPolicy : Z := 6.

Definition schema_at (p : Z) : Schema :=
  if p =? Move then schema "Move" [f "dx" Float; f "dy" Float] else
  if p =? Spawn then schema "Spawn" [f "kind" Text] else
  if p =? SetColor then schema "SetColor" [f "r" Int; f "g" Int; f "b" Int; f "named" Bool] else
  if p =? PlayerState then schema "PlayerState" [f "hp" Int; f "name" Text] else
  if p =? ReloadPolicy then schema "ReloadPolicy" [f "max_reloads" Int; f "revive_from_last_good" Bool] else
  schema "EphemeralPolicy" [f "wipe_on_reload" Bool].

(** No scene nests a value. *)
Definition value_at (p : Z) : Value := mkValue None ∅.

Definition made (p : Z) (cells : list (bytes * Cell)) : Value := mkValue (Some p) (list_to_map cells).
Definition one : Z := 4607182418800017408.
Definition minus_two : Z := 13835058055282163712.

Definition step : Value := made Move [(str "dx", CellFloat one); (str "dy", CellFloat minus_two)].
Definition broken : Value := made Move [(str "dx", CellFloat one)].
Definition liar : Value := made Spawn [(str "kind", CellText "dragon")].

Definition source (fld : Field) : Cell :=
  match f_kind fld with
  | Int => CellInt 128 | Bool => CellBool true | Float => CellFloat 0 | Text => CellText [] | Message => CellInt 0
  end.

Definition ami : Shard :=
  mkShard "Ami" (Some PlayerState)
    (made ReloadPolicy [(str "max_reloads", CellInt 2); (str "revive_from_last_good", CellBool true)])
    (made PlayerState [(str "hp", CellInt 20); (str "name", CellText "Ami")]) 0.
Definition good : Value := made PlayerState [(str "hp", CellInt 30); (str "name", CellText "Ami")].
Definition corrupt : Value := made PlayerState [(str "hp", CellText "?!"); (str "name", CellText "Ami")].
Definition eph : Value := made EphemeralPolicy [(str "wipe_on_reload", CellBool true)].

Definition line (s : string) : Play unit := say [put s; newline].
Definition challenge (fuel : nat) (v : Value) (door : Z) : Play unit :=
  a ← fueled (admit_seed schema_at value_at fuel v (schema_at door)); say (report a).

Definition main (fuel : nat) : Play Z :=
  _ ← line "A. A message that knows what it is."; _ ← say [newline];
  _ ← line "  a well-formed Move, sent across the bus:"; _ ← challenge fuel step Move;
  _ ← line "  a Move that lost a field:"; _ ← challenge fuel broken Move;
  _ ← line "  a Spawn, offered to a door that admits only Move:"; _ ← challenge fuel liar Move;
  _ ← say [newline]; _ ← line "B. The console builds a message for a Shard it has never seen."; _ ← say [newline];
  built ← yields (construct_blind schema_at (Some SetColor) source);
  let '(out, built) := (built : list Insertion * Value) in
  _ ← say out;
  _ ← line "  the console produced:";
  out ← fueled (print_value schema_at value_at fuel built 2); _ ← say out;
  _ ← line "  offered to the SetColor Shard's threshold:"; _ ← challenge fuel built SetColor;
  _ ← say [newline]; _ ← line "C. The self sets the lock its own return must open."; _ ← say [newline];
  s ← self;
  _ ← line "  the kernel validates the policy the self declared:"; _ ← challenge fuel (sh_policy s) ReloadPolicy;
  _ ← say [newline]; _ ← line "  death 1 — a clean save returns:";
  _ ← revive schema_at value_at fuel good (schema_at ReloadPolicy);
  _ ← say [newline]; _ ← line "  death 2 — a corrupted save tries to return:";
  _ ← revive schema_at value_at fuel corrupt (schema_at ReloadPolicy);
  _ ← say [newline]; _ ← line "  a different self declares a different kind of policy entirely:";
  _ ← line "  the same threshold, never changed, judges it:"; _ ← challenge fuel eph EphemeralPolicy;
  _ ← say [newline]; _ ← line "The kernel above understood the meaning of none of this.";
  _ ← line "It only ever asked one question, at every door.";
  mret 0.

(** The verdicts printed, in order. *)
Fixpoint verdicts (out : list Insertion) : list bytes :=
  match out with
  | PutText t :: rest =>
      if bool_decide (t = str "    -> ADMITTED") then str "admitted" :: verdicts rest else
      if bool_decide (t = str "    -> ADMITTED. ") then str "woken" :: verdicts rest else
      if bool_decide (t = str "    -> REFUSED: ") then
        match rest with PutText why :: rest => why :: verdicts rest | _ => verdicts rest end
      else verdicts rest
  | _ :: rest => verdicts rest
  | [] => []
  end.

(** Fuel 3 is enough: no value of the scenes nests.  The scenes show what they say, and
    Ami ends with her second life spent and the last good state of the first. *)
Example main_shows :
  exists s out, main 3 (ami, []) = Some ((s, out), Ok 0) /\
    verdicts out =
      [str "admitted";
       str "value claims 'Move' but missing required field 'dy'";
       str "value claims to be 'Spawn', this door admits only 'Move'";
       str "admitted"; str "admitted"; str "woken";
       str "value claims 'PlayerState' but field 'hp' has the wrong type (expected Int)";
       str "admitted"] /\
    reloads_used s = 2 /\ last_known_good s = good.
Proof. do 2 eexists. split; [vm_compute; reflexivity|]. split_and!; by vm_compute. Qed.

(** ** The theorems about the seed, applied *)

Lemma scene_acyclic p cells : acyclic value_at (made p cells).
Proof.
  constructor. intros n q _. constructor. intros n' q'. cbn. by rewrite lookup_empty.
Qed.

(** The lost field. *)
Lemma admit_seed_spec_witness :
  settles (fun n => admit_seed schema_at value_at n broken (schema_at Move))
    (fun a => a_ok a = true <-> admitted schema_at value_at broken (schema_at Move)).
Proof.
  eapply settles_weaken.
  - exact (admit_seed_spec schema_at value_at broken (schema_at Move) (scene_acyclic _ _)).
  - intros a [Ha _]. exact Ha.
Defined.

Lemma revive_seed_spec_witness :
  settles (fun n => revive schema_at value_at n corrupt (schema_at ReloadPolicy) (ami, [])) (fun res =>
    exists sh' more, res = ((sh', [] ++ more), Ok tt) /\
      revives schema_at value_at ami corrupt (schema_at PlayerState) (schema_at ReloadPolicy) sh').
Proof.
  refine (revive_seed_spec schema_at value_at ami [] corrupt PlayerState (schema_at ReloadPolicy) _ _ _ _ _).
  - split; [by left|by right; left].
  - done.
  - apply scene_acyclic.
  - apply scene_acyclic.
  - apply scene_acyclic.
Defined.

(** A value in its own cell, under a shape that nests itself: the gate never
    answers, whatever the fuel; in C++ the recursion exhausts the stack. *)
Definition ouroboros : Value := mkValue (Some 1) {[str "tail" := CellValue (Some 1)]}.
Definition ring (_ : Z) : Schema := mkSchema "Ring" [mkField "tail" Message (Some 1) true].

Theorem cyclic_never_answers fuel : admit_seed ring (fun _ => ouroboros) fuel ouroboros (ring 1) = None.
Proof.
  assert (forall n why, conforms ring (fun _ => ouroboros) n ouroboros (ring 1) why = None) as H.
  { induction n as [|n IH]; intros why; [done|]. cbn [conforms ring s_fields fields_conform].
    change (v_cells ouroboros !! _) with (Some (CellValue (Some 1))). unfold cell_matches. cbn [f_kind f_schema].
    change (v_schema ouroboros) with (Some 1). cbv beta iota. rewrite bool_decide_true by done. cbn [negb].
    by rewrite IH. }
  unfold admit_seed. change (v_schema ouroboros) with (Some 1). cbv beta iota. rewrite bool_decide_true by done. cbn [negb].
  by rewrite H.
Qed.
