(* ===== verification/Likeness.v ===== *)
(** * Buses that cannot be told apart

    The switchboard uses its shards through their interface only.  Two buses that
    agree on everything but the shards they hold, and hold related shards under the
    same ids, answer every operation alike and stay so, for any relation the
    interface's operations respect.  [Transparent] instantiates it with a shard and
    its own library. *)

From S2P Require Import Prelude Schema Value Registry Gate Native Compat Serialize Grant Bus Switchboard Enqueue Invariant Dispatch Delivery.

(** ** Values every boundary carries unchanged *)

(** Its shape has a name the header holds, it may cross the wire, and it conforms:
    no NaN but the canonical one, text in UTF-8, sizes and nesting within the caps. *)
Record carried (v : Value) : Prop := {
  ca_wf : wf_schema (Value_schema v);
  ca_name : nameable (Value_schema v);
  ca_wire : wire_value 0 (Value_schema v) v;
  ca_conforms : conforms v (Value_schema v)
}.

Lemma carried_built v : carried v -> built_value v /\ canon_value v = v.
Proof. intros [H1 _ H3 _]. exact (proj2 wire_built _ H1 0 v H3). Qed.

Lemma carried_storable v : carried v -> storable (Value_schema v) v.
Proof. intros Hv. unfold storable. rewrite (proj2 (carried_built v Hv)). apply Hv. Qed.

(** Serialized and admitted at its own schema, it is itself again. *)
Lemma carried_crosses v g :
  carried v -> exists w, serialize v = Ok w /\
    admit_door (parse w) (Some (Value_schema v)) FirstError g = (u64 (g + 1), Ok (Admission_accept v)) /\
    claimed_name (parse w) = Schema_name (Value_schema v) /\
    claimed_version (parse w) = Schema_version (Value_schema v).
Proof.
  intros Hv. destruct (carried_built v Hv) as [Hb Hcan].
  destruct (persist_admit v FirstError g Hb (ca_name v Hv) (carried_storable v Hv) (ca_conforms v Hv))
    as (w & Ew & Ea & _). rewrite Hcan in Ea. exists w. split; [exact Ew|]. split; [exact Ea|].
  rewrite serialize_ok in Ew; [|done|apply Hv|].
  - injection Ew as <-. rewrite parse_native by (apply nameable_header; apply Hv). done.
  - apply (proj2 wire_encodes _ (ca_wf v Hv) 0). rewrite Hcan. apply Hv.
Qed.

(** What is admitted of bytes is carried. *)
Lemma admitted_carried w door g g' a v :
  wf_schema door -> admit_door (parse w) (Some door) FirstError g = (g', Ok a) -> adm_value a = Some v ->
  carried v /\ Value_schema v = door.
Proof.
  intros Hd E Ha. destruct (admitted_wire w door FirstError g g' a v Hd E Ha) as (_ & Hw & Hs & Hn).
  split; [|done]. split; rewrite ?Hs; try done.
  destruct (admit_door_cases (parse w) door FirstError g Hd) as (g1 & _ & [(v1 & Hc & _ & _ & E1)|(e & es & E1)]);
    rewrite E in E1; injection E1 as -> ->; cbn in Ha; [by injection Ha as ->|done].
Qed.

(** The gate's counter is no input to its verdict. *)
Lemma validate_into_counter v door all g g' : (validate_into v door all g).2 = (validate_into v door all g').2.
Proof. unfold validate_into. by destruct (_ =? _). Qed.

Lemma admit_live_counter v door r g g' : (admit_live v door r g).2 = (admit_live v door r g').2.
Proof.
  unfold admit_live. pose proof (validate_into_counter v door (is_full r) g g') as E.
  destruct (validate_into _ _ _ g), (validate_into _ _ _ g'). cbn in *. by rewrite E.
Qed.

Lemma finish_counter v es fatal door all g g' : (finish v es fatal door all g).2 = (finish v es fatal door all g').2.
Proof.
  unfold finish. destruct fatal; [done|]. pose proof (validate_into_counter v door all g g') as E.
  destruct (validate_into _ _ _ g), (validate_into _ _ _ g'). cbn in *. by rewrite E.
Qed.

Lemma admit_door_counter u door r g g' : (admit_door u door r g).2 = (admit_door u door r g').2.
Proof.
  destruct door as [door|]; [|done]. unfold admit_door. destruct u as [impl|]; [|done].
  destruct (im_ok impl); [|done]. unfold admit_against. destruct (_ || _); [done|]. destruct (_ && _); [done|].
  destruct (Value_new (Some door)); [|done..]. destruct (im_format impl).
  - destruct (decode_native _ _ _) as [[dec v]| |]; [apply finish_counter|done..].
  - destruct (json_fields _ _ _ _ _ _) as [[es v]| |]; [apply finish_counter|done..].
Qed.

(** ** In ascending order, whatever is mapped *)

Lemma keyed_unique {A} (l : list (Z * A)) : forall k,
  StronglySorted Z.lt l.*1 -> StronglySorted Z.lt k.*1 -> l ≡ₚ k -> l = k.
Proof.
  induction l as [|x l IH]; intros k Hl Hk HP; [by apply Permutation_nil_l in HP as ->|].
  destruct k as [|y k]; [by apply Permutation_nil_r in HP|].
  rewrite fmap_cons in Hl, Hk. apply StronglySorted_inv in Hl as [Hl Hx], Hk as [Hk Hy]. rewrite Forall_fmap, Forall_forall in Hx, Hy.
  assert (x = y) as ->.
  { assert (x ∈ y :: k) as [Ex|Ex]%elem_of_cons by (rewrite <-HP; left); [done|].
    assert (y ∈ x :: l) as [Ey|Ey]%elem_of_cons by (rewrite HP; left); [done|].
    specialize (Hx y Ey). specialize (Hy x Ex). cbn in *. lia. }
  f_equal. apply (IH k Hl Hk). by apply Permutation_cons_inv in HP.
Qed.

Lemma ascending_fmap {A B} (f : A -> B) (m : gmap Z A) : ascending (f <$> m) = prod_map id f <$> ascending m.
Proof.
  assert ((prod_map id f <$> ascending m).*1 = (ascending m).*1) as E.
  { rewrite <-list_fmap_compose. by apply list_fmap_ext. }
  apply keyed_unique; [apply ascending_keys|rewrite E; apply ascending_keys|].
  rewrite ascending_perm, map_to_list_fmap. by rewrite ascending_perm.
Qed.

(** ** Likeness *)

(** A record without its shard. *)
Definition erase {Sh : Type} (r : ShardRecord Sh) : ShardRecord unit :=
  mkRecord (rec_id r) tt (accept r) (state_schema r) (last_known_good r) (rec_grant r) (reloads_used r) (rec_alive r).

Lemma recipients_erased {Sh : Type} s (m : gmap Z (ShardRecord Sh)) :
  recipients_of s (ascending m) = recipients_of s (ascending (erase <$> m)).
Proof.
  rewrite ascending_fmap. unfold recipients_of. induction (ascending m) as [|[k r] l IH]; [done|].
  cbn in *. unfold accepts, accept_match in *. cbn. by rewrite IH.
Qed.

(** ** A host's orders

    One call of the switchboard's interface, and what it tells the host. *)

Inductive Order_of (Ob : Type) : Type :=
| OSend (target : ShardId) (m : Message)
| OPublish (m : Message)
| OSendAs (as_sender target : ShardId) (m : Message)
| OPublishAs (as_sender : ShardId) (m : Message)
| OPump (fuel : nat)
| OStop
| OKill (id : ShardId)
| OReload (id : ShardId) (candidate : bytes)
| OSwapState (id : ShardId) (candidate : bytes)
| OSnapshot (id : ShardId)
| OUnregister (id : ShardId)
| OAddObserver (o : option Ob)
| ORemoveObserver (id : Z)
| OOutcome (t : Ticket)
| OAlive (id : ShardId)
| OAcceptedBy (id : ShardId)
| OListShards
| OPending.
Arguments OSend {Ob} _ _.
Arguments OPublish {Ob} _.
Arguments OSendAs {Ob} _ _ _.
Arguments OPublishAs {Ob} _ _.
Arguments OPump {Ob} _.
Arguments OStop {Ob}.
Arguments OKill {Ob} _.
Arguments OReload {Ob} _ _.
Arguments OSwapState {Ob} _ _.
Arguments OSnapshot {Ob} _.
Arguments OUnregister {Ob} _.
Arguments OAddObserver {Ob} _.
Arguments ORemoveObserver {Ob} _.
Arguments OOutcome {Ob} _.
Arguments OAlive {Ob} _.
Arguments OAcceptedBy {Ob} _.
Arguments OListShards {Ob}.
Arguments OPending {Ob}.

Inductive Answer : Type :=
| ANothing
| ANumber (n : Z)
| ARun (r : result unit)
| ARevived (r : result ReviveOutcome)
| ABytes (r : result bytes)
| ABool (b : bool)
| AOutcome (o : DeliveryOutcome)
| ASchemas (l : list Schema)
| AShards (l : list ShardId).

Section orders.
Context {Sh Ob : Type} `{sh_ops : ShardOps Sh} `{ob_ops : ObserverOps Ob}.
Abbreviation Bus := (Switchboard Sh Ob).

Definition told {A : Type} (f : A -> Answer) (x : Bus * A) : option (Bus * Answer) := Some (x.1, f x.2).

(** [None] when the loop's fuel ran out. *)
Definition obey (o : Order_of Ob) (b : Bus) : option (Bus * Answer) :=
  match o with
  | OSend t m => told ANumber (send t m b)
  | OPublish m => told ANumber (publish m b)
  | OSendAs s t m => told ANumber (send_as s t m b)
  | OPublishAs s m => told ANumber (publish_as s m b)
  | OPump fuel => pump fuel b ≫= told ARun
  | OStop => Some (stop b, ANothing)
  | OKill id => told ARun (kill id b)
  | OReload id w => told ARevived (reload id w b)
  | OSwapState id w => told ARevived (swap_state id w b)
  | OSnapshot id => Some (b, ABytes (snapshot_bytes id b))
  | OUnregister id => told (fun sh => ABool (bool_decide (is_Some sh))) (unregister_shard id b)
  | OAddObserver obs => told ANumber (add_observer obs b)
  | ORemoveObserver n => Some (remove_observer n b, ANothing)
  | OOutcome t => Some (b, AOutcome (outcome t b))
  | OAlive id => Some (b, ABool (alive id b))
  | OAcceptedBy id => Some (b, ASchemas (accepted_by id b))
  | OListShards => Some (b, AShards (list_shards b))
  | OPending => Some (b, ANumber (pending b))
  end.

Fixpoint obey_all (l : list (Order_of Ob)) (b : Bus) : option (Bus * list Answer) :=
  match l with
  | [] => Some (b, [])
  | o :: l => x ← obey o b; y ← obey_all l x.1; Some (y.1, x.2 :: y.2)
  end.
End orders.

Section like.
Context {Sh Sh' Ob : Type} `{sh_ops : ShardOps Sh} `{sh_ops' : ShardOps Sh'} `{ob_ops : ObserverOps Ob}.
Abbreviation Bus := (Switchboard Sh Ob).
Abbreviation Bus' := (Switchboard Sh' Ob).
(** The published schemas, which stay, and the relation on shards, under the doors and
    the state schema they are registered with. *)
Context (g : Registry) (R : list Schema -> Schema -> Sh -> Sh' -> Prop).

(** A message of a published shape, that every boundary carries. *)
Definition said (m : Message) : Prop :=
  carried (payload m) /\ g !! schema_key (Value_schema (payload m)) = Some (Value_schema (payload m)).

Definition record_sound {X : Type} (r : ShardRecord X) : Prop :=
  Forall (fun d => wf_schema d /\ g !! schema_key d = Some d) (accept r) /\ wf_schema (state_schema r) /\
  carried (last_known_good r) /\ Value_schema (last_known_good r) = state_schema r.

Record like (b : Bus) (b' : Bus') : Prop := {
  lk_registry : registry b = g;
  lk_registry' : registry b' = g;
  lk_erased : erase <$> shards b = erase <$> shards b';
  lk_next : next_shard_id b = next_shard_id b';
  lk_queue : queue b = queue b';
  lk_journal : journal b = journal b';
  lk_seq : next_seq b = next_seq b';
  lk_observers : observers b = observers b';
  lk_observer_id : next_observer_id b = next_observer_id b';
  lk_dispatch : in_dispatch b = in_dispatch b';
  lk_stop : stop_requested b = stop_requested b';
  lk_related id r r' : shards b !! id = Some r -> shards b' !! id = Some r' ->
    R (accept r) (state_schema r) (rec_shard r) (rec_shard r');
  lk_sound id r : shards b !! id = Some r -> record_sound r;
  lk_said : Forall (fun e => said (env_msg e)) (queue b)
}.

(** The records under one id. *)
Lemma like_find (b : Bus) (b' : Bus') id :
  like b b' ->
  (find id b = None /\ find id b' = None) \/
  exists r r', find id b = Some r /\ find id b' = Some r' /\ erase r = erase r' /\ record_sound r /\
    R (accept r) (state_schema r) (rec_shard r) (rec_shard r').
Proof.
  intros Hl. pose proof (f_equal (fun m => m !! id) (lk_erased _ _ Hl)) as E. cbn beta in E.
  rewrite !lookup_fmap in E. unfold find.
  destruct (shards b !! id) as [r|] eqn:Er, (shards b' !! id) as [r'|] eqn:Er'; try done; [right|by left].
  injection E as E. exists r, r'. split_and!; try done; [by unfold erase; congruence|by eapply lk_sound|by eapply lk_related].
Qed.

(** Setting the same things on both keeps them alike. *)
Lemma like_deliveries (b : Bus) (b' : Bus') q j n :
  like b b' -> Forall (fun e => said (env_msg e)) q -> like (set_deliveries q j n b) (set_deliveries q j n b').
Proof. intros [] Hq. by split. Qed.

Lemma like_observers (b : Bus) (b' : Bus') l n : like b b' -> like (set_observers l n b) (set_observers l n b').
Proof. intros []. by split. Qed.

Lemma like_flags (b : Bus) (b' : Bus') d s : like b b' -> like (set_flags d s b) (set_flags d s b').
Proof. intros []. by split. Qed.

Lemma like_gate (b : Bus) (b' : Bus') n n' : like b b' -> like (set_gate_calls n b) (set_gate_calls n' b').
Proof. intros []. by split. Qed.

Lemma like_insert (b : Bus) (b' : Bus') id n r r' :
  like b b' -> erase r = erase r' -> record_sound r -> R (accept r) (state_schema r) (rec_shard r) (rec_shard r') ->
  like (set_shards (<[id := r]> (shards b)) (set_next_shard_id n b))
    (set_shards (<[id := r']> (shards b')) (set_next_shard_id n b')).
Proof.
  intros Hl He Hs HR. pose proof (lk_erased _ _ Hl) as Hm. destruct Hl. split; try done; cbn.
  - by rewrite !fmap_insert, He, Hm.
  - intros k x x'. rewrite !lookup_insert_Some. intros [[<- <-]|[Hk E]] [[Hk' E']|[Hk' E']]; try done; [congruence|].
    by eapply lk_related0.
  - intros k x. rewrite lookup_insert_Some. intros [[<- <-]|[Hk E]]; [done|by eapply lk_sound0].
Qed.

Lemma like_push_all (b : Bus) (b' : Bus') l :
  like b b' -> Forall (fun x : Order => said x.1.2) l -> like (push_all l b) (push_all l b').
Proof.
  intros Hl Ho. rewrite !push_all_eq, <-(lk_queue _ _ Hl), <-(lk_journal _ _ Hl), <-(lk_seq _ _ Hl).
  apply like_deliveries; [done|]. apply Forall_app. split; [apply Hl|].
  apply number_Forall. eapply Forall_impl; [exact Ho|]. by intros x Hx.
Qed.

Lemma like_update (b : Bus) (b' : Bus') id f f' :
  like b b' ->
  (forall r r', shards b !! id = Some r -> shards b' !! id = Some r' -> erase r = erase r' -> record_sound r ->
     R (accept r) (state_schema r) (rec_shard r) (rec_shard r') ->
     erase (f r) = erase (f' r') /\ record_sound (f r) /\
     R (accept (f r)) (state_schema (f r)) (rec_shard (f r)) (rec_shard (f' r'))) ->
  like (update_shard id f b) (update_shard id f' b').
Proof.
  intros Hl Hf.
  assert (forall r r', shards b !! id = Some r -> shards b' !! id = Some r' ->
    erase (f r) = erase (f' r') /\ record_sound (f r) /\
    R (accept (f r)) (state_schema (f r)) (rec_shard (f r)) (rec_shard (f' r'))) as Hf'.
  { intros r r' E E'. destruct (like_find b b' id Hl) as [[E0 _]|(r1 & r1' & E1 & E1' & ? & ? & ?)];
      unfold find in *; [congruence|]. rewrite E in E1. rewrite E' in E1'. injection E1 as <-. injection E1' as <-. auto. }
  pose proof (lk_erased _ _ Hl) as He. destruct Hl. split; try done.
  - apply map_eq. intros k. pose proof (f_equal (fun m => m !! k) He) as Ek. cbn in *. rewrite !lookup_fmap in *.
    destruct (decide (id = k)) as [<-|Hk]; [|by rewrite !lookup_alter_ne].
    rewrite !lookup_alter_eq. destruct (shards b !! id), (shards b' !! id); try done.
    cbn. f_equal. by apply Hf'.
  - intros k r r'. cbn. rewrite !lookup_alter_Some.
    intros [(<- & r0 & E & ->)|[Hk E]] [(Hk' & r0' & E' & ->)|[Hk' E']]; try done; [by apply Hf'|by eapply lk_related0].
  - intros k r. cbn. rewrite lookup_alter_Some. intros [(<- & r0 & E & ->)|[_ E]]; [|by eapply lk_sound0].
    pose proof (f_equal (fun m => m !! id) He) as Ek. cbn in Ek. rewrite !lookup_fmap, E in Ek.
    destruct (shards b' !! id) as [r0'|] eqn:E'; [|done]. by apply (Hf' r0 r0').
Qed.
(** ** Operations on like buses *)

(** The interface's operations respect the relation. *)
Context (R_snapshot : forall acc st sh sh', R acc st sh sh' -> shard_snapshot sh = shard_snapshot sh').
Context (R_policy : forall acc st sh sh', R acc st sh sh' -> policy sh = policy sh').
Context (R_revive : forall acc st sh sh' v, R acc st sh sh' -> carried v -> Value_schema v = st ->
  R acc st (revive sh v).1 (revive sh' v).1 /\ (revive sh v).2 = (revive sh' v).2).
Context (R_handle : forall acc st sh sh' self m b b',
  R acc st sh sh' -> Value_schema (payload m) ∈ acc -> said m -> like b b' ->
  let x := run_handler self (handle sh m) b in
  let x' := run_handler self (handle sh' m) b' in
  like x.1 x'.1 /\ R acc st x.2.1 x'.2.1 /\ x.2.2 = x'.2.2).

Definition action_said (a : HostAction) : Prop :=
  match a with HStop => True | HSend _ m | HPublish m | HSendAs _ _ m | HPublishAs _ m => said m end.
(** Observers order only what every boundary carries. *)
Context (observers_said : forall (o : Ob) ev, Forall action_said (notify o ev).1.2).

(** The same answer, on like buses. *)
Definition agree {A : Type} (x : Bus * A) (x' : Bus' * A) : Prop := like x.1 x'.1 /\ x.2 = x'.2.

Definition sim {A : Type} (m : M Bus A) (m' : M Bus' A) : Prop :=
  forall b b', like b b' -> agree (m b) (m' b').

Lemma agree_bind {A B : Type} (m : M Bus A) (m' : M Bus' A) (k : A -> M Bus B) (k' : A -> M Bus' B) b b' :
  agree (m b) (m' b') ->
  (forall a, like (m b).1 (m' b').1 -> agree (k a (m b).1) (k' a (m' b').1)) ->
  agree ((m ≫= k) b) ((m' ≫= k') b').
Proof.
  unfold agree, mbind, M_bind. intros [H1 H2] Hk.
  destruct (m b) as [c r], (m' b') as [c' r']. cbn in *. subst r'. destruct r; [by apply Hk|done..].
Qed.

Lemma sim_bind {A B : Type} (m : M Bus A) m' (k : A -> M Bus B) k' :
  sim m m' -> (forall a, sim (k a) (k' a)) -> sim (m ≫= k) (m' ≫= k').
Proof. intros Hm Hk b b' Hl. apply agree_bind; [by apply Hm|]. intros a. apply Hk. Qed.

Lemma sim_ret {A : Type} (r : result A) : sim (fun b => (b, r)) (fun b => (b, r)).
Proof. by intros b b' Hl. Qed.

Lemma sim_modify (f : Bus -> Bus) (f' : Bus' -> Bus') :
  (forall b b', like b b' -> like (f b) (f' b')) -> sim (modify f) (modify f').
Proof. intros Hf b b' Hl. split; [by apply Hf|done]. Qed.

(** What a step reads or computes, handed to the rest. *)
Lemma agree_lift {A B : Type} (r : result A) (k : A -> M Bus B) (k' : A -> M Bus' B) b b' :
  like b b' -> (forall a, r = Ok a -> agree (k a b) (k' a b')) ->
  agree ((lift r ≫= k) b) ((lift r ≫= k') b').
Proof. intros Hl Hk. destruct r as [a|e|]; [by apply Hk|by split..]. Qed.

Lemma agree_gate {A B : Type} (f : Z -> Z * result A) (k : A -> M Bus B) (k' : A -> M Bus' B) b b' :
  like b b' -> (forall c c', (f c).2 = (f c').2) ->
  (forall a n n', (f (gate_calls b)).2 = Ok a -> agree (k a (set_gate_calls n b)) (k' a (set_gate_calls n' b'))) ->
  agree ((gate f ≫= k) b) ((gate f ≫= k') b').
Proof.
  intros Hl Hf Hk. unfold mbind, M_bind, gate. specialize (Hf (gate_calls b) (gate_calls b')).
  destruct (f (gate_calls b)) as [n r], (f (gate_calls b')) as [n' r']. cbn in *. subst r'.
  destruct r as [a|e|]; [by apply Hk|split; [by apply like_gate|done]..].
Qed.

Lemma agree_find {B : Type} id (k : option (ShardRecord Sh) -> M Bus B) (k' : option (ShardRecord Sh') -> M Bus' B) (b : Bus) (b' : Bus') :
  like b b' ->
  (find id b = None -> find id b' = None -> agree (k None b) (k' None b')) ->
  (forall r r', find id b = Some r -> find id b' = Some r' -> erase r = erase r' -> record_sound r ->
     R (accept r) (state_schema r) (rec_shard r) (rec_shard r') -> agree (k (Some r) b) (k' (Some r') b')) ->
  agree ((gets (find id) ≫= k) b) ((gets (find id) ≫= k') b').
Proof.
  intros Hl HN HS. rewrite !(M_bind_ok (gets _) _ _ _ _ eq_refl).
  destruct (like_find b b' id Hl) as [[E E']|(r & r' & E & E' & He & Hs & HR)].
  - specialize (HN E E'). by rewrite E, E'.
  - specialize (HS r r' E E' He Hs HR). by rewrite E, E'.
Qed.

Lemma fanout_like msg gated b b' :
  like b b' -> said msg -> agree (fanout msg gated b) (fanout msg gated b').
Proof.
  intros Hl Hm. rewrite !fanout_eq. cbv zeta. cbn [fst snd].
  rewrite recipients_erased, (lk_erased _ _ Hl), <-recipients_erased. split; [|done].
  apply like_push_all; [done|]. apply Forall_fmap, Forall_true. by intros id.
Qed.

Lemma push_like t m gated b b' :
  like b b' -> said m -> like (push_delivery t m gated b) (push_delivery t m gated b').
Proof. intros Hl Hm. apply (like_push_all b b' [(t, m, gated)] Hl). by constructor. Qed.

Lemma host_action_like a b b' : like b b' -> action_said a -> like (host_action b a) (host_action b' a).
Proof.
  intros Hl Ha. destruct a as [|t m|m|s t m|s m]; cbn [host_action action_said] in *.
  - unfold stop. rewrite (lk_dispatch _ _ Hl). by apply like_flags.
  - by apply push_like.
  - by apply fanout_like.
  - by apply push_like.
  - by apply fanout_like.
Qed.

Lemma call_observer_sim i ev : sim (call_observer i ev) (call_observer i ev).
Proof.
  intros b b' Hl. unfold call_observer. rewrite <-(lk_observers _ _ Hl), <-(lk_observer_id _ _ Hl).
  destruct (observers b !! i) as [[id [o|]]|]; [|done..].
  pose proof (observers_said o ev) as Ha. destruct (notify o ev) as [[o' actions] r]. cbn [fst snd] in *. split; [|done].
  assert (like (set_observers (<[i := (id, Some o')]> (observers b)) (next_observer_id b) b)
    (set_observers (<[i := (id, Some o')]> (observers b)) (next_observer_id b) b')) as Hl' by (by apply like_observers).
  revert Hl'. generalize (set_observers (<[i := (id, Some o')]> (observers b)) (next_observer_id b) b),
    (set_observers (<[i := (id, Some o')]> (observers b)) (next_observer_id b) b').
  clear Hl. induction Ha as [|a actions Ha _ IH]; intros c c' Hc; [done|]. apply IH. by apply host_action_like.
Qed.

Lemma emit_sim ev : sim (emit ev) (emit ev).
Proof.
  intros b b' Hl. unfold emit. rewrite <-(lk_observers _ _ Hl).
  generalize (length (observers b)) as n, 0%nat as i. intros n. revert b b' Hl.
  induction n as [|n IH]; intros b b' Hl i; [done|]. cbn [emit_loop]. revert b b' Hl.
  apply (sim_bind (call_observer i ev)); [apply call_observer_sim|]. intros _ b b' Hl. by apply IH.
Qed.

Lemma record_sim seq d r : sim (modify (record seq d r)) (modify (record seq d r)).
Proof.
  apply sim_modify. intros b b' Hl. unfold record, set_journal. rewrite <-(lk_journal _ _ Hl).
  destruct (_ <? _); [|done]. rewrite <-(lk_queue _ _ Hl), <-(lk_seq _ _ Hl).
  apply like_deliveries; [done|apply Hl].
Qed.

Lemma refuse_sim env r : sim (refuse env r) (refuse env r).
Proof. apply sim_bind; [apply record_sim|]. intros _. apply emit_sim. Qed.

(** Everything before the handler: what reaches it is the payload, which its
    target accepts. *)
Lemma challenge_like env b b' :
  like b b' -> said (env_msg env) ->
  exists o c c', like c c' /\ challenge env b = (c, Ok o) /\ challenge env b' = (c', Ok o) /\
    match o with
    | inl _ => True
    | inr v => v = payload (env_msg env) /\
        forall r, find (env_target env) c = Some r -> Value_schema v ∈ accept r
    end.
Proof.
  intros Hl [Hm Hg]. unfold challenge. cbv zeta. rewrite !(M_bind_ok (gets _) _ _ _ _ eq_refl).
  destruct (like_find b b' (env_target env) Hl) as [[E E']|(r & r' & E & E' & He & Hs & _)]; rewrite E, E'.
  { exists (inl (refusal_of NoSuchTarget)), b, b'. by split_and!. }
  assert (rec_alive r = rec_alive r') as <- by exact (f_equal rec_alive He).
  destruct (rec_alive r); cbn [negb]; [|exists (inl (refusal_of TargetUnavailable)), b, b'; by split_and!].
  assert (permitted env b = permitted env b') as Ep.
  { unfold permitted. destruct (like_find b b' (sender (env_msg env)) Hl) as [[-> ->]|(s & s' & -> & -> & Hss & _)]; [done|].
    by replace (rec_grant s') with (rec_grant s) by exact (f_equal rec_grant Hss). }
  assert (exists ok, (if env_gated env then gets (permitted env) else mret true) b = (b, Ok ok) /\
    (if env_gated env then gets (permitted env) else mret true) b' = (b', Ok ok)) as (ok & Eo & Eo').
  { destruct (env_gated env); [exists (permitted env b); unfold gets; by rewrite Ep|by exists true]. }
  rewrite (M_bind_ok _ _ _ _ _ Eo), (M_bind_ok _ _ _ _ _ Eo').
  destruct ok; cbn [negb]; [|exists (inl (refusal_of CapabilityDenied)), b, b'; by split_and!].
  unfold accept_match. replace (accept r') with (accept r) by exact (f_equal accept He).
  destruct (match_schema (accept r) _ _) as [door|] eqn:Ed; [|exists (inl (refusal_of NotAccepted)), b, b'; by split_and!].
  apply match_schema_Some in Ed as [Hin Hk]. destruct Hs as [Hs _].
  rewrite Forall_forall in Hs. destruct (Hs door Hin) as [Hwf Hd].
  assert (door = Value_schema (payload (env_msg env))) as ->.
  { rewrite Hk in Hd. unfold schema_key in Hg. congruence. }
  assert (forall n, admit_live (payload (env_msg env)) (Value_schema (payload (env_msg env))) FirstError n =
    (u64 (n + 1), Ok (Admission_accept (payload (env_msg env))))) as Ea.
  { intros n. destruct (admit_live_cases (payload (env_msg env)) _ n Hwf) as [[_ ->]|[Hn _]]; [done|].
    destruct Hn. apply Hm. }
  exists (inr (payload (env_msg env))), (set_gate_calls (u64 (gate_calls b + 1)) b), (set_gate_calls (u64 (gate_calls b' + 1)) b').
  split; [by apply like_gate|].
  assert (forall x : Bus, gate (admit_live (payload (env_msg env)) (Value_schema (payload (env_msg env))) FirstError) x =
    (set_gate_calls (u64 (gate_calls x + 1)) x, Ok (Admission_accept (payload (env_msg env))))) as Eg
    by (intros x; unfold gate; by rewrite Ea).
  assert (forall x : Bus', gate (admit_live (payload (env_msg env)) (Value_schema (payload (env_msg env))) FirstError) x =
    (set_gate_calls (u64 (gate_calls x + 1)) x, Ok (Admission_accept (payload (env_msg env))))) as Eg'
    by (intros x; unfold gate; by rewrite Ea).
  rewrite (M_bind_ok _ _ _ _ _ (Eg b)), (M_bind_ok _ _ _ _ _ (Eg' b')).
  split_and!; [done..|]. intros r0 E0. unfold find in *. cbn in E0. congruence.
Qed.

(** What handling leaves of the shards' records. *)
Lemma run_handler_shards {X : Type} `{ShardOps X} self h (b : Switchboard X Ob) :
  shards (run_handler self h b).1 = shards b.
Proof. destruct (run_handler_eq self h b) as (l & n & _ & ->). by rewrite push_all_eq. Qed.

Lemma handle_at_like id m b b' :
  like b b' -> said m -> (forall r, find id b = Some r -> Value_schema (payload m) ∈ accept r) ->
  agree (handle_at id m b) (handle_at id m b').
Proof.
  intros Hl Hm Ha. unfold handle_at.
  destruct (like_find b b' id Hl) as [[E E']|(r & r' & E & E' & He & Hs & HR)]; rewrite E, E'; [done|].
  pose proof (R_handle _ _ _ _ id m b b' HR (Ha r E) Hm Hl) as HH. cbn zeta in HH.
  pose proof (run_handler_shards id (handle (rec_shard r) m) b) as S1.
  pose proof (run_handler_shards id (handle (rec_shard r') m) b') as S2.
  destruct (run_handler id (handle (rec_shard r) m) b) as [c [sh x]],
    (run_handler id (handle (rec_shard r') m) b') as [c' [sh' x']]. cbn [fst snd] in *.
  destruct HH as (Hc & HR' & ->). split; [|done]. apply like_update; [done|].
  intros r1 r1' E1 E1' He1 Hs1 _. rewrite S1 in E1. rewrite S2 in E1'. unfold find in *.
  assert (r1 = r) as -> by congruence. assert (r1' = r') as -> by congruence.
  split_and!; [|done|exact HR']. unfold erase, rec_set_shard in *. cbn. congruence.
Qed.

Lemma deliver_one_like env b b' :
  like b b' -> said (env_msg env) -> agree (deliver_one env b) (deliver_one env b').
Proof.
  intros Hl Hm. rewrite !deliver_one_challenge.
  destruct (challenge_like env b b' Hl Hm) as (o & c & c' & Hc & E & E' & Ho).
  rewrite (M_bind_ok _ _ _ _ _ E), (M_bind_ok _ _ _ _ _ E'). destruct o as [r|v]; [by apply refuse_sim|].
  destruct Ho as [-> Ha]. apply agree_bind; [by apply handle_at_like|]. intros _.
  apply sim_bind; [apply record_sim|]. intros _. apply emit_sim.
Qed.

(** ** The loop *)

Definition alike {A : Type} (x : option (Bus * A)) (x' : option (Bus' * A)) : Prop :=
  match x, x' with
  | Some x, Some x' => agree x x'
  | None, None => True
  | _, _ => False
  end.

Lemma drain_like n : forall b b', like b b' -> alike (drain n b) (drain n b').
Proof.
  induction n as [|n IH]; intros b b' Hl; cbn [drain]; rewrite <-(lk_queue _ _ Hl), <-(lk_stop _ _ Hl);
    pose proof (lk_said _ _ Hl) as Hs; destruct (queue b) as [|env rest]; try by split.
  - by destruct (stop_requested b).
  - destruct (stop_requested b); [by split|]. inversion Hs as [|?? H1 H2]; subst.
    assert (like (set_queue rest b) (set_queue rest b')) as Hq.
    { unfold set_queue. rewrite <-(lk_journal _ _ Hl), <-(lk_seq _ _ Hl). by apply like_deliveries. }
    destruct (deliver_one_like env _ _ Hq H1) as [Hc Hr].
    destruct (deliver_one env (set_queue rest b)) as [c r], (deliver_one env (set_queue rest b')) as [c' r'].
    cbn [fst snd] in *. subst r'. destruct r; [by apply IH|by split..].
Qed.

Lemma pump_like n b b' : like b b' -> alike (pump n b) (pump n b').
Proof.
  intros Hl. unfold pump. rewrite <-(lk_dispatch _ _ Hl). destruct (in_dispatch b); [by split|].
  pose proof (drain_like n _ _ (like_flags b b' true false Hl)) as Hd.
  destruct (drain n (set_flags true false b)) as [[c r]|], (drain n (set_flags true false b')) as [[c' r']|]; try done.
  destruct Hd as [Hc Hr]. cbn [fst snd] in *. subst r'. destruct r; [|by split..].
  split; [|done]. cbn [fst]. rewrite <-(lk_stop _ _ Hc). by apply like_flags.
Qed.

(** ** Death and revival *)

Definition at_state id st (b : Bus) : Prop := forall r, find id b = Some r -> state_schema r = st.

Lemma like_life id (lkg : option Value) (used : Z -> Z) al b b' :
  like b b' -> (forall v, lkg = Some v -> carried v /\ at_state id (Value_schema v) b) ->
  like (update_shard id (fun r => rec_set_life (default (last_known_good r) lkg) (used (reloads_used r)) al r) b)
    (update_shard id (fun r => rec_set_life (default (last_known_good r) lkg) (used (reloads_used r)) al r) b').
Proof.
  intros Hl Hv. apply like_update; [done|]. intros r r' E E' He Hs HR. split_and!; [| |exact HR].
  - unfold erase, rec_set_life in *. cbn.
    injection He as E1 E2 E3 E4 E5 E6 E7. by rewrite E1, E2, E3, E4, E5, E6.
  - destruct Hs as (H1 & H2 & H3 & H4). split_and!; [exact H1|exact H2|cbn..].
    + destruct lkg as [v|]; [by apply Hv|done].
    + destruct lkg as [v|]; [|done]. symmetry. by apply Hv.
Qed.

Lemma revive_at_like id v b b' :
  like b b' -> carried v -> at_state id (Value_schema v) b -> agree (revive_at id v b) (revive_at id v b').
Proof.
  intros Hl Hv Ha. unfold revive_at.
  destruct (like_find b b' id Hl) as [[E E']|(r & r' & E & E' & He & Hs & HR)]; rewrite E, E'; [by split|].
  destruct (R_revive _ _ _ _ v HR Hv (eq_sym (Ha r E))) as [HR' Hr].
  destruct (revive (rec_shard r) v) as [sh x], (revive (rec_shard r') v) as [sh' x']. cbn [fst snd] in *. subst x'.
  split; [|done]. apply like_update; [done|]. intros r1 r1' E1 E1' He1 Hs1 _. unfold find in *.
  assert (r1 = r) as -> by congruence. assert (r1' = r') as -> by congruence.
  split_and!; [|done|exact HR']. unfold erase, rec_set_shard in *. cbn. congruence.
Qed.

Lemma revive_at_like_state id st v (b : Bus) : at_state id st b -> at_state id st (revive_at id v b).1.
Proof.
  intros Ha. unfold revive_at. destruct (find id b) as [r|] eqn:E; [|done].
  destruct (revive _ _) as [sh x]. intros r1. unfold find in *. cbn. rewrite lookup_alter_eq, E.
  intros [= <-]. by apply (Ha r).
Qed.

Lemma kill_sim id : sim (kill id) (kill id).
Proof.
  intros b b' Hl. unfold kill. apply agree_find; [done|by split|]. intros r r' E E' He Hs HR.
  replace (state_schema r') with (state_schema r) by exact (f_equal state_schema He).
  apply sim_bind; [|intros _; apply emit_sim|done]. apply sim_modify. intros c c' Hc.
  by apply (like_life id None (fun n => n) false).
Qed.

(** Revive, record the life, tell the observers, answer. *)
Definition resumed {X : Type} `{ShardOps X} id v lkg used ev (out : ReviveOutcome) : M (Switchboard X Ob) ReviveOutcome :=
  _ ← revive_at id v;
  _ ← modify (update_shard id (fun r => rec_set_life (default (last_known_good r) lkg) (used (reloads_used r)) true r));
  _ ← emit ev;
  mret out.

Lemma resumed_like id v lkg used ev out b b' :
  like b b' -> carried v -> at_state id (Value_schema v) b -> (forall w, lkg = Some w -> w = v) ->
  agree (resumed id v lkg used ev out b) (resumed id v lkg used ev out b').
Proof.
  intros Hl Hv Ha Hk. unfold resumed. apply agree_bind; [by apply revive_at_like|]. intros _ Hc.
  apply agree_bind.
  - split; [|done]. apply like_life; [done|]. intros w ->. rewrite (Hk w eq_refl).
    split; [done|]. by apply revive_at_like_state.
  - intros _. apply sim_bind; [apply emit_sim|]. intros _. apply sim_ret.
Qed.

Lemma adm_value_ok a v : adm_ok a = true -> Admission_value a = Ok v -> adm_value a = Some v.
Proof. unfold adm_ok, Admission_value. by destruct (adm_value a); intros ? [= <-]. Qed.

(** What is admitted at the state schema is a state every boundary carries. *)
Lemma admitted_state w st a v n :
  wf_schema st -> (admit_door (parse w) (Some st) FirstError n).2 = Ok a -> adm_ok a = true ->
  Admission_value a = Ok v -> carried v /\ Value_schema v = st.
Proof.
  intros Hst E Ha Hv. destruct (admit_door (parse w) (Some st) FirstError n) as [n' r] eqn:Ed.
  cbn in E. subst r. eapply admitted_carried; [exact Hst|exact Ed|by apply adm_value_ok].
Qed.

Lemma find_state id r (b : Bus) n : find id b = Some r -> at_state id (state_schema r) (set_gate_calls n b).
Proof. intros E r1. unfold find in *. cbn. congruence. Qed.

Lemma swap_state_sim id w : sim (swap_state id w) (swap_state id w).
Proof.
  intros b b' Hl. unfold swap_state. apply agree_find; [done|by split|]. intros r r' E E' He Hs HR.
  replace (state_schema r') with (state_schema r) by exact (f_equal state_schema He).
  apply agree_gate; [done|intros; apply admit_door_counter|]. intros a n n' Ea.
  destruct (adm_ok a) eqn:Ok_a; cbn [negb].
  - apply agree_lift; [by apply like_gate|]. intros v Ev.
    destruct (admitted_state w _ a v _ (proj1 (proj2 Hs)) Ea Ok_a Ev) as [Hv Hst].
    apply (resumed_like id v (Some v) (fun n => n)); [by apply like_gate|done| |by intros ? [=]].
    rewrite Hst. by apply find_state.
  - apply agree_lift; [by apply like_gate|]. intros e _.
    apply sim_bind; [apply emit_sim|intros _; apply sim_ret|by apply like_gate].
Qed.

Lemma reload_sim id w : sim (reload id w) (reload id w).
Proof.
  intros b b' Hl. unfold reload. apply agree_find; [done|by split|]. intros r r' E E' He Hs HR.
  replace (state_schema r') with (state_schema r) by exact (f_equal state_schema He).
  replace (reloads_used r') with (reloads_used r) by exact (f_equal reloads_used He).
  replace (last_known_good r') with (last_known_good r) by exact (f_equal last_known_good He).
  rewrite <-(R_policy _ _ _ _ HR).
  apply agree_lift; [done|]. intros pv _. apply agree_lift; [done|]. intros door _.
  apply agree_gate; [done|intros; apply admit_live_counter|]. intros pol n n' _.
  pose proof (like_gate _ _ n n' Hl) as Hl1.
  destruct (adm_ok pol); cbn [negb]; (apply agree_lift; [done|]); [intros pv' _|by split].
  apply agree_lift; [done|]. intros [most fallback] _. destruct (_ >=? _); [by split|].
  apply agree_gate; [done|intros; apply admit_door_counter|]. intros a m m' Ea.
  assert (like (set_gate_calls m (set_gate_calls n b)) (set_gate_calls m' (set_gate_calls n' b'))) as Hl2 by by apply like_gate.
  destruct (adm_ok a) eqn:Ok_a.
  - apply agree_lift; [done|]. intros v Ev.
    destruct (admitted_state w _ a v _ (proj1 (proj2 Hs)) Ea Ok_a Ev) as [Hv Hst].
    apply (resumed_like id v (Some v) (fun n => u64 (n + 1))); [done|done| |by intros ? [=]].
    rewrite Hst. by apply (find_state id r b).
  - apply agree_lift; [done|]. intros e _. destruct fallback.
    + destruct Hs as (_ & _ & Hk & Hst).
      apply (resumed_like id (last_known_good r) None (fun n => u64 (n + 1))); [done|done| |done].
      rewrite Hst. by apply (find_state id r b).
    + apply sim_bind; [apply emit_sim|intros _; apply sim_ret|done].
Qed.

Lemma snapshot_bytes_like id b b' : like b b' -> snapshot_bytes id b = snapshot_bytes id b'.
Proof.
  intros Hl. unfold snapshot_bytes.
  destruct (like_find b b' id Hl) as [[E E']|(r & r' & E & E' & He & Hs & HR)]; rewrite E, E'; [done|].
  by rewrite (R_snapshot _ _ _ _ HR).
Qed.

(** ** Orders *)

Definition order_said (o : Order_of Ob) : Prop :=
  match o with
  | OSend _ m | OPublish m | OSendAs _ _ m | OPublishAs _ m => said m
  | _ => True
  end.

Lemma like_delete id b b' : like b b' -> like (set_shards (delete id (shards b)) b) (set_shards (delete id (shards b')) b').
Proof.
  intros Hl. pose proof (lk_erased _ _ Hl) as He. destruct Hl. split; try done; cbn.
  - by rewrite !fmap_delete, He.
  - intros k r r'. rewrite !lookup_delete_Some. intros [_ E] [_ E']. by eapply lk_related0.
  - intros k r. rewrite lookup_delete_Some. intros [_ E]. by eapply lk_sound0.
Qed.

Lemma like_list b b' : like b b' -> list_shards b = list_shards b'.
Proof.
  intros Hl. unfold list_shards.
  assert (forall (X : Type) (m : gmap Z (ShardRecord X)),
    (fun e => rec_id e.2) <$> ascending m = (fun e => rec_id e.2) <$> ascending (erase <$> m)) as E.
  { intros X m. rewrite ascending_fmap, <-list_fmap_compose. by apply list_fmap_ext. }
  by rewrite E, (lk_erased _ _ Hl), <-E.
Qed.

Lemma told_alike {A : Type} (f : A -> Answer) (x : Bus * A) (x' : Bus' * A) :
  agree x x' -> alike (told f x) (told f x').
Proof. intros [H1 H2]. split; [done|]. cbn. by rewrite H2. Qed.

Lemma obey_like o b b' : like b b' -> order_said o -> alike (obey o b) (obey o b').
Proof.
  intros Hl Ho. destruct o as [t m|m|s t m|s m|n| |id|id w|id w|id|id|obs|n|t|id|id| |]; cbn [obey order_said] in *.
  - apply told_alike. split; [by apply push_like|apply (lk_seq _ _ Hl)].
  - apply told_alike. by apply fanout_like.
  - apply told_alike. split; [by apply push_like|apply (lk_seq _ _ Hl)].
  - apply told_alike. by apply fanout_like.
  - pose proof (pump_like n b b' Hl) as Hp. destruct (pump n b), (pump n b'); try done. by apply told_alike.
  - split; [|done]. unfold stop. cbn. rewrite (lk_dispatch _ _ Hl). by apply like_flags.
  - by apply told_alike, kill_sim.
  - by apply told_alike, reload_sim.
  - by apply told_alike, swap_state_sim.
  - split; [done|]. cbn. by rewrite (snapshot_bytes_like id b b' Hl).
  - unfold unregister_shard. destruct (like_find b b' id Hl) as [[E E']|(r & r' & E & E' & _)]; rewrite E, E'; [by split|].
    split; [|done]. by apply like_delete.
  - apply told_alike. unfold add_observer. rewrite (lk_observers _ _ Hl), (lk_observer_id _ _ Hl).
    split; [|done]. by apply like_observers.
  - split; [|done]. unfold remove_observer. cbn. rewrite (lk_observers _ _ Hl), (lk_observer_id _ _ Hl). by apply like_observers.
  - split; [done|]. cbn. unfold outcome. by rewrite (lk_journal _ _ Hl).
  - split; [done|]. cbn. unfold alive.
    destruct (like_find b b' id Hl) as [[E E']|(r & r' & E & E' & He & _)]; rewrite E, E'; [done|].
    by rewrite (f_equal rec_alive He : rec_alive r = rec_alive r').
  - split; [done|]. cbn. unfold accepted_by.
    destruct (like_find b b' id Hl) as [[E E']|(r & r' & E & E' & He & _)]; rewrite E, E'; [done|].
    by rewrite (f_equal accept He : accept r = accept r').
  - split; [done|]. cbn. by rewrite (like_list b b' Hl).
  - split; [done|]. cbn. unfold pending. by rewrite (lk_queue _ _ Hl).
Qed.

(** Any run of orders is answered alike. *)
Lemma obey_all_like l : forall b b', like b b' -> Forall order_said l -> alike (obey_all l b) (obey_all l b').
Proof.
  induction l as [|o l IH]; intros b b' Hl Ho; [by split|]. inversion Ho as [|?? H1 H2]; subst. cbn [obey_all].
  pose proof (obey_like o b b' Hl H1) as Ha. destruct (obey o b) as [[c x]|], (obey o b') as [[c' x']|]; try done.
  destruct Ha as [Hc Hx]. cbn in Hc, Hx. subst x'. cbn.
  pose proof (IH c c' Hc H2) as Hr. destruct (obey_all l c) as [[d y]|], (obey_all l c') as [[d' y']|]; try done.
  destruct Hr as [Hd Hy]. cbn in Hd, Hy. subst y'. by split.
Qed.
End like.
