(* ===== verification/Transparent.v ===== *)
(** * A shard and its own library

    [ZEN_EXPORT_SHARD] and the kernel's adapter put a boundary of bytes between a
    shard and the bus: every value is serialized on one side and re-admitted by the
    gate on the other, exceptions become status codes, and tickets do not cross.
    For a shard that keeps to what crosses, the boundary is invisible: a bus with
    the shard in it and a bus with the shard's library loaded in its place answer
    every order of the host alike. *)

From S2P Require Import Prelude Schema Value Registry Gate Compat Serialize SchemaCodec Grant Bus Switchboard Enqueue Invariant Dispatch Delivery Abi Kernel Likeness.

Section transparent.
Context {N Ob : Type} `{n_ops : ShardOps N} `{ob_ops : ObserverOps Ob}.
(** The published schemas. *)
Context (g : Registry).
Abbreviation Bus := (Switchboard (Hosted N (Exported N)) Ob).

(** ** Shards that keep to what crosses *)

(** A handler that says only what crosses. *)
Fixpoint spoken (P : N -> Prop) (h : Handler N) : Prop :=
  match h with
  | Done s | Raise s _ | Crash s => P s
  | SendTo _ _ m k => said g m /\ forall t, spoken P (k t)
  | PublishAll _ m k => said g m /\ forall n, spoken P (k n)
  | Resolve _ _ k => forall s, spoken P (k s)
  | Admit _ _ k => forall a, spoken P (k a)
  end.

(** Nor looks at its tickets, resolves, or throws. *)
Fixpoint fluent (P : N -> Prop) (h : Handler N) : Prop :=
  match h with
  | Done s => P s
  | SendTo _ _ m k => said g m /\ (forall t, k t = k 0) /\ fluent P (k 0)
  | PublishAll _ m k => said g m /\ (forall n, k n = k 0) /\ fluent P (k 0)
  | Resolve _ _ _ | Admit _ _ _ | Raise _ _ | Crash _ => False
  end.

(** A set of states a shard stays in, saying what crosses. *)
Record well_spoken (acc : list Schema) (st : Schema) (P : N -> Prop) : Prop := {
  ws_handle s m : P s -> said g m -> Value_schema (payload m) ∈ acc -> spoken P (handle s m);
  ws_revive s v : P s -> carried v -> Value_schema v = st -> P (revive s v).1
}.

(** A set of states in which a shard does nothing that its library cannot show. *)
Record portable (acc : list Schema) (st : Schema) (P : N -> Prop) : Prop := {
  po_doors s : P s -> exists declared, accepted_schemas s = Ok declared /\
    forall d, d ∈ acc -> find_door declared (Schema_name d) (Schema_version d) = Ok (Some d);
  po_snapshot s : P s -> exists v, shard_snapshot s = Ok v /\ carried v /\ Value_schema v = st;
  po_policy s : P s -> exists v, policy s = Ok v /\ carried v /\ Value_schema v = policy_door;
  po_revive s v : P s -> carried v -> Value_schema v = st -> exists s', revive s v = (s', Ok tt) /\ P s';
  po_handle s m : P s -> said g m -> Value_schema (payload m) ∈ acc -> fluent P (handle s m)
}.

(** What stands for what: a shard for itself, and a shard's library for the shard. *)
Inductive stands (acc : list Schema) (st : Schema) : Hosted N (Exported N) -> Hosted N (Exported N) -> Prop :=
| stands_same P s : well_spoken acc st P -> P s -> stands acc st (Plain s) (Plain s)
| stands_library P s a : portable acc st P -> P s -> ha_state a = mkExported s -> ha_state_schema a = st ->
    stands acc st (Plain s) (Adapted a).

(** ** The boundary, one operation at a time *)

Lemma carried_gate v n w :
  serialize v = Ok w -> carried v -> (admit_door (parse w) (Some (Value_schema v)) FirstError n).2 = Ok (Admission_accept v).
Proof.
  intros E Hv. destruct (carried_crosses v n Hv) as (w' & E' & Ea & _). rewrite E in E'. injection E' as <-. by rewrite Ea.
Qed.

Lemma admit_bytes_carried v w op :
  serialize v = Ok w -> carried v -> admit_bytes w (Value_schema v) op = Ok v.
Proof. intros E Hv. unfold admit_bytes. by rewrite (carried_gate v 0 w E Hv). Qed.

Lemma snapshot_crosses (a : HostAdapter (Exported N)) s v :
  ha_state a = mkExported s -> shard_snapshot s = Ok v -> carried v -> Value_schema v = ha_state_schema a ->
  shard_snapshot a = Ok v.
Proof.
  intros Ea Es Hv Hst. cbn. unfold HostAdapter_snapshot. rewrite Ea. cbn. unfold do_snapshot. rewrite Es. cbn.
  destruct (carried_crosses v 0 Hv) as (w & E & _). rewrite E. cbn. rewrite <-Hst. by apply admit_bytes_carried.
Qed.

Lemma policy_crosses (a : HostAdapter (Exported N)) s v :
  ha_state a = mkExported s -> policy s = Ok v -> carried v -> Value_schema v = policy_door -> policy a = Ok v.
Proof.
  intros Ea Es Hv Hst. change (policy a) with (HostAdapter_policy a). unfold HostAdapter_policy. rewrite Ea, lifecycle_policy_schema_ok. cbn. unfold do_policy. rewrite Es. cbn.
  destruct (carried_crosses v 0 Hv) as (w & E & _). rewrite E. cbn. rewrite <-Hst. by apply admit_bytes_carried.
Qed.

Lemma revive_crosses (a : HostAdapter (Exported N)) s s' v probe :
  ha_state a = mkExported s -> shard_snapshot s = Ok probe -> Value_schema probe = Value_schema v -> carried v ->
  revive s v = (s', Ok tt) -> revive a v = (set_instance (mkExported s') a, Ok tt).
Proof.
  intros Ea Es Hp Hv Er. cbn -[admit_door]. unfold HostAdapter_revive. destruct (carried_crosses v 0 Hv) as (w & E & _).
  rewrite E, Ea. cbn -[admit_door]. unfold do_revive. rewrite Es. cbn -[admit_door]. rewrite Hp, (carried_gate v 0 w E Hv). cbn -[admit_door].
  by rewrite Er.
Qed.

(** The library's [handle] is the shard's, seen through the boundary. *)
Lemma handle_crosses (a : HostAdapter (Exported N)) s m declared :
  ha_state a = mkExported s -> accepted_schemas s = Ok declared -> carried (payload m) ->
  find_door declared (Schema_name (Value_schema (payload m))) (Schema_version (Value_schema (payload m))) =
    Ok (Some (Value_schema (payload m))) ->
  handle a m = host_calls a (lib_map mkExported (through_host (handle s m))).
Proof.
  intros Ea Es Hv Hd. cbn -[admit_door]. unfold HostAdapter_handle. destruct (carried_crosses _ 0 Hv) as (w & E & Eg & En & Ev).
  rewrite E, Ea. cbn -[admit_door]. unfold do_handle. rewrite Es. cbn -[admit_door]. rewrite En, Ev, Hd, (carried_gate _ 0 w E Hv). cbn -[admit_door].
  by destruct m.
Qed.

(** ** Runs *)

Abbreviation alike_bus := (like g stands).

Lemma like_gate_right (b b' : Bus) n : alike_bus b b' -> alike_bus b (set_gate_calls n b').
Proof. intros Hl. rewrite <-(set_gate_calls_same b). by apply like_gate. Qed.

(** A handler that says only what crosses, run on like buses by shards that stand
    for each other. *)
Lemma spoken_runs (P : N -> Prop) self h : forall b b' : Bus, spoken P h -> alike_bus b b' ->
  let x := run_handler self (handler_map Plain h) b in
  let x' := run_handler self (handler_map Plain h) b' in
  alike_bus x.1 x'.1 /\ (exists s, P s /\ x.2.1 = Plain s /\ x'.2.1 = Plain s) /\ x.2.2 = x'.2.2.
Proof.
  induction h as [s|s t m k IH|s m k IH|n v k IH|u d k IH|s e|s]; intros b b' Hs Hl;
    cbn [spoken handler_map run_handler] in *; try (split; [done|]; split; [by exists s|done]).
  - destruct Hs as [Hm Hk]. unfold send_as, enqueue_directed. rewrite <-(lk_seq _ _ _ _ Hl).
    apply IH; [done|]. by apply push_like.
  - destruct Hs as [Hm Hk]. unfold publish_as.
    destruct (fanout_like g stands (set_sender m self) true b b' Hl Hm) as [Hc Hn].
    destruct (fanout _ true b) as [c n], (fanout _ true b') as [c' n']. cbn [fst snd] in *. subst n'. by apply IH.
  - unfold resolve_schema. rewrite (lk_registry _ _ _ _ Hl), (lk_registry' _ _ _ _ Hl). by apply IH.
  - pose proof (admit_door_counter u d FirstError (gate_calls b) (gate_calls b')) as E.
    destruct (admit_door _ _ _ (gate_calls b)) as [c a], (admit_door _ _ _ (gate_calls b')) as [c' a']. cbn in E. subst a'.
    apply IH; [done|]. by apply like_gate.
Qed.

(** What the library emits passes the host's side of the boundary. *)
Lemma emitted m self (a : HostAdapter (Exported N)) (emit : Value -> Handler (HostAdapter (Exported N))) k w (b : Bus) :
  said g m -> serialize (payload m) = Ok w -> registry b = g ->
  exists n, run_handler self (handler_map Adapted (host_emit a w emit k)) b =
    run_handler self (handler_map Adapted (emit (payload m))) (set_gate_calls n b).
Proof.
  intros [Hm Hg] E Hb. destruct (carried_crosses (payload m) (gate_calls b) Hm) as (w' & E' & Ea & En & Ev).
  rewrite E in E'. injection E' as <-. exists (u64 (gate_calls b + 1)).
  unfold host_emit. cbn [handler_map run_handler]. unfold resolve_schema, Registry_lookup. rewrite Hb, En, Ev.
  unfold snapshot, schema_key in *. rewrite Hg. cbn [handler_map run_handler]. by rewrite Ea.
Qed.

(** And one that keeps to what crosses, run by the shard and by its library. *)
Lemma fluent_runs (P : N -> Prop) self (a : HostAdapter (Exported N)) h : forall b b' : Bus, fluent P h -> alike_bus b b' ->
  let x := run_handler self (handler_map Plain h) b in
  let x' := run_handler self (handler_map Adapted (host_calls a (lib_map mkExported (through_host h)))) b' in
  alike_bus x.1 x'.1 /\
  (exists s, P s /\ x.2.1 = Plain s /\ x'.2.1 = Adapted (set_instance (mkExported s) a)) /\ x.2.2 = x'.2.2.
Proof.
  induction h as [s|s t m k IH|s m k IH|n v k IH|u d k IH|s e|s]; intros b b' Hs Hl;
    cbn [fluent] in Hs; try done.
  - split; [done|]. split; [by exists s|done].
  - destruct Hs as (Hm & Hk & Hf). destruct (carried_crosses _ 0 (proj1 Hm)) as (w & E & _).
    cbn [handler_map through_host]. rewrite E. cbn [lib_map host_calls run_handler]. unfold zen_host_send.
    destruct (emitted m self (set_instance (mkExported s) a)
      (fun v => SendTo (set_instance (mkExported s) a) t (mkMessage v 0 (reply_to m) (correlation m))
         (fun _ => host_calls a (lib_map mkExported (through_host (k 0)))))
      (fun _ => host_calls a (lib_map mkExported (through_host (k 0)))) w b' Hm E (lk_registry' _ _ _ _ Hl)) as [n En].
    cbn zeta. rewrite En. cbn [handler_map run_handler]. unfold send_as, enqueue_directed. rewrite Hk.
    apply IH; [done|]. apply push_like; [|done]. by apply like_gate_right.
  - destruct Hs as (Hm & Hk & Hf). destruct (carried_crosses _ 0 (proj1 Hm)) as (w & E & _).
    cbn [handler_map through_host]. rewrite E. cbn [lib_map host_calls run_handler]. unfold zen_host_publish.
    destruct (emitted m self (set_instance (mkExported s) a)
      (fun v => PublishAll (set_instance (mkExported s) a) (mkMessage v 0 (reply_to m) (correlation m))
         (fun _ => host_calls a (lib_map mkExported (through_host (k 0)))))
      (fun _ => host_calls a (lib_map mkExported (through_host (k 0)))) w b' Hm E (lk_registry' _ _ _ _ Hl)) as [n En].
    cbn zeta. rewrite En. cbn [handler_map run_handler]. unfold publish_as.
    destruct (fanout_like g stands (set_sender m self) true _ _ (like_gate_right b b' n Hl) Hm) as [Hc _].
    change (set_sender (mkMessage (payload m) 0 (reply_to m) (correlation m)) self) with (set_sender m self).
    destruct (fanout _ true b) as [c i], (fanout _ true (set_gate_calls n b')) as [c' i']. cbn [fst] in Hc.
    rewrite Hk. by apply IH.
Qed.

(** ** The boundary respects the relation *)

Lemma stands_snapshot acc st sh sh' : stands acc st sh sh' -> shard_snapshot sh = shard_snapshot sh'.
Proof.
  intros [P s|P s a HP Hs Ea Est]; [done|]. destruct (po_snapshot _ _ _ HP s Hs) as (v & E & Hv & Hst).
  change (shard_snapshot s = shard_snapshot a). rewrite E. symmetry. apply (snapshot_crosses a s v); congruence.
Qed.

Lemma stands_policy acc st sh sh' : stands acc st sh sh' -> policy sh = policy sh'.
Proof.
  intros [P s|P s a HP Hs Ea Est]; [done|]. destruct (po_policy _ _ _ HP s Hs) as (v & E & Hv & Hst).
  change (policy s = policy a). rewrite E. symmetry. by apply (policy_crosses a s v).
Qed.

Lemma stands_revive acc st sh sh' v :
  stands acc st sh sh' -> carried v -> Value_schema v = st ->
  stands acc st (revive sh v).1 (revive sh' v).1 /\ (revive sh v).2 = (revive sh' v).2.
Proof.
  intros [P s HP Hs|P s a HP Hs Ea Est] Hv Hst.
  - pose proof (ws_revive _ _ _ HP s v Hs Hv Hst) as Hr. cbn. destruct (revive s v) as [s' r].
    split; [|done]. by apply (stands_same _ _ P).
  - destruct (po_revive _ _ _ HP s v Hs Hv Hst) as (s' & Er & Hs').
    destruct (po_snapshot _ _ _ HP s Hs) as (probe & Ep & _ & Hp).
    pose proof (revive_crosses a s s' v probe Ea Ep ltac:(congruence) Hv Er) as Ec.
    change (revive (Plain s) v) with (let '(s, r) := revive s v in (Plain s : Hosted N (Exported N), r)).
    change (revive (Adapted a) v) with (let '(a, r) := revive a v in (Adapted a : Hosted N (Exported N), r)).
    rewrite Er, Ec. split; [|done]. by apply (stands_library _ _ P).
Qed.

Lemma stands_handle acc st sh sh' self m (b b' : Bus) :
  stands acc st sh sh' -> Value_schema (payload m) ∈ acc -> said g m -> alike_bus b b' ->
  let x := run_handler self (handle sh m) b in
  let x' := run_handler self (handle sh' m) b' in
  alike_bus x.1 x'.1 /\ stands acc st x.2.1 x'.2.1 /\ x.2.2 = x'.2.2.
Proof.
  intros [P s HP Hs|P s a HP Hs Ea Est] Hin Hm Hl; cbn zeta.
  - destruct (spoken_runs P self (handle s m) b b' (ws_handle _ _ _ HP s m Hs Hm Hin) Hl)
      as (H1 & (s' & Hs' & E & E') & H2). cbn [handle Hosted_ops]. rewrite E, E'.
    split_and!; [done|by apply (stands_same _ _ P)|done].
  - destruct (po_doors _ _ _ HP s Hs) as (declared & Ed & Hd).
    pose proof (handle_crosses a s m declared Ea Ed (proj1 Hm) (Hd _ Hin)) as Eh.
    destruct (fluent_runs P self a (handle s m) b b' (po_handle _ _ _ HP s m Hs Hm Hin) Hl)
      as (H1 & (s' & Hs' & E & E') & H2). rewrite <-Eh in E', H1, H2. cbn [handle Hosted_ops] in *. rewrite E, E'.
    split_and!; [done|by apply (stands_library _ _ P)|done].
Qed.

(** Any run of a host's orders, on like buses. *)
Lemma stands_obey l (b b' : Bus) :
  (forall (o : Ob) ev, Forall (action_said g) (notify o ev).1.2) -> alike_bus b b' -> Forall (order_said g) l ->
  alike g stands (obey_all l b) (obey_all l b').
Proof.
  intros Ho Hl Hs. apply obey_all_like; [apply stands_snapshot|apply stands_policy|by intros; by apply stands_revive|
    by intros; by apply stands_handle|done..].
Qed.
End transparent.

(** ** Registering and loading *)

(** Published one after the other, none clashes. *)
Fixpoint all_agree (r : Registry) (l : list Schema) : Prop :=
  match l with [] => True | s :: l => agrees r s /\ all_agree (publish_schema r s) l end.

Lemma published_stays l : forall r k d, all_agree r l -> r !! k = Some d -> foldl publish_schema r l !! k = Some d.
Proof.
  induction l as [|s l IH]; intros r k d Ha Hk; [done|]. destruct Ha as [Hs Ha]. apply IH; [done|].
  unfold publish_schema. destruct (decide (schema_key s = k)) as [<-|Hn]; [|by rewrite lookup_insert_ne].
  rewrite lookup_insert_eq. destruct Hs as [Hs|Hs]; congruence.
Qed.

Lemma published_all l : forall r, all_agree r l ->
  Forall (fun d => foldl publish_schema r l !! schema_key d = Some d) l.
Proof.
  induction l as [|s l IH]; intros r Ha; [done|]. destruct Ha as [Hs Ha]. constructor; [|by apply IH].
  cbn. apply published_stays; [done|]. apply lookup_insert_eq.
Qed.

Lemma all_agree_app l k : forall r, all_agree r (l ++ k) <-> all_agree r l /\ all_agree (foldl publish_schema r l) k.
Proof. induction l as [|s l IH]; intros r; cbn [app all_agree foldl]; [tauto|]. rewrite IH. tauto. Qed.

Section registering.
Context {Sh Ob : Type} `{sh_ops : ShardOps Sh} `{ob_ops : ObserverOps Ob}.
Abbreviation Bus := (Switchboard Sh Ob).

Lemma register_at_agrees s (b : Bus) :
  agrees (registry b) s -> exists fresh, register_schema_at (Some s) b =
    (set_registry (publish_schema (registry b) s) b, Ok (mkRegistration s fresh)).
Proof.
  unfold register_schema_at, publish_schema. cbn [register_schema]. intros [->|H]; [by eexists|].
  rewrite H, Z.eqb_refl. rewrite insert_id by done. by eexists.
Qed.

Lemma accept_loop_agrees l : forall acc (b : Bus), all_agree (registry b) l ->
  accept_loop (Some <$> l) acc b = (set_registry (foldl publish_schema (registry b) l) b, Ok (acc ++ l)).
Proof.
  induction l as [|s l IH]; intros acc b Ha; cbn [fmap list_fmap accept_loop foldl].
  { rewrite app_nil_r. by destruct b. }
  destruct Ha as [Hs Ha]. destruct (register_at_agrees s b Hs) as [fresh E].
  rewrite (M_bind_ok _ _ _ _ _ E), IH by done. cbn. by rewrite <-app_assoc.
Qed.

(** A shard whose doors clash with nothing published is registered under them. *)
Lemma registered_runs sh l v grant (b : Bus) :
  accepted_schemas sh = Ok (Some <$> l) -> shard_snapshot sh = Ok v -> carried v ->
  all_agree (registry b) (l ++ [Value_schema v]) -> shards b !! next_shard_id b = None ->
  register_shard (Some sh) grant b =
    (set_shards (<[next_shard_id b := mkRecord (next_shard_id b) sh l (Value_schema v) v grant 0 true]> (shards b))
       (set_next_shard_id (u64 (next_shard_id b + 1)) (set_gate_calls (u64 (gate_calls b + 1))
          (set_registry (foldl publish_schema (registry b) (l ++ [Value_schema v])) b))),
     Ok (next_shard_id b)).
Proof.
  intros Ea Es Hv Hr Hf. apply all_agree_app in Hr as [Hl [Hst _]]. rewrite foldl_app. cbn [foldl].
  unfold register_shard. rewrite Ea, Es. rewrite (M_bind_ok (lift _) _ b b _ eq_refl).
  rewrite (M_bind_ok _ _ _ _ _ (accept_loop_agrees l [] b Hl)). rewrite (M_bind_ok (lift _) _ _ _ v eq_refl). cbv zeta.
  destruct (register_at_agrees (Value_schema v) (set_registry (foldl publish_schema (registry b) l) b) Hst) as [fresh E].
  rewrite (M_bind_ok _ _ _ _ _ E). cbn [registry set_registry].
  destruct (admit_live_cases v (Value_schema v) (gate_calls b) (ca_wf v Hv)) as [[_ Ea']|[Hn _]]; [|by destruct Hn; apply Hv].
  erewrite M_bind_ok by (unfold gate; cbn [gate_calls set_registry]; rewrite Ea'; reflexivity).
  cbn [adm_ok Admission_accept adm_value negb]. rewrite (M_bind_ok (lift _) _ _ _ v eq_refl).
  unfold add_record. cbn. by rewrite Hf.
Qed.
End registering.

Section loading.
Context {N Ob : Type} `{n_ops : ShardOps N} `{ob_ops : ObserverOps Ob}.
Context (variant_what : bytes).
Abbreviation KWorld := (World N (Exported N) Ob).
Abbreviation Bus := (Switchboard (Hosted N (Exported N)) Ob).

(** What a library's manifest says of it. *)
Record described (s : N) (acc : list Schema) (v : Value) : Prop := {
  de_accepted : accepted_schemas s = Ok (Some <$> acc);
  de_snapshot : shard_snapshot s = Ok v;
  de_carried : carried v;
  de_wf : Forall wf_schema acc;
  de_fits : manifest_fits acc (Value_schema v)
}.

Lemma reconstruct_runs h n s acc v (w : KWorld) :
  callable h n w = true -> described s acc v -> manifest_ok (kregistry w) acc (Value_schema v) ->
  exists r, reconstruct h n (mkExported s) w =
    (set_kregistry r (set_kbus (set_gate_calls (u64 (gate_calls (kbus w) + 1)) (kbus w)) w), Ok (acc, Value_schema v)).
Proof.
  intros Hc [Ea Es Hv Hwf Hf] Hm.
  destruct (manifest_crosses acc (Value_schema v) (kregistry w) FirstError (gate_calls (kbus w)) Hwf (ca_wf v Hv) Hm Hf)
    as (m & bytes & Em & Ew & Ead & Er).
  eexists. unfold reconstruct, call.
  assert (abi_describe (mkExported s) = Ok (bytes, ZEN_OK)) as Ed.
  { cbn. unfold do_describe. rewrite Ea, Es. cbn -[encode_manifest]. by rewrite Em; cbn -[encode_manifest]; rewrite Ew. }
  rewrite Ed. erewrite M_bind_ok by (by rewrite Hc). cbv zeta beta iota. cbn [Z.eqb ZEN_OK negb].
  rewrite (proj2 (proj2 (proj2 meta_schemas))), (M_bind_ok (lift _) _ w w manifest_door eq_refl).
  erewrite M_bind_ok by (unfold on_bus, gate; rewrite Ead; reflexivity).
  cbn [adm_ok Admission_accept adm_value negb]. rewrite (M_bind_ok (lift _) _ _ _ m eq_refl).
  unfold on_registry. cbn [kregistry set_kbus]. by rewrite Er.
Qed.

(** Loaded, the shard's library stands on the bus under the next id. *)
Lemma load_runs disk name path s acc v (w : KWorld) :
  libs w !! name = None -> disk path = inr (mkFile (Some (Some (mkAbi ZEN_ABI_VERSION (do_create (Ok s)))))) ->
  described s acc v -> manifest_ok (kregistry w) acc (Value_schema v) ->
  all_agree (registry (kbus w)) (acc ++ [Value_schema v]) -> shards (kbus w) !! next_shard_id (kbus w) = None ->
  exists a w' n, ha_state a = mkExported s /\ ha_state_schema a = Value_schema v /\
    load variant_what disk name path w = (w', Ok (mkLoad true (next_shard_id (kbus w)) [])) /\
    kbus w' = set_shards (<[next_shard_id (kbus w) := mkRecord (next_shard_id (kbus w)) (Adapted a) acc (Value_schema v) v
        (allow_any nothing) 0 true]> (shards (kbus w)))
      (set_next_shard_id (u64 (next_shard_id (kbus w) + 1)) (set_gate_calls n
        (set_registry (foldl publish_schema (registry (kbus w)) (acc ++ [Value_schema v])) (kbus w)))).
Proof.
  intros Hname Hdisk Hd Hm Hr Hf. unfold load.
  set (abi := mkAbi ZEN_ABI_VERSION (do_create (Ok s)) : ZenShardAbi (Exported N)) in *.
  rewrite (M_bind_ok (gets _) _ w w _ eq_refl), Hname.
  erewrite M_bind_ok by (unfold lib_open; rewrite Hdisk; reflexivity). cbv beta iota zeta.
  assert (fetch_abi (mkFile (Some (Some abi))) = inr abi) as -> by done. cbv beta iota zeta.
  set (h := next_native w). set (w1 := set_native ({[h]} ∪ open_libs w) (instances w) (h + 1) w).
  set (w2 := set_native (open_libs w1) (<[h + 1 := h]> (instances w1)) (h + 1 + 1) w1).
  assert (create_instance h abi w1 = (w2, Ok (Some (h + 1, mkExported s)))) as Ec.
  { unfold create_instance. rewrite bool_decide_true by (cbn; set_solver). done. }
  rewrite (M_bind_ok _ _ _ _ _ Ec). cbv beta iota zeta.
  assert (callable h (h + 1) w2 = true) as Hcall.
  { unfold callable. cbn. rewrite lookup_insert_eq. by rewrite !bool_decide_true by set_solver. }
  destruct (reconstruct_runs h (h + 1) s acc v w2 Hcall Hd Hm) as [r Er].
  erewrite M_bind_ok by (unfold try; rewrite Er; reflexivity). cbv beta iota zeta.
  set (a := mkAdapter h (h + 1) (mkExported s) acc (Value_schema v) 0 : HostAdapter (Exported N)).
  set (w3 := set_kregistry r (set_kbus (set_gate_calls (u64 (gate_calls (kbus w2) + 1)) (kbus w2)) w2)).
  pose proof (snapshot_crosses a s v eq_refl (de_snapshot _ _ _ Hd) (de_carried _ _ _ Hd) eq_refl) as Hsnap.
  pose proof (registered_runs (Adapted a) acc v (allow_any nothing) (kbus w3) eq_refl Hsnap (de_carried _ _ _ Hd) Hr Hf) as Ereg.
  erewrite M_bind_ok by (unfold try, on_bus; rewrite Ereg; reflexivity). cbv beta iota zeta.
  exists (set_self (next_shard_id (kbus w)) a). do 2 eexists. split; [done|]. split; [done|].
  erewrite M_bind_ok by (unfold on_bus, modify; reflexivity).
  erewrite M_bind_ok by (unfold modify; reflexivity). split; [reflexivity|]. cbn.
  unfold update_shard, set_shards. cbn. f_equal. rewrite alter_insert_eq. done.
Qed.

(** What the shards on the bus before say is published and crosses, and so is what
    waits in its queue. *)
Definition neighbourly (g : Registry) (b : Bus) : Prop := like g (stands g) (set_registry g b) (set_registry g b).

Lemma neighbourly_intro g (b : Bus) :
  (forall id r, shards b !! id = Some r -> record_sound g r /\
     exists P s, rec_shard r = Plain s /\ well_spoken g (accept r) (state_schema r) P /\ P s) ->
  Forall (fun e => said g (env_msg e)) (queue b) -> neighbourly g b.
Proof.
  intros Hr Hq. split; try done.
  - intros id r r' E E'. cbn in *. assert (r = r') as <- by congruence.
    destruct (Hr id r E) as [_ (P & s & -> & HP & Hs)]. by apply (stands_same _ _ _ P).
  - intros id r E. by destruct (Hr id r E).
Qed.

Lemma loaded_alike disk name path s acc v P (w : KWorld) :
  let g := foldl publish_schema (registry (kbus w)) (acc ++ [Value_schema v]) in
  libs w !! name = None -> disk path = inr (mkFile (Some (Some (mkAbi ZEN_ABI_VERSION (do_create (Ok s)))))) ->
  described s acc v -> portable g acc (Value_schema v) P -> P s ->
  manifest_ok (kregistry w) acc (Value_schema v) -> all_agree (registry (kbus w)) (acc ++ [Value_schema v]) ->
  shards (kbus w) !! next_shard_id (kbus w) = None -> neighbourly g (kbus w) ->
  exists b' w' id,
    register_shard (Some (Plain s)) (allow_any nothing) (kbus w) = (b', Ok id) /\
    load variant_what disk name path w = (w', Ok (mkLoad true id [])) /\ like g (stands g) b' (kbus w').
Proof.
  intros g Hname Hdisk Hd HP Hs Hm Hr Hf Hb.
  destruct (load_runs disk name path s acc v w Hname Hdisk Hd Hm Hr Hf) as (a & w' & n & Ea & Est & El & Ew).
  pose proof (registered_runs (Plain s : Hosted N (Exported N)) acc v (allow_any nothing) (kbus w)
    (de_accepted _ _ _ Hd) (de_snapshot _ _ _ Hd) (de_carried _ _ _ Hd) Hr Hf) as Ereg.
  do 3 eexists. split; [exact Ereg|]. split; [exact El|].
  rewrite Ew. fold g. pose proof (published_all _ _ Hr) as Hg. apply Forall_app in Hg as [Hg _]. destruct Hd.
  apply (like_insert g (stands g) (set_gate_calls _ (set_registry g (kbus w))) (set_gate_calls n (set_registry g (kbus w))));
    [by apply like_gate|done| |by apply (stands_library g _ _ P)].
  split_and!; [|apply de_carried0|done|done]. cbn. rewrite Forall_forall in *. auto.
Qed.

(** C12: loading a shard from its own library changes nothing a host can see.  Take a
    shard that keeps to what crosses the boundary of bytes, and a world in which its
    schemas clash with nothing.  Registered natively it gets an id; its library,
    loaded, gets the same id; and from there on any sequence of orders of the host
    (sends, publications, pumps, kills, reloads, snapshots, observers coming and
    going, queries) is answered alike, and leaves alike queues, journals, observers
    and records. *)
Theorem library_transparent disk name path s acc v P (w : KWorld) :
  let g := foldl publish_schema (registry (kbus w)) (acc ++ [Value_schema v]) in
  (forall (o : Ob) ev, Forall (action_said g) (notify o ev).1.2) ->
  libs w !! name = None -> disk path = inr (mkFile (Some (Some (mkAbi ZEN_ABI_VERSION (do_create (Ok s)))))) ->
  described s acc v -> portable g acc (Value_schema v) P -> P s ->
  manifest_ok (kregistry w) acc (Value_schema v) -> all_agree (registry (kbus w)) (acc ++ [Value_schema v]) ->
  shards (kbus w) !! next_shard_id (kbus w) = None -> neighbourly g (kbus w) ->
  exists b' w' id,
    register_shard (Some (Plain s)) (allow_any nothing) (kbus w) = (b', Ok id) /\
    load variant_what disk name path w = (w', Ok (mkLoad true id [])) /\
    forall l, Forall (order_said g) l -> alike g (stands g) (obey_all l b') (obey_all l (kbus w')).
Proof.
  intros g Ho Hname Hdisk Hd HP Hs Hm Hr Hf Hb.
  destruct (loaded_alike disk name path s acc v P w Hname Hdisk Hd HP Hs Hm Hr Hf Hb) as (b' & w' & id & E1 & E2 & Hl).
  exists b', w', id. split; [exact E1|]. split; [exact E2|]. intros l. by apply stands_obey.
Qed.
End loading.
