(* ===== verification/HotSwap.v ===== *)
(** * Swapping a library under a running shard

    [Kernel::reload_from] replaces the code of a mounted shard: it takes the shard's
    snapshot, opens the new file, gives the adapter the new instance, revives it from
    the snapshot and closes the old file.  When the new file is the library of a shard
    that revival puts in the same state as the old one, all of that is, on the bus, what
    [swap_state] from its own snapshot does to the shard itself. *)

From S2P Require Import Prelude Schema Value Registry Gate Compat Serialize SchemaCodec Grant Bus Switchboard Enqueue Invariant Dispatch Delivery Residents Abi Kernel KernelSafety Likeness Transparent.

Section bus.
Context {Sh Ob : Type} `{sh_ops : ShardOps Sh} `{ob_ops : ObserverOps Ob}.
Abbreviation Bus := (Switchboard Sh Ob).

(** Observers that do not throw. *)
Definition calm : Prop := forall (o : Ob) ev, (notify o ev).2 = Ok tt.

Lemma emit_calm ev (b : Bus) : calm -> (emit ev b).2 = Ok tt.
Proof.
  intros Hc. unfold emit. generalize (length (observers b)) as n, 0%nat as i. intros n. revert b.
  induction n as [|n IH]; intros b i; cbn [emit_loop]; [done|].
  assert (exists b1, call_observer i ev b = (b1, Ok tt)) as (b1 & E).
  { unfold call_observer. destruct (observers b !! i) as [[id [o|]]|]; [|by eauto..].
    specialize (Hc o ev). destruct (notify o ev) as [[o' l] r]. cbn in Hc. subst r. by eexists. }
  rewrite (M_bind_ok _ _ _ _ _ E). apply IH.
Qed.

Definition swapped_ok : ReviveOutcome := mkRevive true false false false Refusal_default.

(** A candidate the gate admits, and a shard that takes it. *)
Lemma swap_admitted id w v sh (b : Bus) r :
  find id b = Some r -> (admit_door (parse w) (Some (state_schema r)) FirstError (gate_calls b)).2 = Ok (Admission_accept v) ->
  revive (rec_shard r) v = (sh, Ok tt) ->
  exists n, swap_state id w b =
    (_ ← emit (lifecycle_event id (state_schema r) EvRevived Refusal_default false); mret swapped_ok)
    (update_shard id (fun r => rec_set_life v (reloads_used r) true (rec_set_shard sh r)) (set_gate_calls n b)).
Proof.
  intros Er Ea Ev. destruct (admit_door _ _ _ (gate_calls b)) as [n a] eqn:Eg. cbn in Ea. subst a. exists n.
  unfold swap_state. rewrite (M_bind_ok (gets _) _ b b _ eq_refl), Er.
  erewrite M_bind_ok by (unfold gate; rewrite Eg; reflexivity).
  cbn [adm_ok Admission_accept adm_value negb]. rewrite (M_bind_ok (lift _) _ _ _ v eq_refl).
  assert (revive_at id v (set_gate_calls n b) = (update_shard id (rec_set_shard sh) (set_gate_calls n b), Ok tt)) as E.
  { unfold revive_at. change (find id (set_gate_calls n b)) with (find id b). by rewrite Er, Ev. }
  rewrite (M_bind_ok _ _ _ _ _ E). rewrite (M_bind_ok (modify _) _ _ _ tt eq_refl).
  f_equal. unfold update_shard, set_shards. cbn. f_equal. apply map_eq. intros k.
  destruct (decide (id = k)) as [<-|Hk]; [|by rewrite !lookup_alter_ne].
  rewrite !lookup_alter_eq. by destruct (shards b !! id).
Qed.
End bus.

Section worlds.
Context {N Ob : Type} `{n_ops : ShardOps N} `{ob_ops : ObserverOps Ob}.
Context (variant_what : bytes).
Abbreviation KWorld := (World N (Exported N) Ob).
Abbreviation KBus := (Switchboard (Hosted N (Exported N)) Ob).

(** The kernel's record of a name, and the adapter it stands for. *)
Record tenant (name : bytes) (rec : Loaded) (a : HostAdapter (Exported N)) (w : KWorld) : Prop := {
  tn_named : libs w !! name = Some rec;
  tn_there : shard (ld_id rec) (kbus w) = Some (Adapted a);
  tn_alive : callable (ha_lib a) (ha_inst a) w = true;
  tn_open : ld_lib rec ∈ open_libs w;
  tn_fresh : ha_inst a < next_native w
}.

(** Where the kernel's invariant holds, an adapter under a loaded name is one. *)
Lemma good_tenant name rec a w :
  world_good w -> libs w !! name = Some rec -> shard (ld_id rec) (kbus w) = Some (Adapted a) -> tenant name rec a w.
Proof.
  intros (L & Ls & T & Hw) Hn Ha. pose proof (shard_bound ∅ L Ls T w _ a Hw Ha) as Hb.
  destruct (wk_owned _ _ _ _ _ _ Hw _ _ _ Hb) as [Hi _]. split; try done.
  - by eapply owned_callable.
  - by apply (wk_libs _ _ _ _ _ _ Hw name rec Hn).
  - by apply (proj2 (wk_fresh _ _ _ _ _ _ Hw) _ _ Hi).
Qed.

Lemma update_twice id f f' n (b : KBus) :
  update_shard id f' (set_gate_calls n (update_shard id f b)) = update_shard id (f' ∘ f) (set_gate_calls n b).
Proof.
  unfold update_shard, set_shards. cbn. f_equal. apply map_eq. intros k.
  destruct (decide (id = k)) as [<-|Hk]; [|by rewrite !lookup_alter_ne].
  rewrite !lookup_alter_eq. by destruct (shards b !! id).
Qed.

(** The kernel's part of a swap: everything up to the revival, and the old file's end. *)
Lemma reload_runs disk name path rec a s0 acc0 v0 wire (w : KWorld) :
  tenant name rec a w -> disk path = inr (mkFile (Some (Some (mkAbi ZEN_ABI_VERSION (do_create (Ok s0)))))) ->
  described s0 acc0 v0 -> manifest_ok (kregistry w) acc0 (Value_schema v0) -> ha_state_schema a = Value_schema v0 ->
  snapshot_bytes (ld_id rec) (kbus w) = Ok wire ->
  let x := swap_state (ld_id rec) wire (update_shard (ld_id rec)
    (rec_set_shard (Adapted (rebind (next_native w) (next_native w + 1) (mkExported s0) a)))
    (set_gate_calls (u64 (gate_calls (kbus w) + 1)) (kbus w))) in
  x.2 = Ok swapped_ok ->
  exists w', reload_from variant_what disk name path w = (w', Ok (mkReload true true false [])) /\ kbus w' = x.1.
Proof.
  intros [Hname Ha Hcall Hopen Hfresh] Hdisk Hd Hm Hst Hsnap x Hx. unfold reload_from.
  set (abi := mkAbi ZEN_ABI_VERSION (do_create (Ok s0)) : ZenShardAbi (Exported N)) in *.
  rewrite (M_bind_ok (gets _) _ w w _ eq_refl), Hname.
  erewrite M_bind_ok by (unfold try; rewrite Hsnap; reflexivity). cbv beta iota zeta.
  erewrite M_bind_ok by (unfold lib_open; rewrite Hdisk; reflexivity). cbv beta iota zeta.
  assert (fetch_abi (mkFile (Some (Some abi))) = inr abi) as -> by done. cbv beta iota zeta.
  set (h := next_native w) in *. set (w1 := set_native ({[h]} ∪ open_libs w) (instances w) (h + 1) w).
  set (w2 := set_native (open_libs w1) (<[h + 1 := h]> (instances w1)) (h + 1 + 1) w1).
  assert (create_instance h abi w1 = (w2, Ok (Some (h + 1, mkExported s0)))) as Ec.
  { unfold create_instance. rewrite bool_decide_true by (cbn; set_solver). done. }
  rewrite (M_bind_ok _ _ _ _ _ Ec). cbv beta iota zeta.
  assert (callable h (h + 1) w2 = true) as Hcall2.
  { unfold callable. cbn. rewrite lookup_insert_eq. by rewrite !bool_decide_true by set_solver. }
  destruct (reconstruct_runs h (h + 1) s0 acc0 v0 w2 Hcall2 Hd Hm) as [r Er].
  erewrite M_bind_ok by (unfold try; rewrite Er; reflexivity). cbv beta iota zeta.
  set (w3 := set_kregistry r (set_kbus (set_gate_calls (u64 (gate_calls (kbus w2) + 1)) (kbus w2)) w2)).
  assert (adapter_at (ld_id rec) w3 = Some a) as Ea.
  { unfold adapter_at. change (shard (ld_id rec) (kbus w3)) with (shard (ld_id rec) (kbus w)). by rewrite Ha. }
  assert (gets (adapter_at (ld_id rec)) w3 = (w3, Ok (Some a))) as Eg by (unfold gets; by rewrite Ea).
  rewrite (M_bind_ok _ _ _ _ _ Eg), (M_bind_ok (lift _) _ w3 w3 a eq_refl). cbv zeta.
  rewrite Hst, bool_decide_true, !Z.eqb_refl by done. cbn [negb orb].
  assert (callable (ha_lib a) (ha_inst a) w3 = true) as Hcall3.
  { unfold callable in *. apply andb_prop in Hcall as [H1%bool_decide_eq_true H2%bool_decide_eq_true]. cbn.
    rewrite lookup_insert_ne by lia. by rewrite !bool_decide_true by set_solver. }
  set (w4 := set_native (open_libs w3) (delete (ha_inst a) (instances w3)) (next_native w3) w3).
  assert (rebind_at (ld_id rec) h (h + 1) (mkExported s0) w3 =
    (set_kbus (update_shard (ld_id rec) (rec_set_shard (Adapted (rebind h (h + 1) (mkExported s0) a))) (kbus w3)) w4, Ok tt)) as Eb.
  { unfold rebind_at. rewrite (M_bind_ok _ _ _ _ _ Eg), (M_bind_ok (lift _) _ w3 w3 a eq_refl).
    erewrite M_bind_ok by (unfold destroy; rewrite Hcall3; reflexivity). done. }
  rewrite (M_bind_ok _ _ _ _ _ Eb), (M_bind_ok (modify _) _ _ _ tt eq_refl).
  assert (exists b, x = (b, Ok swapped_ok)) as [b Eb'] by (destruct x as [b y]; cbn in Hx; subst y; by exists b).
  erewrite M_bind_ok by (unfold on_bus; cbn [kbus set_libs set_kbus]; change (swap_state _ _ _) with x; rewrite Eb'; reflexivity).
  erewrite M_bind_ok.
  2:{ unfold lib_close. rewrite bool_decide_true by (cbn; set_solver). reflexivity. }
  eexists. split; [reflexivity|]. by rewrite Eb'.
Qed.

(** A new instance under the adapter, then the swap from the shard's own snapshot: what
    the swap does to the shard itself. *)
Section swap.
Context (g : Registry) (P : N -> Prop) (id : ShardId) (s s0 : N) (r : ShardRecord (Hosted N (Exported N))).
Hypothesis observers_said : forall (o : Ob) ev, Forall (action_said g) (notify o ev).1.2.
Hypothesis observers_calm : calm (Ob := Ob).
Hypothesis shard_portable : portable g (accept r) (state_schema r) P.
Hypothesis both_in : P s /\ P s0.
Hypothesis native_shard : rec_shard r = Plain s.
Hypothesis revival_decides : forall v, carried v -> Value_schema v = state_schema r -> revive s0 v = revive s v.

Lemma swap_alike a m (b bk : KBus) :
  like g (stands g) b bk -> find id b = Some r -> ha_state a = mkExported s0 -> ha_state_schema a = state_schema r ->
  exists wire, snapshot_bytes id b = Ok wire /\ (swap_state id wire b).2 = Ok swapped_ok /\
    agree g (stands g) (swap_state id wire b)
      (swap_state id wire (update_shard id (rec_set_shard (Adapted a)) (set_gate_calls m bk))).
Proof using All.
  intros Hl Er Ea Est. destruct both_in as [Hs Hs0].
  destruct (po_snapshot _ _ _ _ shard_portable s Hs) as (v & Ev & Hv & Hvs).
  destruct (po_snapshot _ _ _ _ shard_portable s0 Hs0) as (v1 & Ev1 & _ & Hv1).
  destruct (po_revive _ _ _ _ shard_portable s v Hs Hv Hvs) as (s' & Erev & Hs').
  destruct (carried_crosses v 0 Hv) as (wire & Ew & _). exists wire.
  split; [unfold snapshot_bytes; rewrite Er, native_shard; cbn -[serialize]; by rewrite Ev|].
  assert (forall n, (admit_door (parse wire) (Some (state_schema r)) FirstError n).2 = Ok (Admission_accept v)) as Hadm
    by (intros n; rewrite <-Hvs; by apply carried_gate).
  destruct (like_find g (stands g) b bk id Hl) as [[E _]|(r1 & r' & E & E' & He & Hsound & _)]; [congruence|].
  assert (r1 = r) as -> by congruence. assert (state_schema r' = state_schema r) as Est' by exact (eq_sym (f_equal state_schema He)).
  destruct (swap_admitted id wire v (Plain s') b r Er (Hadm _)) as [n E1]; [rewrite native_shard; cbn; by rewrite Erev|].
  set (bw := update_shard id (rec_set_shard (Adapted a)) (set_gate_calls m bk)).
  destruct (swap_admitted id wire v (Adapted (set_instance (mkExported s') a)) bw (rec_set_shard (Adapted a) r')) as [n' E2].
  { unfold bw, find in *. cbn. by rewrite lookup_alter_eq, E'. }
  { cbn -[admit_door]. rewrite Est'. apply Hadm. }
  { cbn [rec_shard rec_set_shard]. pose proof (revive_crosses a s0 s' v v1 Ea Ev1 ltac:(congruence) Hv
      (eq_trans (revival_decides v Hv Hvs) Erev)) as Ec.
    change (revive (Adapted a) v) with (let '(a, r) := revive a v in (Adapted a : Hosted N (Exported N), r)). by rewrite Ec. }
  split; [|rewrite E1, E2; unfold bw; rewrite update_twice].
  { rewrite E1. unfold mbind, M_bind. match goal with |- context [emit ?e ?y] => pose proof (emit_calm e y observers_calm) as Hem end.
    destruct (emit _ _) as [c x]. cbn in Hem. by subst x. }
  change (state_schema (rec_set_shard (Adapted a) r')) with (state_schema r'). rewrite Est'.
  apply sim_bind; [by apply emit_sim|intros _; apply sim_ret|].
  apply like_update; [by apply like_gate, like_gate_right|]. intros r1 r2 F1 F2 _ _ _. unfold find in *. cbn in F1, F2.
  assert (r1 = r) as -> by congruence. assert (r2 = r') as -> by congruence. split_and!.
  - unfold erase, rec_set_life, rec_set_shard in *. cbn. injection He as -> -> -> _ -> -> _. done.
  - destruct Hsound as (H1 & H2 & _). split_and!; [exact H1|exact H2|exact Hv|exact Hvs].
  - by apply (stands_library g _ _ P s' (set_instance (mkExported s') a)).
Qed.
End swap.

(** C13: swapping the library under a running shard is invisible.  Take a native shard
    and its loaded library on like buses, and a new file with the library of a shard
    that the revival puts in the same state as the old one.  Reloading from that file
    succeeds, and leaves the bus like the one [swap_state] leaves when the native shard
    is given its own snapshot; from there on every order of the host is answered
    alike. *)
Theorem hot_swap_transparent g P disk name path rec a s s0 acc0 v0 r
    (b : Switchboard (Hosted N (Exported N)) Ob) (w : KWorld) :
  (forall (o : Ob) ev, Forall (action_said g) (notify o ev).1.2) -> calm (Ob := Ob) ->
  like g (stands g) b (kbus w) -> tenant name rec a w ->
  find (ld_id rec) b = Some r -> rec_shard r = Plain s -> ha_state_schema a = state_schema r ->
  portable g (accept r) (state_schema r) P -> P s -> P s0 ->
  (forall v, carried v -> Value_schema v = state_schema r -> revive s0 v = revive s v) ->
  disk path = inr (mkFile (Some (Some (mkAbi ZEN_ABI_VERSION (do_create (Ok s0)))))) ->
  described s0 acc0 v0 -> Value_schema v0 = state_schema r -> manifest_ok (kregistry w) acc0 (Value_schema v0) ->
  exists wire b' w',
    snapshot_bytes (ld_id rec) b = Ok wire /\ swap_state (ld_id rec) wire b = (b', Ok swapped_ok) /\
    reload_from variant_what disk name path w = (w', Ok (mkReload true true false [])) /\
    forall l, Forall (order_said g) l -> alike g (stands g) (obey_all l b') (obey_all l (kbus w')).
Proof.
  intros Ho Hcalm Hl Ht Er Es Est HP Hs Hs0 Hforget Hdisk Hd Hv0 Hm.
  destruct (swap_alike g P (ld_id rec) s s0 r Ho Hcalm HP (conj Hs Hs0) Es Hforget
    (rebind (next_native w) (next_native w + 1) (mkExported s0) a) (u64 (gate_calls (kbus w) + 1)) b (kbus w) Hl Er eq_refl Est)
    as (wire & Hw & Hok & Hb & Hr).
  destruct (reload_runs disk name path rec a s0 acc0 v0 wire w Ht Hdisk Hd Hm ltac:(congruence)) as (w' & El & Ek).
  { by rewrite <-(snapshot_bytes_like g (stands g) (stands_snapshot g) (ld_id rec) b (kbus w) Hl). }
  { congruence. }
  exists wire, (swap_state (ld_id rec) wire b).1, w'. split; [exact Hw|].
  split; [by rewrite <-Hok; destruct (swap_state (ld_id rec) wire b)|]. split; [exact El|]. intros l. rewrite Ek. by apply stands_obey.
Qed.
End worlds.
