(* ===== verification/TransparentScenes.v ===== *)
(** * A library nobody can tell from its shard

    The echo shard of [Scenarios], exported by [ZEN_EXPORT_SHARD] and loaded next to
    a native one: the two play on as two native echoes would. *)

From S2P Require Import Prelude Schema Value Registry Gate Compat Native Serialize SchemaCodec Grant Bus Switchboard Enqueue Invariant Dispatch Delivery Loop Lifecycle Scenarios Abi Kernel KernelSafety Likeness Transparent HotSwap.

(** ** What an echo says crosses *)

Lemma hero_carried n : in_i64 n -> carried (hero n).
Proof.
  intros Hn. split.
  - exact player_wf.
  - exact ami_nameable.
  - apply wire_value_slots. split; [done|]. split; [done|].
    constructor; [by split|]. constructor; [|constructor]. by vm_compute.
  - split; [done|]. by vm_compute.
Qed.

(** The hit points of a player that crosses fit the machine's integers. *)
Lemma hp_carried v : carried v -> Value_schema v = player -> in_i64 (hp v).
Proof.
  intros Hv Hs. pose proof (ca_wire v Hv) as Hw. rewrite Hs in Hw. apply wire_value_slots in Hw as (_ & _ & Hw).
  destruct v as [s slots]. cbn in Hs, Hw. subst s. unfold player_fields in Hw.
  apply Forall2_cons_inv_l in Hw as (o & rest & Ho & Hw & ->).
  apply Forall2_cons_inv_l in Hw as (o' & rest' & _ & Hw & ->). apply Forall2_nil_inv_l in Hw as ->.
  change (hp (mkValue player [o; o'])) with (match o with Some (CInt n) => n | _ => 0 end).
  destruct o as [[n| | | | | |]|]; try (unfold in_i64; lia). by destruct Ho.
Qed.

Definition players : Registry := foldl publish_schema ∅ ([player] ++ [player]).

Lemma players_at : players !! schema_key player = Some player.
Proof. apply lookup_insert_eq. Qed.

Lemma hero_said n : in_i64 n -> carried (hero n) /\ players !! schema_key (Value_schema (hero n)) = Some (Value_schema (hero n)).
Proof. intros Hn. split; [by apply hero_carried|exact players_at]. Qed.

(** An echo in a state that crosses. *)
Definition steady (sh : Echo) : Prop := carried (state sh) /\ Value_schema (state sh) = player.

Lemma steady_snapshot sh : steady sh -> shard_snapshot sh = Ok (state sh).
Proof. intros [_ Hs]. cbn. rewrite <-Hs. by destruct (state sh). Qed.

Lemma two_lives_carried : carried two_lives.
Proof.
  split.
  - exact policy_door_wf.
  - split; by vm_compute.
  - apply wire_value_slots. split; [done|]. split; [done|]. repeat (constructor; [by vm_compute|]). constructor.
  - split; [done|]. by vm_compute.
Qed.

Lemma echo_fluent sh m : steady sh -> said players m -> Value_schema (payload m) = player ->
  fluent players steady (handle sh m).
Proof.
  intros Hs [Hm _] Hp. cbn [handle Echo_ops]. unfold echo_handle. destruct (Z.ltb_spec 0 (hp (payload m))); [|done].
  pose proof (hp_carried _ Hm Hp) as Hi. split; [|done]. apply hero_said. unfold in_i64 in *. lia.
Qed.

Lemma echo_portable : portable players [player] player steady.
Proof.
  split.
  - intros sh _. exists [Some player]. split; [done|]. intros d ->%list_elem_of_singleton. by vm_compute.
  - intros sh Hs. exists (state sh). split; [by apply steady_snapshot|exact Hs].
  - intros sh _. exists two_lives. split; [done|]. split; [exact two_lives_carried|done].
  - intros sh v _ Hv Hst. exists (mkEcho (to sh) v). by split.
  - intros sh m Hs Hm Hp%list_elem_of_singleton. by apply echo_fluent.
Qed.

Lemma echo_well_spoken : well_spoken players [player] player steady.
Proof.
  split; [|by intros].
  intros sh m Hs Hm Hp%list_elem_of_singleton. pose proof (echo_fluent sh m Hs Hm Hp) as Hf.
  cbn [handle Echo_ops] in *. unfold echo_handle in *. destruct (_ <? _); [|done]. split; [by apply Hf|by intros _].
Qed.

(** ** Two worlds *)

Abbreviation Stage := (World Echo (Exported Echo) (list BusEvent)).

(** A native echo that answers shard 2, and a log; the second echo is to come. *)
Definition half : Stage :=
  Kernel_new (add_observer (Some []) (register_shard (Some (Plain (mkEcho 2 (hero 7)))) (allow_any nothing) (Switchboard_new 0)).1).1.

Definition second : Echo := mkEcho 1 (hero 9).
Definition echo_disk (path : bytes) : bytes + LibFile (Exported Echo) :=
  inr (mkFile (Some (Some (mkAbi ZEN_ABI_VERSION (do_create (Ok second)))))).

Definition native_bus : Switchboard (Hosted Echo (Exported Echo)) (list BusEvent) :=
  (register_shard (Some (Plain second)) (allow_any nothing) (kbus half)).1.
Definition loaded : Stage := (load [] echo_disk "echo" "libecho.so" half).1.

Lemma half_neighbourly : neighbourly players (kbus half).
Proof.
  apply neighbourly_intro; [|by constructor]. intros id r Hr.
  assert (shards (kbus half) = {[1 := mkRecord 1 (Plain (mkEcho 2 (hero 7))) [player] player (hero 7) (allow_any nothing) 0 true]})
    as E by (by vm_compute).
  rewrite E in Hr. apply lookup_singleton_Some in Hr as [<- <-].
  assert (carried (hero 7)) as H7 by (by apply hero_carried). split.
  - split; [apply Forall_singleton; by split; [exact player_wf|exact players_at]|]. by split; [exact player_wf|].
  - exists steady, (mkEcho 2 (hero 7)). by split; [|split; [exact echo_well_spoken|]].
Qed.

(** The host sends, pumps, kills, revives from bytes and from the last good state,
    takes snapshots and asks. *)
Definition session : list (Order_of (list BusEvent)) :=
  [OSend 2 (mkMessage (hero 3) 0 0 0); OPump 9; OSnapshot 2; OKill 2; OSendAs 1 2 (mkMessage (hero 1) 0 0 0); OPump 9;
   OReload 2 (default [] (match serialize (hero 5) with Ok w => Some w | _ => None end)); OSnapshot 2;
   OReload 2 (str "garbage"); OSnapshot 2; OReload 2 []; OPublish (mkMessage (hero 1) 0 0 0); OPump 9; OOutcome 7;
   OAcceptedBy 2; OListShards; OUnregister 2; OAlive 2].

Lemma session_said : Forall (order_said players) session.
Proof. repeat (apply Forall_cons; split; [try exact I; by apply hero_said|]). apply Forall_nil_2. Qed.

(** The session runs to its end and says something at every order. *)
Example session_answers :
  option_map snd (obey_all session (kbus loaded)) = option_map snd (obey_all session native_bus) /\
  length <$> option_map snd (obey_all session native_bus) = Some 18%nat.
Proof. vm_compute. done. Qed.

Lemma hero9_carried : carried (hero 9).
Proof. by apply hero_carried. Qed.

Lemma second_described : described second [player] (hero 9).
Proof.
  split; [done|done|exact hero9_carried|apply Forall_singleton; exact player_wf|].
  destruct roster_manifest as [_ (_ & Hf & _)]. split; [by vm_compute|]. split; [exact Hf|by inversion Hf].
Qed.

Lemma players_manifest (r : Registry) : agrees r player -> manifest_ok r [player] player.
Proof.
  intros Ha. assert (describable r player) as Hd by (split; [exact player_wf|by repeat constructor]).
  split; [exact Hd|]. split; [exact Ha|]. split; [split; [exact player_wf|by repeat constructor]|].
  right. apply lookup_insert_eq.
Qed.

Lemma log_said (o : list BusEvent) ev : Forall (action_said players) (notify o ev).1.2.
Proof. constructor. Qed.

Lemma library_transparent_witness :
  exists b' w', register_shard (Some (Plain second)) (allow_any nothing) (kbus half) = (b', Ok 2) /\
    load [] echo_disk "echo" "libecho.so" half = (w', Ok (mkLoad true 2 [])) /\
    alike players (stands players) (obey_all session b') (obey_all session (kbus w')).
Proof.
  destruct (library_transparent [] echo_disk (str "echo") (str "libecho.so") second [player] (hero 9) steady half)
    as (b' & w' & id & E1 & E2 & E3).
  - exact log_said.
  - by vm_compute.
  - done.
  - exact second_described.
  - exact echo_portable.
  - split; [exact hero9_carried|done].
  - apply players_manifest. by left.
  - split; [by right|]. split; [by right|done].
  - by vm_compute.
  - exact half_neighbourly.
  - assert (id = 2) as ->.
    { pose proof (f_equal snd E1) as E. vm_compute in E. by injection E. }
    exists b', w'. split; [exact E1|]. split; [exact E2|]. apply E3, session_said.
Defined.

(** ** A new build of the library *)

(** The loaded echo stands for the native one. *)
Lemma loaded_stands : like players (stands players) native_bus (kbus loaded).
Proof.
  destruct (loaded_alike [] echo_disk (str "echo") (str "libecho.so") second [player] (hero 9) steady half)
    as (b' & w' & id & E1 & E2 & Hl).
  - by vm_compute.
  - done.
  - exact second_described.
  - exact echo_portable.
  - split; [exact hero9_carried|done].
  - apply players_manifest. by left.
  - split; [by right|]. split; [by right|done].
  - by vm_compute.
  - exact half_neighbourly.
  - unfold native_bus, loaded. by rewrite E1, E2.
Qed.

(** It starts as another hero; reviving decides the whole state. *)
Definition rebuilt : Echo := mkEcho 1 (hero 2).
Definition rebuilt_disk (path : bytes) : bytes + LibFile (Exported Echo) :=
  inr (mkFile (Some (Some (mkAbi ZEN_ABI_VERSION (do_create (Ok rebuilt)))))).

Definition echo_rec : Loaded := mkLoaded "echo" 1 1 2.
Definition echo_adapter : HostAdapter (Exported Echo) := mkAdapter 1 2 (mkExported second) [player] player 2.

Lemma echo_tenant : tenant "echo" echo_rec echo_adapter loaded.
Proof. split; by vm_compute. Qed.

Lemma hot_swap_transparent_witness :
  exists wire b' w', snapshot_bytes 2 native_bus = Ok wire /\ swap_state 2 wire native_bus = (b', Ok swapped_ok) /\
    reload_from [] rebuilt_disk "echo" "libecho2.so" loaded = (w', Ok (mkReload true true false [])) /\
    alike players (stands players) (obey_all session b') (obey_all session (kbus w')).
Proof.
  destruct (hot_swap_transparent [] players steady rebuilt_disk (str "echo") (str "libecho2.so") echo_rec echo_adapter
    second rebuilt [player] (hero 2) (mkRecord 2 (Plain second) [player] player (hero 9) (allow_any nothing) 0 true)
    native_bus loaded) as (wire & b' & w' & E1 & E2 & E3 & E4).
  - exact log_said.
  - by intros o ev.
  - exact loaded_stands.
  - exact echo_tenant.
  - by vm_compute.
  - done.
  - done.
  - exact echo_portable.
  - split; [exact hero9_carried|done].
  - split; [by apply hero_carried|done].
  - done.
  - done.
  - split; [done|done|by apply hero_carried|apply Forall_singleton; exact player_wf|]. apply second_described.
  - done.
  - apply players_manifest. right. by vm_compute.
  - exists wire, b', w'. split; [exact E1|]. split; [exact E2|]. split; [exact E3|]. apply E4, session_said.
Defined.

(** The new instance has the old one's nine hit points, not the two it was made with. *)
Example swapped_state :
  match Switchboard.shard 2 (kbus (reload_from [] rebuilt_disk "echo" "libecho2.so" loaded).1) with
  | Some (Adapted a) => (ha_lib a, ha_state a) = (3, mkExported second)
  | _ => False
  end.
Proof. vm_compute. done. Qed.

(** A shard that throws is another matter: natively its throw leaves the loop, which
    pumps no more; from a library it ends at the boundary, and its message counts as
    delivered. *)
Definition bomb_disk (path : bytes) : bytes + LibFile (Exported Bomb) :=
  inr (mkFile (Some (Some (mkAbi ZEN_ABI_VERSION (do_create (Ok mkBomb)))))).
Definition bare : World Bomb (Exported Bomb) (list BusEvent) := Kernel_new (Switchboard_new 0).
Definition fuse : list (Order_of (list BusEvent)) := [OSend 1 (mkMessage (hero 1) 0 0 0); OPump 2; OOutcome 1].

Example throws_end_at_the_boundary :
  option_map snd (obey_all fuse (register_shard (Some (Plain mkBomb)) (allow_any nothing) (kbus bare)).1) =
    Some [ANumber 1; ARun (Throw (runtime_error "boom")); AOutcome DeliveryOutcome_default] /\
  option_map snd (obey_all fuse (kbus (load [] bomb_disk "bomb" "libbomb.so" bare).1)) =
    Some [ANumber 1; ARun (Ok tt); AOutcome (mkOutcome Delivered Refusal_default)].
Proof. vm_compute. done. Qed.
