(* ===== verification/Quickstart.v ===== *)
(** * The quickstart

    [examples/quickstart.cpp], the smallest use of the library from end to end, over
    its model: it prints what the README says. *)

From S2P Require Import Prelude Schema Value Registry Json Gate Compat Serialize.

(** Bytes in quotation marks. *)
Definition quoted_name (s : bytes) : bytes := kQuote :: s ++ [kQuote].

(** The corrupted candidate's text. *)
Definition corrupt_json : bytes :=
  str "{" ++ quoted_name "zen" ++ str ":1," ++ quoted_name "schema" ++ str ":" ++ quoted_name "PlayerState" ++ str "," ++
  quoted_name "version" ++ str ":1," ++ quoted_name "fields" ++ str ":{" ++ quoted_name "hp" ++ str ":" ++
  quoted_name "oops" ++ str "}}".

Definition show_bool (b : bool) : bytes := if b then str "true" else str "false".

(** The exit code, and the lines of [stdout] and [stderr]; the gate's runs are
    threaded. *)
Definition main : result (Z * list bytes * list bytes) :=
  b ← builder_field "hp" KInt true (builder "PlayerState" 1);
  b ← builder_field "name" KText true b;
  player ← builder_build b;
  let '(registry, r) := register_schema ∅ (Some player) in
  _ ← r;
  v ← Value_new (Some player);
  v ← Value_set v "hp" (CInt 30);
  v ← Value_set v "name" (CText "Ami");
  let '(g, live) := admit_live v player FirstError 0 in
  live ← live;
  if negb (adm_ok live) then
    e ← first_error live; Ok (1, [], [str "refused: " ++ Error_message e])
  else
  bytes ← serialize v;
  b0 ← deref (bytes !! 0%nat);
  b1 ← deref (bytes !! 1%nat);
  b2 ← deref (bytes !! 2%nat);
  let out := [str "native: " ++ to_string (zlen bytes) ++ str " bytes, magic '" ++ [b0; b1] ++ str "' v" ++
                to_string (octet b2)] in
  let candidate := parse bytes in
  let '(g, revived) := admit_registry candidate registry FirstError g in
  revived ← revived;
  if negb (adm_ok revived) then
    e ← first_error revived; Ok (1, out, [str "refused: " ++ Error_message e])
  else
  back ← Admission_value revived;
  hp ← deref (Value_get back "hp");
  hp ← as_int hp;
  name ← deref (Value_get back "name");
  name ← as_text name;
  let out := out ++ [str "revived hp=" ++ to_string_signed hp ++ str " name=" ++ name] in
  let out := out ++ [str "compat json: " ++ compat_serialize v] in
  let corrupt := compat_parse corrupt_json in
  let '(g, refused) := admit_registry corrupt registry FirstError g in
  refused ← refused;
  let out := out ++ [str "corrupt admitted? " ++ show_bool (adm_ok refused)] in
  if negb (adm_ok refused) then
    e ← first_error refused; Ok (0, out ++ [str "  " ++ Error_message e], [])
  else Ok (0, out, []).

(** The program prints what the README says it does. *)
Lemma quickstart_prints :
  main = Ok (0,
    [str "native: 34 bytes, magic 'ZN' v1";
     str "revived hp=30 name=Ami";
     str "compat json: {" ++ quoted_name "zen" ++ str ":1," ++ quoted_name "schema" ++ str ":" ++ quoted_name "PlayerState" ++
       str "," ++ quoted_name "version" ++ str ":1," ++ quoted_name "content_id" ++ str ":" ++
       quoted_name "0xb1d69bad13ae83d6" ++ str "," ++ quoted_name "fields" ++ str ":{" ++ quoted_name "hp" ++ str ":" ++
       quoted_name "30" ++ str "," ++ quoted_name "name" ++ str ":" ++ quoted_name "Ami" ++ str "}}";
     str "corrupt admitted? false";
     str "  hp: MalformedField (expected Int, got json:string) — not a base-10 64-bit integer"], []).
Proof. vm_compute. reflexivity. Qed.
