(* ===== verification/Heartbeat.v ===== *)
(** * The heartbeat

    [examples/heartbeat.cpp] over the model: two hand-written shards exchange a gated
    message and a reply, a malformed message is refused, and a shard dies and is
    revived from its own bytes.  What each writer sends to [std::cout] is the list of
    its lines, kept by that writer ([main] returns its own, a shard and an observer
    keep theirs); how the lists interleave on the console is not modelled.  The loop
    is given [fuel] deliveries. *)

From S2P Require Import Prelude Schema Value Registry Gate Serialize Grant Bus Switchboard Authored Quickstart.

(** [pump], which the programs call as if it always returned: [fuel] deliveries
    are enough where the result is not [UB]. *)
Definition pump_for {Sh Ob : Type} `{ShardOps Sh} `{ObserverOps Ob} (fuel : nat) : M (Switchboard Sh Ob) unit :=
  fun b => default (b, UB) (pump fuel b).

Definition kind_name (k : EventKind) : bytes :=
  match k with EvDelivered => "delivered" | EvRefused => "refused" | EvDied => "died" | EvRevived => "revived" end.

Definition seq_schema (name : bytes) : result Schema :=
  b ← builder_field "seq" KInt true (builder name 1); builder_build b.

Definition ping_schema : result Schema := seq_schema "Ping".
Definition pong_schema : result Schema := seq_schema "Pong".
Definition counter_schema : result Schema :=
  b ← builder_field "count" KInt true (builder "Counter" 1); builder_build b.

Definition ping_value (seq : Z) : result Value :=
  s ← ping_schema; v ← Value_new (Some s); Value_set v "seq" (CInt seq).

(** [n_out]: the lines it has written. *)
Record Node : Type := mkNode {
  name_ : bytes; accept_ : list (option Schema); reply_ : bool; count_ : Z; n_out : list bytes
}.

(** The [Pong] that echoes a message's [seq]; the cell is dereferenced. *)
Definition pong_for (m : Message) : result Value :=
  s ← pong_schema;
  pong ← Value_new (Some s);
  c ← deref (Value_get (payload m) "seq");
  Value_set pong "seq" c.

Definition node_handle (n : Node) (m : Message) : Handler Node :=
  if count_ n =? 2 ^ 63 - 1 then Crash n else
  let n := mkNode (name_ n) (accept_ n) (reply_ n) (count_ n + 1)
             (n_out n ++ [str "  " ++ name_ n ++ str " handled " ++ Schema_name (Value_schema (payload m))]) in
  if reply_ n && ShardId_valid (reply_to m) then
    converted n (pong_for m) (fun pong => SendTo n (reply_to m) (mkMessage pong 0 0 0) (fun _ => Done n))
  else Done n.

Definition node_snapshot (n : Node) : result Value :=
  s ← counter_schema; v ← Value_new (Some s); Value_set v "count" (CInt (count_ n)).

Definition node_policy : result Value :=
  s ← lifecycle_policy_schema;
  v ← Value_new (Some s);
  v ← Value_set v "max_reloads" (CInt 2);
  Value_set v "revive_from_last_good" (CBool true).

Definition node_revive (n : Node) (state : Value) : Node * result unit :=
  match (c ← deref (Value_get state "count"); as_int c) with
  | Ok count => (mkNode (name_ n) (accept_ n) (reply_ n) count (n_out n), Ok tt)
  | Throw e => (n, Throw e)
  | UB => (n, UB)
  end.

#[export] Instance Node_ops : ShardOps Node := {
  accepted_schemas n := Ok (accept_ n);
  handle := node_handle;
  shard_snapshot := node_snapshot;
  policy _ := node_policy;
  revive := node_revive
}.

(** The observer, with the lines it has written. *)
Record Tap : Type := mkTap { tap_out : list bytes }.
Definition tap_line (e : BusEvent) : bytes :=
  str "    [tap] " ++ kind_name (ev_kind e) ++ str " " ++ ev_schema_name e ++
  match ev_kind e with EvRefused => str " (" ++ Refusal_message (ev_refusal e) ++ str ")" | _ => [] end.
#[export] Instance Tap_ops : ObserverOps Tap := fun t e => (mkTap (tap_out t ++ [tap_line e]), [], Ok tt).

Definition NodeBus : Type := Switchboard Node Tap.

(** [main] up to its first message: the ids of the two shards. *)
Definition assemble : M NodeBus (ShardId * ShardId) :=
  _ ← modify (fun b => (add_observer (Some (mkTap [])) b).1);
  ping ← lift ping_schema;
  responder ← register_shard (Some (mkNode "responder" [Some ping] true 0 [])) (allow_to_any nothing "Pong" 1);
  pong ← lift pong_schema;
  collector ← register_shard_default (Some (mkNode "collector" [Some pong] false 0 []));
  mret (responder, collector).

Definition main (fuel : nat) : M NodeBus (list bytes) :=
  ids ← assemble;
  let '(responder, collector) := (ids : ShardId * ShardId) in
  let out := [str "directed Ping -> responder (reply_to collector):"] in
  v ← lift (ping_value 7);
  _ ← modify (fun b => (send responder (mkMessage v 0 collector 0) b).1);
  _ ← pump_for fuel;
  let out := out ++ [str "a malformed Ping is refused at the door:"] in
  s ← lift ping_schema;
  v ← lift (Value_new (Some s));
  _ ← modify (fun b => (send responder (mkMessage v 0 0 0) b).1);
  _ ← pump_for fuel;
  let out := out ++ [str "responder dies and revives from its own snapshot:"] in
  saved ← (fun b => (b, snapshot_bytes responder b));
  _ ← kill responder;
  ro ← reload responder saved;
  mret (out ++ [str "  revived=" ++ show_bool (revived ro)]).

Definition tapped {Sh Ob A : Type} (out : Ob -> list bytes) (x : Switchboard Sh Ob * A) : list bytes :=
  match observers x.1 with [(_, Some t)] => out t | _ => [] end.

(** ** What it does *)

(** The transcript, writer by writer: [main], the observer, the responder and the
    collector. *)
Example heartbeat_transcript :
  let x := main 2 (Switchboard_new 0) in
  x.2 = Ok [str "directed Ping -> responder (reply_to collector):"; str "a malformed Ping is refused at the door:";
            str "responder dies and revives from its own snapshot:"; str "  revived=true"] /\
  tapped tap_out x =
    [str "    [tap] delivered Ping"; str "    [tap] delivered Pong";
     str "    [tap] refused Ping (gate refused: seq: MissingField (expected Int, got absent))";
     str "    [tap] died Counter"; str "    [tap] revived Counter"] /\
  (fun e => (n_out (rec_shard e.2), count_ (rec_shard e.2))) <$> ascending (shards x.1) =
    [([str "  responder handled Ping"], 1); ([str "  collector handled Pong"], 1)].
Proof. vm_compute. done. Qed.

(** The three schemas. *)
Definition ping_door : Schema := Eval vm_compute in default player (match ping_schema with Ok s => Some s | _ => None end).
Definition pong_door : Schema := Eval vm_compute in default player (match pong_schema with Ok s => Some s | _ => None end).
Definition counter_door : Schema := Eval vm_compute in default player (match counter_schema with Ok s => Some s | _ => None end).

Lemma heartbeat_schemas :
  ping_schema = Ok ping_door /\ pong_schema = Ok pong_door /\ counter_schema = Ok counter_door.
Proof. vm_compute. done. Qed.

(** A conforming value of a schema with one [Int] field. *)
Lemma one_int v s f :
  Value_schema v = s -> Schema_fields s = [mkField f t_int true] -> conforms v s ->
  exists n, Value_get v f = Some (CInt n).
Proof.
  intros Hs Hf [_ Hc%conforms_value_fields]. rewrite Hf in Hc. apply Forall_cons in Hc as [Hc _].
  unfold conforms_field in Hc. cbn [fname ftype required] in Hc. destruct (Value_get v f) as [[n| | | | | |]|]; try done. by exists n.
Qed.

(** Whatever conforming Ping a node is handed, it counts it, and sends exactly one
    message if it replies and has an address to reply to: the Pong with the Ping's
    [seq], to that address. *)
Lemma node_answers n m :
  count_ n <> 2 ^ 63 - 1 -> Value_schema (payload m) = ping_door -> conforms (payload m) ping_door ->
  exists seq n', Value_get (payload m) "seq" = Some (CInt seq) /\ count_ n' = count_ n + 1 /\
    node_handle n m = if reply_ n && ShardId_valid (reply_to m)
      then SendTo n' (reply_to m) (mkMessage (mkValue pong_door [Some (CInt seq)]) 0 0 0) (fun _ => Done n')
      else Done n'.
Proof.
  intros Hn Hs Hc. destruct (one_int _ _ (str "seq") Hs eq_refl Hc) as [seq E]. exists seq.
  unfold node_handle. rewrite (proj2 (Z.eqb_neq _ _) Hn). eexists. split; [exact E|].
  split; [|cbn [reply_]; destruct (_ && _); [|reflexivity]]; [done|].
  unfold pong_for. rewrite (proj1 (proj2 heartbeat_schemas)). cbn [mbind result_bind Value_new]. by rewrite E.
Qed.

(** A node's snapshot conforms to [Counter], and a node revived from it has its count. *)
Lemma node_revives n n' :
  exists v, node_snapshot n = Ok v /\ Value_schema v = counter_door /\ conforms v counter_door /\
    (node_revive n' v).2 = Ok tt /\ count_ (node_revive n' v).1 = count_ n.
Proof.
  exists (mkValue counter_door [Some (CInt (count_ n))]).
  split; [unfold node_snapshot; by rewrite (proj2 (proj2 heartbeat_schemas))|]. split; [done|].
  split; [by split; [|apply conforms_value_fields; repeat constructor]|]. done.
Qed.
