(* ===== verification/HeartbeatAuthored.v ===== *)
(** * The heartbeat, authored

    [examples/heartbeat_authored.cpp]: the program of [Heartbeat] on the authoring
    layer, over its model. *)

From S2P Require Import Prelude Schema Value Gate Grant Bus Switchboard Kernel Shape Authored Quickstart Heartbeat.

Definition Ping : Shape := mkShape "Ping" 1 (FieldEntry "seq" TyInt NoEntry).
Definition Pong : Shape := mkShape "Pong" 1 (FieldEntry "seq" TyInt NoEntry).
Definition Count : Shape := mkShape "Count" 1 (FieldEntry "handled" TyInt NoEntry).

(** [state_.handled], [self_], and the lines written. *)
Record Responder : Type := mkResponder { re_handled : Z; re_self : ShardId; re_out : list bytes }.
Record Collector : Type := mkCollector { co_handled : Z; co_self : ShardId; co_out : list bytes }.

Definition on_ping (r : Responder) (p : Struct Ping) (mail : Mail) : Handler Responder :=
  if re_handled r =? 2 ^ 63 - 1 then Crash r else
  let r := mkResponder (re_handled r + 1) (re_self r)
             (re_out r ++ [str "  responder handled Ping " ++ to_string_signed p.1]) in
  mail_reply r mail (T := Pong) (p.1, tt) (fun _ => Done r).

Definition on_pong (c : Collector) (p : Struct Pong) (_ : Mail) : Handler Collector :=
  if co_handled c =? 2 ^ 63 - 1 then Crash c else
  Done (mkCollector (co_handled c + 1) (co_self c)
          (co_out c ++ [str "  collector handled Pong " ++ to_string_signed p.1])).

#[export] Instance Responder_authored : Authored Responder := {
  State := Count;
  state_ r := (re_handled r, tt);
  set_state_ s r := mkResponder s.1 (re_self r) (re_out r);
  self_ := re_self;
  zen_set_self id r := mkResponder (re_handled r) id (re_out r);
  doors := [mkDoor Ping on_ping];
  emits := [Pong];
  policy_config _ := LifecyclePolicy_default
}.

#[export] Instance Collector_authored : Authored Collector := {
  State := Count;
  state_ c := (co_handled c, tt);
  set_state_ s c := mkCollector s.1 (co_self c) (co_out c);
  self_ := co_self;
  zen_set_self id c := mkCollector (co_handled c) id (co_out c);
  doors := [mkDoor Pong on_pong];
  emits := [];
  policy_config _ := LifecyclePolicy_default
}.

(** The two classes on one bus. *)
Inductive Cast : Type := Responds (r : Responder) | Collects (c : Collector).

#[export] Instance Cast_ops : ShardOps Cast :=
  let r_ops := ShardBase_ops (Self := Responder) in
  let c_ops := ShardBase_ops (Self := Collector) in {|
  accepted_schemas x := match x with Responds r => accepted_schemas r | Collects c => accepted_schemas c end;
  handle x m := match x with
                | Responds r => handler_map Responds (handle r m)
                | Collects c => handler_map Collects (handle c m)
                end;
  shard_snapshot x := match x with Responds r => shard_snapshot r | Collects c => shard_snapshot c end;
  policy x := match x with Responds r => policy r | Collects c => policy c end;
  revive x v := match x with
                | Responds r => let '(r, res) := revive r v in (Responds r, res)
                | Collects c => let '(c, res) := revive c v in (Collects c, res)
                end
|}.

Record Tap : Type := mkTap { tap_out : list bytes }.
Definition tap_line (e : BusEvent) : bytes := str "    [tap] " ++ kind_name (ev_kind e) ++ str " " ++ ev_schema_name e.
#[export] Instance Tap_ops : ObserverOps Tap := fun t e => (mkTap (tap_out t ++ [tap_line e]), [], Ok tt).

Definition CastBus : Type := Switchboard Cast Tap.

(** [main] up to its first message. *)
Definition assemble : M CastBus (ShardId * ShardId) :=
  _ ← modify (fun b => (add_observer (Some (mkTap [])) b).1);
  responder ← mount_authored Responds (mkResponder 0 0 []);
  collector ← mount_authored Collects (mkCollector 0 0 []);
  mret (responder, collector).

Definition main (fuel : nat) : M CastBus (list bytes) :=
  ids ← assemble;
  let '(responder, collector) := (ids : ShardId * ShardId) in
  let out := [str "directed Ping -> responder (reply_to collector):"] in
  v ← lift (to_value Ping (7, tt));
  _ ← modify (fun b => (send responder (mkMessage v 0 collector 0) b).1);
  _ ← pump_for fuel;
  let out := out ++ [str "responder dies and revives from its own (derived) snapshot:"] in
  saved ← (fun b => (b, snapshot_bytes responder b));
  _ ← kill responder;
  ro ← reload responder saved;
  mret (out ++ [str "  revived=" ++ show_bool (revived ro)]).

(** The transcript, writer by writer. *)
Example heartbeat_authored_transcript :
  let x := main 2 (Switchboard_new 0) in
  x.2 = Ok [str "directed Ping -> responder (reply_to collector):";
            str "responder dies and revives from its own (derived) snapshot:"; str "  revived=true"] /\
  tapped tap_out x =
    [str "    [tap] delivered Ping"; str "    [tap] delivered Pong"; str "    [tap] died Count"; str "    [tap] revived Count"] /\
  rec_shard ∘ snd <$> ascending (shards x.1) =
    [Responds (mkResponder 1 1 [str "  responder handled Ping 7"]);
     Collects (mkCollector 1 2 [str "  collector handled Pong 7"])].
Proof. vm_compute. done. Qed.

