(* ===== verification/Elsewhere.v ===== *)
(** * Platforms without an enforcement backend

    [src/isolation/sandbox.cpp] compiled without [__linux__]: every mechanism is a
    stub that fails and makes no system call, and detection reports nothing
    enforceable.  The host is the same code; it refuses to mount what it would have to
    confine. *)

From S2P Require Import Prelude Schema Grant Bus Switchboard Posix Sandbox Confine Host HostInvariant.

Definition unshare_isolation (network filesystem : bool) : Z := -1.
Definition write_isolation_id_maps (child : Z) : bool := false.
Definition run_mount_plan (plan : MountPlan) : Z := -1.
Definition child_netns_is_isolated (child : Z) : bool := false.
Definition child_mountns_is_isolated (child : Z) : bool := false.
Definition cgroup_default_caps : ResourceCaps := mkCaps (-1) (-1) 0.
Definition cgroup_base : bytes := [].
Definition cgroup_memory_available : bool := false.
Definition cgroup_pids_available : bool := false.
Definition cgroup_cpu_available : bool := false.
Definition cgroup_create_leaf (name : bytes) (caps : ResourceCaps) : bool := false.
Definition cgroup_move_pid (name : bytes) (pid : Z) : bool := false.
Definition cgroup_confirm (name : bytes) (pid : Z) (caps : ResourceCaps) : bool := false.
Definition cgroup_remove_leaf (name : bytes) : unit := tt.

Definition no_backend : bytes := "no native enforcement backend for this platform".
Definition detect_enforcement : EnforcementReport :=
  [mkStatus Network false [] no_backend; mkStatus Filesystem false [] no_backend; mkStatus Resources false [] no_backend].

Lemma nothing_enforceable c : enforceable detect_enforcement c = false.
Proof. by destruct c. Qed.

(** ** What the host does where nothing can be enforced *)

Section unenforced.
Context {N Ob : Type} (exe : bytes) (h : IsolationHost N Ob) (name : bytes) (grant : Grant).
Hypothesis unenforceable : forall c, enforceable (enforcement h) c = false.

(** The three blocks, tried in order: nothing is asked of the system, and nothing is
    resolved as enforced; without the development mode the grant decides. *)
Lemma resolve_unenforced l :
  exists l' e, resolve exe h name grant l = (l', Ok e) /\ l_os l' = l_os l /\
    (e = None <-> dev_mode h = true \/ forall c, granted grant c = true) /\
    (Forall (fun r => r_outcome r <> Enforced) (l_resolutions l) -> Forall (fun r => r_outcome r <> Enforced) (l_resolutions l')).
Proof.
  assert ((forall c, granted grant c = true) <-> granted grant Network = true /\ granted grant Filesystem = true /\
    granted grant Resources = true) as Hall.
  { split; [by intros Hg|]. intros (H1 & H2 & H3) c. by destruct c. }
  unfold resolve, resolve_network, resolve_filesystem, resolve_resources. rewrite !unenforceable. cbn [granted] in Hall.
  destruct (has_os_capability grant cap_Network), (bool_decide (fs_ grant = WriteAnywhere)), (unlimited (res_ grant)), (dev_mode h);
    (do 2 eexists; split; [reflexivity|]; split; [reflexivity|]; split; [rewrite Hall; intuition congruence|]; intros Hr; cbn);
    try done; rewrite ?Forall_app, ?Forall_singleton; by repeat split.
Qed.
End unenforced.

(** Mounting where nothing can be enforced: unless the development mode is on or the
    grant opts out of all three, it is refused with nothing called and the host as it was. *)
Theorem mount_refused_unenforced {N Ob : Type} `{n_ops : ShardOps N} `{ob_ops : ObserverOps Ob} variant_what exe cg
    (h : IsolationHost N Ob) name so_path grant os c :
  (forall c, enforceable (enforcement h) c = false) -> dev_mode h = false -> granted grant c = false ->
  links h !! name = None ->
  exists why, mount variant_what exe cg name so_path grant os h = (retire (anew os) h, Ok (mkMount false 0 why)).
Proof.
  intros Hu Hd Hg Hn. destruct (resolve_unenforced exe h name grant Hu (Link_new name so_path (anew os))) as (l & e & E & Hos & He & _).
  destruct e as [why|]; [|destruct (proj1 He eq_refl) as [?|Ha]; [congruence|by rewrite Ha in Hg]].
  exists why. unfold mount. rewrite (M_bind_ok (gets _) _ h h h eq_refl), Hn. rewrite bool_decide_false by (by intros []).
  erewrite M_bind_ok by (unfold on_link; rewrite E; reflexivity). change (anew os) with (l_os (Link_new name so_path (anew os))). rewrite <-Hos. done.
Qed.

(** On a platform without a backend the default grant mounts nothing, and the refusal
    says why. *)
Corollary nothing_mounts_elsewhere {N Ob : Type} `{n_ops : ShardOps N} `{ob_ops : ObserverOps Ob} variant_what exe cg
    (b : Switchboard (Placed N) Ob) name so_path os :
  exists why, mount variant_what exe cg name so_path nothing os (Host_new b detect_enforcement) =
    (retire (anew os) (Host_new b detect_enforcement), Ok (mkMount false 0 why)).
Proof. by apply (mount_refused_unenforced _ _ _ _ _ _ _ _ Network); [apply nothing_enforceable|..]. Qed.
